(* ===== verification/_CoqProject ===== *)
-Q . S2P
Prelude.v
Words.v
Net.v
Packet.v
Umem.v
Ring.v
Netlink.v
Route.v
Assemble.v
Device.v
Socket.v
Kernel.v
TxLoop.v
TxInv.v
TxProgress.v
TxProps.v
KernelRx.v
RxLoop.v
RelayLoop.v
RelayInv.v
RelayProps.v
Setup.v
SetupProps.v
Bitset.v
PacketPool.v
Shred.v
Deshred.v
DeshredProps.v
DeshredSharded.v
ShardedProps.v
ShredProcessor.v
Event.v
Program.v
RelayMain.v
RawSocket.v
