(* ===== verification/Prelude.v ===== *)
(** * AF_XDP packet I/O: a verification development

    The program is a Rust crate that sends and receives UDP packets through
    AF_XDP sockets, by-passing the kernel's network stack. Its parts are

    - [src/src/packet.rs]: Ethernet, IPv4 and UDP header writers, checksums;
    - [src/src/umem.rs]: the packet memory (UMEM) shared with the kernel,
      divided into frames, and its allocation;
    - [src/src/device.rs], [src/src/socket.rs]: the four rings of descriptors
      shared with the kernel (TX, completion, RX, fill), the network device, the
      set-up of the socket;
    - [src/src/netlink.rs]: a netlink client that dumps neighbours and routes;
    - [src/src/route.rs]: longest-prefix lookup and next hops;
    - [src/src/tx_loop.rs], [rx_loop.rs], [relay_loop.rs]: the threads that
      drive a socket;
    - [src/src/program.rs], [src/xdp-ebpf]: the XDP program that redirects
      packets into a socket;
    - [src/examples]: the relay program; a pool of packets shared by threads; and
      consumers of received packets, which reassemble the fragments (shreds) of
      Solana blocks.

    ** Files

    - [Prelude] (this file): outcomes of a Rust computation (value, panic,
      undefined behaviour, fuel used up), [Result] and [?], the build profile,
      loops with fuel and their proof rules, slices and vectors, tactics, the
      hint databases.
    - [Words]: machine integers as [Z] with their width, checked and wrapping
      arithmetic, masks, big- and little-endian encodings. [Net]: addresses.
    - [Packet]: [packet.rs], against the RFC 1071 checksum.
    - [Umem]: [umem.rs]; the traits [Frame] and [Umem] as classes, [UmemSpec] as
      what a UMEM promises, and [SliceUmem] as its instance.
    - [Ring]: the ring types of [device.rs] and [socket.rs]; the two ends of a
      ring put together refine a bounded FIFO queue.
    - [Netlink]: [netlink.rs]; parsers, receive loop, dumps.
    - [Route]: [route.rs].
    - [Assemble]: the frame-writing code of the loops, against a receiver.
    - [Kernel]: the interface to the kernel on the transmit side: the class
      [XskKernel] (what it does by itself, and inside [sendto]) with its law
      [XskKernelOk] (it follows the ring protocol) and the optional
      [XskResponsive] (it works inside [sendto]; otherwise it asks to be woken
      up or finishes within a bounded number of looks), and one kernel that
      satisfies both.
    - [TxLoop]: [tx_loop.rs] from the open socket on, one definition per block;
      [TxInv]: the ownership invariant and safety of every block;
      [TxProgress]: termination of waits and drain; [TxProps]: the end-to-end
      theorems.
    - [Device], [Socket]: the network device and the set-up of a socket, over the
      answers of the operating system (classes [NetOs], [XdpOs]); the set-up is
      a monad that records the calls made, and a ring is the memory that the
      pointers computed from its mapping lead to.
    - [KernelRx]: the receive side of the kernel as a step relation on the UMEM
      bytes, the fill and the RX ring, and what it preserves.
    - [RxLoop]: [rx_loop.rs] from the open socket on, its invariant and its
      theorem; the refill loop it shares with the relay.
    - [RelayLoop]: [relay_loop.rs] from the open socket on, against a kernel on
      all four rings (class [XskDuplex]); [RelayInv]: the ownership invariant
      and its preservation; [RelayProps]: the theorems.
    - [Setup]: what the three threads do before their loops (class [HostOs] for
      the host); [SetupProps]: the prologues lead to the states the loops start
      from, so that the theorems hold of the threads as a whole.
    - [RawSocket]: [raw_socket.rs], which no module of the crate declares.
    - [Program]: [program.rs] and the eBPF program, over the [aya] library and
      the kernel's socket map (class [Aya]). [RelayMain]: [examples/relay.rs].
    - [Bitset]: sets of integers as bits of 64-bit words. [PacketPool]:
      [packet_pool.rs], [acquire] and [release] by their atomic accesses, with
      threads interleaving between any two. [Event]: [disruptor_event.rs].
    - [Shred]: the shred libraries (class [ShredLib]), the assembler interface
      [DeshredTrait], and the parsing of raw headers of [shred_processor.rs].
      [Deshred], [DeshredProps]: [deshred.rs]; [DeshredSharded],
      [ShardedProps]: [deshred_sharded.rs]; [ShredProcessor]: the rest of
      [shred_processor.rs], over any assembler of the interface (class
      [DeshredSafe], with both assemblers as instances).

    ** How the code is modelled

    Functions return [outcome]: a panic (index, overflow in a checked build,
    [unwrap], assertion) and undefined behaviour (a raw pointer outside its
    object) are values, so that a theorem that a call is [Done] also says that
    it neither panics nor leaves its memory. [debug_assert] and overflow checks
    depend on the class [BuildProfile]; theorems hold for both profiles unless
    they name one. Bytes and machine integers are [Z] with explicit ranges.
    Memory shared with the kernel is explicit state: a ring has its counters and
    descriptors in shared memory and cached copies at both ends, and the kernel
    may take any number of protocol steps wherever the program looks at shared
    memory. System calls and third-party calls are parameters.

    ** What the theorems show

    - Packet data: the checksum routines compute the RFC 1071 checksum, written
      headers verify, short slices are refused, a receiver gets back what the
      transmit loop wrote.
    - Memory: frames are conserved and disjoint, writes stay in their frame,
      the allocator maps enough pages.
    - Rings: any interleaving of the two ends is a run of a bounded FIFO queue
      across counter wrap-around; accesses stay in bounds; what is committed
      becomes visible.
    - Netlink and routes: attributes, routes and neighbours round-trip; the
      parsers are total on arbitrary bytes; prefix matching compares exactly the
      prefix; lookup is longest-prefix, first among equals; next hops.
    - The transmit loop: for every kernel it never panics and sends exactly the
      routable packets, once, in order; with a kernel that works when it is
      kicked it returns; and descriptors it leaves uncommitted block it.
    - The receive loop: for every kernel it returns once told to, counts what it
      read and loses no frame.
    - The relay, in copy and in zero-copy mode: for every kernel it never panics
      and queues, in order, the payloads of the packets read under valid new
      headers; it loses no frame, except that in zero-copy mode one may be lost
      before the first turn; packets it
      filters out and completions it reads are never given back to the kernel,
      which bounds what it can ever receive and send.
    - Set-up: device calls never panic; [Socket::new] stops at the first failing
      call; granted their calls, with a CPU number below 1024 and ring sizes that
      are powers of two (equal ones in a checked build), the transmit and relay
      threads reach the states their loops are verified from; [rx_loop] cannot start on a kernel that
      refuses rings without entries.
    - Redirection and the command line: packets reach the socket of their queue,
      through the program that was loaded; the relay starts with the destination
      and MAC address its arguments spell, or not at all.
    - The pool: no packet is handed out twice under any interleaving; without
      interference a packet acquired holds its data and is returned when dropped.
    - Shreds: both assemblers never panic and deliver only decoded runs of shreds
      received; the first delivers a slot's first segment in any order of
      arrival, once per complete reception, and no later segment; the second
      delivers a slot of data shreds in order whole, and nothing any more once
      segment ends are out of order; the decoder accounts for every packet.

    ** Bounds and fuel

    Loops with an unknown number of rounds take fuel. Where the code terminates
    the fuel is part of the definition and the proofs show that it is enough
    ([fold_fuel] for carry folding, the buffer length for attributes, 257 rounds
    for a 4096-byte datagram, the number of visible completions); the waits of
    the transmit loop depend on the kernel, so their fuel is an argument and
    [TxProgress] shows that three and four rounds more than the delay of a
    responsive kernel are enough. The receive loop runs over the values its exit flag is read with,
    the relay, which has no exit, for a given number of turns. [acquire_alone]
    has fuel for two accesses per word of the mask, which is enough without
    interference.

    ** Not modelled

    Log output other than the decoder's; weak-memory effects (the atomics are
    interleaved whole, sequentially consistent); [munmap] and [close] on drop;
    the option parser of the relay. *)

From Stdlib Require Export ZArith Lia.
From stdpp Require Export base tactics option list numbers sets strings relations.

Declare Scope rust_scope.
Delimit Scope rust_scope with rust.
Open Scope Z_scope.

(** ** Outcomes of a Rust computation

    A computation returns a value, panics, has undefined behaviour (a raw
    pointer used outside the object it points into) or, for a loop with a fuel
    bound, has not finished yet. *)

Inductive panic_reason :=
  | IndexOutOfBounds
  | LengthMismatch
  | ArithmeticOverflow
  | DivisionByZero
  | AssertionFailed
  | UnwrapNone
  | UnwrapErr
  | ExplicitPanic.

Inductive outcome (A : Type) :=
  | Done (a : A)
  | Panic (p : panic_reason)
  | UB
  | OutOfFuel.
Arguments Done {A} a.
Arguments Panic {A} p.
Arguments UB {A}.
Arguments OutOfFuel {A}.

#[global] Instance outcome_ret : MRet outcome := fun A a => Done a.
#[global] Instance outcome_bind : MBind outcome := fun A B f m =>
  match m with
  | Done a => f a
  | Panic p => Panic p
  | UB => UB
  | OutOfFuel => OutOfFuel
  end.

(** [Result<A, E>]. *)
Inductive result (A E : Type) :=
  | Ok (a : A)
  | Err (e : E).
Arguments Ok {A E} a.
Arguments Err {A E} e.

Definition result_bind {A B E} (m : outcome (result A E)) (f : A -> outcome (result B E))
  : outcome (result B E) :=
  match m with
  | Done (Ok a) => f a
  | Done (Err e) => Done (Err e)
  | Panic p => Panic p
  | UB => UB
  | OutOfFuel => OutOfFuel
  end.

(** The [?] operator in a function that may also panic. *)
Notation "x ←? m ; k" := (result_bind m (fun x => k))
  (at level 20, m at level 100, k at level 200, right associativity) : rust_scope.
Open Scope rust_scope.

#[global] Instance panic_reason_eq_dec : EqDecision panic_reason.
Proof. solve_decision. Defined.

(** [.unwrap()] on an option and on a result. *)
Definition unwrap {A} (o : option A) : outcome A :=
  match o with Some a => Done a | None => Panic UnwrapNone end.
Definition unwrap_ok {A E} (r : result A E) : outcome A :=
  match r with Ok a => Done a | Err _ => Panic UnwrapErr end.

(** The [io::Error] values the crate builds: the last OS error (left abstract:
    its number is the kernel's), a raw OS error, an error with a message, and
    the two [ErrorKind]s used. *)
Inductive io_error :=
  | LastOsError
  | RawOsError (errno : Z)
  | OtherError (msg : string)
  | StorageFull
  | InvalidInput.

(** ** Build profile

    Cargo's development profile compiles [debug_assert!] and overflow checks
    in; the release profile compiles both out. *)
Class BuildProfile := debug_assertions : bool.

Definition dev_profile : BuildProfile := true.
Definition release_profile : BuildProfile := false.

Definition debug_assert `{BuildProfile} (b : bool) : outcome unit :=
  if debug_assertions && negb b then Panic AssertionFailed else Done tt.

Definition assert (b : bool) : outcome unit :=
  if b then Done tt else Panic AssertionFailed.

(** ** Loops *)

Inductive control (S R : Type) :=
  | Continue (s : S)
  | Break (r : R).
Arguments Continue {S R} s.
Arguments Break {S R} r.

Fixpoint loop {S R : Type} (fuel : nat) (body : S -> outcome (control S R)) (s : S)
  : outcome R :=
  match fuel with
  | O => OutOfFuel
  | S n =>
      c ← body s;
      match c with
      | Continue s' => loop n body s'
      | Break r => Done r
      end
  end.

Definition while {S : Type} (fuel : nat) (cond : S -> bool) (body : S -> outcome S) (s : S)
  : outcome S :=
  loop fuel (fun s => if cond s then s' ← body s; Done (Continue s') else Done (Break s)) s.

Fixpoint for_each {A S : Type} (l : list A) (body : A -> S -> outcome S) (s : S)
  : outcome S :=
  match l with
  | [] => Done s
  | a :: l' => s' ← body a s; for_each l' body s'
  end.

(** ** Slices

    Lengths and indices are [usize] values, kept in [Z]. *)

Definition len {A} (l : list A) : Z := Z.of_nat (length l).

(** [l[i]] *)
Definition slice_get {A} (l : list A) (i : Z) : outcome A :=
  if decide (0 <= i < len l) then
    match l !! Z.to_nat i with Some a => Done a | None => Panic IndexOutOfBounds end
  else Panic IndexOutOfBounds.

(** [l[a..b]] *)
Definition slice_range {A} (l : list A) (a b : Z) : outcome (list A) :=
  if decide (0 <= a /\ a <= b /\ b <= len l)
  then Done (take (Z.to_nat (b - a)) (drop (Z.to_nat a) l))
  else Panic IndexOutOfBounds.

(** [l[a..]] *)
Definition slice_from {A} (l : list A) (a : Z) : outcome (list A) :=
  slice_range l a (len l).

(** [l[i] = v] *)
Definition slice_set {A} (l : list A) (i : Z) (v : A) : outcome (list A) :=
  if decide (0 <= i < len l) then Done (<[Z.to_nat i := v]> l) else Panic IndexOutOfBounds.

(** [l[a..b].copy_from_slice(src)] *)
Definition copy_from_slice {A} (l : list A) (a b : Z) (src : list A) : outcome (list A) :=
  if decide (0 <= a /\ a <= b /\ b <= len l) then
    if decide (len src = b - a)
    then Done (take (Z.to_nat a) l ++ src ++ drop (Z.to_nat b) l)
    else Panic LengthMismatch
  else Panic IndexOutOfBounds.

(** [f(&mut l[a..])]: run a writer on a tail of the slice. *)
Definition with_tail {A} (l : list A) (a : Z) (f : list A -> outcome (list A))
  : outcome (list A) :=
  t ← slice_from l a;
  t' ← f t;
  Done (take (Z.to_nat a) l ++ t').

(** [Vec::push] and [Vec::pop]. *)
Definition vec_push {A} (l : list A) (x : A) : list A := l ++ [x].
Definition vec_pop {A} (l : list A) : option (A * list A) :=
  match reverse l with
  | [] => None
  | x :: r => Some (x, reverse r)
  end.

(** ** Automation *)

Create HintDb axdp discriminated.
Create Rewrite HintDb slices.

Tactic Notation "done_inv" hyp(H) := injection H as H; subst.

(** Decide the guards of slice operations. *)
Ltac guard_true :=
  match goal with
  | |- context [decide ?P] =>
      let H := fresh in
      destruct (decide P) as [H|H]; [clear H | exfalso; apply H; clear H]
  end.
Ltac guard_false :=
  match goal with
  | |- context [decide ?P] =>
      let H := fresh in
      destruct (decide P) as [H|H]; [exfalso | clear H]
  end.

(** Evaluate a decidable proposition on concrete data. *)
Ltac by_decide := refine (bool_decide_unpack _ _); vm_compute; exact I.

(** Linear arithmetic with division and remainder by constants. *)
Ltac div_lia := Z.to_euclidean_division_equations; lia.

(** Split the bind at the head of a hypothesis [m ≫= f = Done r]. *)
Ltac bind_inv H :=
  let a := fresh "a" in let E := fresh "E" in
  match type of H with
  | mbind _ ?m = Done _ => destruct m as [a| | |] eqn:E; cbn in H; try discriminate H
  end.

(** ** Generic lemmas *)

Lemma bind_Done {A B} (f : A -> outcome B) a : (Done a ≫= f) = f a.
Proof. done. Qed.

Lemma bind_Done_inv {A B} (f : A -> outcome B) m b :
  (m ≫= f) = Done b -> exists a, m = Done a /\ f a = Done b.
Proof. destruct m; try done. rewrite bind_Done. eauto. Qed.

Section loops.
Context {S R : Type}.
Implicit Types (body : S -> outcome (control S R)).

(** Total correctness, with the panics a body may legitimately raise. *)
Lemma loop_spec_panic (Inv : S -> Prop) (Post : R -> Prop) (Pan : panic_reason -> Prop)
  (m : S -> nat) body :
  (forall s, Inv s ->
     (exists c, body s = Done c /\
        match c with Continue s' => Inv s' /\ (m s' < m s)%nat | Break r => Post r end) \/
     (exists p, body s = Panic p /\ Pan p)) ->
  forall fuel s, Inv s -> (m s < fuel)%nat ->
  (exists r, loop fuel body s = Done r /\ Post r) \/ (exists p, loop fuel body s = Panic p /\ Pan p).
Proof.
  intros Hbody fuel. induction fuel as [|fuel IH]; intros s Hs Hm; [lia|].
  destruct (Hbody s Hs) as [([s'|r] & Hb & Hc)|(p & Hb & Hp)]; cbn; rewrite Hb; cbn.
  - destruct Hc as [Hi Hlt]. apply IH; [done|lia].
  - left. eauto.
  - right. eauto.
Qed.

Lemma loop_spec (Inv : S -> Prop) (Post : R -> Prop) (m : S -> nat) body :
  (forall s, Inv s -> exists c, body s = Done c /\
     match c with Continue s' => Inv s' /\ (m s' < m s)%nat | Break r => Post r end) ->
  forall fuel s, Inv s -> (m s < fuel)%nat ->
  exists r, loop fuel body s = Done r /\ Post r.
Proof.
  intros Hbody fuel s Hs Hm.
  destruct (loop_spec_panic Inv Post (fun _ => False) m body) with (fuel := fuel) (s := s)
    as [?|(? & _ & [])]; eauto.
Qed.

Lemma loop_never (Inv : S -> Prop) body :
  (forall s, Inv s -> exists s', body s = Done (Continue s') /\ Inv s') ->
  forall fuel s, Inv s -> loop fuel body s = OutOfFuel.
Proof.
  intros Hbody fuel. induction fuel as [|fuel IH]; intros s Hs; [done|].
  destruct (Hbody s Hs) as (s' & Hb & Hi). cbn. rewrite Hb. cbn. by apply IH.
Qed.

Lemma loop_inv (Inv : S -> Prop) (Post : R -> Prop) body :
  (forall s s', Inv s -> body s = Done (Continue s') -> Inv s') ->
  (forall s r, Inv s -> body s = Done (Break r) -> Post r) ->
  forall fuel s r, Inv s -> loop fuel body s = Done r -> Post r.
Proof.
  intros Hc Hb fuel. induction fuel as [|fuel IH]; intros s r Hs Hl; [done|].
  cbn in Hl. bind_inv Hl. destruct a as [s'|r'].
  - eapply IH; [|exact Hl]. exact (Hc _ _ Hs E).
  - injection Hl as ->. exact (Hb _ _ Hs E).
Qed.

Lemma loop_fuel_mono body fuel s r :
  loop fuel body s = Done r -> forall fuel', (fuel <= fuel')%nat -> loop fuel' body s = Done r.
Proof.
  revert s. induction fuel as [|fuel IH]; intros s H [|fuel'] Hle; try done; [lia|].
  cbn in *. bind_inv H. destruct a; [|done]. apply IH; [done|lia].
Qed.
End loops.

Lemma while_spec {S} (Inv : S -> Prop) (m : S -> nat) (cond : S -> bool) body :
  (forall s, Inv s -> cond s = true ->
     exists s', body s = Done s' /\ Inv s' /\ (m s' < m s)%nat) ->
  forall fuel s, Inv s -> (m s < fuel)%nat ->
  exists s', while fuel cond body s = Done s' /\ Inv s' /\ cond s' = false.
Proof.
  intros Hb fuel s Hs Hm. unfold while.
  apply (loop_spec Inv (fun s' => Inv s' /\ cond s' = false) m); [|done|done].
  intros s0 H0. destruct (cond s0) eqn:E; [|by exists (Break s0)].
  destruct (Hb s0 H0 E) as (s' & -> & ?). by exists (Continue s').
Qed.

Lemma for_each_spec {A S} (Inv : list A -> S -> Prop) (body : A -> S -> outcome S) l s :
  Inv l s ->
  (forall a l' s, Inv (a :: l') s -> exists s', body a s = Done s' /\ Inv l' s') ->
  exists s', for_each l body s = Done s' /\ Inv [] s'.
Proof.
  intros Hi Hb. revert s Hi. induction l as [|a l IH]; intros s Hi; cbn; [eauto|].
  destruct (Hb a l s Hi) as (s' & -> & Hi'). cbn. eauto.
Qed.

Lemma for_each_app {A S} (body : A -> S -> outcome S) l1 l2 s :
  for_each (l1 ++ l2) body s = (s' ← for_each l1 body s; for_each l2 body s').
Proof.
  revert s. induction l1 as [|a l1 IH]; intros s; cbn; [done|].
  destruct (body a s); cbn; auto.
Qed.

Lemma for_each_foldl {A S} (f : S -> A -> S) (body : A -> S -> outcome S) l s :
  (forall a s, a ∈ l -> body a s = Done (f s a)) ->
  for_each l body s = Done (foldl f s l).
Proof.
  revert s. induction l as [|a l IH]; intros s Hb; cbn; [done|].
  rewrite Hb by set_solver. cbn. apply IH. set_solver.
Qed.

(** *** Safe computations

    [safely m P]: [m] neither panics nor has undefined behaviour; it returns a
    value satisfying [P], or is still waiting when its fuel is used up. *)
Definition safely {A} (m : outcome A) (P : A -> Prop) : Prop :=
  m = OutOfFuel \/ exists a, m = Done a /\ P a.

Lemma safely_Done {A} (a : A) (P : A -> Prop) : P a -> safely (Done a) P.
Proof. intros. right. eauto. Qed.

Lemma safely_bind {A B} (m : outcome A) (f : A -> outcome B) (P : A -> Prop) (Q : B -> Prop) :
  safely m P -> (forall a, P a -> safely (f a) Q) -> safely (m ≫= f) Q.
Proof. intros [->|(a & -> & Ha)] Hf; [by left|]. rewrite bind_Done. auto. Qed.

Lemma safely_mono {A} (m : outcome A) (P Q : A -> Prop) :
  safely m P -> (forall a, P a -> Q a) -> safely m Q.
Proof. intros [->|(a & -> & Ha)] Hf; [by left|right; eauto]. Qed.

Lemma safely_loop {S R} (Inv : S -> Prop) (Post : R -> Prop) (body : S -> outcome (control S R)) :
  (forall s, Inv s -> safely (body s) (fun c => match c with Continue s' => Inv s' | Break r => Post r end)) ->
  forall fuel s, Inv s -> safely (loop fuel body s) Post.
Proof.
  intros Hb fuel. induction fuel as [|fuel IH]; intros s Hs; [by left|].
  eapply safely_bind; [by apply Hb|]. intros [s'|r] Hc; [by apply IH|by apply safely_Done].
Qed.

Lemma safely_for_each {A S} (Inv : list A -> S -> Prop) (body : A -> S -> outcome S) l s :
  (forall a l' s, Inv (a :: l') s -> safely (body a s) (Inv l')) ->
  Inv l s -> safely (for_each l body s) (Inv []).
Proof.
  intros Hb. revert s. induction l as [|a l IH]; intros s Hi; [by apply safely_Done|].
  eapply safely_bind; [by apply Hb|]. intros s' Hi'. by apply IH.
Qed.

(** *** Slices *)

Lemma len_nonneg {A} (l : list A) : 0 <= len l.
Proof. unfold len. lia. Qed.
Lemma len_app {A} (l1 l2 : list A) : len (l1 ++ l2) = len l1 + len l2.
Proof. unfold len. rewrite length_app. lia. Qed.
Lemma len_cons {A} (x : A) l : len (x :: l) = 1 + len l.
Proof. unfold len. cbn [length]. lia. Qed.
Lemma len_nil {A} : len (@nil A) = 0.
Proof. done. Qed.
Lemma len_take {A} n (l : list A) : len (take n l) = Z.min (Z.of_nat n) (len l).
Proof. unfold len. rewrite length_take. lia. Qed.
Lemma len_drop {A} n (l : list A) : len (drop n l) = Z.max 0 (len l - Z.of_nat n).
Proof. unfold len. rewrite length_drop. lia. Qed.
Lemma len_insert {A} n (x : A) l : len (<[n:=x]> l) = len l.
Proof. unfold len. by rewrite length_insert. Qed.
Lemma len_replicate {A} n (x : A) : len (replicate n x) = Z.of_nat n.
Proof. unfold len. by rewrite length_replicate. Qed.
#[export] Hint Rewrite @len_app @len_cons @len_nil @len_take @len_drop @len_insert @len_replicate
  : slices.

(** Normalise lengths, then linear arithmetic. *)
Ltac len_lia := autorewrite with slices in *; unfold len in *; lia.

Lemma slice_get_Done {A} (l : list A) i :
  0 <= i < len l -> exists a, slice_get l i = Done a /\ l !! Z.to_nat i = Some a.
Proof.
  intros Hi. unfold slice_get. guard_true; [|done].
  destruct (lookup_lt_is_Some_2 l (Z.to_nat i)) as [a Ha]; [unfold len in *; lia|].
  rewrite Ha. eauto.
Qed.

Lemma slice_get_lookup {A} (l : list A) i a :
  0 <= i -> l !! Z.to_nat i = Some a -> slice_get l i = Done a.
Proof.
  intros Hi Ha. unfold slice_get. guard_true; [by rewrite Ha|].
  apply lookup_lt_Some in Ha. unfold len. lia.
Qed.

Lemma slice_range_Done {A} (l : list A) a b :
  0 <= a <= b -> b <= len l ->
  slice_range l a b = Done (take (Z.to_nat (b - a)) (drop (Z.to_nat a) l)).
Proof. intros. unfold slice_range. guard_true; [done|lia]. Qed.

Lemma slice_from_Done {A} (l : list A) a :
  0 <= a <= len l -> slice_from l a = Done (drop (Z.to_nat a) l).
Proof.
  intros. unfold slice_from. rewrite slice_range_Done by lia.
  rewrite take_ge; [done|]. rewrite length_drop. unfold len in *. lia.
Qed.

Lemma copy_from_slice_Done {A} (l : list A) a b src :
  0 <= a <= b -> b <= len l -> len src = b - a ->
  copy_from_slice l a b src = Done (take (Z.to_nat a) l ++ src ++ drop (Z.to_nat b) l).
Proof. intros. unfold copy_from_slice. guard_true; [|lia]. guard_true; [done|lia]. Qed.

Lemma slice_set_Done {A} (l : list A) i v :
  0 <= i < len l -> slice_set l i v = Done (<[Z.to_nat i := v]> l).
Proof. intros. unfold slice_set. by rewrite decide_True. Qed.

Lemma with_tail_Done {A} (l : list A) a f t' :
  0 <= a <= len l -> f (drop (Z.to_nat a) l) = Done t' ->
  with_tail l a f = Done (take (Z.to_nat a) l ++ t').
Proof. intros Ha Hf. unfold with_tail. rewrite slice_from_Done by done. cbn. by rewrite Hf. Qed.

Lemma vec_pop_push {A} (l : list A) x : vec_pop (vec_push l x) = Some (x, l).
Proof. unfold vec_pop, vec_push. rewrite reverse_snoc. by rewrite reverse_involutive. Qed.

Lemma vec_pop_Some {A} (l : list A) x l' : vec_pop l = Some (x, l') <-> l = l' ++ [x].
Proof.
  split.
  - unfold vec_pop. destruct (reverse l) as [|y r] eqn:E; [done|].
    intros [= -> <-]. apply (f_equal reverse) in E.
    rewrite reverse_involutive, reverse_cons in E. done.
  - intros ->. apply vec_pop_push.
Qed.

Lemma vec_pop_None {A} (l : list A) : vec_pop l = None <-> l = [].
Proof.
  split; [|by intros ->]. unfold vec_pop. destruct (reverse l) eqn:E; [|done].
  intros _. apply (f_equal reverse) in E. by rewrite reverse_involutive in E.
Qed.

(** Name the first [n] elements of a list that is long enough. *)
Ltac explode l n :=
  lazymatch n with
  | O => idtac
  | S ?n' =>
      let x := fresh "x" in
      destruct l as [|x l]; [exfalso; len_lia|]; explode l n'
  end.

(** Run the slice write at the head of a computation. *)
Ltac run_write :=
  first [ rewrite slice_set_Done by len_lia
        | rewrite copy_from_slice_Done by len_lia ];
  rewrite ?bind_Done;
  cbn [Z.to_nat Pos.to_nat Pos.iter_op Nat.add take drop insert list_insert app].
