(* ===== verification/Words.v ===== *)
(** * Machine integers and byte encodings

    Fixed-width unsigned integers as [Z] values with their range, Rust's
    arithmetic on them (checked in the development profile, wrapping in the
    release profile, and the explicit [wrapping_]/[saturating_] methods), the
    [as] casts, and the byte encodings [to_be_bytes], [from_be_bytes] and
    [from_ne_bytes] on a little-endian target. *)

From S2P Require Import Prelude.

(** ** Ranges *)

Definition is_uint (w x : Z) : Prop := 0 <= x < 2 ^ w.
Abbreviation is_u8 := (is_uint 8).
Abbreviation is_u16 := (is_uint 16).
Abbreviation is_u32 := (is_uint 32).
Abbreviation is_usize := (is_uint 64).

(** A slice of bytes. *)
Definition bytes_ok (l : list Z) : Prop := Forall is_u8 l.

#[global] Instance is_uint_dec w x : Decision (is_uint w x).
Proof. unfold is_uint. apply _. Defined.
#[global] Instance bytes_ok_dec l : Decision (bytes_ok l).
Proof. unfold bytes_ok. apply _. Defined.

(** ** Arithmetic *)

(** [x as uN]. *)
Definition wrap (w x : Z) : Z := x mod 2 ^ w.

(** [x as i32] for a 32-bit value. *)
Definition as_i32 (x : Z) : Z :=
  let y := wrap 32 x in if y <? 2 ^ 31 then y else y - 2 ^ 32.

(** [+], [-] and [*] on a [w]-bit unsigned type. *)
Definition arith `{BuildProfile} (w x : Z) : outcome Z :=
  if decide (0 <= x < 2 ^ w) then Done x
  else if debug_assertions then Panic ArithmeticOverflow else Done (wrap w x).

Definition add_u `{BuildProfile} (w a b : Z) : outcome Z := arith w (a + b).
Definition sub_u `{BuildProfile} (w a b : Z) : outcome Z := arith w (a - b).
Definition mul_u `{BuildProfile} (w a b : Z) : outcome Z := arith w (a * b).

(** [/] and [%]: both profiles panic on a zero divisor. *)
Definition div_u (a b : Z) : outcome Z :=
  if b =? 0 then Panic DivisionByZero else Done (a / b).

Definition wrapping_add (w a b : Z) : Z := wrap w (a + b).
Definition wrapping_sub (w a b : Z) : Z := wrap w (a - b).
Definition saturating_sub (a b : Z) : Z := Z.max 0 (a - b).

(** [x.is_power_of_two()]. *)
Definition is_power_of_two (x : Z) : bool := (0 <? x) && (x =? 2 ^ Z.log2 x).

(** [!x] on a [w]-bit unsigned type. *)
Definition not_u (w x : Z) : Z := 2 ^ w - 1 - x.

(** ** Byte encodings *)

(** [u16::to_be_bytes]. *)
Definition u16_to_be_bytes (x : Z) : list Z := [Z.land (Z.shiftr x 8) 255; Z.land x 255].

(** [((hi as uN) << 8) | (lo as uN)]. *)
Definition be_word (hi lo : Z) : Z := Z.lor (Z.shiftl hi 8) lo.

(** [uN::from_le_bytes]: what reading a POD integer field gives on a
    little-endian target. *)
Fixpoint from_le_bytes (l : list Z) : Z :=
  match l with
  | [] => 0
  | b :: l' => b + 256 * from_le_bytes l'
  end.

Fixpoint to_le_bytes (n : nat) (x : Z) : list Z :=
  match n with
  | O => []
  | S n' => x mod 256 :: to_le_bytes n' (x / 256)
  end.

(** ** Lemmas *)

Section profile.
Context `{BuildProfile}.

Lemma arith_Done w x : 0 <= x < 2 ^ w -> arith w x = Done x.
Proof. intros. unfold arith. by rewrite decide_True. Qed.

Lemma arith_overflow_dev w x :
  debug_assertions = true -> ~ (0 <= x < 2 ^ w) -> arith w x = Panic ArithmeticOverflow.
Proof. intros Hd Hx. unfold arith. rewrite decide_False by done. by rewrite Hd. Qed.

Lemma arith_overflow_release w x :
  debug_assertions = false -> ~ (0 <= x < 2 ^ w) -> arith w x = Done (wrap w x).
Proof. intros Hd Hx. unfold arith. rewrite decide_False by done. by rewrite Hd. Qed.

Lemma add_u_Done w a b : 0 <= a + b < 2 ^ w -> add_u w a b = Done (a + b).
Proof. apply arith_Done. Qed.
Lemma sub_u_Done w a b : 0 <= a - b < 2 ^ w -> sub_u w a b = Done (a - b).
Proof. apply arith_Done. Qed.
Lemma mul_u_Done w a b : 0 <= a * b < 2 ^ w -> mul_u w a b = Done (a * b).
Proof. apply arith_Done. Qed.
End profile.

Lemma div_u_Done a b : b <> 0 -> div_u a b = Done (a / b).
Proof. intros. unfold div_u. by rewrite (proj2 (Z.eqb_neq b 0)). Qed.

Lemma wrap_small w x : is_uint w x -> wrap w x = x.
Proof. intros. by apply Z.mod_small. Qed.

Lemma wrap_range w x : 0 <= w -> is_uint w (wrap w x).
Proof. intros. apply Z.mod_pos_bound. by apply Z.pow_pos_nonneg. Qed.

Lemma wrap_wrap w x : 0 <= w -> wrap w (wrap w x) = wrap w x.
Proof. intros. apply wrap_small. by apply wrap_range. Qed.

Lemma wrap_add_l w a b : 0 <= w -> wrap w (wrap w a + b) = wrap w (a + b).
Proof. intros. unfold wrap. apply Zplus_mod_idemp_l. Qed.

Lemma wrap_sub w a b : 0 <= w -> wrap w (wrap w a - wrap w b) = wrap w (a - b).
Proof. intros. unfold wrap. by rewrite <-Zminus_mod. Qed.

(** Two wrapped counters less than [2^w] apart determine their distance. *)
Lemma wrap_sub_dist w a b :
  0 <= w -> 0 <= a - b < 2 ^ w -> wrapping_sub w (wrap w a) (wrap w b) = a - b.
Proof.
  intros Hw Hd. unfold wrapping_sub. rewrite wrap_sub by done. by apply wrap_small.
Qed.

Lemma wrap_inj w a b : 0 <= w -> 0 <= a - b < 2 ^ w -> wrap w a = wrap w b -> a = b.
Proof.
  intros Hw Hd He. assert (a - b = 0); [|lia].
  rewrite <-(wrap_sub_dist w a b), He by done. unfold wrapping_sub, wrap.
  by rewrite Z.sub_diag, Z.mod_0_l by (pose proof (Z.pow_pos_nonneg 2 w); lia).
Qed.

(** Masking with [2^k - 1] and with its complement. *)
Lemma land_pow2_mask x k : 0 <= k -> Z.land x (2 ^ k - 1) = x mod 2 ^ k.
Proof. intros. rewrite <-Z.land_ones, Z.ones_equiv by done. f_equal; lia. Qed.

Lemma land_not_mask x k : 0 <= k -> Z.land x (Z.lnot (2 ^ k - 1)) = x - x mod 2 ^ k.
Proof. intros. by rewrite <-Z.sub_land_same_l, land_pow2_mask. Qed.

Lemma not_u_mask w k : 0 <= k <= w -> not_u w (2 ^ k - 1) = Z.land (Z.lnot (2 ^ k - 1)) (Z.ones w).
Proof.
  intros Hk. rewrite Z.land_ones by lia. unfold not_u, Z.lnot.
  pose proof (Z.pow_pos_nonneg 2 k). pose proof (Z.pow_le_mono_r 2 k w).
  replace (Z.pred (- (2 ^ k - 1))) with ((2 ^ w - 2 ^ k) + (-1) * 2 ^ w) by lia.
  rewrite Z.mod_add, Z.mod_small by lia. lia.
Qed.

(** Rounding down to a multiple of [2^k] with a [w]-bit complement mask. *)
Lemma land_not_u x w k :
  0 <= k <= w -> is_uint w x -> Z.land x (not_u w (2 ^ k - 1)) = x - x mod 2 ^ k.
Proof.
  intros Hk Hx. rewrite not_u_mask, Z.land_assoc, land_not_mask, Z.land_ones by lia.
  apply Z.mod_small. unfold is_uint in Hx. pose proof (Z.pow_pos_nonneg 2 k).
  pose proof (Z.mod_pos_bound x (2 ^ k)). pose proof (Z.mod_le x (2 ^ k)). lia.
Qed.

Lemma land_pow2_bound x k : 0 <= k -> 0 <= Z.land x (2 ^ k - 1) < 2 ^ k.
Proof.
  intros. rewrite land_pow2_mask by done. apply Z.mod_pos_bound. by apply Z.pow_pos_nonneg.
Qed.

Lemma is_power_of_two_spec x :
  is_power_of_two x = true <-> exists k, 0 <= k /\ x = 2 ^ k.
Proof.
  unfold is_power_of_two. rewrite andb_true_iff, Z.ltb_lt, Z.eqb_eq. split.
  - intros [Hx ->]. eauto using Z.log2_nonneg.
  - intros (k & Hk & ->). rewrite Z.log2_pow2 by done. split; [|done].
    by apply Z.pow_pos_nonneg.
Qed.

(** Wrapping a counter at [2^32] does not change it modulo a smaller power of
    two: ring indices stay consistent across wrap-around. *)
Lemma wrap_mod_pow2 w k x : 0 <= k <= w -> wrap w x mod 2 ^ k = x mod 2 ^ k.
Proof.
  intros Hk. unfold wrap. apply Z.mod_mod_divide.
  exists (2 ^ (w - k)). rewrite <-Z.pow_add_r by lia. f_equal; lia.
Qed.

Lemma be_word_add hi lo : 0 <= hi -> is_u8 lo -> be_word hi lo = hi * 256 + lo.
Proof.
  intros Hhi Hlo. unfold be_word, is_uint in *.
  pose proof (Z.add_lor_land (Z.shiftl hi 8) lo) as E.
  rewrite Z.shiftl_mul_pow2 in * by lia. change (2 ^ 8) with 256 in *.
  enough (Z.land (hi * 256) lo = 0) by lia.
  rewrite <-(Z.mod_small lo (2 ^ 8)) by (change (2 ^ 8) with 256; lia).
  rewrite <-Z.land_ones, (Z.land_comm lo), Z.land_assoc, Z.land_ones by lia.
  change (2 ^ 8) with 256. by rewrite Z.mod_mul, Z.land_0_l by lia.
Qed.

Lemma be_word_range hi lo : is_u8 hi -> is_u8 lo -> is_u16 (be_word hi lo).
Proof.
  intros Hh Hl. rewrite be_word_add by (done || unfold is_uint in *; lia).
  unfold is_uint in *. change (2 ^ 16) with 65536. change (2 ^ 8) with 256 in *. lia.
Qed.

Lemma u16_to_be_bytes_eq x : u16_to_be_bytes x = [(x / 256) mod 256; x mod 256].
Proof.
  unfold u16_to_be_bytes. rewrite !(land_pow2_mask _ 8) by lia.
  by rewrite Z.shiftr_div_pow2 by lia.
Qed.

Lemma u16_to_be_bytes_len x : len (u16_to_be_bytes x) = 2.
Proof. done. Qed.
#[export] Hint Rewrite u16_to_be_bytes_len : slices.

Lemma u16_to_be_bytes_ok x : bytes_ok (u16_to_be_bytes x).
Proof.
  rewrite u16_to_be_bytes_eq. repeat constructor; apply (Z.mod_pos_bound _ 256); lia.
Qed.

(** Encoding a [u16] big-endian and reading it back as a word. *)
Lemma be_word_to_be_bytes x hi lo :
  is_u16 x -> u16_to_be_bytes x = [hi; lo] -> be_word hi lo = x.
Proof.
  rewrite u16_to_be_bytes_eq. intros Hx [= <- <-].
  unfold is_uint in Hx. change (2 ^ 16) with 65536 in Hx.
  rewrite be_word_add; [|apply Z.mod_pos_bound; lia|apply (Z.mod_pos_bound _ 256); lia].
  rewrite (Z.mod_small (x / 256)) by div_lia. div_lia.
Qed.

Lemma from_to_le_bytes n x :
  0 <= x < 256 ^ Z.of_nat n -> from_le_bytes (to_le_bytes n x) = x.
Proof.
  revert x. induction n as [|n IH]; intros x Hx; cbn -[Z.of_nat] in *.
  { change (256 ^ Z.of_nat 0) with 1 in Hx. lia. }
  rewrite Nat2Z.inj_succ, Z.pow_succ_r in Hx by lia.
  rewrite IH; div_lia.
Qed.

Lemma to_le_bytes_len n x : len (to_le_bytes n x) = Z.of_nat n.
Proof.
  revert x. induction n as [|n IH]; intros x; [done|].
  cbn [to_le_bytes]. rewrite len_cons, IH. lia.
Qed.
#[export] Hint Rewrite to_le_bytes_len : slices.

Lemma to_le_bytes_ok n x : bytes_ok (to_le_bytes n x).
Proof.
  revert x. induction n as [|n IH]; intros x; constructor; [|apply IH].
  apply (Z.mod_pos_bound _ 256). lia.
Qed.

Lemma from_le_bytes_range l :
  bytes_ok l -> 0 <= from_le_bytes l < 256 ^ len l.
Proof.
  induction 1 as [|b l Hb Hl IH]; [done|].
  rewrite len_cons, Z.pow_add_r by (done || apply len_nonneg). cbn [from_le_bytes].
  unfold is_uint in Hb. change (2 ^ 8) with 256 in Hb. lia.
Qed.

Lemma as_i32_range x : - 2 ^ 31 <= as_i32 x < 2 ^ 31.
Proof.
  unfold as_i32. pose proof (wrap_range 32 x ltac:(lia)) as Hw. unfold is_uint in Hw.
  destruct (Z.ltb_spec (wrap 32 x) (2 ^ 31)); lia.
Qed.

#[export] Hint Resolve u16_to_be_bytes_ok to_le_bytes_ok : axdp.
