(* ===== verification/Net.v ===== *)
(** * Addresses of [std::net] and [netlink::MacAddress]

    [Ipv4Addr], [Ipv6Addr], [IpAddr] and [SocketAddr] with the operations the
    crate uses of them, and the MAC address type of [netlink.rs]. *)

From S2P Require Import Prelude Words.

Record Ipv4Addr := Ipv4 { oct0 : Z; oct1 : Z; oct2 : Z; oct3 : Z }.

(** The eight 16-bit segments. *)
Record Ipv6Addr := Ipv6 { segments : list Z }.

Inductive IpAddr :=
  | V4 (a : Ipv4Addr)
  | V6 (a : Ipv6Addr).

Record SocketAddr := mkSocketAddr { sa_ip : IpAddr; sa_port : Z }.

(** [pub struct MacAddress(pub [u8; 6])] *)
Record MacAddress := Mac { mac_bytes : list Z }.

#[global] Instance Ipv4Addr_eq_dec : EqDecision Ipv4Addr.
Proof. solve_decision. Defined.
#[global] Instance Ipv6Addr_eq_dec : EqDecision Ipv6Addr.
Proof. solve_decision. Defined.
#[global] Instance IpAddr_eq_dec : EqDecision IpAddr.
Proof. solve_decision. Defined.
#[global] Instance MacAddress_eq_dec : EqDecision MacAddress.
Proof. solve_decision. Defined.

(** [Ipv4Addr::octets]. *)
Definition octets (a : Ipv4Addr) : list Z := [oct0 a; oct1 a; oct2 a; oct3 a].

(** [u32::from(Ipv4Addr)]: the octets, most significant first. *)
Definition ipv4_to_u32 (a : Ipv4Addr) : Z :=
  oct0 a * 2 ^ 24 + oct1 a * 2 ^ 16 + oct2 a * 2 ^ 8 + oct3 a.

(** [Ipv4Addr::UNSPECIFIED] and [is_unspecified]. *)
Definition ipv4_unspecified : Ipv4Addr := Ipv4 0 0 0 0.
Definition ipv4_is_unspecified (a : Ipv4Addr) : bool := bool_decide (a = ipv4_unspecified).
Definition ipv6_is_unspecified (a : Ipv6Addr) : bool :=
  bool_decide (a = Ipv6 (replicate 8 0)).

(** Well-formed values: every component in its range, arrays of their length. *)
Definition ipv4_ok (a : Ipv4Addr) : Prop := bytes_ok (octets a).
Definition ipv6_ok (a : Ipv6Addr) : Prop := length (segments a) = 8%nat /\ Forall is_u16 (segments a).
Definition ip_ok (a : IpAddr) : Prop :=
  match a with V4 a => ipv4_ok a | V6 a => ipv6_ok a end.
Definition mac_ok (m : MacAddress) : Prop := length (mac_bytes m) = 6%nat /\ bytes_ok (mac_bytes m).

#[global] Instance ipv4_ok_dec a : Decision (ipv4_ok a).
Proof. unfold ipv4_ok. apply _. Defined.
#[global] Instance ipv6_ok_dec a : Decision (ipv6_ok a).
Proof. unfold ipv6_ok. apply _. Defined.
#[global] Instance ip_ok_dec a : Decision (ip_ok a).
Proof. destruct a; cbn; apply _. Defined.
#[global] Instance mac_ok_dec m : Decision (mac_ok m).
Proof. unfold mac_ok. apply _. Defined.

Lemma octets_len a : len (octets a) = 4.
Proof. done. Qed.
#[export] Hint Rewrite octets_len : slices.

Lemma mac_len m : mac_ok m -> len (mac_bytes m) = 6.
Proof. intros [H _]. unfold len. by rewrite H. Qed.

Lemma ipv4_ok_inv a :
  ipv4_ok a -> is_u8 (oct0 a) /\ is_u8 (oct1 a) /\ is_u8 (oct2 a) /\ is_u8 (oct3 a).
Proof. unfold ipv4_ok, octets, bytes_ok. rewrite !Forall_cons. tauto. Qed.

Lemma ipv4_to_u32_range a : ipv4_ok a -> is_u32 (ipv4_to_u32 a).
Proof.
  intros (H0 & H1 & H2 & H3)%ipv4_ok_inv. unfold is_uint, ipv4_to_u32 in *. lia.
Qed.

Lemma ipv4_to_u32_inj a b :
  ipv4_ok a -> ipv4_ok b -> ipv4_to_u32 a = ipv4_to_u32 b -> a = b.
Proof.
  intros (?&?&?&?)%ipv4_ok_inv (?&?&?&?)%ipv4_ok_inv He.
  unfold is_uint, ipv4_to_u32 in *. destruct a, b. cbn in *. f_equal; lia.
Qed.
