(* ===== verification/Packet.v ===== *)
(** * Packet headers: [src/packet.rs]

    The Ethernet, IPv4 and UDP header writers and the two Internet-checksum
    routines, on slices of bytes. The specification side is the RFC 1071
    one's-complement sum and a receiver that parses a UDP/IPv4 frame. *)

From S2P Require Import Prelude Words Net.

(** ** Definitions *)

Definition ETH_HEADER_SIZE : Z := 14.
Definition IP_HEADER_SIZE : Z := 20.
Definition UDP_HEADER_SIZE : Z := 8.
Definition ETH_P_IP : Z := 0x0800.

Definition write_eth_header (packet src_mac dst_mac : list Z) : outcome (list Z) :=
  packet ← copy_from_slice packet 0 6 dst_mac;
  packet ← copy_from_slice packet 6 12 src_mac;
  copy_from_slice packet 12 14 (u16_to_be_bytes (wrap 16 ETH_P_IP)).

Section checksums.
Context `{BuildProfile}.

(** [while sum >> 16 != 0 { sum = (sum & 0xFFFF) + (sum >> 16); }] *)
Definition fold_carries (fuel : nat) (sum : Z) : outcome Z :=
  while fuel (fun sum => negb (Z.shiftr sum 16 =? 0))
    (fun sum => add_u 32 (Z.land sum 0xFFFF) (Z.shiftr sum 16)) sum.

Definition fold_fuel : nat := 5.

Definition calculate_ip_checksum (header : list Z) : outcome Z :=
  sum ← for_each (seqZ 0 (len header / 2)) (fun i sum =>
          hi ← slice_get header (i * 2);
          lo ← slice_get header (i * 2 + 1);
          add_u 32 sum (be_word hi lo)) 0;
  sum ← (if len header mod 2 =? 1 then
           b ← slice_get header (len header - 1);
           add_u 32 sum (Z.shiftl b 8)
         else Done sum);
  sum ← fold_carries fold_fuel sum;
  Done (not_u 16 (wrap 16 sum)).

Definition calculate_udp_checksum (udp_packet : list Z) (src_ip dst_ip : Ipv4Addr) : outcome Z :=
  let udp_len := len udp_packet in
  sum ← add_u 32 0 (be_word (oct0 src_ip) (oct1 src_ip));
  sum ← add_u 32 sum (be_word (oct2 src_ip) (oct3 src_ip));
  sum ← add_u 32 sum (be_word (oct0 dst_ip) (oct1 dst_ip));
  sum ← add_u 32 sum (be_word (oct2 dst_ip) (oct3 dst_ip));
  sum ← add_u 32 sum 17;
  sum ← add_u 32 sum (wrap 32 udp_len);
  sum ← for_each (seqZ 0 (udp_len / 2)) (fun i sum =>
          if i * 2 =? 6 then Done sum
          else
            hi ← slice_get udp_packet (i * 2);
            lo ← slice_get udp_packet (i * 2 + 1);
            add_u 32 sum (be_word hi lo)) sum;
  sum ← (if udp_len mod 2 =? 1 then
           b ← slice_get udp_packet (udp_len - 1);
           add_u 32 sum (Z.shiftl b 8)
         else Done sum);
  sum ← fold_carries fold_fuel sum;
  Done (not_u 16 (wrap 16 sum)).

Definition write_ip_header (packet : list Z) (src_ip dst_ip : Ipv4Addr) (udp_len : Z)
  : outcome (list Z) :=
  let total_len := IP_HEADER_SIZE + udp_len in
  packet ← slice_set packet 0 0x45;
  packet ← slice_set packet 1 0;
  packet ← copy_from_slice packet 2 4 (u16_to_be_bytes (wrap 16 total_len));
  packet ← copy_from_slice packet 4 6 (u16_to_be_bytes 0);
  packet ← copy_from_slice packet 6 8 (u16_to_be_bytes 0);
  packet ← slice_set packet 8 64;
  packet ← slice_set packet 9 17;
  packet ← copy_from_slice packet 10 12 (u16_to_be_bytes 0);
  packet ← copy_from_slice packet 12 16 (octets src_ip);
  packet ← copy_from_slice packet 16 20 (octets dst_ip);
  header ← slice_range packet 0 IP_HEADER_SIZE;
  checksum ← calculate_ip_checksum header;
  copy_from_slice packet 10 12 (u16_to_be_bytes checksum).

Definition write_udp_header (packet : list Z) (src_ip : Ipv4Addr) (src_port : Z)
  (dst_ip : Ipv4Addr) (dst_port payload_len : Z) (csum : bool) : outcome (list Z) :=
  let udp_len := UDP_HEADER_SIZE + payload_len in
  packet ← copy_from_slice packet 0 2 (u16_to_be_bytes src_port);
  packet ← copy_from_slice packet 2 4 (u16_to_be_bytes dst_port);
  packet ← copy_from_slice packet 4 6 (u16_to_be_bytes (wrap 16 udp_len));
  packet ← copy_from_slice packet 6 8 (u16_to_be_bytes 0);
  if csum then
    datagram ← slice_range packet 0 udp_len;
    checksum ← calculate_udp_checksum datagram src_ip dst_ip;
    copy_from_slice packet 6 8 (u16_to_be_bytes checksum)
  else Done packet.
End checksums.

(** ** Specification: the Internet checksum of RFC 1071 *)

(** The 16-bit words of a byte string, a trailing byte padded with zero. *)
Fixpoint words (l : list Z) : list Z :=
  match l with
  | hi :: lo :: l' => hi * 256 + lo :: words l'
  | [b] => [b * 256]
  | [] => []
  end.

(** One's-complement addition with end-around carry. *)
Definition oc_add (a b : Z) : Z :=
  if a + b <? 65536 then a + b else a + b - 65535.
Definition oc_sum (ws : list Z) : Z := foldl oc_add 0 ws.
Definition inet_checksum (ws : list Z) : Z := 65535 - oc_sum ws.

(** The UDP pseudo header: addresses, protocol and length. *)
Definition pseudo_header (src dst : Ipv4Addr) (udp_len : Z) : list Z :=
  words (octets src) ++ words (octets dst) ++ [17; udp_len].

(** A datagram with its checksum field (bytes 6 and 7) zeroed. *)
Definition zero_csum_field (l : list Z) : list Z := <[6%nat := 0]> (<[7%nat := 0]> l).

(** The header [write_ip_header] is meant to produce. *)
Definition ip_header_fields (src dst : Ipv4Addr) (udp_len csum : Z) : list Z :=
  [0x45; 0] ++ u16_to_be_bytes (wrap 16 (20 + udp_len)) ++ [0; 0; 0; 0; 64; 17]
  ++ u16_to_be_bytes csum ++ octets src ++ octets dst.
Definition ip_header (src dst : Ipv4Addr) (udp_len : Z) : list Z :=
  ip_header_fields src dst udp_len (inet_checksum (words (ip_header_fields src dst udp_len 0))).

Definition eth_header (src_mac dst_mac : list Z) : list Z := dst_mac ++ src_mac ++ [8; 0].
Definition udp_header (src_port dst_port payload_len : Z) : list Z :=
  u16_to_be_bytes src_port ++ u16_to_be_bytes dst_port
  ++ u16_to_be_bytes (wrap 16 (8 + payload_len)) ++ [0; 0].

(** ** One's-complement arithmetic *)

Definition sumZ (l : list Z) : Z := foldr Z.add 0 l.

(** The value in [0 .. 65535] an end-around-carry accumulator holds for the
    plain sum [s]. *)
Definition oc_norm (s : Z) : Z := if s =? 0 then 0 else (s - 1) mod 65535 + 1.

Lemma oc_norm_small s : 0 <= s < 65536 -> oc_norm s = s.
Proof. intros. unfold oc_norm. destruct (Z.eqb_spec s 0); [done|]. rewrite Z.mod_small; lia. Qed.

Lemma oc_norm_range s : 0 <= s -> 0 <= oc_norm s < 65536.
Proof.
  intros. unfold oc_norm. destruct (Z.eqb_spec s 0); [lia|].
  pose proof (Z.mod_pos_bound (s - 1) 65535). lia.
Qed.

Lemma oc_norm_congr s q : 0 < s -> 0 < s + 65535 * q -> oc_norm (s + 65535 * q) = oc_norm s.
Proof.
  intros. unfold oc_norm.
  destruct (Z.eqb_spec s 0), (Z.eqb_spec (s + 65535 * q) 0); try lia.
  replace (s + 65535 * q - 1) with ((s - 1) + q * 65535) by lia.
  by rewrite Z.mod_add by lia.
Qed.

Lemma oc_add_norm s w : 0 <= s -> 0 <= w < 65536 -> oc_add (oc_norm s) w = oc_norm (s + w).
Proof.
  intros Hs Hw. unfold oc_add, oc_norm.
  destruct (Z.eqb_spec s 0) as [->|Hs0].
  { rewrite !Z.add_0_l, (proj2 (Z.ltb_lt w 65536)) by lia. 
    symmetry. by apply oc_norm_small. }
  destruct (Z.eqb_spec (s + w) 0); [lia|].
  destruct (Z.ltb_spec ((s - 1) mod 65535 + 1 + w) 65536); div_lia.
Qed.

Lemma foldl_oc_add ws s :
  0 <= s -> Forall is_u16 ws -> foldl oc_add (oc_norm s) ws = oc_norm (s + sumZ ws).
Proof.
  revert s. induction ws as [|w ws IH]; intros s Hs Hw; cbn [foldl]; [f_equal; cbn; lia|].
  apply Forall_cons in Hw as [Hw Hws]. unfold is_uint in Hw.
  rewrite oc_add_norm by (change (2 ^ 16) with 65536 in Hw; lia).
  rewrite IH by (done || lia). f_equal. cbn [sumZ foldr]. fold (sumZ ws). lia.
Qed.

Lemma oc_sum_norm ws : Forall is_u16 ws -> oc_sum ws = oc_norm (sumZ ws).
Proof. intros Hw. exact (foldl_oc_add ws 0 ltac:(lia) Hw). Qed.

Lemma sumZ_app l1 l2 : sumZ (l1 ++ l2) = sumZ l1 + sumZ l2.
Proof. unfold sumZ. induction l1; cbn; [done|]. lia. Qed.

Lemma sumZ_nonneg l : Forall (fun x => 0 <= x) l -> 0 <= sumZ l.
Proof. unfold sumZ. induction 1; cbn; lia. Qed.

Lemma sumZ_bound ws : Forall is_u16 ws -> 0 <= sumZ ws <= 65535 * len ws.
Proof.
  induction 1 as [|w ws Hw Hws IH]; [done|]. rewrite len_cons. unfold sumZ in *. cbn.
  unfold is_uint in Hw. change (2 ^ 16) with 65536 in Hw. lia.
Qed.

Lemma words_ok l : bytes_ok l -> Forall is_u16 (words l).
Proof.
  revert l. fix IH 1. intros [|hi [|lo l]] Hl; cbn; [constructor| |];
    unfold bytes_ok in Hl; rewrite !Forall_cons in Hl; unfold is_uint in *.
  - constructor; [|constructor]. change (2 ^ 16) with 65536. change (2 ^ 8) with 256 in Hl. lia.
  - destruct Hl as (Hh & Hlo & Hl). constructor; [|by apply IH].
    change (2 ^ 16) with 65536. change (2 ^ 8) with 256 in *. lia.
Qed.

Lemma words_len l : 2 * len (words l) <= len l + 1.
Proof.
  revert l. fix IH 1. intros [|hi [|lo l]]; cbn [words]; [done|done|].
  rewrite !len_cons. specialize (IH l). lia.
Qed.

(** ** The accumulation loops *)

Section checksum_facts.
Context `{BuildProfile}.

Lemma fold_carries_norm sum :
  is_u32 sum -> fold_carries fold_fuel sum = Done (oc_norm sum).
Proof.
  intros Hs. unfold fold_carries.
  set (m := fun s => if s <? 65536 then 0%nat else if s =? 65536 then 1%nat
                     else if s <? 131072 then 2%nat else 3%nat).
  destruct (while_spec (fun s => is_u32 s /\ oc_norm s = oc_norm sum) m
    (fun s => negb (Z.shiftr s 16 =? 0))
    (fun s => add_u 32 (Z.land s 0xFFFF) (Z.shiftr s 16))) with (fuel := fold_fuel) (s := sum)
    as (s' & -> & [Hr Hn] & Hc); [|done| |].
  - intros s [Hr Hn] Hc. unfold is_uint in Hr.
    apply negb_true_iff, Z.eqb_neq in Hc.
    change 0xFFFF with (2 ^ 16 - 1).
    rewrite Z.shiftr_div_pow2 in * by lia. rewrite (land_pow2_mask s 16) by lia.
    change (2 ^ 32) with 4294967296 in *. change (2 ^ 16) with 65536 in *.
    exists (s mod 65536 + s / 65536).
    split; [apply add_u_Done; change (2 ^ 32) with 4294967296; div_lia|].
    split; [split|].
    + unfold is_uint. change (2 ^ 32) with 4294967296. div_lia.
    + rewrite <-Hn.
      replace s with ((s mod 65536 + s / 65536) + 65535 * (s / 65536)) at 3 by div_lia.
      rewrite oc_norm_congr; [done|div_lia|div_lia].
    + unfold m. repeat case_match; rewrite ?Z.ltb_lt, ?Z.ltb_ge, ?Z.eqb_eq, ?Z.eqb_neq in *;
        div_lia.
  - unfold m, fold_fuel. repeat case_match; lia.
  - rewrite Z.shiftr_div_pow2 in Hc by lia. unfold is_uint in Hr.
    change (2 ^ 32) with 4294967296 in *. change (2 ^ 16) with 65536 in *.
    apply negb_false_iff, Z.eqb_eq in Hc. f_equal. rewrite <-Hn. symmetry.
    apply oc_norm_small. div_lia.
Qed.

(** An accumulation loop without overflow adds its terms up. *)
Lemma for_each_sum {A} (f : A -> Z) (body : A -> Z -> outcome Z) l s :
  (forall a s, a ∈ l -> 0 <= s -> s + f a < 2 ^ 32 -> body a s = Done (s + f a)) ->
  (forall a, a ∈ l -> 0 <= f a) -> 0 <= s -> s + sumZ (f <$> l) < 2 ^ 32 ->
  for_each l body s = Done (s + sumZ (f <$> l)).
Proof.
  revert s. induction l as [|a l IH]; intros s Hb Hf Hs Hlt; cbn [fmap list_fmap for_each].
  { f_equal. cbn. lia. }
  cbn [fmap list_fmap sumZ foldr] in Hlt. fold (sumZ (f <$> l)) in Hlt.
  assert (0 <= f a) by (apply Hf; set_solver).
  assert (0 <= sumZ (f <$> l)) as Hn.
  { apply sumZ_nonneg, Forall_fmap, Forall_forall. intros b Hin. apply Hf. set_solver. }
  rewrite Hb by (set_solver || lia). cbn. rewrite IH; [|set_solver|set_solver|lia|lia].
  f_equal. cbn. fold (sumZ (f <$> l)). lia.
Qed.

(** The word at index [i] of a byte string. *)
Definition word_at (l : list Z) (i : Z) : Z :=
  be_word (l !!! Z.to_nat (i * 2)) (l !!! Z.to_nat (i * 2 + 1)).

Lemma word_at_cons2 a b l i : 0 <= i -> word_at (a :: b :: l) (1 + i) = word_at l i.
Proof.
  intros Hi. unfold word_at.
  replace (Z.to_nat ((1 + i) * 2)) with (S (S (Z.to_nat (i * 2)))) by lia.
  by replace (Z.to_nat ((1 + i) * 2 + 1)) with (S (S (Z.to_nat (i * 2 + 1)))) by lia.
Qed.

(** What the loop over [0..len/2] and the odd last byte add up to. *)
Lemma sumZ_word_at l :
  bytes_ok l ->
  sumZ (word_at l <$> seqZ 0 (len l / 2))
  + (if len l mod 2 =? 1 then Z.shiftl (l !!! Z.to_nat (len l - 1)) 8 else 0)
  = sumZ (words l).
Proof.
  revert l. fix IH 1. intros [|hi [|lo l]] Hl; [done| |].
  - change (0 + Z.shiftl hi 8 = hi * 256 + 0).
    rewrite Z.shiftl_mul_pow2 by lia. change (2 ^ 8) with 256. lia.
  - unfold bytes_ok in Hl. rewrite !Forall_cons in Hl. destruct Hl as (Hh & Hlo & Hl).
    specialize (IH l Hl). rewrite !len_cons.
    replace ((1 + (1 + len l)) / 2) with (Z.succ (len l / 2)) by div_lia.
    replace ((1 + (1 + len l)) mod 2) with (len l mod 2) by div_lia.
    rewrite seqZ_cons by (pose proof (len_nonneg l); div_lia).
    rewrite Z.pred_succ. cbn [fmap list_fmap sumZ foldr words].
    change (Z.succ 0) with (1 + 0).
    rewrite <-(fmap_add_seqZ 1 0 (len l / 2)), <-list_fmap_compose.
    fold (sumZ (words l)). rewrite <-IH.
    replace (word_at (hi :: lo :: l) 0) with (hi * 256 + lo).
    2: { unfold word_at. cbn. rewrite be_word_add; [done|apply Hh|done]. }
    assert ((word_at (hi :: lo :: l) ∘ Z.add 1) <$> seqZ 0 (len l / 2)
            = word_at l <$> seqZ 0 (len l / 2)) as ->.
    { apply list_fmap_ext. intros k i Hi. apply lookup_seqZ in Hi as [-> Hk].
      apply word_at_cons2. lia. }
    fold (sumZ (word_at l <$> seqZ 0 (len l / 2))).
    destruct (Z.eqb_spec (len l mod 2) 1) as [Hodd|]; [|lia].
    replace (Z.to_nat (1 + (1 + len l) - 1)) with (S (S (Z.to_nat (len l - 1))))
      by (pose proof (len_nonneg l); div_lia).
    change ((hi :: lo :: l) !!! S (S (Z.to_nat (len l - 1)))) with (l !!! Z.to_nat (len l - 1)).
    lia.
Qed.

Lemma slice_get_total (l : list Z) i : 0 <= i < len l -> slice_get l i = Done (l !!! Z.to_nat i).
Proof.
  intros Hi. destruct (slice_get_Done l i Hi) as (a & -> & Ha).
  by rewrite (list_lookup_total_correct _ _ _ Ha).
Qed.

Lemma lookup_total_u8 l i : bytes_ok l -> is_u8 (l !!! i : Z).
Proof.
  intros Hl. rewrite list_lookup_total_alt. destruct (l !! i) as [b|] eqn:Hb; cbn.
  - by apply (Forall_lookup_1 _ _ _ _ Hl Hb).
  - by split.
Qed.

Lemma word_at_range l i : bytes_ok l -> is_u16 (word_at l i).
Proof. intros. apply be_word_range; by apply lookup_total_u8. Qed.

(** The odd last byte, common to both routines. *)
Lemma odd_byte_sum l sum :
  bytes_ok l -> 0 <= sum ->
  sum + (if len l mod 2 =? 1 then Z.shiftl (l !!! Z.to_nat (len l - 1)) 8 else 0) < 2 ^ 32 ->
  (if len l mod 2 =? 1 then b ← slice_get l (len l - 1); add_u 32 sum (Z.shiftl b 8) else Done sum)
  = Done (sum + (if len l mod 2 =? 1 then Z.shiftl (l !!! Z.to_nat (len l - 1)) 8 else 0)).
Proof.
  intros Hl Hs Hlt. destruct (Z.eqb_spec (len l mod 2) 1); [|f_equal; lia].
  rewrite slice_get_total by (pose proof (len_nonneg l); div_lia). cbn.
  pose proof (lookup_total_u8 l (Z.to_nat (len l - 1)) Hl) as Hb. unfold is_uint in Hb.
  apply add_u_Done. rewrite Z.shiftl_mul_pow2 in * by lia. lia.
Qed.

(** Both routines end the same way. *)
Lemma fold_and_complement sum :
  is_u32 sum ->
  (sum ← fold_carries fold_fuel sum; Done (not_u 16 (wrap 16 sum))) = Done (65535 - oc_norm sum).
Proof.
  intros Hs. rewrite fold_carries_norm by done. cbn. f_equal. unfold not_u.
  rewrite wrap_small; [done|]. apply oc_norm_range. apply Hs.
Qed.

(** Both routines add up the words of their input, on top of an initial sum,
    and complement: [z] is the input with the skipped words zeroed. *)
Lemma accumulate_words z p acc body :
  bytes_ok z -> bytes_ok p -> len z = len p ->
  (len p mod 2 = 1 -> z !!! Z.to_nat (len p - 1) = p !!! Z.to_nat (len p - 1)) ->
  (forall i s, 0 <= i < len p / 2 -> 0 <= s -> s + word_at z i < 2 ^ 32 ->
     body i s = Done (s + word_at z i)) ->
  0 <= acc -> acc + sumZ (words z) < 2 ^ 32 ->
  (sum ← for_each (seqZ 0 (len p / 2)) body acc;
   sum ← (if len p mod 2 =? 1 then b ← slice_get p (len p - 1); add_u 32 sum (Z.shiftl b 8)
          else Done sum);
   sum ← fold_carries fold_fuel sum;
   Done (not_u 16 (wrap 16 sum))) = Done (65535 - oc_norm (acc + sumZ (words z))).
Proof.
  intros Hz Hp Hl Hlast Hbody Hacc Hlt.
  pose proof (sumZ_word_at z Hz) as Hsum. rewrite Hl in Hsum.
  assert (0 <= sumZ (word_at z <$> seqZ 0 (len p / 2))) as Hnn.
  { apply sumZ_nonneg, Forall_fmap, Forall_forall. intros i _. apply word_at_range, Hz. }
  set (odd := if len p mod 2 =? 1 then _ else 0) in Hsum.
  assert (odd = if len p mod 2 =? 1 then Z.shiftl (p !!! Z.to_nat (len p - 1)) 8 else 0) as Eodd.
  { unfold odd. destruct (Z.eqb_spec (len p mod 2) 1); [|done]. by rewrite Hlast. }
  assert (0 <= odd) as Hodd.
  { unfold odd. case_match; [|done]. apply Z.shiftl_nonneg, lookup_total_u8, Hz. }
  rewrite (for_each_sum (word_at z)); [|intros i s Hi%elem_of_seqZ; apply Hbody; lia
    |intros i _; apply word_at_range, Hz|lia|lia].
  rewrite bind_Done, odd_byte_sum by (done || rewrite <-?Eodd; lia). rewrite <-Eodd.
  rewrite bind_Done, fold_and_complement; [|unfold is_uint; lia].
  do 3 f_equal. lia.
Qed.

Lemma calculate_ip_checksum_eq header :
  bytes_ok header -> len header <= 2 ^ 16 ->
  calculate_ip_checksum header = Done (inet_checksum (words header)).
Proof.
  intros Hb Hlen. unfold calculate_ip_checksum, inet_checksum.
  pose proof (words_ok header Hb) as Hw.
  pose proof (sumZ_bound _ Hw) as Hbnd. pose proof (words_len header).
  rewrite (accumulate_words header header 0); try done; [by rewrite oc_sum_norm| |lia].
  intros i s Hi Hs Hlt. rewrite !slice_get_total by div_lia. apply add_u_Done.
  pose proof (word_at_range header i Hb) as Hr. unfold word_at, is_uint in *. lia.
Qed.

(** *** Header writers *)

Lemma ip_header_fields_ok src dst udp_len csum :
  ipv4_ok src -> ipv4_ok dst -> bytes_ok (ip_header_fields src dst udp_len csum).
Proof.
  intros Hs Hd. unfold ip_header_fields, bytes_ok. rewrite !Forall_app.
  split_and!; try (done || apply u16_to_be_bytes_ok); repeat constructor; lia.
Qed.

Lemma write_ip_header_eq packet src dst udp_len :
  ipv4_ok src -> ipv4_ok dst -> IP_HEADER_SIZE <= len packet ->
  write_ip_header packet src dst udp_len
  = Done (ip_header src dst udp_len ++ drop 20 packet).
Proof.
  unfold IP_HEADER_SIZE. intros Hs Hd Hlen. explode packet 20%nat.
  unfold write_ip_header, IP_HEADER_SIZE. do 10 run_write.
  rewrite slice_range_Done by (len_lia || lia). rewrite bind_Done.
  match goal with |- context [calculate_ip_checksum ?h] =>
    change h with (ip_header_fields src dst udp_len 0) end.
  rewrite calculate_ip_checksum_eq; [|by apply ip_header_fields_ok|done].
  rewrite bind_Done. run_write. done.
Qed.

Lemma write_eth_header_eq packet src_mac dst_mac :
  len src_mac = 6 -> len dst_mac = 6 -> ETH_HEADER_SIZE <= len packet ->
  write_eth_header packet src_mac dst_mac
  = Done (eth_header src_mac dst_mac ++ drop 14 packet).
Proof.
  unfold ETH_HEADER_SIZE. intros Hs Hd Hlen. explode packet 14%nat.
  explode src_mac 6%nat. assert (src_mac = []) as -> by (destruct src_mac; [done|exfalso; len_lia]).
  explode dst_mac 6%nat. assert (dst_mac = []) as -> by (destruct dst_mac; [done|exfalso; len_lia]).
  unfold write_eth_header. do 3 run_write. done.
Qed.

Lemma write_udp_header_eq packet src sport dst dport payload_len :
  UDP_HEADER_SIZE <= len packet ->
  write_udp_header packet src sport dst dport payload_len false
  = Done (udp_header sport dport payload_len ++ drop 8 packet).
Proof.
  unfold UDP_HEADER_SIZE. intros Hlen. explode packet 8%nat.
  unfold write_udp_header. do 4 run_write. done.
Qed.

(** *** The UDP checksum *)

Lemma zero_csum_field_len l : len (zero_csum_field l) = len l.
Proof. unfold zero_csum_field. len_lia. Qed.

Lemma zero_csum_field_ok l : bytes_ok l -> bytes_ok (zero_csum_field l).
Proof. intros Hl. repeat apply Forall_insert; by (done || split). Qed.

Lemma zero_csum_field_lookup l i : 6 <> i -> 7 <> i -> 0 <= i ->
  zero_csum_field l !!! Z.to_nat i = l !!! Z.to_nat i.
Proof. intros. unfold zero_csum_field. by rewrite !list_lookup_total_insert_ne by lia. Qed.

(** Skipping word 3 is summing the datagram with its checksum field zeroed. *)
Lemma word_at_zero_csum l i :
  8 <= len l -> 0 <= i ->
  word_at (zero_csum_field l) i = if i * 2 =? 6 then 0 else word_at l i.
Proof.
  intros Hl Hi. unfold word_at. destruct (Z.eqb_spec (i * 2) 6).
  - replace i with 3 by lia. unfold zero_csum_field.
    change (Z.to_nat (3 * 2)) with 6%nat. change (Z.to_nat (3 * 2 + 1)) with 7%nat.
    unfold len in Hl. rewrite list_lookup_total_insert_eq by (rewrite length_insert; lia).
    rewrite list_lookup_total_insert_ne by lia.
    by rewrite list_lookup_total_insert_eq by lia.
  - by rewrite !zero_csum_field_lookup by lia.
Qed.

Lemma be_word_octets src : ipv4_ok src ->
  words (octets src) = [be_word (oct0 src) (oct1 src); be_word (oct2 src) (oct3 src)].
Proof.
  intros (H0 & H1 & H2 & H3)%ipv4_ok_inv. cbn.
  by rewrite !be_word_add by (done || apply H0 || apply H2).
Qed.

Lemma pseudo_header_ok src dst n : ipv4_ok src -> ipv4_ok dst -> is_u16 n ->
  Forall is_u16 (pseudo_header src dst n).
Proof.
  intros Hs Hd Hn. unfold pseudo_header. rewrite !Forall_app.
  split_and!; [by apply words_ok|by apply words_ok|]. repeat constructor; done || apply Hn.
Qed.

Lemma calculate_udp_checksum_eq p src dst :
  bytes_ok p -> ipv4_ok src -> ipv4_ok dst -> 8 <= len p < 2 ^ 16 ->
  calculate_udp_checksum p src dst
  = Done (inet_checksum (pseudo_header src dst (len p) ++ words (zero_csum_field p))).
Proof.
  intros Hb Hs Hd Hlen. unfold calculate_udp_checksum, inet_checksum.
  pose proof (zero_csum_field_ok p Hb) as Hzb. set (z := zero_csum_field p) in *.
  assert (len z = len p) as Hzl by apply zero_csum_field_len.
  pose proof (words_ok z Hzb) as Hw.
  pose proof (sumZ_bound _ Hw) as Hbnd. pose proof (words_len z) as Hwl.
  pose proof (pseudo_header_ok src dst (len p) Hs Hd ltac:(unfold is_uint; lia)) as Hph.
  rewrite oc_sum_norm, sumZ_app by by apply Forall_app_2.
  unfold pseudo_header in *. rewrite !be_word_octets in * by done. cbn [app] in *.
  rewrite !Forall_cons in Hph. unfold is_uint in Hph.
  rewrite add_u_Done, bind_Done by lia. do 4 rewrite add_u_Done, bind_Done by lia.
  rewrite wrap_small, add_u_Done, bind_Done by (unfold is_uint; lia).
  rewrite (accumulate_words z p); try done; [do 3 f_equal; cbn [sumZ foldr]; lia| | |lia|lia].
  - intros Hodd. apply zero_csum_field_lookup; div_lia.
  - intros i s Hi Hs' Hlt. unfold z in Hlt |- *.
    rewrite word_at_zero_csum in * by lia. destruct (Z.eqb_spec (i * 2) 6); [f_equal; lia|].
    rewrite !slice_get_total by div_lia. apply add_u_Done.
    pose proof (word_at_range p i Hb) as Hr. unfold word_at, is_uint in *. lia.
Qed.

(** A sum completed with its checksum is negative zero. *)
Lemma oc_norm_complement s : 0 <= s -> oc_norm (s + (65535 - oc_norm s)) = 65535.
Proof.
  intros Hs. unfold oc_norm at 2. destruct (Z.eqb_spec s 0) as [->|Hs0]; [done|].
  replace (s + (65535 - ((s - 1) mod 65535 + 1))) with (65535 + 65535 * ((s - 1) / 65535)) by div_lia.
  rewrite oc_norm_congr; [done|lia|]. div_lia.
Qed.

Lemma sumZ_ip_header_fields src dst n c :
  is_u16 c ->
  sumZ (words (ip_header_fields src dst n c)) = sumZ (words (ip_header_fields src dst n 0)) + c.
Proof.
  intros Hc. unfold ip_header_fields. rewrite !u16_to_be_bytes_eq.
  cbn -[Z.mul Z.add Z.div Z.modulo]. unfold is_uint in Hc. change (2 ^ 16) with 65536 in Hc.
  rewrite (Z.mod_small (c / 256)) by div_lia.
  assert (c = c / 256 * 256 + c mod 256) by div_lia.
  change (0 / 256) with 0. change (0 mod 256) with 0. lia.
Qed.

Lemma udp_header_ok sport dport n : bytes_ok (udp_header sport dport n).
Proof.
  unfold udp_header, bytes_ok. rewrite !Forall_app.
  split_and!; try apply u16_to_be_bytes_ok; repeat constructor; done.
Qed.

Lemma sumZ_udp_datagram sport dport n c rest :
  is_u16 c ->
  sumZ (words (take 6 (udp_header sport dport n) ++ u16_to_be_bytes c ++ rest))
  = sumZ (words (udp_header sport dport n ++ rest)) + c.
Proof.
  intros Hc. unfold udp_header. rewrite !u16_to_be_bytes_eq.
  cbn -[Z.mul Z.add Z.div Z.modulo]. unfold is_uint in Hc. div_lia.
Qed.

Lemma inet_checksum_u16 ws : Forall is_u16 ws -> is_u16 (inet_checksum ws).
Proof.
  intros Hw. unfold inet_checksum, is_uint. rewrite oc_sum_norm by done.
  pose proof (oc_norm_range (sumZ ws)). pose proof (sumZ_bound ws Hw). lia.
Qed.

Lemma ip_header_checksum src dst n :
  ipv4_ok src -> ipv4_ok dst -> inet_checksum (words (ip_header src dst n)) = 0.
Proof.
  intros Hs Hd. unfold ip_header. set (ws := words (ip_header_fields src dst n 0)).
  assert (Forall is_u16 ws) as Hw by by apply words_ok, ip_header_fields_ok.
  unfold inet_checksum at 1. rewrite oc_sum_norm by by apply words_ok, ip_header_fields_ok.
  rewrite sumZ_ip_header_fields by by apply inet_checksum_u16. fold ws.
  unfold inet_checksum. rewrite oc_sum_norm by done.
  rewrite oc_norm_complement; [done|]. by apply sumZ_bound.
Qed.
End checksum_facts.

(** ** Properties *)

Section properties.
Context `{BuildProfile}.

(** C34: [calculate_ip_checksum] computes the RFC 1071 Internet checksum: for
    every byte string of at most 65536 bytes, odd lengths included, the loop
    with deferred carries neither overflows nor runs forever, and returns the
    complement of the end-around-carry sum of its 16-bit words. *)
Theorem ip_checksum_is_rfc1071 header :
  bytes_ok header -> len header <= 2 ^ 16 ->
  calculate_ip_checksum header = Done (inet_checksum (words header)).
Proof. apply calculate_ip_checksum_eq. Qed.

(** C9: on any slice of at least 20 bytes, [write_ip_header] replaces exactly
    the first 20 bytes by the option-less IPv4 header for UDP with the given
    addresses and total length, and running the checksum routine over the
    written header yields 0, which is what a receiver checks. *)
Theorem ip_header_verifies packet src dst udp_len :
  ipv4_ok src -> ipv4_ok dst -> IP_HEADER_SIZE <= len packet ->
  exists csum, is_u16 csum /\
    write_ip_header packet src dst udp_len
    = Done (ip_header_fields src dst udp_len csum ++ drop 20 packet) /\
    calculate_ip_checksum (ip_header_fields src dst udp_len csum) = Done 0.
Proof.
  intros Hs Hd Hlen. eexists. split; [|split; [by apply write_ip_header_eq|]].
  - by apply inet_checksum_u16, words_ok, ip_header_fields_ok.
  - rewrite calculate_ip_checksum_eq by (done || by apply ip_header_fields_ok).
    f_equal. by apply ip_header_checksum.
Qed.

(** C8: with checksumming on, [write_udp_header] keeps everything after the
    eight header bytes, and the one's-complement sum of the pseudo header and
    the whole datagram, checksum field included, is 0xFFFF: a receiver accepts
    the datagram. *)
Theorem udp_checksum_verifies packet src sport dst dport payload_len :
  bytes_ok packet -> ipv4_ok src -> ipv4_ok dst -> 0 <= payload_len ->
  8 + payload_len < 2 ^ 16 -> 8 + payload_len <= len packet ->
  exists packet',
    write_udp_header packet src sport dst dport payload_len true = Done packet' /\
    take 6 packet' = take 6 (udp_header sport dport payload_len) /\
    drop 8 packet' = drop 8 packet /\
    oc_sum (pseudo_header src dst (8 + payload_len)
            ++ words (take (Z.to_nat (8 + payload_len)) packet')) = 65535.
Proof.
  intros Hb Hs Hd Hp Hlt Hlen. set (n := Z.to_nat payload_len).
  explode packet 8%nat. unfold bytes_ok in Hb. rewrite !Forall_cons in Hb.
  destruct Hb as (_ & _ & _ & _ & _ & _ & _ & _ & Hb).
  set (h := udp_header sport dport payload_len). set (dg := h ++ take n packet).
  assert (len dg = 8 + payload_len) as Hdl.
  { unfold dg. rewrite len_app. change (len h) with 8. len_lia. }
  assert (bytes_ok h) as Hh by apply udp_header_ok.
  assert (bytes_ok dg) as Hdg by by apply Forall_app_2; [|apply Forall_take].
  set (c := inet_checksum (pseudo_header src dst (len dg) ++ words dg)).
  assert (Forall is_u16 (pseudo_header src dst (len dg))) as Hph
    by (apply pseudo_header_ok; try done; unfold is_uint; lia).
  assert (Forall is_u16 (pseudo_header src dst (len dg) ++ words dg)) as Hws
    by (by apply Forall_app_2; [|apply words_ok]).
  pose proof (inet_checksum_u16 _ Hws) as Hc. fold c in Hc.
  exists (take 6 h ++ u16_to_be_bytes c ++ packet). split_and!; [| done | done |].
  - unfold write_udp_header, UDP_HEADER_SIZE. do 4 run_write.
    rewrite slice_range_Done by len_lia. rewrite bind_Done.
    replace (Z.to_nat (8 + payload_len - 0)) with (8 + n)%nat by lia.
    match goal with |- context [calculate_udp_checksum ?d] => change d with dg end.
    rewrite calculate_udp_checksum_eq by (done || lia).
    change (zero_csum_field dg) with dg. rewrite bind_Done. run_write. done.
  - rewrite <-Hdl. replace (Z.to_nat (len dg)) with (8 + n)%nat by lia.
    change (take (8 + n) _) with (take 6 h ++ u16_to_be_bytes c ++ take n packet).
    rewrite oc_sum_norm; [rewrite sumZ_app; unfold h at 1; rewrite sumZ_udp_datagram by done|].
    + rewrite Z.add_assoc, <-sumZ_app. unfold c, inet_checksum. rewrite oc_sum_norm by done.
      apply oc_norm_complement. by apply sumZ_bound.
    + apply Forall_app_2; [done|]. apply words_ok. unfold bytes_ok. rewrite !Forall_app.
      split_and!; [by apply Forall_take|apply u16_to_be_bytes_ok|by apply Forall_take].
Qed.

(** Every header writer checks its slice: on a slice too short for its
    header it panics with an index error and never writes a partial header that
    is returned to the caller. *)
Theorem header_writers_reject_short_slices packet src_mac dst_mac src dst udp_len sport dport n csum :
  length src_mac = 6%nat -> length dst_mac = 6%nat ->
  (len packet < ETH_HEADER_SIZE ->
     write_eth_header packet src_mac dst_mac = Panic IndexOutOfBounds) /\
  (len packet < IP_HEADER_SIZE ->
     write_ip_header packet src dst udp_len = Panic IndexOutOfBounds) /\
  (len packet < UDP_HEADER_SIZE ->
     write_udp_header packet src sport dst dport n csum = Panic IndexOutOfBounds).
Proof.
  intros Hs Hd. unfold ETH_HEADER_SIZE, IP_HEADER_SIZE, UDP_HEADER_SIZE.
  do 7 (destruct src_mac as [|? src_mac]; try discriminate Hs).
  do 7 (destruct dst_mac as [|? dst_mac]; try discriminate Hd).
  split_and!; intros Hlen.
  - do 14 (destruct packet as [|? packet]; [reflexivity|]). exfalso; len_lia.
  - do 20 (destruct packet as [|? packet]; [reflexivity|]). exfalso; len_lia.
  - do 8 (destruct packet as [|? packet]; [reflexivity|]). exfalso; len_lia.
Qed.
End properties.

(** ** Witnesses *)

Definition example_src : Ipv4Addr := Ipv4 192 168 1 10.
Definition example_dst : Ipv4Addr := Ipv4 10 0 0 7.

Lemma ip_checksum_is_rfc1071_witness :
  @calculate_ip_checksum dev_profile [0x45; 0; 1; 2; 0xFF] = Done (inet_checksum [0x4500; 0x102; 0xFF00])
  /\ inet_checksum [0x4500; 0x102; 0xFF00] = 0xBAFC.
Proof.
  split; [|reflexivity].
  apply (@ip_checksum_is_rfc1071 dev_profile); [by_decide|done].
Defined.

Lemma ip_header_verifies_witness :
  exists csum, is_u16 csum /\
    @write_ip_header dev_profile (replicate 30 7) example_src example_dst 18
    = Done (ip_header_fields example_src example_dst 18 csum ++ replicate 10 7) /\
    @calculate_ip_checksum dev_profile (ip_header_fields example_src example_dst 18 csum) = Done 0.
Proof.
  apply (@ip_header_verifies dev_profile (replicate 30 7));
    [by_decide|by_decide|done].
Defined.

Lemma udp_checksum_verifies_witness :
  exists packet',
    @write_udp_header dev_profile (replicate 11 9) example_src 8000 example_dst 53 3 true
    = Done packet' /\
    take 6 packet' = take 6 (udp_header 8000 53 3) /\
    drop 8 packet' = [9; 9; 9] /\
    oc_sum (pseudo_header example_src example_dst 11 ++ words (take 11 packet')) = 65535.
Proof.
  apply (@udp_checksum_verifies dev_profile (replicate 11 9) example_src 8000 example_dst 53 3);
    [by_decide|by_decide|by_decide
    |done|done|done].
Defined.

Lemma header_writers_reject_short_slices_witness :
  @write_ip_header dev_profile (replicate 19 0) example_src example_dst 18 = Panic IndexOutOfBounds.
Proof.
  apply (@header_writers_reject_short_slices dev_profile (replicate 19 0)
    (replicate 6 1) (replicate 6 2) example_src example_dst 18 0 0 0 false); [done|done|done].
Defined.
