(* ===== verification/Umem.v ===== *)
(** * UMEM frames: [src/umem.rs]

    The page-aligned region shared with the kernel, its division into frames
    ([SliceUmem]) and the stack of free frames. The [Frame] and [Umem] traits
    are type classes; [UmemSpec] states what an implementation promises to the
    socket and the loops, and [SliceUmem] discharges it. *)

From S2P Require Import Prelude Words.

(** ** The traits *)

(** [pub struct FrameOffset(usize)] *)
Record FrameOffset := mkFrameOffset { fo : Z }.

Class Frame (F : Type) := {
  frame_offset : F -> FrameOffset;
  frame_len : F -> Z;
}.

Definition frame_is_empty `{Frame F} (f : F) : bool := frame_len f =? 0.

(** [pub trait Umem]; the memory behind [as_ptr] is a byte list of length
    [len()]. *)
Class Umem (U F : Type) `{Frame F} := {
  umem_mem : U -> list Z;
  umem_set_mem : U -> list Z -> U;
  umem_reserve : U -> outcome (option (F * U));
  umem_release : U -> FrameOffset -> outcome U;
  umem_frame_size : U -> Z;
}.

Definition umem_len `{Umem U F} (u : U) : Z := len (umem_mem u).

(** [map_frame]: a slice made from a raw pointer; outside the region the
    behaviour is undefined. *)
Definition map_frame `{Umem U F} (u : U) (f : F) : outcome (list Z) :=
  let o := fo (frame_offset f) in
  if decide (0 <= o /\ 0 <= frame_len f /\ o + frame_len f <= umem_len u)
  then Done (take (Z.to_nat (frame_len f)) (drop (Z.to_nat o) (umem_mem u)))
  else UB.

(** Writing through [map_frame_mut] with a function on the mutable slice. *)
Definition map_frame_mut `{Umem U F} (u : U) (f : F) (g : list Z -> outcome (list Z))
  : outcome U :=
  s ← map_frame u f;
  s' ← g s;
  let o := Z.to_nat (fo (frame_offset f)) in
  Done (umem_set_mem u (take o (umem_mem u) ++ s'
                        ++ drop (o + Z.to_nat (frame_len f)) (umem_mem u))).

(** ** [SliceUmem] *)

Record SliceUmemFrame := mkFrame { f_offset : Z; f_len : Z }.

Definition set_len (f : SliceUmemFrame) (l : Z) : SliceUmemFrame := mkFrame (f_offset f) l.
Definition from_offset (o : FrameOffset) (l : Z) : SliceUmemFrame := mkFrame (fo o) l.

#[global] Instance SliceUmemFrame_Frame : Frame SliceUmemFrame := {|
  frame_offset f := mkFrameOffset (f_offset f);
  frame_len := f_len;
|}.

Record SliceUmem := mkSliceUmem {
  buffer : list Z;
  frame_size : Z;
  available_frames : list Z;
  capacity : Z;
}.

Section slice_umem.
Context `{BuildProfile}.

Definition SliceUmem_new (buf : list Z) (fsize : Z) : outcome (result SliceUmem io_error) :=
  _ ← debug_assert (is_power_of_two fsize);
  cap ← div_u (len buf) fsize;
  Done (Ok (mkSliceUmem buf fsize (seqZ 0 cap) cap)).

Definition available (u : SliceUmem) : Z := len (available_frames u).

Definition reserve (u : SliceUmem) : outcome (option (SliceUmemFrame * SliceUmem)) :=
  match vec_pop (available_frames u) with
  | None => Done None
  | Some (index, rest) =>
      o ← mul_u 64 index (frame_size u);
      Done (Some (mkFrame o 0, mkSliceUmem (buffer u) (frame_size u) rest (capacity u)))
  end.

Definition release (u : SliceUmem) (frame : FrameOffset) : outcome SliceUmem :=
  index ← div_u (fo frame) (frame_size u);
  Done (mkSliceUmem (buffer u) (frame_size u) (vec_push (available_frames u) index) (capacity u)).

#[global] Instance SliceUmem_Umem : Umem SliceUmem SliceUmemFrame := {|
  umem_mem := buffer;
  umem_set_mem u b := mkSliceUmem b (frame_size u) (available_frames u) (capacity u);
  umem_reserve := reserve;
  umem_release := release;
  umem_frame_size := frame_size;
|}.
End slice_umem.

(** ** [PageAlignedMemory] *)

Inductive AllocError := mkAllocError.

Record PageAlignedMemory := mkPageAlignedMemory { pm_ptr : Z; pm_len : Z }.

Section page_memory.
Context `{BuildProfile}.
(** [mmap(NULL, size, .., MAP_ANONYMOUS | (MAP_HUGETLB)?, -1, 0)]: the address,
    or [None] for [MAP_FAILED]. *)
Variable mmap : Z -> bool -> option Z.
(** [sysconf(_SC_PAGESIZE)] *)
Variable page_size_conf : Z.

Definition alloc_with_page_size (fsize fcount page_size : Z) (huge : bool)
  : outcome (result PageAlignedMemory AllocError) :=
  _ ← debug_assert (is_power_of_two fsize);
  _ ← debug_assert (is_power_of_two fcount);
  _ ← debug_assert (is_power_of_two page_size);
  memory_size ← mul_u 64 fcount fsize;
  t ← add_u 64 memory_size page_size;
  t ← sub_u 64 t 1;
  m ← sub_u 64 page_size 1;
  let aligned_size := Z.land t (not_u 64 m) in
  match mmap aligned_size huge with
  | None => Done (Err mkAllocError)
  | Some ptr => Done (Ok (mkPageAlignedMemory ptr aligned_size))
  end.

Definition alloc (fsize fcount : Z) : outcome (result PageAlignedMemory AllocError) :=
  alloc_with_page_size fsize fcount page_size_conf false.

(** [Deref]: the region as a slice; fresh anonymous memory is zeroed. *)
Definition deref (m : PageAlignedMemory) : list Z := replicate (Z.to_nat (pm_len m)) 0.
End page_memory.

(** ** What a UMEM promises to its clients *)

(** [frames u]: the offsets of all frames; [free u]: those that can be
    reserved, the next one last. *)
Class UmemSpec (U F : Type) `{Umem U F} := {
  umem_wf : U -> Prop;
  frames : U -> list Z;
  free : U -> list Z;
  free_frames : forall u, umem_wf u -> forall o, o ∈ free u -> o ∈ frames u;
  frames_in_mem : forall u o, umem_wf u -> o ∈ frames u ->
    0 <= o /\ o + umem_frame_size u <= umem_len u;
  frames_disjoint : forall u o1 o2, umem_wf u -> o1 ∈ frames u -> o2 ∈ frames u -> o1 <> o2 ->
    o1 + umem_frame_size u <= o2 \/ o2 + umem_frame_size u <= o1;
  reserve_empty : forall u, umem_wf u -> free u = [] -> umem_reserve u = Done None;
  reserve_last : forall u l o, umem_wf u -> free u = l ++ [o] ->
    exists f u', umem_reserve u = Done (Some (f, u')) /\
      frame_offset f = mkFrameOffset o /\ frame_len f = 0 /\
      umem_wf u' /\ free u' = l /\ frames u' = frames u /\
      umem_mem u' = umem_mem u /\ umem_frame_size u' = umem_frame_size u;
  release_frame : forall u o d, umem_wf u -> o ∈ frames u -> 0 <= d < umem_frame_size u ->
    exists u', umem_release u (mkFrameOffset (o + d)) = Done u' /\
      umem_wf u' /\ free u' = free u ++ [o] /\ frames u' = frames u /\
      umem_mem u' = umem_mem u /\ umem_frame_size u' = umem_frame_size u;
}.

(** ** [SliceUmem] discharges the interface *)

Definition frame_base (u : SliceUmem) (i : Z) : Z := i * frame_size u.

Definition slice_umem_wf (u : SliceUmem) : Prop :=
  0 < frame_size u < 2 ^ 32 /\ len (buffer u) < 2 ^ 63 /\
  capacity u = len (buffer u) / frame_size u /\
  Forall (fun i => 0 <= i < capacity u) (available_frames u).

#[global] Instance slice_umem_wf_dec u : Decision (slice_umem_wf u).
Proof. unfold slice_umem_wf. apply _. Defined.

Section slice_umem_facts.
Context `{BuildProfile}.

Lemma capacity_bytes u : slice_umem_wf u -> capacity u * frame_size u <= len (buffer u).
Proof. intros (Hf & _ & -> & _). rewrite Z.mul_comm. apply Z.mul_div_le. lia. Qed.

Lemma frame_in_buffer u i :
  slice_umem_wf u -> 0 <= i < capacity u ->
  0 <= frame_base u i /\ frame_base u i + frame_size u <= len (buffer u).
Proof.
  intros Hwf Hi. pose proof (capacity_bytes u Hwf). destruct Hwf as ([? ?] & _).
  unfold frame_base. nia.
Qed.

Lemma elem_of_frame_bases u o :
  o ∈ frame_base u <$> seqZ 0 (capacity u) <-> exists i, o = frame_base u i /\ 0 <= i < capacity u.
Proof.
  rewrite list_elem_of_fmap. split; intros (i & -> & Hi); exists i; split; try done;
    [apply elem_of_seqZ in Hi|apply elem_of_seqZ]; lia.
Qed.

Lemma div_frame_base u i d :
  0 < frame_size u -> 0 <= d < frame_size u -> (frame_base u i + d) / frame_size u = i.
Proof. intros. unfold frame_base. rewrite Z.div_add_l, Z.div_small by lia. lia. Qed.

#[global] Program Instance SliceUmem_spec : UmemSpec SliceUmem SliceUmemFrame := {|
  umem_wf := slice_umem_wf;
  frames u := frame_base u <$> seqZ 0 (capacity u);
  free u := frame_base u <$> available_frames u;
|}.
Next Obligation.
  intros u (_ & _ & _ & Ha) o (i & -> & Hi)%list_elem_of_fmap. apply elem_of_frame_bases.
  exists i. split; [done|]. by apply (proj1 (Forall_forall _ _) Ha).
Qed.
Next Obligation. intros u o Hwf (i & -> & Hi)%elem_of_frame_bases. by apply frame_in_buffer. Qed.
Next Obligation.
  intros u o1 o2 ([? ?] & _) (i & -> & Hi)%elem_of_frame_bases (j & -> & Hj)%elem_of_frame_bases Hne.
  cbn. unfold frame_base in *. assert (i <> j) by congruence.
  destruct (decide (i < j)); [left|right]; nia.
Qed.
Next Obligation.
  intros u Hwf E. cbn. unfold reserve. apply fmap_nil_inv in E. by rewrite E.
Qed.
Next Obligation.
  intros u l o Hwf E. cbn. unfold reserve.
  apply fmap_app_inv in E as (l1 & l2 & -> & E2 & Ea).
  destruct l2 as [|i [|? ?]]; try done. injection E2 as ->.
  rewrite Ea. change (l1 ++ [i]) with (vec_push l1 i). rewrite vec_pop_push.
  pose proof Hwf as Hwf'. destruct Hwf as (Hf & Hb & Hc & Ha). rewrite Ea in Ha.
  apply Forall_app in Ha as [Ha1 Ha2]. apply Forall_cons in Ha2 as [Hi _].
  destruct (frame_in_buffer u i Hwf' Hi) as [Ho1 Ho2]. unfold frame_base in Ho1, Ho2.
  rewrite mul_u_Done by lia. eexists _, _. split; [done|]. by cbn.
Qed.
Next Obligation.
  intros u o d Hwf (i & -> & Hi)%elem_of_frame_bases Hd. cbn in *. unfold release. cbn.
  pose proof Hwf as ([? ?] & Hb & Hc & Ha).
  rewrite div_u_Done by lia. rewrite bind_Done, div_frame_base by lia.
  eexists. split; [done|]. cbn. unfold slice_umem_wf, vec_push. cbn. split_and!; try done.
  - apply Forall_app_2; [done|]. by constructor.
  - by rewrite fmap_app.
Qed.
End slice_umem_facts.

(** ** Clients of a [SliceUmem]: who owns which frame *)

(** The base of the frame an offset lies in. *)
Definition frame_start (u : SliceUmem) (f : SliceUmemFrame) : Z :=
  frame_base u (f_offset f / frame_size u).

Section ownership.
Context `{BuildProfile}.

(** A client holds the frames [out]. It reserves a frame, sets the length of a
    frame it holds, gets a frame it lent to the kernel back at an offset inside
    it (a received packet starts at a headroom), and releases a frame it holds
    by the offset it has then. *)
Inductive umem_step : SliceUmem * list SliceUmemFrame -> SliceUmem * list SliceUmemFrame -> Prop :=
  | step_reserve u out f u' :
      reserve u = Done (Some (f, u')) ->
      umem_step (u, out) (u', f :: out)
  | step_set_len u out1 f out2 l :
      umem_step (u, out1 ++ f :: out2) (u, out1 ++ set_len f l :: out2)
  | step_receive u out1 f out2 d l :
      0 <= d < frame_size u ->
      umem_step (u, out1 ++ f :: out2)
                (u, out1 ++ from_offset (mkFrameOffset (frame_start u f + d)) l :: out2)
  | step_release u out1 f out2 u' :
      release u (frame_offset f) = Done u' ->
      umem_step (u, out1 ++ f :: out2) (u', out1 ++ out2).

(** Every frame is either free or held by the client, never both. *)
Definition conserved (s : SliceUmem * list SliceUmemFrame) : Prop :=
  umem_wf s.1 /\ free s.1 ++ (frame_start s.1 <$> s.2) ≡ₚ frames s.1.

Lemma free_nil_or_last (l : list Z) : l = [] \/ exists l' o, l = l' ++ [o].
Proof. induction l using rev_ind; eauto. Qed.

Lemma frame_start_at u i d l :
  0 < frame_size u -> 0 <= d < frame_size u ->
  frame_start u (mkFrame (frame_base u i + d) l) = frame_base u i.
Proof. intros. unfold frame_start. cbn. by rewrite div_frame_base. Qed.

Lemma frame_start_size u u' f : frame_size u' = frame_size u -> frame_start u' f = frame_start u f.
Proof. intros E. unfold frame_start, frame_base. by rewrite E. Qed.

(** An offset is its frame's base and a displacement inside the frame. *)
Lemma frame_offset_split u f :
  0 < frame_size u -> exists d, f_offset f = frame_start u f + d /\ 0 <= d < frame_size u.
Proof.
  intros Hs. exists (f_offset f mod frame_size u). unfold frame_start, frame_base.
  pose proof (Z.div_mod (f_offset f) (frame_size u)). pose proof (Z.mod_pos_bound (f_offset f) (frame_size u)). lia.
Qed.

Lemma umem_step_conserved s s' :
  umem_step s s' -> conserved s -> conserved s' /\ capacity s'.1 = capacity s.1
    /\ buffer s'.1 = buffer s.1 /\ frame_size s'.1 = frame_size s.1.
Proof.
  intros Hstep [Hwf Hp]; pose proof (proj1 Hwf) as [Hs0 _];
    inversion Hstep as [u out f u' Hr|u out1 f out2 l|u out1 f out2 d l Hd|u out1 f out2 u' Hr]; subst;
    cbn [fst snd] in *.
  - destruct (free_nil_or_last (free u)) as [E|(l & o & E)].
    { rewrite (reserve_empty u Hwf E : reserve u = _) in Hr. done. }
    destruct (reserve_last u l o Hwf E) as (f' & u'' & Hr' & Ho & _ & Hwf' & Hf & Hfr & Hm & Hs).
    change (reserve u = Done (Some (f', u''))) in Hr'. rewrite Hr in Hr'. injection Hr' as <- <-.
    assert (o ∈ frames u) as (i & Ei & Hi)%elem_of_frame_bases
      by (rewrite <-Hp, E, !elem_of_app, list_elem_of_singleton; auto).
    assert (frame_start u f = o) as Eo.
    { destruct f as [fo' fl]. injection Ho as ->. rewrite Ei, <-(Z.add_0_r (frame_base u i)).
      rewrite frame_start_at by lia. lia. }
    cbn in Hm, Hs. unfold conserved. cbn [fst snd]. split_and!; try done.
    + rewrite Hf, Hfr, <-Hp, E, fmap_cons, <-app_assoc. cbn. rewrite (frame_start_size u u' f Hs), Eo.
      erewrite (list_fmap_ext (frame_start u')); [done|]. intros. by apply frame_start_size.
    + unfold reserve in Hr. destruct (vec_pop _) as [[idx rest]|]; [|done].
      apply bind_Done_inv in Hr as (? & _ & Hr). by injection Hr as <- <-.
  - unfold conserved. cbn [fst snd]. split_and!; try done. by rewrite fmap_app, fmap_cons in *.
  - unfold conserved. cbn [fst snd]. split_and!; try done. rewrite fmap_app, fmap_cons in *.
    unfold from_offset at 1. cbn [fo]. unfold frame_start at 3. by rewrite frame_start_at.
  - destruct (frame_offset_split u f Hs0) as (d & Eo & Hd).
    rewrite fmap_app, fmap_cons in Hp.
    assert (frame_start u f ∈ frames u) as Ho by (rewrite <-Hp, !elem_of_app, elem_of_cons; auto).
    destruct (release_frame u _ d Hwf Ho Hd) as (u'' & Hr' & Hwf' & Hf & Hfr & Hm & Hs).
    cbn in Hr', Hr. rewrite <-Eo, Hr in Hr'. injection Hr' as <-. unfold conserved. cbn [fst snd] in *.
    cbn in Hm, Hs. split_and!; try done.
    + rewrite Hf, Hfr, <-Hp, <-app_assoc, fmap_app.
      rewrite !(list_fmap_ext (frame_start u') (frame_start u)) by (intros; by apply frame_start_size).
      apply Permutation_app_head. exact (Permutation_middle (frame_start u <$> out1) (frame_start u <$> out2) (frame_start u f)).
    + unfold release in Hr. apply bind_Done_inv in Hr as (? & _ & Hr). by injection Hr as <-.
Qed.

Lemma umem_steps_conserved s s' :
  rtc umem_step s s' -> conserved s -> conserved s' /\ capacity s'.1 = capacity s.1
    /\ buffer s'.1 = buffer s.1 /\ frame_size s'.1 = frame_size s.1.
Proof.
  induction 1 as [s|s s1 s2 St1 St2 IH]; intros Hc; [done|].
  destruct (umem_step_conserved _ _ St1 Hc) as (Hc1 & E1 & E2 & E3).
  destruct (IH Hc1) as (Hc2 & E4 & E5 & E6). split_and!; [done|congruence..].
Qed.
End ownership.

(** Overwriting [l] bytes at [o] leaves every segment outside them as it was. *)
Lemma splice_outside (b t : list Z) (o l a n : nat) :
  length t = l -> (o + l <= length b)%nat -> (a + n <= o \/ o + l <= a)%nat ->
  take n (drop a (take o b ++ t ++ drop (o + l) b)) = take n (drop a b).
Proof.
  intros Ht Hb Hd. apply list_eq. intros i. destruct (decide (i < n)%nat) as [Hi|Hi].
  2: { rewrite !lookup_take_ge by lia. done. }
  rewrite !lookup_take_lt, !lookup_drop by done. destruct Hd as [Hd|Hd].
  - rewrite lookup_app_l by (rewrite length_take; lia). by rewrite lookup_take_lt by lia.
  - rewrite app_assoc, lookup_app_r; rewrite length_app, length_take; [|lia].
    rewrite lookup_drop. f_equal. lia.
Qed.

(** ... and reading them back gives what was written. *)
Lemma splice_inside (b t : list Z) (o l : nat) :
  length t = l -> (o <= length b)%nat -> take l (drop o (take o b ++ t ++ drop (o + l) b)) = t.
Proof.
  intros Ht Hb. rewrite drop_app_length' by (rewrite length_take; lia). by rewrite take_app_length'.
Qed.

Lemma splice_length (b t : list Z) (o l : nat) :
  length t = l -> (o + l <= length b)%nat -> length (take o b ++ t ++ drop (o + l) b) = length b.
Proof. intros. rewrite !length_app, length_take, length_drop. lia. Qed.

Section slice_umem_new_facts.
Context `{BuildProfile}.

Lemma SliceUmem_new_inv buf fsize u :
  SliceUmem_new buf fsize = Done (Ok u) ->
  fsize <> 0 /\ u = mkSliceUmem buf fsize (seqZ 0 (len buf / fsize)) (len buf / fsize).
Proof.
  unfold SliceUmem_new. intros (? & _ & Hn)%bind_Done_inv.
  apply bind_Done_inv in Hn as (cap & Hd & Hn). unfold div_u in Hd.
  destruct (Z.eqb_spec fsize 0); [done|]. injection Hd as <-. by injection Hn as <-.
Qed.

Lemma SliceUmem_new_conserved buf fsize u :
  0 < fsize < 2 ^ 32 -> len buf < 2 ^ 63 -> SliceUmem_new buf fsize = Done (Ok u) ->
  conserved (u, []) /\ umem_mem u = buf /\ umem_frame_size u = fsize.
Proof.
  intros Hf Hb (_ & ->)%SliceUmem_new_inv. split; [|done]. split; cbn.
  - split_and!; cbn; try done; try lia. apply Forall_forall. intros i Hi%elem_of_seqZ. lia.
  - by rewrite app_nil_r.
Qed.

Lemma frame_bases_NoDup u : 0 < frame_size u -> NoDup (frame_base u <$> seqZ 0 (capacity u)).
Proof.
  intros Hf. apply NoDup_fmap_2_strong; [|apply NoDup_seqZ].
  intros i j _ _ E. unfold frame_base in E. nia.
Qed.

(** Rounding the region up to whole pages. *)
Lemma round_up_page n page k :
  page = 2 ^ k -> 0 <= k <= 64 -> 0 <= n -> n + page - 1 < 2 ^ 64 ->
  let a := Z.land (n + page - 1) (not_u 64 (page - 1)) in
  n <= a < n + page /\ a mod page = 0.
Proof.
  intros -> Hk Hn Hlt. cbn zeta. rewrite land_not_u by (done || unfold is_uint; pose proof (Z.pow_pos_nonneg 2 k); lia).
  pose proof (Z.pow_pos_nonneg 2 k ltac:(lia) ltac:(lia)).
  pose proof (Z.mod_pos_bound (n + 2 ^ k - 1) (2 ^ k)).
  split; [lia|]. rewrite Zminus_mod_idemp_r, Z.sub_diag. by apply Z.mod_0_l; lia.
Qed.
(** The region an allocation maps and the UMEM over it. *)
Lemma alloc_region mmap fsize fcount page huge :
  is_power_of_two fsize = true -> (debug_assertions = true -> is_power_of_two fcount = true) ->
  is_power_of_two page = true -> 0 < fcount -> fsize < 2 ^ 32 -> fcount * fsize + page - 1 < 2 ^ 63 ->
  exists size, fcount * fsize <= size < fcount * fsize + page /\ size mod page = 0 /\
    alloc_with_page_size mmap fsize fcount page huge =
      Done (match mmap size huge with
            | Some ptr => Ok (mkPageAlignedMemory ptr size)
            | None => Err mkAllocError
            end) /\
    (forall ptr, SliceUmem_new (deref (mkPageAlignedMemory ptr size)) fsize
       = Done (Ok (mkSliceUmem (deref (mkPageAlignedMemory ptr size)) fsize (seqZ 0 (size / fsize)) (size / fsize)))
       /\ len (deref (mkPageAlignedMemory ptr size)) = size) /\ fcount <= size / fsize.
Proof.
  intros Hf Hc Hp Hc0 Hf32 Hlt.
  assert (forall b, b = true -> debug_assert b = Done tt) as Hda
    by (intros b ->; unfold debug_assert; by rewrite andb_false_r).
  assert (debug_assert (is_power_of_two fcount) = Done tt) as Hdc.
  { unfold debug_assert. destruct debug_assertions; [|done]. by rewrite Hc. }
  pose proof Hp as (k & Hk & Ek)%is_power_of_two_spec.
  assert (0 < fsize /\ 0 < page) as (Hf0 & Hp0).
  { unfold is_power_of_two in *. rewrite !andb_true_iff, !Z.ltb_lt in *. lia. }
  assert (0 < fcount * fsize) by nia.
  assert (k <= 64) as Hk64.
  { destruct (decide (k <= 64)); [done|]. pose proof (Z.pow_lt_mono_r 2 64 k). lia. }
  destruct (round_up_page (fcount * fsize) page k Ek ltac:(lia) ltac:(lia) ltac:(lia)) as [Ha1 Ha2].
  exists (Z.land (fcount * fsize + page - 1) (not_u 64 (page - 1))).
  set (size := Z.land _ _) in *. split_and!; [lia|lia|done| | |].
  - unfold alloc_with_page_size. rewrite Hda, Hdc, Hda, !bind_Done by done.
    rewrite mul_u_Done, bind_Done, add_u_Done, bind_Done by lia.
    rewrite !sub_u_Done, !bind_Done by lia. fold size. by destruct (mmap size huge).
  - intros ptr. assert (len (deref (mkPageAlignedMemory ptr size)) = size) as El.
    { unfold deref. rewrite len_replicate. cbn. lia. }
    split; [|done]. unfold SliceUmem_new. by rewrite Hda, bind_Done, div_u_Done, bind_Done, El by (done || lia).
  - apply Z.div_le_lower_bound; lia.
Qed.
End slice_umem_new_facts.

(** ** Properties *)

Section umem_properties.
Context `{BuildProfile}.

(** C2: starting from [SliceUmem::new], after any sequence of [reserve] calls,
    [set_len] calls on frames that are held, returns of held frames at an
    offset inside them, and [release] calls on held frames, the free frames
    and the frames the held ones lie in are together a permutation of all
    frames of the region: no frame is ever handed out twice or lost. The free
    count plus the held count is the capacity, and the held frames are
    pairwise disjoint [frame_size]-byte ranges of the buffer. *)
Theorem umem_frames_conserved buf fsize u u' out :
  0 < fsize < 2 ^ 32 -> len buf < 2 ^ 63 -> SliceUmem_new buf fsize = Done (Ok u) ->
  rtc umem_step (u, []) (u', out) ->
  let bases := (fun f => fsize * (f_offset f / fsize)) <$> out in
  ((fun i => i * fsize) <$> available_frames u') ++ bases ≡ₚ ((fun i => i * fsize) <$> seqZ 0 (len buf / fsize)) /\
  NoDup (((fun i => i * fsize) <$> available_frames u') ++ bases) /\
  available u' + len out = len buf / fsize /\
  (forall o, o ∈ bases -> 0 <= o /\ o + fsize <= len buf) /\
  (forall o1 o2, o1 ∈ bases -> o2 ∈ bases -> o1 <> o2 -> o1 + fsize <= o2 \/ o2 + fsize <= o1).
Proof.
  intros Hf Hb Hnew Hsteps bases.
  destruct (SliceUmem_new_conserved _ _ _ Hf Hb Hnew) as (Hc0 & Hm0 & Hs0).
  apply SliceUmem_new_inv in Hnew as (_ & Eu).
  destruct (umem_steps_conserved _ _ Hsteps Hc0) as ((Hwf & Hp) & Ecap & Emem & Esz).
  cbn [fst snd] in *. cbn in Hs0, Hm0. rewrite Hs0 in Esz. rewrite Hm0 in Emem.
  assert (capacity u' = len buf / fsize) as Ec by (rewrite Ecap, Eu; done).
  assert (frame_start u' <$> out = bases) as Eb.
  { unfold bases. apply list_fmap_ext. intros ? f _. unfold frame_start, frame_base. rewrite Esz. lia. }
  rewrite Eb in Hp.
  assert (forall o, o ∈ bases -> o ∈ frames u') as Hin
    by (intros o Ho; rewrite <-Hp, elem_of_app; by right).
  pose proof Hp as Hp'. cbn in Hp'. unfold frame_base in Hp'. rewrite Esz, Ec in Hp'.
  split_and!.
  - exact Hp'.
  - eapply NoDup_Permutation_proper; [exact Hp'|].
    pose proof (frame_bases_NoDup u' ltac:(lia)) as Hn. unfold frame_base in Hn. by rewrite Esz, Ec in Hn.
  - apply Permutation_length in Hp'. unfold bases in Hp'.
    rewrite length_app, !length_fmap, length_seqZ in Hp'. unfold available, len in *.
    pose proof (Z.div_pos (Z.of_nat (length buf)) fsize). lia.
  - intros o Ho. rewrite <-Esz, <-Emem. exact (frames_in_mem u' o Hwf (Hin o Ho)).
  - intros o1 o2 H1 H2 Hne. rewrite <-Esz. exact (frames_disjoint u' o1 o2 Hwf (Hin o1 H1) (Hin o2 H2) Hne).
Qed.

(** Giving a frame back by any offset inside it, and reserving again, returns
    that frame at its base offset and with length 0, and leaves the other free
    frames as they were. *)
Theorem umem_release_reserve u o d :
  slice_umem_wf u -> o ∈ frames u -> 0 <= d < frame_size u ->
  exists u', release u (mkFrameOffset (o + d)) = Done u' /\
    exists u'', reserve u' = Done (Some (mkFrame o 0, u'')) /\
      available_frames u'' = available_frames u /\ buffer u'' = buffer u.
Proof.
  intros Hwf Ho Hd. destruct (@release_frame _ _ _ _ SliceUmem_spec u o d Hwf Ho Hd) as (u' & Hr & Hwf' & Hf & Hfr & Hm & Hs).
  exists u'. split; [done|].
  destruct (@reserve_last _ _ _ _ SliceUmem_spec u' (free u) o Hwf' Hf) as (f & u'' & Hr' & Ho' & Hl & Hwf'' & Hf'' & _ & Hm' & Hs').
  exists u''. destruct f as [fo' fl]. cbn in Ho', Hl. injection Ho' as ->. subst fl.
  split; [done|]. split; [|cbn in *; congruence].
  cbn in *. unfold frame_base in Hf''. rewrite Hs', Hs in Hf''.
  assert (Inj (=) (=) (fun i => i * frame_size u)) as Hinj.
  { intros i j E. destruct Hwf as ([? ?] & _). nia. }
  by apply (inj (fmap (fun i => i * frame_size u))) in Hf''.
Qed.

(** C32: a write through [map_frame_mut] to a frame whose length is at most the
    frame size is defined, keeps the buffer's length, and changes no byte of
    any other frame. *)
Theorem frame_writes_are_isolated u o l o' g s :
  slice_umem_wf u -> o ∈ frames u -> o' ∈ frames u -> o <> o' -> 0 <= l <= frame_size u ->
  (forall t, length t = Z.to_nat l -> exists t', g t = Done t' /\ length t' = length t) ->
  map_frame u (mkFrame o' (frame_size u)) = Done s ->
  exists u', map_frame_mut u (mkFrame o l) g = Done u' /\ len (buffer u') = len (buffer u) /\
    map_frame u' (mkFrame o' (frame_size u)) = Done s.
Proof.
  intros Hwf Ho Ho' Hne Hl Hg Hs.
  destruct (@frames_in_mem _ _ _ _ SliceUmem_spec u o Hwf Ho) as [Ho1 Ho2].
  destruct (@frames_in_mem _ _ _ _ SliceUmem_spec u o' Hwf Ho') as [Ho1' Ho2'].
  pose proof (@frames_disjoint _ _ _ _ SliceUmem_spec u o o' Hwf Ho Ho' Hne) as Hdis.
  unfold map_frame_mut, map_frame, umem_len in *. cbn in *.
  rewrite decide_True in Hs by lia. injection Hs as <-.
  rewrite decide_True by lia. rewrite bind_Done.
  destruct (Hg (take (Z.to_nat l) (drop (Z.to_nat o) (buffer u)))) as (t' & -> & Ht').
  { rewrite length_take, length_drop. unfold len in *. lia. }
  rewrite bind_Done. rewrite length_take, length_drop in Ht'.
  unfold len in *.
  assert (length (take (Z.to_nat o) (buffer u) ++ t' ++ drop (Z.to_nat o + Z.to_nat l) (buffer u))
          = length (buffer u)) as Elen by (apply splice_length; lia).
  eexists. split; [done|]. cbn. rewrite Elen. split; [done|]. rewrite decide_True by lia. f_equal.
  apply splice_outside; lia.
Qed.

(** With power-of-two sizes whose product fits the address space, the
    allocator maps the least whole number of pages that holds all frames, a
    [SliceUmem] over it has at least [frame_count] frames, and a failed
    mapping is reported as [AllocError]. *)
Theorem alloc_covers_frames mmap fsize fcount page huge :
  is_power_of_two fsize = true -> is_power_of_two fcount = true -> is_power_of_two page = true ->
  fsize < 2 ^ 32 -> fcount * fsize + page - 1 < 2 ^ 63 ->
  exists size, fcount * fsize <= size < fcount * fsize + page /\ size mod page = 0 /\
    alloc_with_page_size mmap fsize fcount page huge =
      Done (match mmap size huge with
            | Some ptr => Ok (mkPageAlignedMemory ptr size)
            | None => Err mkAllocError
            end) /\
    (forall ptr, exists u, SliceUmem_new (deref (mkPageAlignedMemory ptr size)) fsize = Done (Ok u)
       /\ conserved (u, []) /\ fcount <= available u).
Proof.
  intros Hf Hc Hp Hf32 Hlt.
  assert (0 < fsize /\ 0 < fcount) as [Hf0 Hc0].
  { unfold is_power_of_two in *. rewrite !andb_true_iff, !Z.ltb_lt in *. lia. }
  destruct (alloc_region mmap fsize fcount page huge Hf (fun _ => Hc) Hp Hc0 Hf32 Hlt)
    as (size & Hs1 & Hs2 & Ha & Hu & Hn).
  exists size. split_and!; [lia|lia|done|done|]. intros ptr. destruct (Hu ptr) as [Hnew El].
  assert (0 < page) by (unfold is_power_of_two in Hp; rewrite andb_true_iff, Z.ltb_lt in Hp; lia).
  eexists. split; [exact Hnew|]. split.
  - apply (SliceUmem_new_conserved (deref (mkPageAlignedMemory ptr size)) fsize); [lia|rewrite El; lia|exact Hnew].
  - unfold available. cbn. unfold len. rewrite length_seqZ. lia.
Qed.
End umem_properties.

(** ** Witnesses *)

Definition example_umem : SliceUmem := mkSliceUmem (replicate 16 0) 4 [0; 1; 2; 3] 4.

Lemma umem_frames_conserved_witness :
  let u' := mkSliceUmem (replicate 16 0) 4 [0; 1; 3] 4 in
  let bases := (fun f => 4 * (f_offset f / 4)) <$> [mkFrame 8 3] in
  ((fun i => i * 4) <$> available_frames u') ++ bases ≡ₚ ((fun i => i * 4) <$> seqZ 0 (len (replicate 16 0) / 4)) /\
  NoDup (((fun i => i * 4) <$> available_frames u') ++ bases) /\
  available u' + len [mkFrame 8 3] = len (replicate 16 0) / 4 /\
  (forall o, o ∈ bases -> 0 <= o /\ o + 4 <= len (replicate 16 0)) /\
  (forall o1 o2, o1 ∈ bases -> o2 ∈ bases -> o1 <> o2 -> o1 + 4 <= o2 \/ o2 + 4 <= o1).
Proof.
  cbn zeta.
  apply (@umem_frames_conserved dev_profile (replicate 16 0) 4 example_umem); [lia|done|reflexivity|].
  eapply rtc_l; [by eapply step_reserve|]. eapply rtc_l; [by eapply step_reserve|].
  eapply rtc_l; [apply (step_set_len _ [] (mkFrame 8 0) [mkFrame 12 0] 3)|].
  eapply rtc_l; [apply (step_receive _ [mkFrame 8 3] (mkFrame 12 0) [] 1 2); done|].
  eapply rtc_l; [|apply rtc_refl].
  apply (step_release _ [mkFrame 8 3] (mkFrame 13 2) []). reflexivity.
Defined.

Lemma umem_release_reserve_witness :
  exists u', release (mkSliceUmem (replicate 16 0) 4 [0; 1] 4) (mkFrameOffset (12 + 3)) = Done u' /\
    exists u'', @reserve dev_profile u' = Done (Some (mkFrame 12 0, u'')) /\
      available_frames u'' = [0; 1] /\ buffer u'' = replicate 16 0.
Proof.
  apply (@umem_release_reserve dev_profile (mkSliceUmem (replicate 16 0) 4 [0; 1] 4) 12 3);
    [by_decide|by_decide|done].
Defined.

Lemma frame_writes_are_isolated_witness :
  exists u', @map_frame_mut _ _ _ (@SliceUmem_Umem dev_profile) example_umem (mkFrame 4 3)
               (fun t => Done (map (fun _ => 255) t)) = Done u' /\
    len (buffer u') = 16 /\
    @map_frame _ _ _ (@SliceUmem_Umem dev_profile) u' (mkFrame 8 4) = Done [0; 0; 0; 0].
Proof.
  apply (@frame_writes_are_isolated dev_profile example_umem 4 3 8);
    [by_decide|by_decide|by_decide|done|done| |reflexivity].
  intros t Ht. exists (map (fun _ => 255) t). by rewrite length_map.
Defined.

Lemma alloc_covers_frames_witness :
  exists size, 8 * 16 <= size < 8 * 16 + 64 /\ size mod 64 = 0 /\
    @alloc_with_page_size dev_profile (fun _ huge => if huge then None else Some 4096) 16 8 64 true
      = Done (Err mkAllocError) /\
    (forall ptr, exists u,
       @SliceUmem_new dev_profile (deref (mkPageAlignedMemory ptr size)) 16 = Done (Ok u)
       /\ @conserved dev_profile (u, []) /\ 8 <= available u).
Proof.
  apply (@alloc_covers_frames dev_profile (fun _ huge => if huge then None else Some 4096) 16 8 64 true);
    done.
Defined.
