(* ===== verification/Ring.v ===== *)
(** * Shared rings: the ring types of [src/device.rs] and [src/socket.rs]

    A ring is a region shared with the kernel: a producer and a consumer
    counter (free-running [u32]s), a flags word and an array of descriptors.
    [RingProducer] and [RingConsumer] hold cached copies of the counters;
    [RxFillRing] and [TxRing] write descriptors, [TxCompletionRing] and
    [RxRing] read them. The two ends of one ring are then put together and
    shown to implement a bounded FIFO queue. *)

From S2P Require Import Prelude Words Umem.

(** ** Shared memory *)

(** What [RingMmap<T>] points to. *)
Record ring_mem (T : Type) := mkRingMem {
  rm_producer : Z;
  rm_consumer : Z;
  rm_flags : Z;
  rm_desc : list T;
}.
Arguments mkRingMem {T}.
Arguments rm_producer {T}.
Arguments rm_consumer {T}.
Arguments rm_flags {T}.
Arguments rm_desc {T}.

Definition set_producer {T} (m : ring_mem T) (v : Z) : ring_mem T :=
  mkRingMem v (rm_consumer m) (rm_flags m) (rm_desc m).
Definition set_consumer {T} (m : ring_mem T) (v : Z) : ring_mem T :=
  mkRingMem (rm_producer m) v (rm_flags m) (rm_desc m).

(** [*desc.add(i)] and [desc.add(i).write(v)]: undefined outside the array. *)
Definition desc_read {T} (m : ring_mem T) (i : Z) : outcome T :=
  match rm_desc m !! Z.to_nat i with Some v => Done v | None => UB end.
Definition desc_write {T} (m : ring_mem T) (i : Z) (v : T) : outcome (ring_mem T) :=
  if decide (i < len (rm_desc m))
  then Done (mkRingMem (rm_producer m) (rm_consumer m) (rm_flags m)
               (<[Z.to_nat i := v]> (rm_desc m)))
  else UB.

(** ** [RingConsumer] *)

Record RingConsumer := mkRingConsumer {
  rc_cached_producer : Z;
  rc_cached_consumer : Z;
}.

Section consumer.
Context {T : Type}.
Implicit Types (m : ring_mem T) (c : RingConsumer).

Definition RingConsumer_new m : RingConsumer := mkRingConsumer (rm_producer m) (rm_consumer m).

Definition rc_available c : Z := wrapping_sub 32 (rc_cached_producer c) (rc_cached_consumer c).

Definition rc_consume c : option Z * RingConsumer :=
  if rc_cached_consumer c =? rc_cached_producer c then (None, c)
  else (Some (rc_cached_consumer c),
        mkRingConsumer (rc_cached_producer c) (wrapping_add 32 (rc_cached_consumer c) 1)).

Definition rc_commit m c : ring_mem T := set_consumer m (rc_cached_consumer c).

Definition rc_sync m c (commit : bool) : ring_mem T * RingConsumer :=
  let m' := if commit then rc_commit m c else m in
  (m', mkRingConsumer (rm_producer m') (rc_cached_consumer c)).
End consumer.

(** ** [RingProducer] *)

Record RingProducer := mkRingProducer {
  rp_cached_producer : Z;
  rp_cached_consumer : Z;
  rp_size : Z;
}.

Section producer.
Context {T : Type}.
Implicit Types (m : ring_mem T) (p : RingProducer).

Definition RingProducer_new m (size : Z) : RingProducer :=
  mkRingProducer (rm_producer m) (rm_consumer m) size.

Definition rp_available p : Z :=
  saturating_sub (rp_size p) (wrapping_sub 32 (rp_cached_producer p) (rp_cached_consumer p)).

Definition rp_produce p : option Z * RingProducer :=
  if rp_available p =? 0 then (None, p)
  else (Some (rp_cached_producer p),
        mkRingProducer (wrapping_add 32 (rp_cached_producer p) 1) (rp_cached_consumer p) (rp_size p)).

Definition rp_commit m p : ring_mem T := set_producer m (rp_cached_producer p).

Definition rp_sync m p (commit : bool) : ring_mem T * RingProducer :=
  let m' := if commit then rp_commit m p else m in
  (m', mkRingProducer (rp_cached_producer p) (rm_consumer m') (rp_size p)).
End producer.

(** ** Reading and writing descriptors *)

(** The common body of [RxFillRing::write] and [TxRing::write]: take an index,
    mask it, write the descriptor. [None] when the ring is full. *)
Definition ring_push {T} (m : ring_mem T) (p : RingProducer) (size : Z) (v : T)
  : outcome (option (ring_mem T * RingProducer)) :=
  match rp_produce p with
  | (None, _) => Done None
  | (Some index, p') =>
      m' ← desc_write m (Z.land index (saturating_sub size 1)) v;
      Done (Some (m', p'))
  end.

(** The common body of [TxCompletionRing::read] and [RxRing::read]. *)
Definition ring_pop {T} (m : ring_mem T) (c : RingConsumer) (size : Z)
  : outcome (option (T * RingConsumer)) :=
  match rc_consume c with
  | (None, _) => Done None
  | (Some index, c') =>
      v ← desc_read m (Z.land index (saturating_sub size 1));
      Done (Some (v, c'))
  end.

(** [pub struct XdpDesc] *)
Record XdpDesc := mkXdpDesc { xd_addr : Z; xd_len : Z; xd_options : Z }.
#[global] Instance XdpDesc_eq_dec : EqDecision XdpDesc.
Proof. solve_decision. Defined.

(** [TxCompletionRing] *)
Record TxCompletionRing := mkTxCompletionRing { cr_consumer : RingConsumer; cr_size : Z }.

(** [RxFillRing] *)
Record RxFillRing := mkRxFillRing { fr_producer : RingProducer; fr_size : Z }.

(** [TxRing] and [RxRing] *)
Record TxRing := mkTxRing { tx_producer : RingProducer; tx_size : Z }.
Record RxRing := mkRxRing { rx_consumer : RingConsumer; rx_size : Z }.

(** [pub struct RingFull<F>(pub F)] *)
Inductive RingFull (F : Type) := mkRingFull (f : F).
Arguments mkRingFull {F} f.

Definition XDP_RING_NEED_WAKEUP : Z := 1.

Section rings.
Context `{BuildProfile}.

Definition TxCompletionRing_new (m : ring_mem Z) (size : Z) : outcome TxCompletionRing :=
  _ ← debug_assert (is_power_of_two size);
  Done (mkTxCompletionRing (RingConsumer_new m) size).

Definition TxCompletionRing_read (m : ring_mem Z) (r : TxCompletionRing)
  : outcome (option FrameOffset * TxCompletionRing) :=
  o ← ring_pop m (cr_consumer r) (cr_size r);
  Done (match o with
        | None => (None, r)
        | Some (v, c') => (Some (mkFrameOffset (wrap 64 v)), mkTxCompletionRing c' (cr_size r))
        end).

Definition TxCompletionRing_commit (m : ring_mem Z) (r : TxCompletionRing) : ring_mem Z :=
  rc_commit m (cr_consumer r).

Definition TxCompletionRing_sync (m : ring_mem Z) (r : TxCompletionRing) (commit : bool)
  : ring_mem Z * TxCompletionRing :=
  let '(m', c') := rc_sync m (cr_consumer r) commit in (m', mkTxCompletionRing c' (cr_size r)).

Definition RxFillRing_new (m : ring_mem Z) (size : Z) : outcome RxFillRing :=
  _ ← debug_assert (is_power_of_two size);
  Done (mkRxFillRing (RingProducer_new m size) size).

Definition RxFillRing_write `{Frame F} (m : ring_mem Z) (r : RxFillRing) (frame : F)
  : outcome (result unit io_error * ring_mem Z * RxFillRing) :=
  o ← ring_push m (fr_producer r) (fr_size r) (wrap 64 (fo (frame_offset frame)));
  Done (match o with
        | None => (Err StorageFull, m, r)
        | Some (m', p') => (Ok tt, m', mkRxFillRing p' (fr_size r))
        end).

Definition RxFillRing_available (r : RxFillRing) : Z := rp_available (fr_producer r).

Definition RxFillRing_commit (m : ring_mem Z) (r : RxFillRing) : ring_mem Z :=
  rp_commit m (fr_producer r).

Definition RxFillRing_sync (m : ring_mem Z) (r : RxFillRing) (commit : bool)
  : ring_mem Z * RxFillRing :=
  let '(m', p') := rp_sync m (fr_producer r) commit in (m', mkRxFillRing p' (fr_size r)).

Definition TxRing_new (m : ring_mem XdpDesc) (size : Z) : outcome TxRing :=
  _ ← debug_assert (is_power_of_two size);
  Done (mkTxRing (RingProducer_new m size) size).

Definition TxRing_write `{Frame F} (m : ring_mem XdpDesc) (r : TxRing) (frame : F) (options : Z)
  : outcome (result unit (RingFull F) * ring_mem XdpDesc * TxRing) :=
  o ← ring_push m (tx_producer r) (tx_size r)
        (mkXdpDesc (wrap 64 (fo (frame_offset frame))) (wrap 32 (frame_len frame)) options);
  Done (match o with
        | None => (Err (mkRingFull frame), m, r)
        | Some (m', p') => (Ok tt, m', mkTxRing p' (tx_size r))
        end).

Definition TxRing_needs_wakeup (m : ring_mem XdpDesc) : bool :=
  negb (Z.land (rm_flags m) XDP_RING_NEED_WAKEUP =? 0).

(** [sendto] returned [ret]. *)
Definition TxRing_wake (ret : Z) : result Z io_error :=
  if ret <? 0 then Err LastOsError else Ok (wrap 64 ret).

Definition TxRing_capacity (r : TxRing) : Z := tx_size r.
Definition TxRing_available (r : TxRing) : Z := rp_available (tx_producer r).

Definition TxRing_commit (m : ring_mem XdpDesc) (r : TxRing) : ring_mem XdpDesc :=
  rp_commit m (tx_producer r).

Definition TxRing_sync (m : ring_mem XdpDesc) (r : TxRing) (commit : bool)
  : ring_mem XdpDesc * TxRing :=
  let '(m', p') := rp_sync m (tx_producer r) commit in (m', mkTxRing p' (tx_size r)).

Definition RxRing_new (m : ring_mem XdpDesc) (size : Z) : outcome RxRing :=
  _ ← debug_assert (is_power_of_two size);
  Done (mkRxRing (RingConsumer_new m) size).

Definition RxRing_capacity (r : RxRing) : Z := rx_size r.
Definition RxRing_available (r : RxRing) : Z := rc_available (rx_consumer r).

Definition RxRing_commit (m : ring_mem XdpDesc) (r : RxRing) : ring_mem XdpDesc :=
  rc_commit m (rx_consumer r).

Definition RxRing_sync (m : ring_mem XdpDesc) (r : RxRing) (commit : bool)
  : ring_mem XdpDesc * RxRing :=
  let '(m', c') := rc_sync m (rx_consumer r) commit in (m', mkRxRing c' (rx_size r)).

Definition RxRing_read (m : ring_mem XdpDesc) (r : RxRing)
  : outcome (option XdpDesc * RxRing) :=
  o ← ring_pop m (rx_consumer r) (rx_size r);
  Done (match o with
        | None => (None, r)
        | Some (v, c') => (Some v, mkRxRing c' (rx_size r))
        end).
End rings.

(** ** Specification: a bounded FIFO queue *)

Inductive event (T : Type) :=
  | Push (v : T)
  | Pop (v : T)
  | Tau.
Arguments Push {T} v.
Arguments Pop {T} v.
Arguments Tau {T}.

(** One step of a queue of capacity [cap]; [None] when it is not allowed. *)
Definition queue_step {T} `{EqDecision T} (cap : Z) (q : list T) (e : event T) : option (list T) :=
  match e with
  | Push v => if decide (len q < cap) then Some (q ++ [v]) else None
  | Pop v => match q with
             | x :: q' => if decide (x = v) then Some q' else None
             | [] => None
             end
  | Tau => Some q
  end.

Fixpoint queue_run {T} `{EqDecision T} (cap : Z) (q : list T) (tr : list (event T)) : option (list T) :=
  match tr with
  | [] => Some q
  | e :: tr' => q' ← queue_step cap q e; queue_run cap q' tr'
  end.

(** ** The two ends of one ring *)

Section spsc.
Context {T : Type}.

Record spsc := mkSpsc {
  sp_mem : ring_mem T;
  sp_prod : RingProducer;
  sp_cons : RingConsumer;
}.

(** The producing and the consuming end interleave arbitrarily; one of them is
    this crate, the other one the kernel, which follows the same protocol. *)
Inductive spsc_step (size : Z) : spsc -> event T -> spsc -> Prop :=
  | sp_write m p c v m' p' :
      ring_push m p size v = Done (Some (m', p')) ->
      spsc_step size (mkSpsc m p c) (Push v) (mkSpsc m' p' c)
  | sp_commit_prod m p c :
      spsc_step size (mkSpsc m p c) Tau (mkSpsc (rp_commit m p) p c)
  | sp_sync_prod m p c b m' p' :
      rp_sync m p b = (m', p') ->
      spsc_step size (mkSpsc m p c) Tau (mkSpsc m' p' c)
  | sp_read m p c v c' :
      ring_pop m c size = Done (Some (v, c')) ->
      spsc_step size (mkSpsc m p c) (Pop v) (mkSpsc m p c')
  | sp_commit_cons m p c :
      spsc_step size (mkSpsc m p c) Tau (mkSpsc (rc_commit m c) p c)
  | sp_sync_cons m p c b m' c' :
      rc_sync m c b = (m', c') ->
      spsc_step size (mkSpsc m p c) Tau (mkSpsc m' p c').

Inductive spsc_trace (size : Z) : spsc -> list (event T) -> spsc -> Prop :=
  | tr_nil s : spsc_trace size s [] s
  | tr_snoc s1 s2 s3 tr e :
      spsc_trace size s1 tr s2 -> spsc_step size s2 e s3 -> spsc_trace size s1 (tr ++ [e]) s3.

(** Both ends created over the same memory with equal counters. *)
Definition spsc_init (m : ring_mem T) (size : Z) : spsc :=
  mkSpsc m (RingProducer_new m size) (RingConsumer_new m).
End spsc.
Arguments spsc : clear implicits.

(** ** The ring invariant *)

(** Unbounded positions behind the wrapped counters: [pub_p] and [pub_c] are
    published in memory, [seen_c] is what the producer last saw of the
    consumer, [seen_p] what the consumer last saw of the producer. [hist] are
    the values read so far and [q] the values written and not yet read. *)
Record positions := mkPositions { pub_p : Z; pub_c : Z; seen_p : Z; seen_c : Z }.

Definition spsc_counters {T} (k base : Z) (hist q : list T) (g : positions) (s : spsc T) : Prop :=
  rm_producer (sp_mem s) = wrap 32 (pub_p g) /\
  rm_consumer (sp_mem s) = wrap 32 (pub_c g) /\
  sp_prod s = mkRingProducer (wrap 32 (base + len hist + len q)) (wrap 32 (seen_c g)) (2 ^ k) /\
  sp_cons s = mkRingConsumer (wrap 32 (seen_p g)) (wrap 32 (base + len hist)).

Definition spsc_order {T} (k base : Z) (hist q : list T) (g : positions) : Prop :=
  base <= seen_c g <= pub_c g /\ pub_c g <= base + len hist <= seen_p g /\
  seen_p g <= pub_p g <= base + len hist + len q /\
  base + len hist + len q <= seen_c g + 2 ^ k.

Definition spsc_slots {T} (k base : Z) (hist q : list T) (s : spsc T) : Prop :=
  len (rm_desc (sp_mem s)) = 2 ^ k /\
  forall i, base <= i -> base + len hist + len q - 2 ^ k <= i < base + len hist + len q ->
    rm_desc (sp_mem s) !! Z.to_nat (i mod 2 ^ k) = (hist ++ q) !! Z.to_nat (i - base).

Definition spsc_inv {T} (k base : Z) (hist q : list T) (s : spsc T) : Prop :=
  exists g, spsc_counters k base hist q g s /\ spsc_order k base hist q g /\ spsc_slots k base hist q s.

(** Give the positions after a step; what is left are the facts that are not
    arithmetic. *)
Ltac use_positions g :=
  exists g; unfold spsc_counters, spsc_order, spsc_slots;
  cbn [pub_p pub_c seen_p seen_c sp_mem sp_prod sp_cons rm_producer rm_consumer rm_desc
       set_producer set_consumer rp_commit rc_commit rp_cached_producer rc_cached_consumer
       rp_cached_consumer rc_cached_producer rp_size];
  rewrite ?len_app, ?len_cons, ?len_nil, ?len_insert;
  split_and!; try done; try lia.

Section spsc_facts.
Context {T : Type}.
Variable k : Z.
Hypothesis Hk : 0 <= k <= 31.
Implicit Types (m : ring_mem T) (hist q : list T) (s : spsc T).

Lemma size_bounds : 0 < 2 ^ k < 2 ^ 32.
Proof. split; [apply Z.pow_pos_nonneg; lia|]. apply Z.pow_lt_mono_r; lia. Qed.

Lemma ring_index x : Z.land (wrap 32 x) (saturating_sub (2 ^ k) 1) = x mod 2 ^ k.
Proof.
  pose proof size_bounds. unfold saturating_sub. rewrite Z.max_r by lia.
  rewrite land_pow2_mask by lia. apply wrap_mod_pow2. lia.
Qed.

Lemma mod_neq x y : 0 < x - y < 2 ^ k -> x mod 2 ^ k <> y mod 2 ^ k.
Proof.
  intros Hxy E. assert ((x - y) mod 2 ^ k = 0) as E0 by (rewrite Zminus_mod, E, Z.sub_diag; apply Z.mod_0_l; lia).
  rewrite Z.mod_small in E0; lia.
Qed.

(** The producer's free slots, from the positions. *)
Lemma rp_available_pos pw sc :
  0 <= pw - sc <= 2 ^ k ->
  rp_available (mkRingProducer (wrap 32 pw) (wrap 32 sc) (2 ^ k)) = 2 ^ k - (pw - sc).
Proof.
  intros Hd. pose proof size_bounds. unfold rp_available, saturating_sub. cbn.
  rewrite wrap_sub_dist by lia. lia.
Qed.

Lemma rc_available_pos sp rd :
  0 <= sp - rd <= 2 ^ k ->
  rc_available (mkRingConsumer (wrap 32 sp) (wrap 32 rd)) = sp - rd.
Proof. intros Hd. pose proof size_bounds. unfold rc_available. cbn. apply wrap_sub_dist; lia. Qed.

(** A write: refused exactly when the producer sees no free slot. *)
Lemma ring_push_pos m pw sc v :
  0 <= pw - sc <= 2 ^ k -> len (rm_desc m) = 2 ^ k ->
  ring_push m (mkRingProducer (wrap 32 pw) (wrap 32 sc) (2 ^ k)) (2 ^ k) v =
  Done (if decide (pw - sc = 2 ^ k) then None else
        Some (mkRingMem (rm_producer m) (rm_consumer m) (rm_flags m)
                (<[Z.to_nat (pw mod 2 ^ k) := v]> (rm_desc m)),
              mkRingProducer (wrap 32 (pw + 1)) (wrap 32 sc) (2 ^ k))).
Proof.
  intros Hd Hl. pose proof size_bounds. unfold ring_push, rp_produce.
  rewrite rp_available_pos by done. case_decide.
  - by rewrite (proj2 (Z.eqb_eq _ 0)) by lia.
  - rewrite (proj2 (Z.eqb_neq _ 0)) by lia. cbn [rp_cached_producer rp_cached_consumer rp_size].
    rewrite ring_index. unfold desc_write. rewrite decide_True, bind_Done.
    2: { rewrite Hl. apply Z.mod_pos_bound. lia. }
    unfold wrapping_add. by rewrite wrap_add_l by lia.
Qed.

(** A read: nothing exactly when the consumer sees no published descriptor. *)
Lemma ring_pop_pos m sp rd v :
  0 <= sp - rd <= 2 ^ k -> rm_desc m !! Z.to_nat (rd mod 2 ^ k) = Some v \/ sp = rd ->
  ring_pop m (mkRingConsumer (wrap 32 sp) (wrap 32 rd)) (2 ^ k) =
  Done (if decide (sp = rd) then None
        else Some (v, mkRingConsumer (wrap 32 sp) (wrap 32 (rd + 1)))).
Proof.
  intros Hd Hv. pose proof size_bounds. unfold ring_pop, rc_consume. cbn.
  case_decide as E; [subst; by rewrite Z.eqb_refl|].
  rewrite (proj2 (Z.eqb_neq _ _)) by (intros E'; symmetry in E'; apply wrap_inj in E'; lia).
  destruct Hv as [Hv|]; [|done]. rewrite ring_index. unfold desc_read. rewrite Hv, bind_Done.
  unfold wrapping_add. by rewrite wrap_add_l by lia.
Qed.

Lemma spsc_init_inv m :
  is_u32 (rm_producer m) -> rm_consumer m = rm_producer m -> len (rm_desc m) = 2 ^ k ->
  spsc_inv k (rm_producer m) [] [] (spsc_init m (2 ^ k)).
Proof.
  intros Hp Hc Hl. pose proof size_bounds.
  set (b := rm_producer m) in *. exists (mkPositions b b b b).
  unfold spsc_counters, spsc_order, spsc_slots, spsc_init, RingProducer_new, RingConsumer_new.
  cbn. rewrite !len_nil, !Z.add_0_r, Hc, !wrap_small by done. fold b.
  split_and!; try done; lia.
Qed.

Lemma len_pos_inv q : 0 < len q -> exists v q', q = v :: q'.
Proof. destruct q; [done|eauto]. Qed.

(** The slot contents after a write. *)
Lemma spsc_slots_push base hist q m v :
  len (rm_desc m) = 2 ^ k -> 
  (forall i, base <= i -> base + len hist + len q - 2 ^ k <= i < base + len hist + len q ->
    rm_desc m !! Z.to_nat (i mod 2 ^ k) = (hist ++ q) !! Z.to_nat (i - base)) ->
  forall i, base <= i ->
    base + len hist + len (q ++ [v]) - 2 ^ k <= i < base + len hist + len (q ++ [v]) ->
    <[Z.to_nat ((base + len hist + len q) mod 2 ^ k) := v]> (rm_desc m) !! Z.to_nat (i mod 2 ^ k)
    = (hist ++ q ++ [v]) !! Z.to_nat (i - base).
Proof.
  intros Hl Hs i Hi Hr. pose proof size_bounds. rewrite len_app, len_cons, len_nil in Hr.
  set (pw := base + len hist + len q) in *.
  assert (forall x, 0 <= x mod 2 ^ k < 2 ^ k) as Hmod by (intros; apply Z.mod_pos_bound; lia).
  rewrite app_assoc. destruct (decide (i = pw)) as [->|Hne].
  - rewrite list_lookup_insert_eq by (pose proof (Hmod pw); unfold len in *; lia).
    rewrite lookup_app_r; rewrite length_app; unfold pw, len; [|lia].
    by replace (_ - _)%nat with 0%nat by lia.
  - rewrite list_lookup_insert_ne.
    2: { pose proof (Hmod pw). pose proof (Hmod i). pose proof (mod_neq pw i). lia. }
    rewrite Hs by lia. rewrite (lookup_app_l (hist ++ q)); [done|]. rewrite length_app. unfold pw, len in *. lia.
Qed.

Lemma spsc_step_sim `{EqDecision T} base hist q s e s' :
  spsc_inv k base hist q s -> spsc_step (2 ^ k) s e s' ->
  exists hist' q', spsc_inv k base hist' q' s' /\ queue_step (2 ^ k) q e = Some q'.
Proof.
  intros ([pp pc sp sc] & (Hmp & Hmc & Hp & Hc) & Hord & Hl & Hs) Hstep.
  unfold spsc_order in Hord. cbn [pub_p pub_c seen_p seen_c] in *.
  pose proof size_bounds as Hsz.
  inversion Hstep as [m p c v m' p' Hw|m p c|m p c b m' p' Hsy|m p c v c' Hr|m p c|m p c b m' c' Hsy];
    subst s e s'; cbn [sp_mem sp_prod sp_cons] in *; subst p c.
  - rewrite ring_push_pos in Hw by (done || lia). case_decide; [done|]. injection Hw as <- <-.
    exists hist, (q ++ [v]). split; [|cbn; by rewrite decide_True by lia].
    use_positions (mkPositions pp pc sp sc).
    + do 2 f_equal. lia.
    + intros i Hi Hr. apply spsc_slots_push; try done. len_lia.
  - exists hist, q. split; [|done]. use_positions (mkPositions (base + len hist + len q) pc sp sc).
  - exists hist, q. split; [|done]. destruct b; injection Hsy as <- <-.
    + use_positions (mkPositions (base + len hist + len q) pc sp pc). by rewrite Hmc.
    + use_positions (mkPositions pp pc sp pc). by rewrite Hmc.
  - destruct (decide (sp = base + len hist)) as [->|Hne].
    { by rewrite (ring_pop_pos m _ _ v), decide_True in Hr by (auto || lia). }
    destruct (len_pos_inv q ltac:(lia)) as (x & q' & ->). rewrite len_cons in *.
    assert (rm_desc m !! Z.to_nat ((base + len hist) mod 2 ^ k) = Some x) as Hx.
    { rewrite Hs, lookup_app_r by (unfold len in *; lia).
      by replace (_ - _)%nat with 0%nat by (unfold len in *; lia). }
    rewrite (ring_pop_pos m _ _ x), decide_False in Hr by (auto || lia).
    injection Hr as <- <-. exists (hist ++ [x]), q'. split; [|cbn; by rewrite decide_True].
    use_positions (mkPositions pp pc sp sc); try (do 2 f_equal; lia).
    intros i Hi Hr. rewrite <-app_assoc. apply Hs; lia.
  - exists hist, q. split; [|done]. use_positions (mkPositions pp (base + len hist) sp sc).
  - exists hist, q. split; [|done]. destruct b; injection Hsy as <- <-.
    + use_positions (mkPositions pp (base + len hist) pp sc). by rewrite Hmp.
    + use_positions (mkPositions pp pc pp sc). by rewrite Hmp.
Qed.

Lemma queue_run_snoc `{EqDecision T} cap q tr e :
  queue_run cap q (tr ++ [e]) = (q' ← queue_run cap q tr; queue_step cap q' e).
Proof.
  revert q. induction tr as [|e' tr IH]; intros q; cbn.
  - by destruct (queue_step cap q e).
  - destruct (queue_step cap q e') as [q'|]; cbn; [apply IH|done].
Qed.

Lemma spsc_trace_sim `{EqDecision T} base s tr s' :
  spsc_trace (2 ^ k) s tr s' -> spsc_inv k base [] [] s ->
  exists hist q, spsc_inv k base hist q s' /\ queue_run (2 ^ k) [] tr = Some q.
Proof.
  induction 1 as [s|s1 s2 s3 tr e Htr IH Hstep]; intros Hi; [by exists [], []|].
  destruct (IH Hi) as (hist & q & Hinv & Hq).
  destruct (spsc_step_sim _ _ _ _ _ _ Hinv Hstep) as (hist' & q' & Hinv' & Hq').
  exists hist', q'. split; [done|]. by rewrite queue_run_snoc, Hq.
Qed.
End spsc_facts.

(** ** A ring and the descriptors in it

    What the loops need to know of a ring: the queue of descriptors written and
    not yet read, and what each end may do next. *)

Definition ring_holds {T} (k : Z) (q : list T) (s : spsc T) : Prop :=
  exists base hist, spsc_inv k base hist q s.

(** Descriptors written and not yet published by the producer. *)
Definition unpublished {T} (m : ring_mem T) (p : RingProducer) : Z :=
  wrapping_sub 32 (rp_cached_producer p) (rm_producer m).

(** Descriptors read whose slots the consumer has not given back yet. *)
Definition uncommitted_reads {T} (m : ring_mem T) (c : RingConsumer) : Z :=
  wrapping_sub 32 (rc_cached_consumer c) (rm_consumer m).

(** Everything published has been read, and the reads have been published. *)
Definition ring_drained {T} (m : ring_mem T) (c : RingConsumer) : Prop :=
  rc_cached_consumer c = rm_producer m /\ rm_consumer m = rm_producer m.

Section ring_views.
Context {T : Type} `{EqDecision T}.
Variable k : Z.
Hypothesis Hk : 0 <= k <= 31.
Implicit Types (m : ring_mem T) (q : list T) (p : RingProducer) (c : RingConsumer).

Lemma ring_holds_step q s e s' :
  ring_holds k q s -> spsc_step (2 ^ k) s e s' ->
  exists q', queue_step (2 ^ k) q e = Some q' /\ ring_holds k q' s'.
Proof.
  intros (base & hist & Hi) Hs. destruct (spsc_step_sim k Hk _ _ _ _ _ _ Hi Hs) as (h' & q' & ? & ?).
  exists q'. split; [done|]. by exists base, h'.
Qed.

(** Steps that move no descriptor. *)
Lemma ring_holds_tau q s s' : ring_holds k q s -> spsc_step (2 ^ k) s Tau s' -> ring_holds k q s'.
Proof. intros Hi Hs. by destruct (ring_holds_step _ _ _ _ Hi Hs) as (q' & [= <-] & ?). Qed.

Lemma ring_holds_flags q m p c f :
  ring_holds k q (mkSpsc m p c) ->
  ring_holds k q (mkSpsc (mkRingMem (rm_producer m) (rm_consumer m) f (rm_desc m)) p c).
Proof. intros (base & hist & Hi). by exists base, hist. Qed.

Lemma ring_holds_size q m p c :
  ring_holds k q (mkSpsc m p c) -> rp_size p = 2 ^ k.
Proof. intros (base & hist & [] & (_ & _ & Ep & _) & _). cbn in Ep. by rewrite Ep. Qed.

Lemma ring_holds_bounds q m p c :
  ring_holds k q (mkSpsc m p c) ->
  0 <= rp_available p <= 2 ^ k - len q /\ 0 <= rc_available c <= len q /\
  0 <= unpublished m p <= len q /\ rc_available c <= len q - unpublished m p.
Proof.
  intros (base & hist & [pp pc sp sc] & (Hmp & _ & Ep & Ec) & Hord & _). unfold spsc_order in Hord.
  cbn [sp_mem sp_prod sp_cons pub_p pub_c seen_p seen_c] in *. subst p c.
  pose proof (len_nonneg hist). pose proof (len_nonneg q).
  pose proof (size_bounds k Hk). rewrite rp_available_pos, (rc_available_pos k Hk) by lia.
  unfold unpublished. cbn [rp_cached_producer]. rewrite Hmp, wrap_sub_dist by lia. lia.
Qed.

(** A write when the producer sees room. *)
Lemma ring_holds_push q m p c v :
  ring_holds k q (mkSpsc m p c) -> 0 < rp_available p ->
  exists m' p', ring_push m p (2 ^ k) v = Done (Some (m', p')) /\
    ring_holds k (q ++ [v]) (mkSpsc m' p' c) /\ rp_available p' = rp_available p - 1 /\
    unpublished m' p' = unpublished m p + 1.
Proof.
  intros Hi Ha. pose proof Hi as (base & hist & [pp pc sp sc] & (Hmp & _ & Ep & _) & Hord & Hl & _).
  unfold spsc_order in Hord. cbn [sp_mem sp_prod sp_cons pub_p pub_c seen_p seen_c] in *. subst p.
  pose proof (len_nonneg hist). pose proof (len_nonneg q).
  pose proof (size_bounds k Hk). rewrite rp_available_pos in Ha by lia.
  pose proof (ring_push_pos k Hk m (base + len hist + len q) sc v ltac:(lia) Hl) as Hw.
  rewrite decide_False in Hw by lia. eexists _, _. split; [exact Hw|]. split.
  - destruct (ring_holds_step _ _ _ _ Hi (sp_write _ _ _ _ _ _ _ Hw)) as (q' & Hq & Hi').
    cbn in Hq. case_decide; [|done]. by injection Hq as <-.
  - rewrite !rp_available_pos by lia. unfold unpublished. cbn [rp_cached_producer rm_producer].
    rewrite Hmp, !wrap_sub_dist by lia. lia.
Qed.

(** A read, and a read when nothing is visible. *)
Lemma ring_holds_pop q m p c :
  ring_holds k q (mkSpsc m p c) ->
  if decide (rc_available c = 0) then ring_pop m c (2 ^ k) = Done None
  else exists v q' c', q = v :: q' /\ ring_pop m c (2 ^ k) = Done (Some (v, c')) /\
    ring_holds k q' (mkSpsc m p c') /\ rc_available c' = rc_available c - 1 /\
    uncommitted_reads m c' = uncommitted_reads m c + 1.
Proof.
  intros Hi. pose proof Hi as (base & hist & [pp pc sp sc] & (_ & Hmc & _ & Ec) & Hord & _ & Hs).
  unfold spsc_order in Hord. cbn [sp_mem sp_prod sp_cons pub_p pub_c seen_p seen_c] in *. subst c.
  pose proof (size_bounds k Hk). pose proof (len_nonneg hist). rewrite (rc_available_pos k Hk) by lia.
  case_decide as Hz.
  { unfold ring_pop, rc_consume. cbn. replace sp with (base + len hist) by lia. by rewrite Z.eqb_refl. }
  destruct (len_pos_inv q ltac:(lia)) as (v & q' & ->). rewrite len_cons in *.
  assert (rm_desc m !! Z.to_nat ((base + len hist) mod 2 ^ k) = Some v) as Hv.
  { rewrite Hs, lookup_app_r by (unfold len in *; lia).
    by replace (_ - _)%nat with 0%nat by (unfold len in *; lia). }
  pose proof (ring_pop_pos k Hk m sp (base + len hist) v ltac:(lia) (or_introl Hv)) as Hp.
  rewrite decide_False in Hp by lia. eexists v, q', _. split; [done|]. split; [exact Hp|].
  destruct (ring_holds_step _ _ _ _ Hi (sp_read _ _ _ _ _ _ Hp)) as (q'' & Hq & Hi').
  cbn in Hq. rewrite decide_True in Hq by done. injection Hq as <-. split; [done|].
  rewrite !(rc_available_pos k Hk) by lia. unfold uncommitted_reads. cbn [rc_cached_consumer].
  rewrite Hmc, !wrap_sub_dist by lia. lia.
Qed.

(** After the producer commits nothing is unpublished. *)
Lemma unpublished_commit m p : 0 <= unpublished m p -> unpublished (rp_commit m p) p = 0.
Proof. intros _. unfold unpublished, wrapping_sub, wrap. cbn. by rewrite Z.sub_diag. Qed.

(** What a producer sees after it syncs: at most the slots that are not
    unpublished, and exactly those once the ring is drained. *)
Lemma rp_sync_available q m p c :
  ring_holds k q (mkSpsc m p c) ->
  rp_available (rp_sync m p false).2 <= 2 ^ k - unpublished m p /\
  rp_available p <= rp_available (rp_sync m p false).2 /\
  (ring_drained m c -> rp_available (rp_sync m p false).2 = 2 ^ k - unpublished m p /\
     len q = unpublished m p).
Proof.
  intros (base & hist & [pp pc sp sc] & (Hmp & Hmc & Ep & Ec) & Hord & _). unfold spsc_order in Hord.
  unfold ring_drained, unpublished, rp_sync.
  cbn [sp_mem sp_prod sp_cons pub_p pub_c seen_p seen_c fst snd] in *. subst p c.
  cbn [rp_cached_producer rc_cached_consumer rp_size].
  pose proof (len_nonneg hist). pose proof (len_nonneg q).
  pose proof (size_bounds k Hk). rewrite Hmp, Hmc, !rp_available_pos, wrap_sub_dist by lia.
  split; [lia|]. split; [lia|]. intros [E1 E2].
  symmetry in E1, E2. apply wrap_inj in E1, E2; lia.
Qed.

(** ... in terms of the descriptors in the ring and the slots not given back. *)
Lemma rp_sync_room q m p c :
  ring_holds k q (mkSpsc m p c) ->
  rp_available (rp_sync m p false).2 = 2 ^ k - len q - uncommitted_reads m c /\
  0 <= uncommitted_reads m c /\ len q + uncommitted_reads m c <= 2 ^ k.
Proof.
  intros (base & hist & [pp pc sp sc] & (Hmp & Hmc & Ep & Ec) & Hord & _). unfold spsc_order in Hord.
  unfold uncommitted_reads, rp_sync.
  cbn [sp_mem sp_prod sp_cons pub_p pub_c seen_p seen_c fst snd] in *. subst p c.
  cbn [rp_cached_producer rc_cached_consumer rp_size].
  pose proof (len_nonneg hist). pose proof (len_nonneg q).
  pose proof (size_bounds k Hk). rewrite Hmc, !rp_available_pos, wrap_sub_dist by lia. lia.
Qed.

(** The ring is drained when only unpublished descriptors are left and the
    consumer's counter is published. *)
Lemma ring_drained_intro q m p c :
  ring_holds k q (mkSpsc m p c) -> len q = unpublished m p -> rc_cached_consumer c = rm_consumer m ->
  ring_drained m c.
Proof.
  intros (base & hist & [pp pc sp sc] & (Hmp & Hmc & Ep & Ec) & Hord & _). unfold spsc_order in Hord.
  unfold ring_drained, unpublished.
  cbn [sp_mem sp_prod sp_cons pub_p pub_c seen_p seen_c fst snd] in *. subst p c.
  cbn [rp_cached_producer rc_cached_consumer].
  pose proof (len_nonneg hist). pose proof (len_nonneg q). pose proof (size_bounds k Hk).
  rewrite Hmp, Hmc, wrap_sub_dist by lia. intros Hq E.
  replace pp with (base + len hist) by lia. done.
Qed.

(** What a consumer sees after it syncs: everything published. *)
Lemma rc_sync_available q m p c b :
  ring_holds k q (mkSpsc m p c) ->
  rc_available (rc_sync m c b).2 = len q - unpublished m p.
Proof.
  intros (base & hist & [pp pc sp sc] & (Hmp & Hmc & Ep & Ec) & Hord & _). unfold spsc_order in Hord.
  unfold unpublished, rc_sync.
  cbn [sp_mem sp_prod sp_cons pub_p pub_c seen_p seen_c fst snd] in *. subst p c.
  pose proof (len_nonneg hist). pose proof (len_nonneg q). pose proof (size_bounds k Hk).
  replace (rm_producer (if b then _ else m)) with (wrap 32 pp) by (by destruct b).
  cbn [rp_cached_producer rc_cached_consumer].
  rewrite (rc_available_pos k Hk), Hmp, wrap_sub_dist by lia. lia.
Qed.
End ring_views.

(** ** Properties *)

Section ring_properties.
Context {T : Type} `{EqDecision T}.
Variables (k : Z) (m : ring_mem T).

(** A fresh ring of [2^k] descriptors, its counters equal and anywhere in the
    [u32] range. *)
Definition fresh_ring : Prop :=
  0 <= k <= 31 /\ is_u32 (rm_producer m) /\ rm_consumer m = rm_producer m /\
  len (rm_desc m) = 2 ^ k.

#[global] Instance fresh_ring_dec : Decision fresh_ring.
Proof. unfold fresh_ring. apply _. Defined.

(** C1: the two ends of a ring implement a bounded FIFO queue. In every
    interleaving of writes, reads, commits and syncs of the producing and the
    consuming end, over any number of counter wrap-arounds, the descriptors
    read are the descriptors written, in order, none lost, duplicated or
    overwritten, and never more than the ring size are in flight. *)
Theorem ring_implements_bounded_fifo tr s :
  fresh_ring -> spsc_trace (2 ^ k) (spsc_init m (2 ^ k)) tr s ->
  exists q, queue_run (2 ^ k) [] tr = Some q /\ 0 <= len q <= 2 ^ k.
Proof.
  intros (Hk & Hp & Hc & Hl) Htr.
  destruct (spsc_trace_sim k Hk _ _ _ _ Htr (spsc_init_inv k Hk m Hp Hc Hl))
    as (hist & q & (g & _ & Hord & _) & Hq).
  exists q. split; [done|]. unfold spsc_order in Hord. pose proof (len_nonneg q). lia.
Qed.

(** C33: the masked indices stay inside the descriptor array: in every reachable
    state both ends can run, the write answers "full" exactly when the producer
    sees no free slot and the read answers "empty" exactly when the consumer
    sees nothing published, and no access is out of bounds. *)
Theorem ring_accesses_in_bounds tr s v :
  fresh_ring -> spsc_trace (2 ^ k) (spsc_init m (2 ^ k)) tr s ->
  (exists o, ring_push (sp_mem s) (sp_prod s) (2 ^ k) v = Done o /\
     (o = None <-> rp_available (sp_prod s) = 0)) /\
  (exists o, ring_pop (sp_mem s) (sp_cons s) (2 ^ k) = Done o /\
     (o = None <-> rc_available (sp_cons s) = 0)).
Proof.
  intros (Hk & Hp & Hc & Hl) Htr.
  destruct (spsc_trace_sim k Hk _ _ _ _ Htr (spsc_init_inv k Hk m Hp Hc Hl))
    as (hist & q & ([pp pc sp sc] & (Hmp & Hmc & -> & ->) & Hord & Hdl & Hs) & Hq).
  unfold spsc_order in Hord. cbn [pub_p pub_c seen_p seen_c] in *.
  set (b := rm_producer m) in *. pose proof (size_bounds k Hk). split.
  - rewrite ring_push_pos, rp_available_pos by (done || lia). eexists. split; [done|].
    case_decide; split; (done || lia).
  - rewrite (rc_available_pos k Hk) by lia.
    destruct (decide (sp = b + len hist)) as [->|Hne].
    { rewrite (ring_pop_pos k Hk _ _ _ v), decide_True by (auto || lia). exists None.
      split; [done|]. split; [lia|done]. }
    destruct (len_pos_inv q ltac:(lia)) as (x & q' & ->). rewrite len_cons in *.
    rewrite (ring_pop_pos k Hk _ _ _ x), decide_False; [|done|lia|].
    + eexists. split; [done|]. split; [done|lia].
    + left. rewrite Hs, lookup_app_r by (unfold len in *; lia).
      by replace (_ - _)%nat with 0%nat by (unfold len in *; lia).
Qed.

(** What a commit publishes the other end sees after its next sync: once
    the producer commits and the consumer syncs, exactly the descriptors in
    flight can be read; once the consumer commits and the producer syncs, all
    the other slots can be written. *)
Theorem ring_commit_sync_visible tr s q :
  fresh_ring -> spsc_trace (2 ^ k) (spsc_init m (2 ^ k)) tr s ->
  queue_run (2 ^ k) [] tr = Some q ->
  rc_available (rc_sync (rp_commit (sp_mem s) (sp_prod s)) (sp_cons s) false).2 = len q /\
  rp_available (rp_sync (rc_commit (sp_mem s) (sp_cons s)) (sp_prod s) false).2 = 2 ^ k - len q.
Proof.
  intros (Hk & Hp & Hc & Hl) Htr Hq0.
  destruct (spsc_trace_sim k Hk _ _ _ _ Htr (spsc_init_inv k Hk m Hp Hc Hl))
    as (hist & q' & ([pp pc sp sc] & (Hmp & Hmc & Ep & Ec) & Hord & Hdl & Hs) & Hq).
  rewrite Hq in Hq0. injection Hq0 as <-.
  unfold spsc_order in Hord. cbn [pub_p pub_c seen_p seen_c] in *. pose proof (size_bounds k Hk).
  unfold rc_sync, rp_sync, rp_commit, rc_commit. rewrite Ep, Ec. cbn.
  rewrite (rc_available_pos k Hk), rp_available_pos by (done || lia). lia.
Qed.
End ring_properties.

(** Submitting a frame to the TX ring. With room in the ring the call
    succeeds, the slot of the next position holds the frame's address, its
    length and the options, the free-slot count drops by one and nothing is
    published to the kernel; with no room it returns the frame to the caller
    and changes nothing. *)
Theorem tx_write_spec k pw sc m frame options :
  0 <= k <= 31 -> 0 <= pw - sc <= 2 ^ k -> len (rm_desc m) = 2 ^ k ->
  let r := mkTxRing (mkRingProducer (wrap 32 pw) (wrap 32 sc) (2 ^ k)) (2 ^ k) in
  let d := mkXdpDesc (wrap 64 (f_offset frame)) (wrap 32 (f_len frame)) options in
  if TxRing_available r =? 0 then
    TxRing_write m r frame options = Done (Err (mkRingFull frame), m, r)
  else exists m' r',
    TxRing_write m r frame options = Done (Ok tt, m', r') /\
    rm_desc m' !! Z.to_nat (pw mod 2 ^ k) = Some d /\
    rm_producer m' = rm_producer m /\
    TxRing_available r' = TxRing_available r - 1 /\
    rm_producer (TxRing_commit m' r') = wrap 32 (pw + 1).
Proof.
  intros Hk Hd Hl. cbn zeta. unfold TxRing_available, TxRing_write. cbn [tx_producer tx_size].
  rewrite ring_push_pos, rp_available_pos, bind_Done by done.
  destruct (Z.eqb_spec (2 ^ k - (pw - sc)) 0).
  - by rewrite decide_True by lia.
  - rewrite decide_False by lia. eexists _, _. split; [done|]. cbn [tx_producer rm_desc rm_producer].
    rewrite list_lookup_insert_eq, rp_available_pos by
      (lia || (pose proof (size_bounds k Hk); pose proof (Z.mod_pos_bound pw (2 ^ k)); unfold len in *; lia)).
    split_and!; try done. lia.
Qed.

(** ** Witnesses *)

Definition example_ring : ring_mem Z := mkRingMem (2 ^ 32 - 1) (2 ^ 32 - 1) 0 [0; 0].

Definition example_events : list (event Z) := [Push 7; Push 8; Tau; Tau; Pop 7].

(** Two writes across the counter wrap-around, a commit, a sync and a read. *)
Lemma example_trace :
  exists s, spsc_trace (2 ^ 1) (spsc_init example_ring (2 ^ 1))
              example_events s.
Proof.
  eexists. change example_events with
    ((((([] ++ [Push 7]) ++ [Push 8]) ++ [Tau]) ++ [Tau]) ++ [@Pop Z 7]).
  repeat eapply tr_snoc; [apply tr_nil|by eapply sp_write|by eapply sp_write
    |apply sp_commit_prod|by eapply (sp_sync_cons _ _ _ _ false)|by eapply sp_read].
Qed.

Lemma ring_implements_bounded_fifo_witness :
  exists q, queue_run (2 ^ 1) [] example_events = Some q /\ 0 <= len q <= 2 ^ 1.
Proof.
  destruct example_trace as [s Hs].
  apply (ring_implements_bounded_fifo 1 example_ring example_events s); [by_decide|exact Hs].
Defined.

Lemma ring_accesses_in_bounds_witness :
  exists s : spsc Z,
  (exists o, ring_push (sp_mem s) (sp_prod s) (2 ^ 1) 9 = Done o /\
     (o = None <-> rp_available (sp_prod s) = 0)) /\
  (exists o, ring_pop (sp_mem s) (sp_cons s) (2 ^ 1) = Done o /\
     (o = None <-> rc_available (sp_cons s) = 0)).
Proof.
  destruct example_trace as [s Hs]. exists s.
  apply (ring_accesses_in_bounds 1 example_ring example_events s 9); [by_decide|exact Hs].
Defined.

Lemma ring_commit_sync_visible_witness :
  exists s : spsc Z,
  rc_available (rc_sync (rp_commit (sp_mem s) (sp_prod s)) (sp_cons s) false).2 = 1 /\
  rp_available (rp_sync (rc_commit (sp_mem s) (sp_cons s)) (sp_prod s) false).2 = 1.
Proof.
  destruct example_trace as [s Hs]. exists s.
  apply (ring_commit_sync_visible 1 example_ring example_events s [8]); [by_decide|exact Hs|reflexivity].
Defined.

Lemma tx_write_spec_witness :
  let m := mkRingMem 5 5 0 (replicate 4 (mkXdpDesc 0 0 0)) in
  let r := mkTxRing (mkRingProducer (wrap 32 5) (wrap 32 5) (2 ^ 2)) (2 ^ 2) in
  exists m' r', TxRing_write m r (mkFrame 8192 60) 0 = Done (Ok tt, m', r') /\
    rm_desc m' !! 1%nat = Some (mkXdpDesc 8192 60 0) /\ rm_producer m' = 5 /\
    TxRing_available r' = 3 /\ rm_producer (TxRing_commit m' r') = 6.
Proof.
  apply (tx_write_spec 2 5 5 (mkRingMem 5 5 0 (replicate 4 (mkXdpDesc 0 0 0))) (mkFrame 8192 60) 0);
    [lia|lia|reflexivity].
Defined.
