(* ===== verification/Netlink.v ===== *)
(** * Netlink: [src/netlink.rs]

    Reading netlink datagrams, messages and attributes, the neighbour and
    route dumps built on them, and the default-gateway search. The kernel's
    answers (socket calls and received datagrams) are arguments. Numeric
    constants are those of the Linux ABI; integers in messages are in native
    byte order, little-endian here. *)

From stdpp Require Import gmap.
From S2P Require Import Prelude Words Net.

(** ** Constants *)

Definition AF_INET : Z := 2.
Definition AF_INET6 : Z := 10.
Definition NLMSG_ERROR : Z := 2.
Definition NLMSG_DONE : Z := 3.
Definition NLM_F_REQUEST : Z := 1.
Definition NLM_F_MULTI : Z := 2.
Definition NLM_F_DUMP : Z := 0x300.
Definition RTM_NEWROUTE : Z := 24.
Definition RTM_GETROUTE : Z := 26.
Definition RTM_NEWNEIGH : Z := 28.
Definition RTM_GETNEIGH : Z := 30.
Definition RT_TABLE_MAIN : Z := 254.
Definition NLMSG_ALIGNTO : Z := 4.
Definition NLA_ALIGNTO : Z := 4.
Definition NLA_TYPE_MASK : Z := 0x3FFF.
Definition NDA_DST : Z := 1.
Definition NDA_LLADDR : Z := 2.
Definition RTA_DST : Z := 1.
Definition RTA_IIF : Z := 3.
Definition RTA_OIF : Z := 4.
Definition RTA_GATEWAY : Z := 5.
Definition RTA_PRIORITY : Z := 6.
Definition RTA_PREFSRC : Z := 7.
Definition RTA_TABLE : Z := 15.
Definition NUD_REACHABLE : Z := 2.
Definition NUD_STALE : Z := 4.
Definition NUD_PERMANENT : Z := 0x80.

(** [mem::size_of] of the C structures. *)
Definition sizeof_nlmsghdr : Z := 16.
Definition sizeof_nlmsgerr : Z := 20.
Definition sizeof_nlattr : Z := 4.
Definition sizeof_ndmsg : Z := 12.
Definition sizeof_rtmsg : Z := 12.

(** ** C structures read from byte buffers *)

(** [ptr::read_unaligned] of an [n]-byte structure at the start of a slice. *)
Definition read_pod (buf : list Z) (n : Z) : outcome (list Z) :=
  if decide (n <= len buf) then Done (take (Z.to_nat n) buf) else UB.

(** An [n]-byte little-endian field at offset [o]. *)
Definition field (l : list Z) (o n : nat) : Z := from_le_bytes (take n (drop o l)).

Record nlmsghdr := mkNlmsghdr {
  nlmsg_len : Z; nlmsg_type : Z; nlmsg_flags : Z; nlmsg_seq : Z; nlmsg_pid : Z;
}.
Definition nlmsghdr_of_bytes (l : list Z) : nlmsghdr :=
  mkNlmsghdr (field l 0 4) (field l 4 2) (field l 6 2) (field l 8 4) (field l 12 4).
Definition nlmsghdr_to_bytes (h : nlmsghdr) : list Z :=
  to_le_bytes 4 (nlmsg_len h) ++ to_le_bytes 2 (nlmsg_type h) ++ to_le_bytes 2 (nlmsg_flags h)
  ++ to_le_bytes 4 (nlmsg_seq h) ++ to_le_bytes 4 (nlmsg_pid h).

Record nlmsgerr := mkNlmsgerr { nlerr_error : Z; nlerr_msg : nlmsghdr }.
Definition nlmsgerr_of_bytes (l : list Z) : nlmsgerr :=
  mkNlmsgerr (as_i32 (field l 0 4)) (nlmsghdr_of_bytes (drop 4 l)).

Record nlattr := mkNlattr { nla_len : Z; nla_type : Z }.
Definition nlattr_of_bytes (l : list Z) : nlattr := mkNlattr (field l 0 2) (field l 2 2).

Record ndmsg := mkNdmsg {
  ndm_family : Z; ndm_pad1 : Z; ndm_pad2 : Z; ndm_ifindex : Z;
  ndm_state : Z; ndm_flags : Z; ndm_type : Z;
}.
Definition ndmsg_of_bytes (l : list Z) : ndmsg :=
  mkNdmsg (field l 0 1) (field l 1 1) (field l 2 2) (as_i32 (field l 4 4))
          (field l 8 2) (field l 10 1) (field l 11 1).
Definition ndmsg_to_bytes (m : ndmsg) : list Z :=
  to_le_bytes 1 (ndm_family m) ++ to_le_bytes 1 (ndm_pad1 m) ++ to_le_bytes 2 (ndm_pad2 m)
  ++ to_le_bytes 4 (wrap 32 (ndm_ifindex m)) ++ to_le_bytes 2 (ndm_state m)
  ++ to_le_bytes 1 (ndm_flags m) ++ to_le_bytes 1 (ndm_type m).

Record rtmsg := mkRtmsg {
  rtm_family : Z; rtm_dst_len : Z; rtm_src_len : Z; rtm_tos : Z; rtm_table : Z;
  rtm_protocol : Z; rtm_scope : Z; rtm_type : Z; rtm_flags : Z;
}.
Definition rtmsg_of_bytes (l : list Z) : rtmsg :=
  mkRtmsg (field l 0 1) (field l 1 1) (field l 2 1) (field l 3 1) (field l 4 1)
          (field l 5 1) (field l 6 1) (field l 7 1) (field l 8 4).
Definition rtmsg_to_bytes (m : rtmsg) : list Z :=
  to_le_bytes 1 (rtm_family m) ++ to_le_bytes 1 (rtm_dst_len m) ++ to_le_bytes 1 (rtm_src_len m)
  ++ to_le_bytes 1 (rtm_tos m) ++ to_le_bytes 1 (rtm_table m) ++ to_le_bytes 1 (rtm_protocol m)
  ++ to_le_bytes 1 (rtm_scope m) ++ to_le_bytes 1 (rtm_type m) ++ to_le_bytes 4 (rtm_flags m).

(** ** Data *)

Record NetlinkMessage := mkNetlinkMessage {
  nm_header : nlmsghdr;
  nm_data : list Z;
  nm_error : option nlmsgerr;
}.

Record NlAttr := mkNlAttr { na_header : nlattr; na_data : list Z }.

Inductive NlAttrError :=
  | InvalidBufferLength (size expected : Z)
  | InvalidHeaderLength (l : Z).

Record NlAttrsIterator := mkNlAttrsIterator { it_attrs : list Z; it_offset : Z }.

Record NeighborEntry := mkNeighborEntry {
  ne_destination : option IpAddr;
  ne_lladdr : option MacAddress;
  ne_ifindex : Z;
  ne_state : Z;
}.

Record RouteEntry := mkRouteEntry {
  re_destination : option IpAddr;
  re_gateway : option IpAddr;
  re_pref_src : option IpAddr;
  re_out_if_index : option Z;
  re_in_if_index : option Z;
  re_priority : option Z;
  re_table : option Z;
  re_protocol : Z;
  re_scope : Z;
  re_type : Z;
  re_family : Z;
  re_dst_len : Z;
}.

Definition NeighborEntry_is_valid (n : NeighborEntry) : bool :=
  match ne_lladdr n with Some _ => true | None => false end
  && negb (Z.land (ne_state n) (Z.lor (Z.lor NUD_REACHABLE NUD_PERMANENT) NUD_STALE) =? 0).

(** ** Parsing *)

Section parsing.
Context `{BuildProfile}.

Definition align_to (v align : Z) : outcome Z :=
  a ← sub_u 64 align 1;
  s ← add_u 64 v a;
  Done (Z.land s (not_u 64 a)).

(** [const NLA_HDR_LEN] *)
Definition NLA_HDR_LEN : Z := 4.

(** [NetlinkMessage::read] *)
Definition NetlinkMessage_read (buf : list Z) : outcome (result NetlinkMessage io_error) :=
  if decide (sizeof_nlmsghdr > len buf) then
    Done (Err (OtherError "buffer smaller than nlmsghdr"))
  else
    hdr ← read_pod buf sizeof_nlmsghdr;
    let header := nlmsghdr_of_bytes hdr in
    let msg_len := nlmsg_len header in
    if decide (msg_len < sizeof_nlmsghdr \/ msg_len > len buf) then
      Done (Err (OtherError "invalid nlmsg_len"))
    else
      data_offset ← align_to sizeof_nlmsghdr NLMSG_ALIGNTO;
      if decide (data_offset >= len buf) then Done (Err (OtherError "need more data"))
      else if decide (nlmsg_type header = wrap 16 NLMSG_ERROR) then
        if decide (data_offset + sizeof_nlmsgerr > len buf) then
          Done (Err (OtherError "NLMSG_ERROR but not enough space for nlmsgerr"))
        else
          tail ← slice_from buf data_offset;
          e ← read_pod tail sizeof_nlmsgerr;
          Done (Ok (mkNetlinkMessage header [] (Some (nlmsgerr_of_bytes e))))
      else
        data ← slice_range buf data_offset msg_len;
        Done (Ok (mkNetlinkMessage header data None)).

(** [NlAttrsIterator::next] *)
Definition NlAttrsIterator_next (it : NlAttrsIterator)
  : outcome (option (result NlAttr NlAttrError) * NlAttrsIterator) :=
  buf ← slice_from (it_attrs it) (it_offset it);
  if decide (buf = []) then Done (None, it)
  else if decide (NLA_HDR_LEN > len buf) then
    Done (Some (Err (InvalidBufferLength (len buf) NLA_HDR_LEN)),
          mkNlAttrsIterator (it_attrs it) (len buf))
  else
    hdr ← read_pod buf sizeof_nlattr;
    let attr := nlattr_of_bytes hdr in
    let l := nla_len attr in
    align_len ← align_to l NLA_ALIGNTO;
    if decide (l < NLA_HDR_LEN) then Done (Some (Err (InvalidHeaderLength l)), it)
    else if decide (align_len > len buf) then
      Done (Some (Err (InvalidBufferLength (len buf) align_len)), it)
    else
      data ← slice_range buf NLA_HDR_LEN l;
      offset ← add_u 64 (it_offset it) align_len;
      Done (Some (Ok (mkNlAttr attr data)), mkNlAttrsIterator (it_attrs it) offset).

(** The [for] loop of [parse_attrs]: one iteration. *)
Definition parse_attrs_step (s : NlAttrsIterator * gmap Z NlAttr)
  : outcome (control (NlAttrsIterator * gmap Z NlAttr) (result (gmap Z NlAttr) NlAttrError)) :=
  let '(it, attrs) := s in
  '(item, it') ← NlAttrsIterator_next it;
  Done (match item with
        | None => Break (Ok attrs)
        | Some (Err e) => Break (Err e)
        | Some (Ok attr) =>
            Continue (it', <[Z.land (nla_type (na_header attr)) NLA_TYPE_MASK := attr]> attrs)
        end).

Definition parse_attrs (buf : list Z) : outcome (result (gmap Z NlAttr) NlAttrError) :=
  loop (S (length buf)) parse_attrs_step (mkNlAttrsIterator buf 0, ∅).

Definition parse_ip_address (data : list Z) (family : Z) : outcome (option IpAddr) :=
  if decide (family = AF_INET /\ len data = 4) then
    a ← slice_get data 0; b ← slice_get data 1; c ← slice_get data 2; d ← slice_get data 3;
    Done (Some (V4 (Ipv4 a b c d)))
  else if decide (family = AF_INET6 /\ len data = 16) then
    segs ← for_each (seqZ 0 8) (fun i segs =>
             hi ← slice_get data (i * 2);
             lo ← slice_get data (i * 2 + 1);
             slice_set segs i (be_word hi lo)) (replicate 8 0);
    Done (Some (V6 (Ipv6 segs)))
  else Done None.

(** [if let Some(attr) = attrs.get(&k) { .. = parse_ip_address(attr.data, family) }] *)
Definition get_ip (attrs : gmap Z NlAttr) (k family : Z) : outcome (option IpAddr) :=
  match attrs !! k with
  | Some a => parse_ip_address (na_data a) family
  | None => Done None
  end.

(** The closure [u32_from_ne_bytes] and its uses. *)
Definition u32_from_ne_bytes (data : list Z) : option Z :=
  if decide (4 <= len data) then Some (from_le_bytes (take 4 data)) else None.
Definition get_u32 (attrs : gmap Z NlAttr) (k : Z) : option Z :=
  a ← attrs !! k; u32_from_ne_bytes (na_data a).

Definition parse_rtm_newneigh (msg : NetlinkMessage) (if_index : option Z)
  : outcome (option NeighborEntry) :=
  pod ← read_pod (nm_data msg) sizeof_ndmsg;
  let nd_msg := ndmsg_of_bytes pod in
  if (match if_index with Some idx => negb (ndm_ifindex nd_msg =? idx) | None => false end)
  then Done None
  else
    rest ← slice_from (nm_data msg) sizeof_ndmsg;
    r ← parse_attrs rest;
    match r with
    | Err _ => Done None
    | Ok attrs =>
        destination ← get_ip attrs NDA_DST (ndm_family nd_msg);
        lladdr ← match attrs !! NDA_LLADDR with
                 | Some a =>
                     if decide (len (na_data a) >= 6) then
                       mac ← slice_range (na_data a) 0 6; Done (Some (Mac mac))
                     else Done None
                 | None => Done None
                 end;
        Done (Some (mkNeighborEntry destination lladdr (ndm_ifindex nd_msg) (ndm_state nd_msg)))
    end.

Definition parse_rtm_newroute (msg : NetlinkMessage) : outcome (option RouteEntry) :=
  pod ← read_pod (nm_data msg) sizeof_rtmsg;
  let rt_msg := rtmsg_of_bytes pod in
  rest ← slice_from (nm_data msg) sizeof_rtmsg;
  r ← parse_attrs rest;
  match r with
  | Err _ => Done None
  | Ok attrs =>
      destination ← get_ip attrs RTA_DST (rtm_family rt_msg);
      gateway ← get_ip attrs RTA_GATEWAY (rtm_family rt_msg);
      let out_if_index := as_i32 <$> get_u32 attrs RTA_OIF in
      let in_if_index := as_i32 <$> get_u32 attrs RTA_IIF in
      let priority := get_u32 attrs RTA_PRIORITY in
      let table := get_u32 attrs RTA_TABLE in
      pref_src ← get_ip attrs RTA_PREFSRC (rtm_family rt_msg);
      Done (Some (mkRouteEntry destination gateway pref_src out_if_index in_if_index priority table
                    (rtm_protocol rt_msg) (rtm_scope rt_msg) (rtm_type rt_msg)
                    (rtm_family rt_msg) (rtm_dst_len rt_msg)))
  end.
End parsing.

(** ** The netlink socket and the dumps *)

(** The answer to one [recv] call: an error, or the datagram's bytes (at most
    the 4096 bytes asked for; none when the peer has shut down). *)
Inductive recv_result :=
  | RecvErr
  | RecvBytes (bs : list Z).

(** What the kernel answers to the calls on one netlink socket. *)
Record netlink_kernel := mkNetlinkKernel {
  nk_socket : Z;
  nk_setsockopt : Z;
  nk_getsockname : Z;
  nk_pid : Z;
  nk_send : list Z -> Z;
  nk_recv : list recv_result;
}.

Record NetlinkSocket := mkNetlinkSocket { ns_sock : Z; ns_nl_pid : Z }.

Definition NetlinkSocket_open (kn : netlink_kernel) : result NetlinkSocket io_error :=
  if nk_socket kn <? 0 then Err LastOsError
  else if nk_setsockopt kn <? 0 then Err LastOsError
  else if nk_getsockname kn <? 0 then Err LastOsError
  else Ok (mkNetlinkSocket (nk_socket kn) (nk_pid kn)).

Definition NetlinkSocket_send (kn : netlink_kernel) (msg : list Z) : result unit io_error :=
  if nk_send kn msg <? 0 then Err LastOsError else Ok tt.

Section socket.
Context `{BuildProfile}.

(** [-e] on an [i32]. *)
Definition neg_i32 (e : Z) : outcome Z :=
  if decide (e = - 2 ^ 31) then
    if debug_assertions then Panic ArithmeticOverflow else Done e
  else Done (- e).

(** How the inner [while offset < len] loop ends. *)
Inductive datagram_end :=
  | DatagramDone (multipart : bool) (messages : list NetlinkMessage)
  | DumpDone (messages : list NetlinkMessage)
  | DumpFailed (e : io_error).

Definition recv_datagram_step (buf : list Z) (n : Z)
  (s : Z * bool * list NetlinkMessage)
  : outcome (control (Z * bool * list NetlinkMessage) datagram_end) :=
  let '(offset, multipart, messages) := s in
  if decide (offset < n) then
    tail ← slice_from buf offset;
    r ← NetlinkMessage_read tail;
    match r with
    | Err e => Done (Break (DumpFailed e))
    | Ok message =>
        a ← align_to (nlmsg_len (nm_header message)) NLMSG_ALIGNTO;
        offset ← add_u 64 offset a;
        let multipart := negb (Z.land (nlmsg_flags (nm_header message)) (wrap 16 NLM_F_MULTI) =? 0) in
        if decide (nlmsg_type (nm_header message) = NLMSG_ERROR) then
          err ← unwrap (nm_error message);
          if decide (nlerr_error err = 0) then Done (Continue (offset, multipart, messages))
          else e ← neg_i32 (nlerr_error err); Done (Break (DumpFailed (RawOsError e)))
        else if decide (nlmsg_type (nm_header message) = NLMSG_DONE) then
          Done (Break (DumpDone messages))
        else Done (Continue (offset, multipart, vec_push messages message))
    end
  else Done (Break (DatagramDone multipart messages)).

(** Every message is at least 16 bytes long: 257 rounds cover a 4096-byte
    buffer. *)
Definition datagram_fuel : nat := 257.

Definition recv_datagram (buf : list Z) (n : Z) (messages : list NetlinkMessage)
  : outcome datagram_end :=
  loop datagram_fuel (recv_datagram_step buf n) (0, false, messages).

(** [NetlinkSocket::recv]: the buffer keeps what earlier datagrams left in it.
    [OutOfFuel] when the kernel has no further answer: the call blocks. *)
Fixpoint recv_loop (answers : list recv_result) (buf : list Z) (messages : list NetlinkMessage)
  : outcome (result (list NetlinkMessage) io_error) :=
  match answers with
  | [] => OutOfFuel
  | RecvErr :: _ => Done (Err LastOsError)
  | RecvBytes bs :: answers' =>
      if decide (len bs = 0) then Done (Ok messages)
      else
        let buf := bs ++ drop (length bs) buf in
        e ← recv_datagram buf (len bs) messages;
        match e with
        | DumpFailed e => Done (Err e)
        | DumpDone messages => Done (Ok messages)
        | DatagramDone multipart messages =>
            if multipart then recv_loop answers' buf messages else Done (Ok messages)
        end
  end.

Definition NetlinkSocket_recv (kn : netlink_kernel)
  : outcome (result (list NetlinkMessage) io_error) :=
  recv_loop (nk_recv kn) (replicate 4096 0) [].

(** The [for msg in sock.recv()?] loops: keep messages of one type that are
    long enough and parse. *)
Definition collect {A} (ty size : Z) (parse : NetlinkMessage -> outcome (option A))
  (msgs : list NetlinkMessage) : outcome (list A) :=
  for_each msgs (fun msg acc =>
    if decide (nlmsg_type (nm_header msg) <> ty) then Done acc
    else if decide (len (nm_data msg) < size) then Done acc
    else
      o ← parse msg;
      Done (match o with None => acc | Some a => vec_push acc a end)) [].

(** The request of [netlink_get_neighbors]. *)
Definition neigh_request (if_index : option Z) (family : Z) : list Z :=
  let nlmsg_len := sizeof_nlmsghdr + sizeof_ndmsg in
  nlmsghdr_to_bytes (mkNlmsghdr (wrap 32 nlmsg_len) RTM_GETNEIGH
                       (wrap 16 (Z.lor NLM_F_REQUEST NLM_F_DUMP)) 1 0)
  ++ ndmsg_to_bytes (mkNdmsg family 0 0 (default 0 if_index) 0 0 0).

Definition netlink_get_neighbors (kn : netlink_kernel) (if_index : option Z) (family : Z)
  : outcome (result (list NeighborEntry) io_error) :=
  _ ←? Done (NetlinkSocket_open kn);
  let req := neigh_request if_index family in
  msg ← slice_range req 0 (nlmsg_len (nlmsghdr_of_bytes (take 16 req)));
  _ ←? Done (NetlinkSocket_send kn msg);
  msgs ←? NetlinkSocket_recv kn;
  l ← collect RTM_NEWNEIGH sizeof_ndmsg (fun msg => parse_rtm_newneigh msg if_index) msgs;
  Done (Ok l).

(** The request of [netlink_get_routes]. *)
Definition route_request (family : Z) : list Z :=
  let nlmsg_len := sizeof_nlmsghdr + sizeof_rtmsg in
  nlmsghdr_to_bytes (mkNlmsghdr (wrap 32 nlmsg_len) RTM_GETROUTE
                       (wrap 16 (Z.lor NLM_F_REQUEST NLM_F_DUMP)) 1 0)
  ++ rtmsg_to_bytes (mkRtmsg family 0 0 0 RT_TABLE_MAIN 0 0 0 0).

Definition netlink_get_routes (kn : netlink_kernel) (family : Z)
  : outcome (result (list RouteEntry) io_error) :=
  _ ←? Done (NetlinkSocket_open kn);
  let req := route_request family in
  msg ← slice_range req 0 (nlmsg_len (nlmsghdr_of_bytes (take 16 req)));
  _ ←? Done (NetlinkSocket_send kn msg);
  msgs ←? NetlinkSocket_recv kn;
  l ← collect RTM_NEWROUTE sizeof_rtmsg parse_rtm_newroute msgs;
  Done (Ok l).

(** The test of the default-gateway loop. *)
Definition is_default_destination (route : RouteEntry) (family : Z) : bool :=
  match re_destination route with
  | None => true
  | Some (V4 addr) =>
      if decide (family = AF_INET) then ipv4_is_unspecified addr && (re_dst_len route =? 0) else false
  | Some (V6 addr) =>
      if decide (family = AF_INET6) then ipv6_is_unspecified addr && (re_dst_len route =? 0) else false
  end.

Definition netlink_get_default_gateway (kn : netlink_kernel) (family : Z)
  : outcome (result (option RouteEntry) io_error) :=
  routes ←? netlink_get_routes kn family;
  Done (Ok (snd <$> list_find (fun route =>
    is_default_destination route family = true /\ is_Some (re_gateway route)) routes)).
End socket.

(** ** Totality of the parsers *)

Section netlink_facts.
Context `{BuildProfile}.

Lemma align_to_4 v : 0 <= v -> v + 3 < 2 ^ 64 -> align_to v 4 = Done ((v + 3) / 4 * 4).
Proof.
  intros Hv Hlt. unfold align_to. rewrite sub_u_Done, bind_Done, add_u_Done, bind_Done by lia.
  change (4 - 1) with (2 ^ 2 - 1). rewrite (land_not_u (v + (2 ^ 2 - 1)) 64 2) by (lia || unfold is_uint; lia).
  f_equal. change (2 ^ 2) with 4. div_lia.
Qed.

Lemma read_pod_Done buf n : n <= len buf -> read_pod buf n = Done (take (Z.to_nat n) buf).
Proof. intros. unfold read_pod. by rewrite decide_True. Qed.

Lemma field_range l o n : bytes_ok l -> 0 <= field l o n < 256 ^ Z.of_nat n.
Proof.
  intros Hl. unfold field.
  pose proof (from_le_bytes_range (take n (drop o l)) (Forall_take _ _ _ (Forall_drop _ _ _ Hl))) as Hr.
  pose proof (Z.pow_le_mono_r 256 (len (take n (drop o l))) (Z.of_nat n)).
  rewrite len_take in *. lia.
Qed.

Lemma bytes_take_drop l o n : bytes_ok l -> bytes_ok (take n (drop o l)).
Proof. intros. by apply Forall_take, Forall_drop. Qed.

(** One step of the attribute iterator, on any bytes. *)
Lemma NlAttrsIterator_next_total it :
  bytes_ok (it_attrs it) -> len (it_attrs it) < 2 ^ 63 -> 0 <= it_offset it <= len (it_attrs it) ->
  exists item it', NlAttrsIterator_next it = Done (item, it') /\ it_attrs it' = it_attrs it /\
    match item with
    | Some (Ok _) => it_offset it + 4 <= it_offset it' <= len (it_attrs it)
    | Some (Err _) => True
    | None => it_offset it = len (it_attrs it)
    end.
Proof.
  destruct it as [attrs off]. cbn. intros Hb Hl Ho. unfold NlAttrsIterator_next. cbn.
  rewrite slice_from_Done, bind_Done by lia. set (buf := drop _ _).
  assert (len buf = len attrs - off) as Hbl by (unfold buf; rewrite len_drop; lia).
  case_decide as Hn.
  { eexists _, _. split_and!; [done|done|]. rewrite Hn, len_nil in Hbl. cbn. lia. }
  case_decide; [by eexists _, _|]. unfold NLA_HDR_LEN in *.
  unfold sizeof_nlattr. rewrite read_pod_Done, bind_Done by lia.
  set (hdr := take _ buf). assert (bytes_ok hdr) as Hh by by apply bytes_take_drop.
  pose proof (field_range hdr 0 2 Hh) as Hf. cbn [nla_len nlattr_of_bytes] in *.
  set (n := field hdr 0 2) in *. change (256 ^ Z.of_nat 2) with 65536 in Hf.
  unfold NLA_ALIGNTO. rewrite align_to_4, bind_Done by lia.
  case_decide; [by eexists _, _|]. case_decide; [by eexists _, _|].
  rewrite slice_range_Done, bind_Done, add_u_Done, bind_Done by div_lia.
  eexists _, _. split; [done|]. cbn. split; [done|]. div_lia.
Qed.

Lemma parse_attrs_total buf :
  bytes_ok buf -> len buf < 2 ^ 63 -> exists r, parse_attrs buf = Done r.
Proof.
  intros Hb Hl. unfold parse_attrs.
  set (Inv := fun s : NlAttrsIterator * gmap Z NlAttr =>
    it_attrs s.1 = buf /\ 0 <= it_offset s.1 <= len buf).
  destruct (loop_spec Inv (fun _ => True) (fun s => Z.to_nat (len buf - it_offset s.1))
    parse_attrs_step) with (fuel := S (length buf)) (s := (mkNlAttrsIterator buf 0, ∅ : gmap Z NlAttr))
    as (r & -> & _); [| |cbn; unfold len; lia|by eexists].
  - intros [it m] [Ea Ho]. cbn in Ea, Ho. unfold parse_attrs_step.
    destruct (NlAttrsIterator_next_total it) as (item & it' & -> & Ea' & Hi);
      [by rewrite Ea|by rewrite Ea|by rewrite Ea|]. rewrite bind_Done. eexists. split; [done|].
    destruct item as [[a|e]|]; [|done|done]. unfold Inv. cbn. rewrite Ea', Ea in *.
    split; [split; [done|lia]|lia].
  - unfold Inv. cbn. pose proof (len_nonneg buf). split; [done|lia].
Qed.

Lemma NetlinkMessage_read_total buf :
  bytes_ok buf -> len buf < 2 ^ 63 ->
  exists r, NetlinkMessage_read buf = Done r /\
    match r with
    | Ok msg => 16 <= nlmsg_len (nm_header msg) <= len buf /\
                (nlmsg_type (nm_header msg) = NLMSG_ERROR -> is_Some (nm_error msg)) /\
                nlmsg_len (nm_header msg) = field buf 0 4
    | Err _ => True
    end.
Proof.
  intros Hb Hl. unfold NetlinkMessage_read, sizeof_nlmsghdr.
  case_decide; [by eexists|]. rewrite read_pod_Done, bind_Done by lia.
  set (hdr := nlmsghdr_of_bytes _).
  assert (nlmsg_len hdr = field buf 0 4) as Ehl.
  { change (from_le_bytes (take 4 (take 16 buf)) = from_le_bytes (take 4 buf)).
    by rewrite take_take. }
  case_decide as Hd1; [by eexists|]. apply Decidable.not_or in Hd1 as [Hd1 Hd1'].
  change (align_to 16 NLMSG_ALIGNTO) with (align_to 16 4).
  rewrite align_to_4, bind_Done by lia. change ((16 + 3) / 4 * 4) with 16.
  case_decide; [by eexists|]. change (wrap 16 NLMSG_ERROR) with NLMSG_ERROR.
  case_decide.
  - unfold sizeof_nlmsgerr. case_decide; [by eexists|].
    rewrite slice_from_Done, bind_Done, read_pod_Done, bind_Done by (rewrite ?len_drop; lia).
    eexists. split; [done|]. cbn [nm_header nm_error]. split_and!; [lia|lia|eauto|done].
  - rewrite slice_range_Done, bind_Done by lia.
    eexists. split; [done|]. cbn [nm_header nm_error]. split_and!; [lia|lia|done|done].
Qed.

(** The only panic the receive path can raise: negating [i32::MIN]. *)
Definition neg_overflow (p : panic_reason) : Prop := p = ArithmeticOverflow /\ debug_assertions = true.

Lemma recv_datagram_total buf n messages :
  bytes_ok buf -> len buf = 4096 -> n <= 4096 ->
  (exists e, recv_datagram buf n messages = Done e) \/
  (exists p, recv_datagram buf n messages = Panic p /\ neg_overflow p).
Proof.
  intros Hb Hl Hn. unfold recv_datagram.
  destruct (loop_spec_panic
    (fun s : Z * bool * list NetlinkMessage => 0 <= s.1.1 <= 4096 /\ s.1.1 mod 4 = 0)
    (fun _ => True) neg_overflow (fun s => Z.to_nat ((4096 - s.1.1) / 16))
    (recv_datagram_step buf n)) with (fuel := datagram_fuel) (s := (0, false, messages))
    as [(e & He & _)|(p & Hp & Hq)]; [|done|by compute; lia|left|right]; [|by eexists|by eexists].
  intros [[off mp] msgs] [Ho Hm]. cbn in Ho, Hm. unfold recv_datagram_step.
  case_decide; [|left; by eexists].
  rewrite slice_from_Done, bind_Done by lia. set (tail := drop _ _).
  assert (len tail = 4096 - off) as Htl by (unfold tail; rewrite len_drop; lia).
  assert (bytes_ok tail) as Htb by by apply Forall_drop.
  destruct (NetlinkMessage_read_total tail Htb ltac:(lia)) as ([msg|e] & -> & Hr);
    rewrite bind_Done; [|left; by eexists].
  destruct Hr as (Hlen & Herr & _). unfold NLMSG_ALIGNTO.
  rewrite align_to_4, bind_Done, add_u_Done, bind_Done by div_lia.
  set (a := (_ + 3) / 4 * 4).
  assert (16 <= a <= 4096 - off /\ a mod 4 = 0) as [Ha Ha4] by (unfold a; div_lia).
  assert (0 <= off + a <= 4096 /\ (off + a) mod 4 = 0) as Hnext by div_lia.
  assert ((Z.to_nat ((4096 - (off + a)) / 16) < Z.to_nat ((4096 - off) / 16))%nat) as Hdec by div_lia.
  clearbody a. case_decide as Hty; [|case_decide; left; eexists; (split; [done|]); by cbn].
  destruct (Herr Hty) as [err ->]. cbn [unwrap]. rewrite bind_Done.
  case_decide; [left; eexists; (split; [done|]); by cbn|].
  unfold neg_i32. case_decide; [|left; rewrite bind_Done; by eexists].
  destruct debug_assertions eqn:Ed; [right|left].
  - by eexists.
  - rewrite bind_Done. by eexists.
Qed.
End netlink_facts.

(** ** Specification: the wire format *)

(** An attribute as the kernel writes it: header, payload, padding to four
    bytes. *)
Definition encode_attr (a : Z * list Z) : list Z :=
  to_le_bytes 2 (4 + len a.2) ++ to_le_bytes 2 a.1 ++ a.2
  ++ replicate (Z.to_nat ((- len a.2) mod 4)) 0.
Definition encode_attrs (l : list (Z * list Z)) : list Z := concat (encode_attr <$> l).

Definition attr_ok (a : Z * list Z) : Prop := is_u16 a.1 /\ 4 + len a.2 < 2 ^ 16.
#[global] Instance attr_ok_dec a : Decision (attr_ok a).
Proof. unfold attr_ok. apply _. Defined.

(** The attribute map: a later attribute of the same type replaces an earlier
    one; the two flag bits of the type are ignored. *)
Definition attr_insert (m : gmap Z NlAttr) (a : Z * list Z) : gmap Z NlAttr :=
  <[Z.land a.1 NLA_TYPE_MASK := mkNlAttr (mkNlattr (4 + len a.2) a.1) a.2]> m.
Definition attr_map (l : list (Z * list Z)) : gmap Z NlAttr := foldl attr_insert ∅ l.

Definition opt_attr {A} (k : Z) (f : A -> list Z) (o : option A) : list (Z * list Z) :=
  match o with Some x => [(k, f x)] | None => [] end.

Definition ip_octets (a : IpAddr) : list Z :=
  match a with V4 a => octets a | V6 a => concat (u16_to_be_bytes <$> segments a) end.
Definition u32_bytes (x : Z) : list Z := to_le_bytes 4 (wrap 32 x).

Definition route_attrs (r : RouteEntry) : list (Z * list Z) :=
  opt_attr RTA_TABLE u32_bytes (re_table r) ++ opt_attr RTA_DST ip_octets (re_destination r)
  ++ opt_attr RTA_PRIORITY u32_bytes (re_priority r) ++ opt_attr RTA_GATEWAY ip_octets (re_gateway r)
  ++ opt_attr RTA_PREFSRC ip_octets (re_pref_src r) ++ opt_attr RTA_OIF u32_bytes (re_out_if_index r)
  ++ opt_attr RTA_IIF u32_bytes (re_in_if_index r).

(** The [RTM_NEWROUTE] payload for a route. *)
Definition encode_route (r : RouteEntry) : list Z :=
  rtmsg_to_bytes (mkRtmsg (re_family r) (re_dst_len r) 0 0 0 (re_protocol r) (re_scope r)
                    (re_type r) 0) ++ encode_attrs (route_attrs r).

Definition opt_ok {A} (P : A -> Prop) (o : option A) : Prop := match o with Some x => P x | None => True end.
(** An address of the family: four octets, or eight 16-bit segments. *)
Definition in_family (family : Z) (a : IpAddr) : Prop :=
  match a with V4 _ => family = AF_INET | V6 a => family = AF_INET6 /\ ipv6_ok a end.
Definition is_i32 (x : Z) : Prop := - 2 ^ 31 <= x < 2 ^ 31.

(** A route as the IPv4 or the IPv6 table holds it. *)
Definition route_ok (r : RouteEntry) : Prop :=
  opt_ok (in_family (re_family r)) (re_destination r) /\ opt_ok (in_family (re_family r)) (re_gateway r) /\
  opt_ok (in_family (re_family r)) (re_pref_src r) /\
  opt_ok is_i32 (re_out_if_index r) /\ opt_ok is_i32 (re_in_if_index r) /\
  opt_ok is_u32 (re_priority r) /\ opt_ok is_u32 (re_table r) /\
  is_u8 (re_protocol r) /\ is_u8 (re_scope r) /\ is_u8 (re_type r) /\
  (re_family r = AF_INET \/ re_family r = AF_INET6) /\ is_u8 (re_dst_len r).

Section roundtrip.
Context `{BuildProfile}.

Lemma encode_attr_len a : len (encode_attr a) = (4 + len a.2 + 3) / 4 * 4.
Proof.
  unfold encode_attr. rewrite !len_app, !to_le_bytes_len, len_replicate.
  pose proof (Z.mod_pos_bound (- len a.2) 4). div_lia.
Qed.

Lemma take_app_exact {A} (l1 l2 : list A) n : n = length l1 -> take n (l1 ++ l2) = l1.
Proof. intros ->. by rewrite take_app_length. Qed.
Lemma drop_app_exact {A} (l1 l2 : list A) n : n = length l1 -> drop n (l1 ++ l2) = l2.
Proof. intros ->. by rewrite drop_app_length. Qed.

(** The iterator reads back one encoded attribute. *)
Lemma next_encoded pre a post :
  attr_ok a -> len (pre ++ encode_attr a ++ post) < 2 ^ 63 ->
  NlAttrsIterator_next (mkNlAttrsIterator (pre ++ encode_attr a ++ post) (len pre))
  = Done (Some (Ok (mkNlAttr (mkNlattr (4 + len a.2) a.1) a.2)),
          mkNlAttrsIterator (pre ++ encode_attr a ++ post) (len (pre ++ encode_attr a))).
Proof.
  destruct a as [t d]. intros [Ht Hd] Hl. cbn [fst snd] in *.
  unfold NlAttrsIterator_next. cbn [it_attrs it_offset].
  pose proof (encode_attr_len (t, d)) as Hel. cbn [fst snd] in Hel.
  pose proof (len_nonneg pre). pose proof (len_nonneg post). pose proof (len_nonneg d).
  rewrite !len_app in Hl.
  rewrite slice_from_Done, bind_Done, drop_app_exact by (rewrite ?len_app; unfold len in *; lia).
  set (buf := encode_attr (t, d) ++ post). assert (len buf = len (encode_attr (t, d)) + len post) as Hbl
    by apply len_app.
  rewrite decide_False by (intros E; rewrite E, len_nil in Hbl; div_lia).
  unfold NLA_HDR_LEN, sizeof_nlattr, NLA_ALIGNTO. rewrite decide_False by div_lia.
  rewrite read_pod_Done, bind_Done by div_lia.
  assert (nlattr_of_bytes (take (Z.to_nat 4) buf) = mkNlattr (4 + len d) t) as ->.
  { unfold nlattr_of_bytes, field. f_equal; apply (from_to_le_bytes 2); unfold is_uint in *; lia. }
  cbn [nla_len]. rewrite align_to_4, bind_Done by lia.
  rewrite !decide_False by div_lia. rewrite slice_range_Done, bind_Done by div_lia.
  rewrite add_u_Done, bind_Done by div_lia. rewrite len_app, Hel.
  do 5 f_equal. change (drop (Z.to_nat 4) buf)
    with ((d ++ replicate (Z.to_nat ((- len d) mod 4)) 0) ++ post).
  rewrite <-app_assoc. apply take_app_exact. unfold len. lia.
Qed.

Lemma parse_attrs_step_Ok it m attr it' :
  NlAttrsIterator_next it = Done (Some (Ok attr), it') ->
  parse_attrs_step (it, m)
  = Done (Continue (it', <[Z.land (nla_type (na_header attr)) NLA_TYPE_MASK := attr]> m)).
Proof. intros E. unfold parse_attrs_step. by rewrite E. Qed.

Lemma parse_attrs_loop_encoded l pre m fuel :
  Forall attr_ok l -> len (pre ++ encode_attrs l) < 2 ^ 63 -> (length l < fuel)%nat ->
  loop fuel parse_attrs_step (mkNlAttrsIterator (pre ++ encode_attrs l) (len pre), m)
  = Done (Ok (foldl attr_insert m l)).
Proof.
  revert pre m fuel. induction l as [|a l IH]; intros pre m [|fuel] Hok Hl Hf; cbn in Hf; try lia.
  - cbn [loop]. unfold parse_attrs_step, NlAttrsIterator_next. cbn [it_attrs it_offset].
    change (encode_attrs []) with (@nil Z). rewrite app_nil_r.
    rewrite slice_from_Done, bind_Done, drop_ge by (pose proof (len_nonneg pre); unfold len; lia).
    done.
  - apply Forall_cons in Hok as [Ha Hok].
    change (encode_attrs (a :: l)) with (encode_attr a ++ encode_attrs l) in *.
    cbn [loop]. erewrite parse_attrs_step_Ok by (by apply next_encoded).
    rewrite bind_Done. cbn [na_header nla_type foldl]. rewrite app_assoc in *.
    apply IH; [done|done|lia].
Qed.

Lemma attr_count_le l : (length l <= length (encode_attrs l))%nat.
Proof.
  induction l as [|a l IH]; [done|].
  change (encode_attrs (a :: l)) with (encode_attr a ++ encode_attrs l).
  rewrite length_app. cbn [length]. unfold encode_attr. cbn. lia.
Qed.

Lemma parse_attrs_encoded l :
  Forall attr_ok l -> len (encode_attrs l) < 2 ^ 63 ->
  parse_attrs (encode_attrs l) = Done (Ok (attr_map l)).
Proof.
  intros Hok Hl. unfold parse_attrs.
  apply (parse_attrs_loop_encoded l [] ∅); [done|done|]. pose proof (attr_count_le l). lia.
Qed.

Lemma parse_ip_address_v4 a : parse_ip_address (octets a) AF_INET = Done (Some (V4 a)).
Proof. by destruct a. Qed.

Lemma be_word_u16_to_be x : is_u16 x -> be_word (Z.land (Z.shiftr x 8) 255) (Z.land x 255) = x.
Proof. intros Hx. by apply be_word_to_be_bytes. Qed.

Lemma ipv6_octets_len a : ipv6_ok a -> len (ip_octets (V6 a)) = 16.
Proof.
  destruct a as [l]. intros [Hl _]. cbn in Hl. do 8 (destruct l as [|? l]; [done|]). by destruct l.
Qed.

(** The sixteen octets of an IPv6 address are read as its eight segments. *)
Lemma parse_ip_address_v6 a : ipv6_ok a -> parse_ip_address (ip_octets (V6 a)) AF_INET6 = Done (Some (V6 a)).
Proof.
  destruct a as [l]. intros [Hl Hs]. cbn in Hl, Hs.
  do 8 (destruct l as [|? l]; [done|]). destruct l; [|done].
  rewrite !Forall_cons in Hs. destruct_and! Hs.
  unfold parse_ip_address. rewrite decide_False by (by intros [? _]). rewrite decide_True by done.
  transitivity (Done (Some (V6 (Ipv6 ((fun x => be_word (Z.land (Z.shiftr x 8) 255) (Z.land x 255))
    <$> [z; z0; z1; z2; z3; z4; z5; z6]))))); [reflexivity|].
  cbn -[be_word Z.land Z.shiftr]. by rewrite !be_word_u16_to_be by done.
Qed.

Lemma as_i32_bytes i : is_i32 i -> as_i32 (from_le_bytes (u32_bytes i)) = i.
Proof.
  intros Hi. unfold u32_bytes. rewrite from_to_le_bytes by (apply (wrap_range 32); lia).
  unfold as_i32. rewrite wrap_wrap by lia. unfold is_i32, wrap in *. 
  destruct (Z.ltb_spec (i mod 2 ^ 32) (2 ^ 31)); div_lia.
Qed.

Lemma u32_from_bytes x : is_u32 x -> from_le_bytes (u32_bytes x) = x.
Proof.
  intros Hx. unfold u32_bytes. rewrite wrap_small by done. by apply from_to_le_bytes.
Qed.
End roundtrip.

Section roundtrip_messages.
Context `{BuildProfile}.

Lemma rtmsg_roundtrip fam dst proto scope ty :
  is_u8 fam -> is_u8 dst -> is_u8 proto -> is_u8 scope -> is_u8 ty ->
  let m := mkRtmsg fam dst 0 0 0 proto scope ty 0 in rtmsg_of_bytes (rtmsg_to_bytes m) = m.
Proof.
  unfold is_uint. intros ? ? ? ? ?. cbn zeta. unfold rtmsg_of_bytes, field.
  f_equal; try reflexivity; cbn -[Z.add Z.mul Z.modulo Z.div]; div_lia.
Qed.

Lemma ndmsg_roundtrip m :
  is_u8 (ndm_family m) -> is_u8 (ndm_pad1 m) -> is_u16 (ndm_pad2 m) -> is_i32 (ndm_ifindex m) ->
  is_u16 (ndm_state m) -> is_u8 (ndm_flags m) -> is_u8 (ndm_type m) ->
  ndmsg_of_bytes (ndmsg_to_bytes m) = m.
Proof.
  destruct m as [fam p1 p2 idx st fl ty]. unfold is_uint. cbn -[Z.pow]. intros ? ? ? Hi ? ? ?.
  unfold ndmsg_of_bytes, field. f_equal; try (cbn -[Z.add Z.mul Z.modulo Z.div]; div_lia).
  by apply as_i32_bytes.
Qed.

(** Look up every attribute of an encoded route. *)
Lemma ip_octets_len family a : in_family family a -> len (ip_octets a) <= 16.
Proof. destruct a as [a|a]; cbn [in_family]; [done|]. intros [_ Ha]. by rewrite ipv6_octets_len. Qed.

Lemma route_attrs_ok r : route_ok r -> Forall attr_ok (route_attrs r).
Proof.
  intros (Hd & Hg & Hps & _).
  assert (forall k f (o : option Z), is_u16 k -> (forall x, len (f x) = 4) -> Forall attr_ok (opt_attr k f o)) as H1.
  { intros k f [x|] Hk Hf; cbn; [|done]. constructor; [|done]. split; cbn; [done|rewrite Hf; done]. }
  assert (forall k o, is_u16 k -> opt_ok (in_family (re_family r)) o ->
    Forall attr_ok (opt_attr k ip_octets o)) as H2.
  { intros k [a|] Hk Ha; cbn [opt_attr]; [|done]. constructor; [|done]. split; cbn [fst snd]; [done|].
    pose proof (ip_octets_len _ a Ha). lia. }
  unfold route_attrs. rewrite !Forall_app.
  split_and!; (apply H1 || apply H2); try done; intros; apply to_le_bytes_len.
Qed.

Lemma len_encode_attrs l : len (encode_attrs l) = foldr (fun a n => (4 + len a.2 + 3) / 4 * 4 + n) 0 l.
Proof.
  induction l as [|a l IH]; [done|].
  change (encode_attrs (a :: l)) with (encode_attr a ++ encode_attrs l).
  by rewrite len_app, encode_attr_len, IH.
Qed.

Definition padded_size (a : Z * list Z) : Z := (4 + len a.2 + 3) / 4 * 4.

Lemma opt_attr_size {A} k (f : A -> list Z) o l n :
  opt_ok (fun x => len (f x) <= 16) o -> foldr (fun a n => padded_size a + n) 0 l <= n ->
  foldr (fun a n => padded_size a + n) 0 (opt_attr k f o ++ l) <= 20 + n.
Proof.
  intros Hf Hl. destruct o as [x|]; cbn [opt_attr app foldr]; [|lia].
  unfold padded_size at 1. cbn [snd]. cbn in Hf. div_lia.
Qed.

Lemma route_attrs_len r : route_ok r -> len (encode_attrs (route_attrs r)) <= 140.
Proof.
  intros (Hd & Hg & Hps & _).
  rewrite len_encode_attrs. change (foldr _ 0 (route_attrs r))
    with (foldr (fun a n => padded_size a + n) 0 (route_attrs r)). unfold route_attrs.
  rewrite <-(app_nil_r (opt_attr RTA_IIF u32_bytes (re_in_if_index r))).
  assert (forall o, opt_ok (fun x => len (u32_bytes x) <= 16) o) as Hu
    by (intros [x|]; [cbn [opt_ok]; unfold u32_bytes; by rewrite to_le_bytes_len|done]).
  assert (forall o, opt_ok (in_family (re_family r)) o -> opt_ok (fun a => len (ip_octets a) <= 16) o) as Hi
    by (intros [a|]; [apply ip_octets_len|done]).
  change 140 with (20 + (20 + (20 + (20 + (20 + (20 + (20 + 0))))))).
  repeat (apply opt_attr_size; [auto|]). done.
Qed.

Lemma attr_map_lookup r :
  let m := attr_map (route_attrs r) in
  let get := fun k => na_data <$> m !! k in
  get RTA_DST = ip_octets <$> re_destination r /\ get RTA_GATEWAY = ip_octets <$> re_gateway r /\
  get RTA_PREFSRC = ip_octets <$> re_pref_src r /\ get RTA_OIF = u32_bytes <$> re_out_if_index r /\
  get RTA_IIF = u32_bytes <$> re_in_if_index r /\ get RTA_PRIORITY = u32_bytes <$> re_priority r /\
  get RTA_TABLE = u32_bytes <$> re_table r.
Proof.
  destruct r as [dst gw ps oif iif pri tab proto sc ty fam dl].
  cbn [re_destination re_gateway re_pref_src re_out_if_index re_in_if_index re_priority re_table].
  destruct tab, dst, pri, gw, ps, oif, iif; cbn zeta; split_and!; reflexivity.
Qed.

Lemma attr_insert_keep m k l :
  Forall (fun a => Z.land a.1 NLA_TYPE_MASK <> k) l -> foldl attr_insert m l !! k = m !! k.
Proof.
  intros Hk. revert m. induction Hk as [|a l Ha Hl IH]; intros m; cbn; [done|].
  rewrite IH. by apply lookup_insert_ne.
Qed.

Lemma get_ip_spec attrs k family o :
  na_data <$> attrs !! k = ip_octets <$> o -> opt_ok (in_family family) o -> get_ip attrs k family = Done o.
Proof.
  unfold get_ip. destruct (attrs !! k) as [a|], o as [[v|v]|]; cbn [opt_ok in_family]; try done.
  - intros [= ->] ->. apply parse_ip_address_v4.
  - intros [= ->] [-> Hv]. by apply parse_ip_address_v6.
Qed.

Lemma get_u32_spec attrs k o :
  na_data <$> attrs !! k = u32_bytes <$> o ->
  get_u32 attrs k = (fun x => from_le_bytes (u32_bytes x)) <$> o.
Proof.
  unfold get_u32. destruct (attrs !! k) as [a|], o as [x|]; cbn; try done. by intros [= ->].
Qed.

Lemma opt_i32_bytes o : opt_ok is_i32 o -> as_i32 <$> ((fun x => from_le_bytes (u32_bytes x)) <$> o) = o.
Proof.
  destruct o as [x|]; [|done]. intros Hx. apply (f_equal Some). by apply as_i32_bytes.
Qed.

Lemma opt_u32_bytes o : opt_ok is_u32 o -> (fun x => from_le_bytes (u32_bytes x)) <$> o = o.
Proof.
  destruct o as [x|]; [|done]. intros Hx. apply (f_equal Some). by apply u32_from_bytes.
Qed.
End roundtrip_messages.

(** ** Properties *)

Section netlink_properties.
Context `{BuildProfile}.

(** C11: the attribute parser inverts the kernel's encoding: for every list of
    attributes the result maps each type, flag bits cleared, to the last
    attribute of that type, payload and header intact. *)
Theorem parse_attrs_roundtrip l :
  Forall attr_ok l -> len (encode_attrs l) < 2 ^ 63 ->
  parse_attrs (encode_attrs l) = Done (Ok (attr_map l)).
Proof. apply parse_attrs_encoded. Qed.

(** C29: malformed input is harmless: on arbitrary bytes, of any length, the
    attribute parser and the message reader return, with a value or an error;
    so does the datagram loop over the 4096-byte receive buffer, whatever the
    kernel put there. They never read outside the buffer, never panic on an
    index and never loop. The one panic possible is the datagram loop's
    negation of an [i32::MIN] error code in a build with overflow checks. *)
Theorem netlink_parsers_total attrs msg buf n messages :
  bytes_ok attrs -> len attrs < 2 ^ 63 -> bytes_ok msg -> len msg < 2 ^ 63 ->
  bytes_ok buf -> len buf = 4096 -> n <= 4096 ->
  (exists r, parse_attrs attrs = Done r) /\
  (exists r, NetlinkMessage_read msg = Done r) /\
  ((exists e, recv_datagram buf n messages = Done e) \/
   (recv_datagram buf n messages = Panic ArithmeticOverflow /\ debug_assertions = true)).
Proof.
  intros Hab Hal Hmb Hml Hb Hl Hn. split_and!.
  - by apply parse_attrs_total.
  - destruct (NetlinkMessage_read_total msg Hmb Hml) as (r & -> & _). by eexists.
  - destruct (recv_datagram_total buf n messages Hb Hl Hn) as [?|(p & Hp & -> & Hd)]; auto.
Qed.

(** C30: an IPv4 or IPv6 route survives the trip through [RTM_NEWROUTE]: whatever
    optional attributes it has, parsing the kernel's message gives the route
    back, field by field. *)
Theorem route_roundtrip r hdr err :
  route_ok r -> parse_rtm_newroute (mkNetlinkMessage hdr (encode_route r) err) = Done (Some r).
Proof.
  intros Hok. pose proof Hok as (Hd & Hg & Hps & Ho & Hi & Hpr & Ht & Hproto & Hsc & Hty & Hfam & Hdl).
  unfold parse_rtm_newroute, encode_route, sizeof_rtmsg. cbn [nm_data].
  pose proof (route_attrs_len r Hok) as Hlen. pose proof (len_nonneg (encode_attrs (route_attrs r))).
  set (rt := rtmsg_to_bytes _).
  assert (len rt = 12) as Hrt by done.
  rewrite read_pod_Done, bind_Done by (rewrite len_app; lia).
  rewrite (take_app_exact rt) by (unfold len in Hrt; lia).
  assert (is_u8 (re_family r)) as Hf8 by (destruct Hfam as [-> | ->]; by_decide).
  assert (rtmsg_of_bytes rt = mkRtmsg (re_family r) (re_dst_len r) 0 0 0 (re_protocol r)
    (re_scope r) (re_type r) 0) as Ert by by apply rtmsg_roundtrip.
  rewrite slice_from_Done, bind_Done by (rewrite len_app; lia).
  rewrite (drop_app_exact rt) by (unfold len in Hrt; lia).
  rewrite parse_attrs_encoded, bind_Done by (by apply route_attrs_ok || lia).
  rewrite !Ert. cbn [rtm_family rtm_protocol rtm_scope rtm_type rtm_dst_len].
  destruct (attr_map_lookup r) as (E1 & E2 & E3 & E4 & E5 & E6 & E7).
  rewrite (get_ip_spec _ _ _ _ E1 Hd), (get_ip_spec _ _ _ _ E2 Hg), (get_ip_spec _ _ _ _ E3 Hps).
  rewrite !bind_Done.
  rewrite (get_u32_spec _ _ _ E4), (get_u32_spec _ _ _ E5), (get_u32_spec _ _ _ E6), (get_u32_spec _ _ _ E7).
  rewrite !opt_i32_bytes, !opt_u32_bytes by done. by destruct r.
Qed.

(** A neighbour survives the trip through [RTM_NEWNEIGH]: an address and a
    six-byte link-layer address, in any company, come back with the interface
    and state; asking for another interface filters the entry out. *)
Theorem neigh_roundtrip nd ip mac others hdr err if_index :
  ndm_family nd = AF_INET -> ndm_pad1 nd = 0 -> ndm_pad2 nd = 0 -> is_i32 (ndm_ifindex nd) ->
  is_u16 (ndm_state nd) -> is_u8 (ndm_flags nd) -> is_u8 (ndm_type nd) ->
  length (mac_bytes mac) = 6%nat ->
  Forall attr_ok others ->
  Forall (fun a => Z.land a.1 NLA_TYPE_MASK <> NDA_DST /\ Z.land a.1 NLA_TYPE_MASK <> NDA_LLADDR) others ->
  let attrs := (NDA_DST, octets ip) :: (NDA_LLADDR, mac_bytes mac) :: others in
  len (encode_attrs attrs) < 2 ^ 32 ->
  parse_rtm_newneigh (mkNetlinkMessage hdr (ndmsg_to_bytes nd ++ encode_attrs attrs) err) if_index
  = Done (if decide (if_index = None \/ if_index = Some (ndm_ifindex nd))
          then Some (mkNeighborEntry (Some (V4 ip)) (Some mac) (ndm_ifindex nd) (ndm_state nd))
          else None).
Proof.
  intros Hfam Hp1 Hp2 Hidx Hst Hfl Hty Hmac Hok Hoth. cbn zeta. set (attrs := _ :: _ :: others).
  intros Hlen. pose proof (len_nonneg (encode_attrs attrs)).
  assert (len (ndmsg_to_bytes nd) = 12) as Hnd by done.
  unfold parse_rtm_newneigh, sizeof_ndmsg. cbn [nm_data].
  rewrite read_pod_Done, bind_Done by (rewrite len_app; lia).
  rewrite (take_app_exact (ndmsg_to_bytes nd)) by (unfold len in Hnd; lia).
  rewrite ndmsg_roundtrip by (done || rewrite ?Hfam, ?Hp1, ?Hp2; by_decide).
  case_match eqn:Hf.
  { destruct if_index as [idx|]; [|done]. apply negb_true_iff, Z.eqb_neq in Hf.
    rewrite decide_False; [done|]. intros [?|[= ?]]; congruence. }
  rewrite decide_True.
  2: { destruct if_index as [idx|]; [|by left]. apply negb_false_iff, Z.eqb_eq in Hf. right. congruence. }
  rewrite slice_from_Done, bind_Done by (rewrite len_app; lia).
  rewrite (drop_app_exact (ndmsg_to_bytes nd)) by (unfold len in Hnd; lia).
  rewrite parse_attrs_encoded, bind_Done; [|constructor; [done|]; constructor; [|done]|lia].
  2: { split; [done|]. cbn. unfold len. rewrite Hmac. done. }
  assert (na_data <$> attr_map attrs !! NDA_DST = Some (octets ip)) as Edst.
  { unfold attr_map, attrs. cbn [foldl].
    by rewrite attr_insert_keep by (eapply Forall_impl; [exact Hoth|]; cbn; tauto). }
  assert (na_data <$> attr_map attrs !! NDA_LLADDR = Some (mac_bytes mac)) as Emac.
  { unfold attr_map, attrs. cbn [foldl].
    by rewrite attr_insert_keep by (eapply Forall_impl; [exact Hoth|]; cbn; tauto). }
  rewrite Hfam, (get_ip_spec _ _ AF_INET (Some (V4 ip)) Edst eq_refl), bind_Done.
  destruct (attr_map attrs !! NDA_LLADDR) as [a|]; [|done]. injection Emac as ->.
  rewrite decide_True, slice_range_Done, !bind_Done by (unfold len; rewrite ?Hmac; lia).
  change (drop (Z.to_nat 0) (mac_bytes mac)) with (mac_bytes mac).
  rewrite take_ge by (rewrite Hmac; lia). by destruct mac.
Qed.
End netlink_properties.

(** A trailing fragment shorter than an attribute header makes the iterator
    report an error and then set its offset to the fragment's length instead of
    the end of the buffer: it does not stop, but starts over inside the bytes
    already parsed. ([parse_attrs] stops at the first error, so it does not
    see this.) *)
Theorem attr_iterator_rewinds_after_short_tail `{BuildProfile} attrs off :
  bytes_ok attrs -> len attrs < 2 ^ 63 -> 0 <= off -> 0 < len attrs - off < NLA_HDR_LEN ->
  NlAttrsIterator_next (mkNlAttrsIterator attrs off)
  = Done (Some (Err (InvalidBufferLength (len attrs - off) NLA_HDR_LEN)),
          mkNlAttrsIterator attrs (len attrs - off)) /\
  (2 * NLA_HDR_LEN <= len attrs -> exists item it',
     NlAttrsIterator_next (mkNlAttrsIterator attrs (len attrs - off)) = Done (Some item, it')).
Proof.
  unfold NLA_HDR_LEN. intros Hb Hl Ho Hd. split.
  - unfold NlAttrsIterator_next. cbn [it_attrs it_offset].
    rewrite slice_from_Done, bind_Done by lia.
    assert (len (drop (Z.to_nat off) attrs) = len attrs - off) as E by (rewrite len_drop; lia).
    rewrite decide_False by (intros E'; rewrite E', len_nil in E; lia).
    unfold NLA_HDR_LEN. by rewrite decide_True, E by lia.
  - intros Hlong.
    destruct (NlAttrsIterator_next_total (mkNlAttrsIterator attrs (len attrs - off)) Hb Hl) as
      ([item|] & it' & E & _ & Hend); [cbn; lia|by eexists _, _|]. cbn in Hend. lia.
Qed.

(** A 32-byte message in the first datagram, and a second datagram that carries
    20 bytes of a message whose header claims 32. *)
Definition stale_answers : list recv_result :=
  [RecvBytes (nlmsghdr_to_bytes (mkNlmsghdr 32 RTM_NEWROUTE NLM_F_MULTI 1 0) ++ replicate 16 0xAA);
   RecvBytes (nlmsghdr_to_bytes (mkNlmsghdr 32 RTM_NEWROUTE 0 1 0) ++ [1; 2; 3; 4])].

(** The receive loop checks a message's length against the 4096-byte buffer
    and not against the bytes received: a datagram that ends in the middle of a
    message is accepted, completed with bytes an earlier datagram left in the
    buffer. *)
Theorem recv_completes_message_with_stale_bytes :
  exists m1 m2, @recv_loop dev_profile stale_answers (replicate 4096 0) [] = Done (Ok [m1; m2]) /\
    nm_data m2 = [1; 2; 3; 4] ++ replicate 12 0xAA.
Proof. eexists _, _. split; [vm_compute; reflexivity|reflexivity]. Qed.

(** ** Witnesses *)

Definition example_route : RouteEntry :=
  mkRouteEntry (Some (V4 (Ipv4 10 0 0 0))) (Some (V4 (Ipv4 192 168 1 1))) None (Some 3) None
    (Some 100) (Some 254) 2 0 1 AF_INET 8.

Lemma parse_attrs_roundtrip_witness :
  @parse_attrs dev_profile (encode_attrs [(1, [10; 0; 0; 7]); (0x8002, [1; 2; 3; 4; 5; 6]); (1, [9])])
  = Done (Ok (attr_map [(1, [10; 0; 0; 7]); (0x8002, [1; 2; 3; 4; 5; 6]); (1, [9])])).
Proof. apply (@parse_attrs_roundtrip dev_profile); [by_decide|done]. Defined.

Lemma netlink_parsers_total_witness :
  (exists r, @parse_attrs dev_profile [8; 0; 4; 0; 0; 0; 1; 0; 9; 9] = Done r) /\
  (exists r, @NetlinkMessage_read dev_profile (replicate 17 1) = Done r) /\
  ((exists e, @recv_datagram dev_profile (replicate 4096 1) 100 [] = Done e) \/
   (@recv_datagram dev_profile (replicate 4096 1) 100 [] = Panic ArithmeticOverflow /\
    @debug_assertions dev_profile = true)).
Proof.
  apply (@netlink_parsers_total dev_profile);
    [by_decide|done|by_decide|done|by_decide|reflexivity|done].
Defined.

Definition example_route6 : RouteEntry :=
  mkRouteEntry (Some (V6 (Ipv6 [0x2a11; 0; 0; 0; 0; 0; 0; 0]))) None None (Some 3) None
    (Some 1024) (Some 254) 2 0 1 AF_INET6 16.

Lemma route_roundtrip_witness :
  @parse_rtm_newroute dev_profile
    (mkNetlinkMessage (mkNlmsghdr 76 RTM_NEWROUTE 2 1 0) (encode_route example_route) None)
  = Done (Some example_route) /\
  @parse_rtm_newroute dev_profile
    (mkNetlinkMessage (mkNlmsghdr 76 RTM_NEWROUTE 2 1 0) (encode_route example_route6) None)
  = Done (Some example_route6).
Proof.
  split; apply (@route_roundtrip dev_profile); unfold route_ok; cbn; split_and!;
    first [done|by_decide|by left|by right].
Defined.

Lemma neigh_roundtrip_witness :
  @parse_rtm_newneigh dev_profile
    (mkNetlinkMessage (mkNlmsghdr 60 RTM_NEWNEIGH 2 1 0)
       (ndmsg_to_bytes (mkNdmsg AF_INET 0 0 3 NUD_REACHABLE 0 1)
        ++ encode_attrs [(NDA_DST, octets (Ipv4 192 168 1 1)); (NDA_LLADDR, [2; 0; 0; 0; 0; 1]); (3, [7])])
       None) (Some 3)
  = Done (Some (mkNeighborEntry (Some (V4 (Ipv4 192 168 1 1))) (Some (Mac [2; 0; 0; 0; 0; 1])) 3 2)).
Proof.
  apply (@neigh_roundtrip dev_profile (mkNdmsg AF_INET 0 0 3 NUD_REACHABLE 0 1) (Ipv4 192 168 1 1)
    (Mac [2; 0; 0; 0; 0; 1]) [(3, [7])] (mkNlmsghdr 60 RTM_NEWNEIGH 2 1 0) None (Some 3));
    (done || by_decide).
Defined.

Lemma attr_iterator_rewinds_after_short_tail_witness :
  let attrs := [8; 0; 4; 0; 0; 0; 1; 0; 9; 9] in
  @NlAttrsIterator_next dev_profile (mkNlAttrsIterator attrs 8)
  = Done (Some (Err (InvalidBufferLength 2 4)), mkNlAttrsIterator attrs 2) /\
  (2 * NLA_HDR_LEN <= len attrs -> exists item it',
     @NlAttrsIterator_next dev_profile (mkNlAttrsIterator attrs 2) = Done (Some item, it')).
Proof.
  apply (@attr_iterator_rewinds_after_short_tail dev_profile [8; 0; 4; 0; 0; 0; 1; 0; 9; 9] 8);
    (done || by_decide).
Defined.
