(* ===== verification/Route.v ===== *)
(** * Route lookup ([route.rs])

    Prefix matching, the longest-prefix lookup over the routes the kernel
    dumped, the neighbour table and the [Router] that combines them into a
    next hop. *)

From S2P Require Import Prelude Words Net Netlink.

(** ** Data *)

Inductive RouteError :=
  | NoRouteFound (ip : IpAddr)
  | MissingOutputInterface
  | MacResolutionError.

Record NextHop := mkNextHop {
  nh_mac_addr : option MacAddress;
  nh_ip_addr : IpAddr;
  nh_if_index : Z;
}.

Record ArpTable := mkArpTable { neighbors : list NeighborEntry }.

Record Router := mkRouter { arp_table : ArpTable; routes : list RouteEntry }.

(** ** Prefix matching *)

Definition is_ipv4_match (addr network : Ipv4Addr) (prefix_len : Z) : bool :=
  if prefix_len =? 0 then true
  else
    let mask := wrap 32 (Z.shiftl 0xFFFFFFFF (saturating_sub 32 prefix_len)) in
    let addr_bits := Z.land (ipv4_to_u32 addr) mask in
    let network_bits := Z.land (ipv4_to_u32 network) mask in
    addr_bits =? network_bits.

Definition is_ipv6_match (addr network : Ipv6Addr) (prefix_len : Z) : outcome bool :=
  if prefix_len =? 0 then Done true
  else
    let addr_segments := segments addr in
    let network_segments := segments network in
    let full_segments := prefix_len / 16 in
    a ← slice_range addr_segments 0 full_segments;
    n ← slice_range network_segments 0 full_segments;
    if decide (a <> n) then Done false
    else
      let remaining_bits := prefix_len mod 16 in
      if remaining_bits =? 0 then Done true
      else
        let mask := wrap 16 (Z.shiftl 0xFFFF (saturating_sub 16 remaining_bits)) in
        x ← slice_get addr_segments full_segments;
        y ← slice_get network_segments full_segments;
        if decide (Z.land x mask <> Z.land y mask) then Done false else Done true.

(** ** Longest-prefix lookup *)

Definition ip_family (dest : IpAddr) : Z :=
  match dest with V4 _ => wrap 8 AF_INET | V6 _ => wrap 8 AF_INET6 end.

(** [best_match.is_none() || prefix_len > best_match.unwrap().1] *)
Definition improves (best_match : option (RouteEntry * Z)) (prefix_len : Z) : bool :=
  match best_match with None => true | Some (_, p) => p <? prefix_len end.

(** The body of the [for] loop over the routes of the right family. *)
Definition lookup_step (dest : IpAddr) (route : RouteEntry) (best_match : option (RouteEntry * Z))
  : outcome (option (RouteEntry * Z)) :=
  match dest, re_destination route with
  | _, None =>
      Done (match best_match with None => Some (route, 0) | Some _ => best_match end)
  | V4 dest_addr, Some (V4 route_addr) =>
      let prefix_len := re_dst_len route in
      if negb (is_ipv4_match dest_addr route_addr prefix_len) then Done best_match
      else if improves best_match prefix_len then Done (Some (route, prefix_len))
      else Done best_match
  | V6 dest_addr, Some (V6 route_addr) =>
      let prefix_len := re_dst_len route in
      m ← is_ipv6_match dest_addr route_addr prefix_len;
      if negb m then Done best_match
      else if improves best_match prefix_len then Done (Some (route, prefix_len))
      else Done best_match
  | _, _ => Done best_match
  end.

Definition lookup_route (routes : list RouteEntry) (dest : IpAddr) : outcome (option RouteEntry) :=
  best_match ← for_each (filter (fun r : RouteEntry => re_family r = ip_family dest) routes)
                 (lookup_step dest) None;
  Done (option_map fst best_match).

(** ** Neighbour table and router *)

Definition ArpTable_new `{BuildProfile} (kn : netlink_kernel) : outcome (result ArpTable io_error) :=
  neighbors ←? netlink_get_neighbors kn None (wrap 8 AF_INET);
  Done (Ok (mkArpTable neighbors)).

Definition ArpTable_lookup (t : ArpTable) (ip : IpAddr) : option MacAddress :=
  '(_, n) ← list_find (fun n => ne_destination n = Some ip) (neighbors t);
  ne_lladdr n.

(** [Router::new]: each dump opens its own netlink socket. *)
Definition Router_new `{BuildProfile} (kn_neigh kn_route : netlink_kernel)
  : outcome (result Router io_error) :=
  arp_table ←? ArpTable_new kn_neigh;
  routes ←? netlink_get_routes kn_route (wrap 8 AF_INET);
  Done (Ok (mkRouter arp_table routes)).

Definition Router_default (r : Router) : result NextHop RouteError :=
  match list_find (fun route => re_destination route = None) (routes r) with
  | None => Err (NoRouteFound (V4 ipv4_unspecified))
  | Some (_, default_route) =>
      match re_out_if_index default_route with
      | None => Err MissingOutputInterface
      | Some i =>
          let if_index := wrap 32 i in
          let next_hop_ip := match re_gateway default_route with
                             | Some gateway => gateway
                             | None => V4 ipv4_unspecified
                             end in
          let mac_addr := ArpTable_lookup (arp_table r) next_hop_ip in
          Ok (mkNextHop mac_addr next_hop_ip if_index)
      end
  end.

Definition Router_route (r : Router) (dest_ip : IpAddr) : outcome (result NextHop RouteError) :=
  o ← lookup_route (routes r) dest_ip;
  match o with
  | None => Done (Err (NoRouteFound dest_ip))
  | Some route =>
      match re_out_if_index route with
      | None => Done (Err MissingOutputInterface)
      | Some i =>
          let if_index := wrap 32 i in
          let next_hop_ip := match re_gateway route with
                             | Some gateway => gateway
                             | None => dest_ip
                             end in
          let mac_addr := ArpTable_lookup (arp_table r) next_hop_ip in
          Done (Ok (mkNextHop mac_addr next_hop_ip if_index))
      end
  end.

(** ** Specification *)

(** The first [p] of the [w] bits of two addresses agree. *)
Definition same_prefix (w p a b : Z) : Prop := a / 2 ^ (w - p) = b / 2 ^ (w - p).
#[global] Instance same_prefix_dec w p a b : Decision (same_prefix w p a b).
Proof. unfold same_prefix. apply _. Defined.

(** The 128-bit value of an IPv6 address, most significant segment first. *)
Fixpoint segments_value (l : list Z) : Z :=
  match l with
  | [] => 0
  | x :: l' => x * 2 ^ (16 * len l') + segments_value l'
  end.
Definition ipv6_to_u128 (a : Ipv6Addr) : Z := segments_value (segments a).

(** [route] covers [dest]. *)
Definition covers (dest : IpAddr) (route : RouteEntry) : Prop :=
  re_family route = ip_family dest /\
  match dest, re_destination route with
  | _, None => True
  | V4 d, Some (V4 n) => same_prefix 32 (re_dst_len route) (ipv4_to_u32 d) (ipv4_to_u32 n)
  | V6 d, Some (V6 n) => same_prefix 128 (re_dst_len route) (ipv6_to_u128 d) (ipv6_to_u128 n)
  | _, _ => False
  end.

(** How specific a route is. *)
Definition specificity (route : RouteEntry) : Z :=
  match re_destination route with None => 0 | Some _ => re_dst_len route end.

(** [r] is the most specific route of [l] that covers [dest], the first one
    among equals. *)
Definition best_route (dest : IpAddr) (l : list RouteEntry) (r : RouteEntry) : Prop :=
  covers dest r /\ exists l1 l2, l = l1 ++ r :: l2 /\
    (forall r', r' ∈ l1 -> covers dest r' -> specificity r' < specificity r) /\
    (forall r', r' ∈ l2 -> covers dest r' -> specificity r' <= specificity r).

(** Addresses in range and a prefix length no longer than the address. *)
Definition route_wf (r : RouteEntry) : Prop :=
  match re_destination r with
  | Some (V4 a) => ipv4_ok a /\ 0 <= re_dst_len r <= 32
  | Some (V6 a) => ipv6_ok a /\ 0 <= re_dst_len r <= 128
  | None => True
  end.
#[global] Instance route_wf_dec r : Decision (route_wf r).
Proof. unfold route_wf. destruct (re_destination r) as [[]|]; apply _. Defined.

(** ** Lemmas *)

Lemma for_each_filter {A S} (P : A -> Prop) `{!forall x, Decision (P x)} (body : A -> S -> outcome S) l s :
  for_each (filter P l) body s = for_each l (fun a s => if decide (P a) then body a s else Done s) s.
Proof.
  revert s. induction l as [|a l IH]; intros s; [done|].
  rewrite filter_cons. cbn [for_each]. case_decide; cbn [for_each]; [|by rewrite bind_Done].
  destruct (body a s); cbn; [apply IH|done|done|done].
Qed.

(** A network mask of [w - k] ones clears the low [k] bits. *)
Lemma high_mask w k : 0 <= k <= w -> wrap w (Z.shiftl (2 ^ w - 1) k) = not_u w (2 ^ k - 1).
Proof.
  intros Hk. unfold wrap, not_u. rewrite Z.shiftl_mul_pow2 by lia.
  pose proof (Z.pow_pos_nonneg 2 k). pose proof (Z.pow_le_mono_r 2 k w).
  replace ((2 ^ w - 1) * 2 ^ k) with ((2 ^ w - 2 ^ k) + (2 ^ k - 1) * 2 ^ w) by lia.
  rewrite Z.mod_add, Z.mod_small by lia. lia.
Qed.

Lemma land_high_mask w k x :
  0 <= k <= w -> is_uint w x -> Z.land x (wrap w (Z.shiftl (2 ^ w - 1) k)) = x / 2 ^ k * 2 ^ k.
Proof.
  intros Hk Hx. rewrite high_mask, land_not_u by done.
  pose proof (Z.pow_pos_nonneg 2 k). pose proof (Z.div_mod x (2 ^ k)). lia.
Qed.

(** Comparing masked words compares their high bits. *)
Lemma masked_eq w k x y :
  0 <= k <= w -> is_uint w x -> is_uint w y ->
  (Z.land x (wrap w (Z.shiftl (2 ^ w - 1) k)) = Z.land y (wrap w (Z.shiftl (2 ^ w - 1) k))
   <-> x / 2 ^ k = y / 2 ^ k).
Proof.
  intros Hk Hx Hy. rewrite !land_high_mask by done. pose proof (Z.pow_pos_nonneg 2 k). split; [|by intros ->].
  intros E. apply Z.mul_cancel_r in E; lia.
Qed.

Lemma div_pow2_0 w x : 0 <= w -> is_uint w x -> x / 2 ^ (w - 0) = 0.
Proof. intros. rewrite Z.sub_0_r. by apply Z.div_small. Qed.

Lemma is_ipv4_match_spec a n p :
  ipv4_ok a -> ipv4_ok n -> 0 <= p ->
  is_ipv4_match a n p = true <-> same_prefix 32 (Z.min p 32) (ipv4_to_u32 a) (ipv4_to_u32 n).
Proof.
  intros Ha%ipv4_to_u32_range Hn%ipv4_to_u32_range Hp. unfold is_ipv4_match, same_prefix.
  destruct (Z.eqb_spec p 0) as [->|Hp0].
  { change (Z.min 0 32) with 0. by rewrite !div_pow2_0 by done. }
  rewrite Z.eqb_eq. unfold saturating_sub. change 4294967295 with (2 ^ 32 - 1).
  replace (Z.max 0 (32 - p)) with (32 - Z.min p 32) by lia.
  apply masked_eq; [lia|done|done].
Qed.

(** *** IPv6 prefixes, segment by segment *)

Lemma segments_value_range l :
  Forall is_u16 l -> 0 <= segments_value l < 2 ^ (16 * len l).
Proof.
  induction 1 as [|x l Hx Hl IH]; [done|].
  rewrite len_cons, Z.mul_add_distr_l, Z.pow_add_r by (pose proof (len_nonneg l); lia).
  cbn [segments_value]. unfold is_uint in Hx. change (2 ^ (16 * 1)) with (2 ^ 16). nia.
Qed.

Lemma segments_value_div x l d :
  Forall is_u16 l -> 0 <= d ->
  segments_value (x :: l) / 2 ^ (16 * len l + d) = x / 2 ^ d.
Proof.
  intros Hl Hd. pose proof (len_nonneg l). pose proof (segments_value_range l Hl).
  cbn [segments_value]. rewrite Z.pow_add_r, <-Z.div_div by (try apply Z.pow_nonzero; lia).
  rewrite Z.div_add_l by (apply Z.pow_nonzero; lia). f_equal.
  rewrite (Z.div_small (segments_value l)) by lia. lia.
Qed.

(** The prefix of a non-empty address, when it ends inside and when it ends
    after the first segment. *)
Lemma same_prefix_within x y a b p :
  Forall is_u16 a -> Forall is_u16 b -> len a = len b -> 0 <= p <= 16 ->
  same_prefix (16 * len (x :: a)) p (segments_value (x :: a)) (segments_value (y :: b))
  <-> x / 2 ^ (16 - p) = y / 2 ^ (16 - p).
Proof.
  intros Ha Hb El Hp. unfold same_prefix.
  rewrite len_cons. replace (16 * (1 + len a) - p) with (16 * len a + (16 - p)) by lia.
  rewrite segments_value_div by (done || lia). rewrite El.
  by rewrite segments_value_div by (done || lia).
Qed.

Lemma same_prefix_after x y a b p :
  Forall is_u16 a -> Forall is_u16 b -> len a = len b -> 16 <= p <= 16 + 16 * len a ->
  same_prefix (16 * len (x :: a)) p (segments_value (x :: a)) (segments_value (y :: b))
  <-> x = y /\ same_prefix (16 * len a) (p - 16) (segments_value a) (segments_value b).
Proof.
  intros Ha Hb El Hp. unfold same_prefix. rewrite len_cons.
  replace (16 * (1 + len a) - p) with (16 * len a - (p - 16)) by lia.
  set (d := 16 * len a - (p - 16)). assert (0 <= d <= 16 * len a) as Hd by lia.
  pose proof (segments_value_range a Ha) as Ra. pose proof (segments_value_range b Hb) as Rb.
  cbn [segments_value]. rewrite <-El in *.
  replace (2 ^ (16 * len a)) with (2 ^ (16 * len a - d) * 2 ^ d) in *
    by (rewrite <-Z.pow_add_r by lia; f_equal; lia).
  set (e := 2 ^ (16 * len a - d)) in *. pose proof (Z.pow_pos_nonneg 2 d ltac:(lia) ltac:(lia)) as Pd.
  rewrite !Z.mul_assoc, !Z.div_add_l by lia.
  assert (0 <= segments_value a / 2 ^ d < e) by (split; [apply Z.div_pos; lia|apply Z.div_lt_upper_bound; lia]).
  assert (0 <= segments_value b / 2 ^ d < e) by (split; [apply Z.div_pos; lia|apply Z.div_lt_upper_bound; lia]).
  split; [|intros [-> ->]; done]. intros E. assert (x = y) by nia. subst. split; [done|lia].
Qed.

(** A prefix of [16 k + r] bits: [k] equal segments and [r] equal bits. *)
Lemma same_prefix_segments a b k r :
  Forall is_u16 a -> Forall is_u16 b -> length a = length b ->
  (k < length a)%nat -> 0 <= r < 16 ->
  same_prefix (16 * len a) (16 * Z.of_nat k + r) (segments_value a) (segments_value b)
  <-> take k a = take k b /\
      exists x y, a !! k = Some x /\ b !! k = Some y /\ x / 2 ^ (16 - r) = y / 2 ^ (16 - r).
Proof.
  revert a b. induction k as [|k IH]; intros [|x a] [|y b] Ha Hb El Hk Hr; cbn in El, Hk; try lia;
    apply Forall_cons in Ha as [Hx Ha], Hb as [Hy Hb].
  - rewrite same_prefix_within by (done || unfold len; lia). cbn. rewrite Z.add_0_l.
    split; [intros; split; [done|]; eauto|]. intros (_ & ? & ? & [= <-] & [= <-] & ?). done.
  - rewrite same_prefix_after by (done || unfold len; lia).
    replace (16 * Z.of_nat (S k) + r - 16) with (16 * Z.of_nat k + r) by lia.
    rewrite IH by (done || lia). cbn. split.
    + intros (-> & -> & ?). done.
    + intros ([= -> ->] & ?). done.
Qed.

Lemma same_prefix_full w a b : 0 <= w -> same_prefix w w a b <-> a = b.
Proof. intros. unfold same_prefix. by rewrite Z.sub_diag, !Z.div_1_r. Qed.

Lemma segments_value_inj a b :
  Forall is_u16 a -> Forall is_u16 b -> length a = length b ->
  segments_value a = segments_value b <-> a = b.
Proof.
  intros Ha Hb El. split; [|by intros ->]. revert b Hb El.
  induction Ha as [|x a Hx Ha IH]; intros [|y b] Hb El E; try done.
  apply Forall_cons in Hb as [Hy Hb]. cbn in El.
  pose proof (segments_value_range a Ha). pose proof (segments_value_range b Hb).
  cbn [segments_value] in E. assert (len a = len b) as El' by (unfold len; lia). rewrite <-El' in *.
  assert (x = y) as -> by nia. f_equal. apply IH; [done|lia|lia].
Qed.

Lemma take_eq_all {A} (l : list A) n : n = length l -> take n l = l.
Proof. intros ->. by rewrite take_ge. Qed.

Lemma is_ipv6_match_aux a n p :
  ipv6_ok a -> ipv6_ok n -> 0 < p < 128 ->
  exists b, is_ipv6_match a n p = Done b /\
    (b = true <-> same_prefix 128 p (ipv6_to_u128 a) (ipv6_to_u128 n)).
Proof.
  intros [La Ha] [Ln Hn] Hp. unfold is_ipv6_match, ipv6_to_u128.
  assert (len (segments a) = 8) as La' by (unfold len; lia).
  assert (len (segments n) = 8) as Ln' by (unfold len; lia).
  rewrite (proj2 (Z.eqb_neq p 0)) by lia.
  rewrite !slice_range_Done, !bind_Done, !Z.sub_0_r, !drop_0 by div_lia.
  pose proof (same_prefix_segments _ _ (Z.to_nat (p / 16)) (p mod 16) Ha Hn) as Hs.
  rewrite La' in Hs. change (16 * 8) with 128 in Hs.
  replace (16 * Z.of_nat (Z.to_nat (p / 16)) + p mod 16) with p in Hs by div_lia.
  assert (same_prefix 128 p (segments_value (segments a)) (segments_value (segments n)) <-> _) as Hs'
    by (apply Hs; div_lia). setoid_rewrite Hs'. clear Hs Hs'.
  destruct (lookup_lt_is_Some_2 (segments a) (Z.to_nat (p / 16))) as [x Hx]; [div_lia|].
  destruct (lookup_lt_is_Some_2 (segments n) (Z.to_nat (p / 16))) as [y Hy]; [div_lia|].
  pose proof (Forall_lookup_1 _ _ _ _ Ha Hx) as Ix. pose proof (Forall_lookup_1 _ _ _ _ Hn Hy) as Iy.
  cbn beta in Ix, Iy.
  case_decide as Ht; [exists false; split; [done|]; split; [done|tauto]|].
  destruct (Z.eqb_spec (p mod 16) 0) as [->|Hr0].
  { exists true. split; [done|]. split; [|done]. intros _. split; [done|].
    exists x, y. by rewrite !div_pow2_0. }
  rewrite (slice_get_lookup (segments a) _ x), bind_Done, (slice_get_lookup _ _ y), bind_Done by (done || div_lia).
  unfold saturating_sub. rewrite Z.max_r by div_lia. change 65535 with (2 ^ 16 - 1).
  case_decide as Hm; rewrite masked_eq in Hm by (done || div_lia);
    (eexists; split; [done|]; naive_solver).
Qed.

Lemma is_ipv6_match_128 a n :
  ipv6_ok a -> ipv6_ok n -> is_ipv6_match a n 128 = Done (bool_decide (a = n)).
Proof.
  intros [La _] [Ln _]. destruct a as [a], n as [n]. cbn in La, Ln.
  unfold is_ipv6_match. cbn [segments Z.eqb]. change (128 / 16) with 8. change (128 mod 16) with 0.
  rewrite !slice_range_Done, !bind_Done by (unfold len; lia).
  change (Z.to_nat (8 - 0)) with 8%nat. rewrite !drop_0, !take_eq_all by done.
  destruct (decide (a = n)) as [->|Hne].
  - rewrite decide_False by tauto. by rewrite bool_decide_true.
  - rewrite decide_True by done. rewrite bool_decide_false; [done|]. by intros [= ?].
Qed.

Lemma bool_decide_spec (P : Prop) `{!Decision P} (b : bool) : (b = true <-> P) -> bool_decide P = b.
Proof. intros [H1 H2]. case_bool_decide; destruct b; naive_solver. Qed.

Lemma is_ipv6_match_spec a n p :
  ipv6_ok a -> ipv6_ok n -> 0 <= p <= 128 ->
  is_ipv6_match a n p = Done (bool_decide (same_prefix 128 p (ipv6_to_u128 a) (ipv6_to_u128 n))).
Proof.
  intros Ha Hn Hp. destruct (decide (p = 0)) as [->|]; [|destruct (decide (p = 128)) as [->|]].
  - destruct Ha as [La Ha], Hn as [Ln Hn]. rewrite bool_decide_true; [done|].
    pose proof (segments_value_range _ Ha) as Ra. pose proof (segments_value_range _ Hn) as Rn.
    unfold len in *. rewrite La in Ra. rewrite Ln in Rn.
    unfold same_prefix, ipv6_to_u128. by rewrite !div_pow2_0.
  - rewrite is_ipv6_match_128 by done. f_equal. apply bool_decide_ext.
    rewrite same_prefix_full by done. destruct a as [a], n as [n], Ha as [La Ha], Hn as [Ln Hn].
    unfold ipv6_to_u128. cbn in *. rewrite segments_value_inj by (done || lia). naive_solver.
  - destruct (is_ipv6_match_aux a n p) as (b & -> & Hb); [done|done|lia|].
    by rewrite (bool_decide_spec _ b Hb).
Qed.

(** *** The lookup loop *)

Definition best_so_far (dest : IpAddr) (l : list RouteEntry) (s : option (RouteEntry * Z)) : Prop :=
  match s with
  | None => forall r, r ∈ l -> ~ covers dest r
  | Some (r, p) => p = specificity r /\ 0 <= p /\ best_route dest l r
  end.

Lemma best_so_far_skip dest l s r :
  best_so_far dest l s -> ~ covers dest r -> best_so_far dest (l ++ [r]) s.
Proof.
  destruct s as [[b p]|]; cbn.
  - intros (-> & Hp & Hb & l1 & l2 & -> & H1 & H2) Hr. split_and!; [done|done|].
    split; [done|]. exists l1, (l2 ++ [r]). rewrite <-app_assoc. split; [done|]. split; [done|]. set_solver.
  - set_solver.
Qed.

Lemma best_so_far_keep dest l b p r :
  best_so_far dest l (Some (b, p)) -> specificity r <= p -> best_so_far dest (l ++ [r]) (Some (b, p)).
Proof.
  intros (-> & Hp & Hb & l1 & l2 & -> & H1 & H2) Hr. split_and!; [done|done|].
  split; [done|]. exists l1, (l2 ++ [r]). rewrite <-app_assoc. split; [done|]. split; [done|]. set_solver.
Qed.

Lemma best_so_far_improve dest l s r :
  best_so_far dest l s -> covers dest r -> 0 <= specificity r -> improves s (specificity r) = true ->
  best_so_far dest (l ++ [r]) (Some (r, specificity r)).
Proof.
  intros Hs Hc Hr Hi. split_and!; [done|done|]. split; [done|]. exists l, []. split; [done|].
  split; [|set_solver]. intros r' Hr' Hc'. destruct s as [[b p]|]; cbn in *; [|set_solver].
  apply Z.ltb_lt in Hi. destruct Hs as (-> & _ & Hb & l1 & l2 & -> & H1 & H2).
  assert (specificity r' <= specificity b); [|lia].
  apply elem_of_app in Hr' as [?|[->|?]%elem_of_cons]; [apply Z.lt_le_incl; eauto|done|eauto].
Qed.

(** Keeping the better of two routes preserves [best_so_far]. *)
Lemma best_so_far_step dest l s r :
  best_so_far dest l s -> covers dest r -> 0 <= specificity r ->
  best_so_far dest (l ++ [r]) (if improves s (specificity r) then Some (r, specificity r) else s).
Proof.
  intros Hs Hc Hr. destruct (improves s (specificity r)) eqn:Hi.
  - by eapply best_so_far_improve.
  - destruct s as [[b p]|]; [|done]. apply best_so_far_keep; [done|]. cbn in Hi. lia.
Qed.

Lemma lookup_step_spec dest l s r :
  ip_ok dest -> route_wf r -> best_so_far dest l s -> re_family r = ip_family dest ->
  exists s', lookup_step dest r s = Done s' /\ best_so_far dest (l ++ [r]) s'.
Proof.
  intros Hd Hr Hs Hf. pose proof (best_so_far_step dest l s r Hs) as Hstep.
  pose proof (best_so_far_skip dest l s r Hs) as Hskip.
  unfold lookup_step, route_wf, covers, specificity in *.
  destruct (re_destination r) as [[n|n]|] eqn:En.
  - destruct dest as [d|d]; [|eexists; split; [done|]; apply Hskip; tauto].
    destruct Hr as [Hn Hp]. pose proof (is_ipv4_match_spec d n (re_dst_len r) Hd Hn ltac:(lia)) as Hm.
    rewrite Z.min_l in Hm by lia. destruct (is_ipv4_match d n _); cbn [negb].
    + specialize (Hstep ltac:(tauto) ltac:(lia)). destruct (improves s _); by eexists.
    + eexists; split; [done|]. apply Hskip. naive_solver.
  - destruct dest as [d|d]; [eexists; split; [done|]; apply Hskip; tauto|].
    destruct Hr as [Hn Hp]. rewrite is_ipv6_match_spec by done. rewrite bind_Done.
    case_bool_decide as Hm; cbn [negb].
    + specialize (Hstep ltac:(tauto) ltac:(lia)). destruct (improves s _); by eexists.
    + eexists; split; [done|]. apply Hskip. tauto.
  - assert (covers dest r) as Hc by (unfold covers; rewrite En; by destruct dest).
    unfold covers in Hc. rewrite En in Hc. specialize (Hstep Hc ltac:(lia)).
    exists (match s with None => Some (r, 0) | Some _ => s end). split; [by destruct dest|].
    destruct s as [[b p]|]; [|done]. destruct Hs as (-> & Hp & _). cbn in Hstep.
    by rewrite (proj2 (Z.ltb_ge _ _) Hp) in Hstep.
Qed.

Lemma lookup_route_spec l dest :
  ip_ok dest -> Forall route_wf l ->
  exists o, lookup_route l dest = Done o /\
    match o with
    | Some r => best_route dest l r
    | None => forall r, r ∈ l -> ~ covers dest r
    end.
Proof.
  intros Hd Hl. unfold lookup_route. rewrite for_each_filter.
  destruct (for_each_spec (fun rest s => exists pre, l = pre ++ rest /\ best_so_far dest pre s)
    (fun r s => if decide (re_family r = ip_family dest) then lookup_step dest r s else Done s) l None)
    as (s & -> & pre & -> & Hs).
  - exists []. split; [done|]. set_solver.
  - intros r rest s (pre & -> & Hs). apply Forall_app in Hl as [_ [Hr _]%Forall_cons].
    case_decide as Hf.
    + destruct (lookup_step_spec dest pre s r Hd Hr Hs Hf) as (s' & -> & Hs').
      exists s'. split; [done|]. exists (pre ++ [r]). by rewrite <-app_assoc.
    + exists s. split; [done|]. exists (pre ++ [r]). rewrite <-app_assoc. split; [done|].
      apply best_so_far_skip; [done|]. by intros [? _].
  - rewrite bind_Done. eexists. split; [done|]. rewrite app_nil_r. destruct s as [[b p]|]; cbn in *; [|done].
    tauto.
Qed.

Lemma ArpTable_lookup_spec t ip mac :
  ArpTable_lookup t ip = Some mac <->
  exists l1 n l2, neighbors t = l1 ++ n :: l2 /\ ne_destination n = Some ip /\
    ne_lladdr n = Some mac /\ Forall (fun n' => ne_destination n' <> Some ip) l1.
Proof.
  destruct t as [l]. unfold ArpTable_lookup. cbn [neighbors].
  induction l as [|n l IH]; cbn; [split; [done|]; by intros ([|]&?&?&[=]&?)|].
  case_decide as Hn; cbn.
  - split; [intros; by exists [], n, l|]. intros ([|n' l1] & n2 & l2 & [= -> ->] & H1 & H2 & H3); [done|].
    by apply Forall_cons in H3 as [? _].
  - destruct (list_find _ l) as [[i n0]|]; cbn in *; rewrite IH; clear IH; split.
    all: try (intros (l1 & n1 & l2 & -> & ? & ? & ?); exists (n :: l1), n1, l2; by rewrite Forall_cons).
    all: intros ([|n' l1] & n1 & l2 & [= -> ->] & ? & ? & H3); [done|];
      apply Forall_cons in H3 as [_ H3]; by exists l1, n1, l2.
Qed.

(** ** Properties *)

(** [is_ipv4_match] holds exactly when the first [prefix_len] bits of the
    two addresses agree (all 32 bits for a longer prefix length). *)
Theorem ipv4_match_compares_prefix addr network prefix_len :
  ipv4_ok addr -> ipv4_ok network -> 0 <= prefix_len ->
  is_ipv4_match addr network prefix_len =
    bool_decide (same_prefix 32 (Z.min prefix_len 32) (ipv4_to_u32 addr) (ipv4_to_u32 network)).
Proof. intros Ha Hn Hp. symmetry. apply bool_decide_spec. by apply is_ipv4_match_spec. Qed.

(** For a prefix length of at most 128, [is_ipv6_match] returns whether
    the first [prefix_len] bits of the two 128-bit addresses agree; for a
    longer one it indexes past the eighth segment and panics, except that two
    different addresses are told apart before that for a length below 144. *)
Theorem ipv6_match_compares_prefix addr network prefix_len :
  ipv6_ok addr -> ipv6_ok network -> is_u8 prefix_len ->
  is_ipv6_match addr network prefix_len =
    if decide (prefix_len <= 128) then
      Done (bool_decide (same_prefix 128 prefix_len (ipv6_to_u128 addr) (ipv6_to_u128 network)))
    else if decide (prefix_len < 144 /\ addr <> network) then Done false
    else Panic IndexOutOfBounds.
Proof.
  intros Ha Hn [Hp _]. case_decide; [by apply is_ipv6_match_spec|].
  destruct addr as [a], network as [n], Ha as [La _], Hn as [Ln _]. unfold is_ipv6_match. cbn in La, Ln |- *.
  assert (len a = 8 /\ len n = 8) as [La' Ln'] by (unfold len; lia).
  rewrite (proj2 (Z.eqb_neq _ 0)) by lia. destruct (decide (prefix_len < 144)) as [Hlt|].
  - assert (prefix_len / 16 = 8) as -> by div_lia.
    rewrite !slice_range_Done, !bind_Done by lia. change (Z.to_nat (8 - 0)) with 8%nat.
    rewrite !drop_0, !take_eq_all by done. destruct (decide (a = n)) as [->|Hne].
    + rewrite decide_False by tauto. rewrite decide_False by naive_solver.
      rewrite (proj2 (Z.eqb_neq _ 0)) by div_lia. unfold slice_get. by rewrite decide_False by lia.
    + rewrite decide_True by done. rewrite decide_True; [done|]. naive_solver.
  - assert (slice_range a 0 (prefix_len / 16) = Panic IndexOutOfBounds) as E
      by (unfold slice_range; by rewrite decide_False by div_lia).
    rewrite (decide_False (P := _ /\ _)) by tauto. by rewrite E.
Qed.

(** C10: over a table of well-formed routes [lookup_route] returns without
    panicking; it returns a route exactly when some route of the destination's
    family covers the destination, and then the most specific of them, the
    first one in table order among equally specific ones. *)
Theorem lookup_route_longest_prefix l dest :
  ip_ok dest -> Forall route_wf l ->
  exists o, lookup_route l dest = Done o /\
    match o with
    | Some r => best_route dest l r
    | None => forall r, r ∈ l -> ~ covers dest r
    end.
Proof. apply lookup_route_spec. Qed.

(** C31: [Router::route] never panics on a well-formed table; it fails with
    [NoRouteFound] when no route covers the destination and with
    [MissingOutputInterface] when the best route names no interface, and
    otherwise returns that route's interface, its gateway (the destination
    itself for an on-link route) and the link-layer address of the first
    neighbour entry for that next hop, if it has one. *)
Theorem router_route_next_hop (rt : Router) dest :
  ip_ok dest -> Forall route_wf (routes rt) ->
  exists res, Router_route rt dest = Done res /\
    match res with
    | Ok nh => exists r i, best_route dest (routes rt) r /\ re_out_if_index r = Some i /\
        nh_if_index nh = wrap 32 i /\ nh_ip_addr nh = default dest (re_gateway r) /\
        (forall mac, nh_mac_addr nh = Some mac <->
          exists l1 n l2, neighbors (arp_table rt) = l1 ++ n :: l2 /\
            ne_destination n = Some (nh_ip_addr nh) /\ ne_lladdr n = Some mac /\
            Forall (fun n' => ne_destination n' <> Some (nh_ip_addr nh)) l1)
    | Err (NoRouteFound d) => d = dest /\ forall r, r ∈ routes rt -> ~ covers dest r
    | Err MissingOutputInterface =>
        exists r, best_route dest (routes rt) r /\ re_out_if_index r = None
    | Err MacResolutionError => False
    end.
Proof.
  intros Hd Hl. unfold Router_route.
  destruct (lookup_route_spec _ _ Hd Hl) as ([r|] & -> & Hr); rewrite bind_Done; [|by eexists].
  destruct (re_out_if_index r) as [i|] eqn:Ei; [|eexists; split; [done|]; by exists r].
  eexists. split; [done|]. exists r, i. split_and!; [done|done|done|by destruct (re_gateway r)|].
  intros mac. apply ArpTable_lookup_spec.
Qed.

(** ** Witnesses *)

Definition example_net (dst : option IpAddr) (plen : Z) (gw : option IpAddr) (oif : option Z) : RouteEntry :=
  mkRouteEntry dst gw None oif None None None 0 0 1 AF_INET plen.

Definition example_table : list RouteEntry :=
  [ example_net None 0 (Some (V4 (Ipv4 10 0 0 1))) (Some 2);
    example_net (Some (V4 (Ipv4 10 1 0 0))) 16 None (Some 3);
    example_net (Some (V4 (Ipv4 10 1 2 0))) 24 (Some (V4 (Ipv4 10 1 0 9))) (Some 4) ].

Definition example_router : Router :=
  mkRouter (mkArpTable [mkNeighborEntry (Some (V4 (Ipv4 10 1 0 9))) (Some (Mac [2;0;0;0;0;1])) 4 2]) example_table.

Lemma ipv4_match_compares_prefix_witness :
  is_ipv4_match (Ipv4 192 168 1 10) (Ipv4 192 168 1 0) 24 = true.
Proof.
  etransitivity; [apply ipv4_match_compares_prefix; [by_decide|by_decide|lia]|]. by vm_compute.
Defined.

Lemma ipv6_match_compares_prefix_witness :
  is_ipv6_match (Ipv6 [8193;3512;0;0;0;0;0;1]) (Ipv6 [8193;3512;0;0;0;0;0;0]) 37 = Done true.
Proof.
  etransitivity; [apply ipv6_match_compares_prefix; by_decide|]. by vm_compute.
Defined.

Lemma lookup_route_longest_prefix_witness :
  exists o, lookup_route example_table (V4 (Ipv4 10 1 2 3)) = Done o /\
    match o with
    | Some r => best_route (V4 (Ipv4 10 1 2 3)) example_table r
    | None => forall r, r ∈ example_table -> ~ covers (V4 (Ipv4 10 1 2 3)) r
    end.
Proof. apply lookup_route_longest_prefix; by_decide. Defined.

Lemma router_route_next_hop_witness :
  Router_route example_router (V4 (Ipv4 10 1 2 3)) =
    Done (Ok (mkNextHop (Some (Mac [2;0;0;0;0;1])) (V4 (Ipv4 10 1 0 9)) 4)) /\
  exists res, Router_route example_router (V4 (Ipv4 10 1 2 3)) = Done res.
Proof.
  split; [by vm_compute|].
  destruct (router_route_next_hop example_router (V4 (Ipv4 10 1 2 3))) as (res & Hr & _);
    [by_decide|by_decide|]. by exists res.
Defined.
