(* ===== verification/Assemble.v ===== *)
(** * Frame assembly: the packet-writing code of [tx_loop.rs] and [relay_loop.rs]

    [tx_loop] copies a payload behind 42 bytes of headers and writes the three
    headers; [relay_loop] rewrites the headers of a received frame in place.
    The specification is the frame as a byte string, and a receiver that
    validates and takes apart a UDP/IPv4/Ethernet frame. *)

From S2P Require Import Prelude Words Net Packet.

(** ** Definitions *)

(** The addresses a frame is written with. *)
Record endpoints := mkEndpoints {
  ep_src_mac : MacAddress;
  ep_dst_mac : MacAddress;
  ep_src_ip : Ipv4Addr;
  ep_dst_ip : Ipv4Addr;
  ep_src_port : Z;
  ep_dst_port : Z;
}.

Definition PACKET_HEADER_SIZE : Z := ETH_HEADER_SIZE + IP_HEADER_SIZE + UDP_HEADER_SIZE.

Section assemble.
Context `{BuildProfile}.

(** The three header calls both loops make, for a payload of [n] bytes. *)
Definition write_headers (packet : list Z) (e : endpoints) (n : Z) : outcome (list Z) :=
  packet ← write_eth_header packet (mac_bytes (ep_src_mac e)) (mac_bytes (ep_dst_mac e));
  packet ← with_tail packet ETH_HEADER_SIZE (fun t =>
             write_ip_header t (ep_src_ip e) (ep_dst_ip e) (wrap 16 (UDP_HEADER_SIZE + n)));
  with_tail packet (ETH_HEADER_SIZE + IP_HEADER_SIZE) (fun t =>
    write_udp_header t (ep_src_ip e) (ep_src_port e) (ep_dst_ip e) (ep_dst_port e) (wrap 16 n) false).

(** [tx_loop]: payload first, then the headers. *)
Definition write_packet (packet : list Z) (e : endpoints) (payload : list Z) : outcome (list Z) :=
  packet ← with_tail packet PACKET_HEADER_SIZE (fun t => copy_from_slice t 0 (len payload) payload);
  write_headers packet e (len payload).
End assemble.

(** ** Specification *)

(** The frame on the wire. *)
Definition frame_bytes (e : endpoints) (payload : list Z) : list Z :=
  eth_header (mac_bytes (ep_src_mac e)) (mac_bytes (ep_dst_mac e))
  ++ ip_header (ep_src_ip e) (ep_dst_ip e) (wrap 16 (8 + len payload))
  ++ udp_header (ep_src_port e) (ep_dst_port e) (wrap 16 (len payload)) ++ payload.

Definition endpoints_ok (e : endpoints) : Prop :=
  mac_ok (ep_src_mac e) /\ mac_ok (ep_dst_mac e) /\ ipv4_ok (ep_src_ip e) /\ ipv4_ok (ep_dst_ip e) /\
  is_u16 (ep_src_port e) /\ is_u16 (ep_dst_port e).
#[global] Instance endpoints_ok_dec e : Decision (endpoints_ok e).
Proof. unfold endpoints_ok. apply _. Defined.

(** A receiver: checks the EtherType, the IP version and header length, the
    header checksum, the protocol and both length fields, and returns the
    addresses and the payload. *)
Definition word_of (l : list Z) (i : nat) : Z := nth i l 0 * 256 + nth (S i) l 0.
Definition ip_of (l : list Z) (i : nat) : Ipv4Addr :=
  Ipv4 (nth i l 0) (nth (i + 1) l 0) (nth (i + 2) l 0) (nth (i + 3) l 0).

Definition receive_frame (f : list Z) : option (endpoints * list Z) :=
  let eth := take 14 f in
  let ip := take 20 (drop 14 f) in
  let udp := take 8 (drop 34 f) in
  let payload := drop 42 f in
  if decide (42 <= len f /\ word_of eth 12 = 0x0800 /\ nth 0 ip 0 = 0x45 /\ nth 9 ip 0 = 17 /\
             inet_checksum (words ip) = 0 /\
             word_of ip 2 = 28 + len payload /\ word_of udp 4 = 8 + len payload)
  then Some (mkEndpoints (Mac (take 6 (drop 6 eth))) (Mac (take 6 eth)) (ip_of ip 12) (ip_of ip 16)
               (word_of udp 0) (word_of udp 2), payload)
  else None.

(** ** Lemmas *)

Lemma eth_header_len e :
  endpoints_ok e -> length (eth_header (mac_bytes (ep_src_mac e)) (mac_bytes (ep_dst_mac e))) = 14%nat.
Proof.
  intros ((L1 & _) & (L2 & _) & _). unfold eth_header. rewrite !length_app, L1, L2. done.
Qed.

Lemma ip_header_length src dst n : length (ip_header src dst n) = 20%nat.
Proof. done. Qed.
Lemma udp_header_length sp dp n : length (udp_header sp dp n) = 8%nat.
Proof. done. Qed.

Lemma frame_bytes_len e payload : endpoints_ok e -> len (frame_bytes e payload) = 42 + len payload.
Proof.
  intros He. unfold frame_bytes, len. rewrite !length_app, eth_header_len by done.
  rewrite ip_header_length, udp_header_length. lia.
Qed.

Section assemble_facts.
Context `{BuildProfile}.

(** Writing the headers replaces the first 42 bytes. *)
Lemma write_headers_eq packet e n :
  endpoints_ok e -> 42 <= len packet ->
  write_headers packet e n =
    Done (eth_header (mac_bytes (ep_src_mac e)) (mac_bytes (ep_dst_mac e))
          ++ ip_header (ep_src_ip e) (ep_dst_ip e) (wrap 16 (8 + n))
          ++ udp_header (ep_src_port e) (ep_dst_port e) (wrap 16 n) ++ drop 42 packet).
Proof.
  intros He Hl. pose proof He as (Hm1 & Hm2 & Hs & Hd & _).
  pose proof (eth_header_len e He) as Le. unfold write_headers, ETH_HEADER_SIZE, IP_HEADER_SIZE.
  rewrite write_eth_header_eq, bind_Done by (unfold ETH_HEADER_SIZE; (lia || by apply mac_len)).
  set (eh := eth_header _ _) in *.
  rewrite (with_tail_Done (eh ++ drop 14 packet) 14 _
             (ip_header (ep_src_ip e) (ep_dst_ip e) (wrap 16 (8 + n)) ++ drop 20 (drop 14 packet))), bind_Done;
    [|rewrite len_app; unfold len in *; rewrite length_drop; lia| ].
  2: { change (Z.to_nat 14) with 14%nat. rewrite drop_app_length' by done.
       rewrite write_ip_header_eq; [done|done|done|].
       unfold IP_HEADER_SIZE, len in *. rewrite length_drop. lia. }
  change (Z.to_nat 14) with 14%nat. rewrite take_app_length' by done. rewrite drop_drop.
  set (ih := ip_header _ _ _). assert (length ih = 20%nat) as Li by done. change (14 + 20) with 34.
  rewrite (with_tail_Done _ 34 _
             (udp_header (ep_src_port e) (ep_dst_port e) (wrap 16 n) ++ drop 8 (drop (14 + 20) packet)));
    [|rewrite !len_app; unfold len in *; rewrite length_drop; lia| ].
  - change (Z.to_nat 34) with 34%nat. rewrite (app_assoc eh ih), take_app_length' by (by rewrite length_app, Le, Li).
    by rewrite drop_drop, <-!app_assoc.
  - change (Z.to_nat 34) with 34%nat. rewrite (app_assoc eh ih), drop_app_length' by (by rewrite length_app, Le, Li).
    apply write_udp_header_eq. unfold UDP_HEADER_SIZE, len in *. rewrite length_drop. lia.
Qed.

Lemma write_packet_eq packet e payload :
  endpoints_ok e -> len packet = 42 + len payload ->
  write_packet packet e payload = Done (frame_bytes e payload).
Proof.
  intros He Hl. pose proof (len_nonneg payload). unfold write_packet.
  change PACKET_HEADER_SIZE with 42.
  rewrite (with_tail_Done packet 42 _ payload), bind_Done; [|lia|].
  2: { rewrite copy_from_slice_Done by (rewrite ?len_drop; lia). cbn [Z.to_nat take app].
       rewrite (drop_ge (drop _ _)), app_nil_r by (rewrite length_drop; unfold len in *; lia). done. }
  change (Z.to_nat 42) with 42%nat.
  rewrite write_headers_eq by (done || (rewrite len_app, len_take; unfold len in *; lia)).
  rewrite drop_app_length' by (rewrite length_take; unfold len in *; lia). done.
Qed.

(** A slice that is too short for the headers makes the writer panic. *)
Lemma write_packet_short packet e payload :
  len packet < 42 + len payload -> exists p, write_packet packet e payload = Panic p.
Proof.
  intros Hl. pose proof (len_nonneg payload). unfold write_packet, with_tail.
  change PACKET_HEADER_SIZE with 42. unfold slice_from, slice_range.
  case_decide; [|eauto]. rewrite bind_Done. unfold copy_from_slice at 1.
  rewrite decide_False; [eauto|]. rewrite len_take, len_drop. lia.
Qed.
End assemble_facts.

(** *** The receiver *)

Lemma word_of_be x l i rest :
  is_u16 x -> drop i l = u16_to_be_bytes x ++ rest -> word_of l i = x.
Proof.
  intros Hx Hd. rewrite u16_to_be_bytes_eq in Hd. unfold is_uint in Hx. change (2 ^ 16) with 65536 in Hx.
  assert (nth i l 0 = (x / 256) mod 256 /\ nth (S i) l 0 = x mod 256) as [E1 E2].
  { rewrite <-(take_drop i l), Hd.
    assert (length (take i l) = i) as Ei.
    { rewrite length_take. apply Nat.min_l. apply (f_equal length) in Hd. rewrite length_drop in Hd. cbn in Hd. lia. }
    split; rewrite app_nth2; rewrite Ei; try lia; by (rewrite ?Nat.sub_diag, ?Nat.sub_succ_l, ?Nat.sub_diag by lia). }
  unfold word_of. rewrite E1, E2, (Z.mod_small (x / 256)) by div_lia. div_lia.
Qed.

(** The pieces of a frame. *)
Lemma frame_bytes_pieces e payload :
  endpoints_ok e ->
  take 14 (frame_bytes e payload) = eth_header (mac_bytes (ep_src_mac e)) (mac_bytes (ep_dst_mac e)) /\
  take 20 (drop 14 (frame_bytes e payload)) = ip_header (ep_src_ip e) (ep_dst_ip e) (wrap 16 (8 + len payload)) /\
  take 8 (drop 34 (frame_bytes e payload)) = udp_header (ep_src_port e) (ep_dst_port e) (wrap 16 (len payload)) /\
  drop 42 (frame_bytes e payload) = payload.
Proof.
  intros He. pose proof (eth_header_len e He) as Le. unfold frame_bytes.
  set (eh := eth_header _ _) in *. set (ih := ip_header _ _ _). set (uh := udp_header _ _ _).
  assert (length ih = 20%nat) as Li by done. assert (length uh = 8%nat) as Lu by done.
  split_and!.
  - by rewrite take_app_length' by done.
  - by rewrite drop_app_length', take_app_length' by done.
  - by rewrite (app_assoc eh), drop_app_length', take_app_length' by (rewrite ?length_app; lia).
  - by rewrite (app_assoc eh), (app_assoc (eh ++ ih)), drop_app_length' by (rewrite ?length_app; lia).
Qed.

Lemma ip_header_word2 src dst n : word_of (ip_header src dst n) 2 = wrap 16 (20 + n).
Proof. eapply word_of_be; [by apply wrap_range|]. reflexivity. Qed.

Lemma udp_header_words sp dp n :
  is_u16 sp -> is_u16 dp ->
  word_of (udp_header sp dp n) 0 = sp /\ word_of (udp_header sp dp n) 2 = dp /\
  word_of (udp_header sp dp n) 4 = wrap 16 (8 + n).
Proof.
  intros Hs Hd. split_and!; eapply word_of_be; try done; try reflexivity. by apply wrap_range.
Qed.

(** A receiver recovers what was written. *)
Lemma receive_frame_bytes e payload :
  endpoints_ok e -> len payload < 2 ^ 16 - 28 ->
  receive_frame (frame_bytes e payload) = Some (e, payload).
Proof.
  intros He Hlen. pose proof (len_nonneg payload). pose proof He as ((L1 & _) & (L2 & _) & Hs & Hd & Hsp & Hdp).
  destruct (frame_bytes_pieces e payload He) as (E1 & E2 & E3 & E4). unfold receive_frame.
  rewrite E1, E2, E3, E4. destruct (udp_header_words _ _ (wrap 16 (len payload)) Hsp Hdp) as (W0 & W2 & W4).
  rewrite W0, W2, W4, ip_header_word2, frame_bytes_len by done.
  rewrite !(wrap_small 16 (len payload)), !(wrap_small 16 (8 + len payload)),
    (wrap_small 16 (20 + _)) by (unfold is_uint; lia).
  rewrite decide_True.
  - destruct e as [[sm] [dm] [] [] sp dp]. cbn in *. unfold eth_header.
    rewrite take_app_length' by done. rewrite drop_app_length', take_app_length' by done. done.
  - split_and!; try lia; try done.
    + eapply (word_of_be 2048 _ _ []); [done|]. unfold eth_header.
      by rewrite app_assoc, drop_app_length' by (rewrite length_app; lia).
    + by apply ip_header_checksum.
Qed.

(** ** Properties *)

(** C7: what [tx_loop] writes is what a receiver reads. For a frame of exactly
    42 bytes plus the payload, whatever it held before, the written bytes are
    accepted by a receiver that checks EtherType, IP version, header checksum,
    protocol and both length fields, and it gets back the MAC and IP
    addresses, the ports and the payload. *)
Theorem written_packet_is_received `{BuildProfile} packet e payload :
  endpoints_ok e -> len packet = PACKET_HEADER_SIZE + len payload -> len payload < 2 ^ 16 - 28 ->
  exists f, write_packet packet e payload = Done f /\ len f = len packet /\
    receive_frame f = Some (e, payload).
Proof.
  intros He Hl Hp. exists (frame_bytes e payload). split_and!.
  - by apply write_packet_eq.
  - rewrite frame_bytes_len by done. exact (eq_sym Hl).
  - by apply receive_frame_bytes.
Qed.

(** ** Witnesses *)

Definition example_endpoints : endpoints :=
  mkEndpoints (Mac [2;0;0;0;0;1]) (Mac [2;0;0;0;0;2]) example_src example_dst 8001 8002.

Lemma written_packet_is_received_witness :
  exists f, @write_packet dev_profile (replicate 45 255) example_endpoints [1; 2; 3] = Done f /\
    len f = 45 /\ receive_frame f = Some (example_endpoints, [1; 2; 3]).
Proof.
  apply (@written_packet_is_received dev_profile (replicate 45 255) example_endpoints [1; 2; 3]);
    [by_decide|reflexivity|reflexivity].
Defined.
