(* ===== verification/Device.v ===== *)
(** * Network devices and their queues ([device.rs])

    [NetworkDevice] looks up interfaces, addresses and ring sizes through libc
    calls on a request structure. The operating system is a parameter; what the
    code does with names, request buffers and answers is modelled byte by
    byte. *)

From S2P Require Import Prelude Words Net Umem Ring Netlink Route.

(** ** Queues *)

Record RingSizes := mkRingSizes { rs_rx : Z; rs_tx : Z }.
#[global] Instance RingSizes_eq_dec : EqDecision RingSizes.
Proof. solve_decision. Defined.
Definition RingSizes_default : RingSizes := mkRingSizes 1024 1024.

Record DeviceQueue := mkDeviceQueue {
  dq_if_index : Z;
  dq_queue_id : Z;
  dq_ring_sizes : option RingSizes;
  dq_completion : option TxCompletionRing;
}.
Definition DeviceQueue_new (if_index queue_id : Z) (ring_sizes : option RingSizes) : DeviceQueue :=
  mkDeviceQueue if_index queue_id ring_sizes None.

(** ** Strings *)

(** [String::from_utf8_lossy]: the number of bytes of the first chunk and
    whether they are a character; an ill-formed chunk, at least one byte long,
    becomes U+FFFD. *)
Definition in_range (lo hi : Z) (b : option Z) : bool :=
  match b with Some b => (lo <=? b) && (b <=? hi) | None => false end.
Definition continuation (b : option Z) : bool := in_range 0x80 0xBF b.

Definition second_byte (b : Z) (c : option Z) : bool :=
  if b =? 0xE0 then in_range 0xA0 0xBF c
  else if b =? 0xED then in_range 0x80 0x9F c
  else if b =? 0xF0 then in_range 0x90 0xBF c
  else if b =? 0xF4 then in_range 0x80 0x8F c
  else continuation c.

Definition utf8_chunk (b : Z) (rest : list Z) : nat * bool :=
  if b <=? 0x7F then (1%nat, true)
  else if (0xC2 <=? b) && (b <=? 0xDF) then
    if continuation (rest !! 0%nat) then (2%nat, true) else (1%nat, false)
  else if (0xE0 <=? b) && (b <=? 0xEF) then
    if second_byte b (rest !! 0%nat) then
      if continuation (rest !! 1%nat) then (3%nat, true) else (2%nat, false)
    else (1%nat, false)
  else if (0xF0 <=? b) && (b <=? 0xF4) then
    if second_byte b (rest !! 0%nat) then
      if continuation (rest !! 1%nat) then
        if continuation (rest !! 2%nat) then (4%nat, true) else (3%nat, false)
      else (2%nat, false)
    else (1%nat, false)
  else (1%nat, false).

Fixpoint utf8_lossy (fuel : nat) (l : list Z) : list Z :=
  match fuel, l with
  | S fuel, b :: rest =>
      let '(n, ok) := utf8_chunk b rest in
      (if ok then take n l else [0xEF; 0xBF; 0xBD]) ++ utf8_lossy fuel (drop n l)
  | _, _ => []
  end.
Definition from_utf8_lossy (l : list Z) : list Z := utf8_lossy (length l) l.

(** [CString::new(..).as_bytes_with_nul()]: a name without zero bytes, and a
    terminating one. *)
Definition CString_new (l : list Z) : option (list Z) :=
  if bool_decide (0 ∈ l) then None else Some (l ++ [0]).

(** ** [NetworkDevice] *)

Record NetworkDevice := mkNetworkDevice { nd_if_index : Z; nd_if_name : list Z }.

Definition IF_NAMESIZE : Z := 16.

(** [ifreq]: the name and the bytes of the union. *)
Record ifreq := mkIfreq { ifr_name : list Z; ifr_ifru : list Z }.
Definition ifreq_zeroed : ifreq := mkIfreq (replicate 16 0) (replicate 24 0).

Record EthtoolRingParam := mkEthtoolRingParam {
  er_cmd : Z;
  er_rx_max_pending : Z; er_rx_mini_max_pending : Z; er_rx_jumbo_max_pending : Z; er_tx_max_pending : Z;
  er_rx_pending : Z; er_rx_mini_pending : Z; er_rx_jumbo_pending : Z; er_tx_pending : Z;
}.

Inductive ioctl_request := SIOCGIFHWADDR | SIOCGIFADDR.
Definition ETHTOOL_GRINGPARAM : Z := 0x10.

(** The libc calls: [if_nametoindex] of a name and [if_indextoname], the
    descriptor [socket(AF_INET, SOCK_DGRAM, 0)] returns, the requests on a name
    and a union, and [SIOCETHTOOL], whose union points to a ring parameter. *)
Class NetOs := {
  os_if_nametoindex : list Z -> Z;
  os_if_indextoname : Z -> option (list Z);
  os_dgram_socket : Z;
  os_ioctl : ioctl_request -> ifreq -> Z * ifreq;
  os_ethtool : list Z -> EthtoolRingParam -> Z * EthtoolRingParam;
}.

Section network_device.
Context `{BuildProfile} `{NetOs}.

Definition NetworkDevice_new (if_name : list Z) : result NetworkDevice io_error :=
  match CString_new if_name with
  | None => Err InvalidInput
  | Some _ =>
      let if_index := os_if_nametoindex if_name in
      if if_index =? 0 then Err LastOsError else Ok (mkNetworkDevice if_index if_name)
  end.

Definition NetworkDevice_new_from_index (if_index : Z) : result NetworkDevice io_error :=
  match os_if_indextoname if_index with
  | None => Err LastOsError
  | Some cstr => Ok (mkNetworkDevice if_index (from_utf8_lossy cstr))
  end.

Definition NetworkDevice_new_from_default_route (kn_neigh kn_route : netlink_kernel)
  : outcome (result NetworkDevice io_error) :=
  router ←? Router_new kn_neigh kn_route;
  default_route ← unwrap_ok (Router_default router);
  Done (NetworkDevice_new_from_index (nh_if_index default_route)).

(** [copy_nonoverlapping] of [n] bytes into the zeroed name; more than its 16
    bytes would be outside the array. *)
Definition copy_name (src : list Z) (n : Z) : outcome (list Z) :=
  if decide (0 <= n <= len src /\ n <= IF_NAMESIZE)
  then Done (take (Z.to_nat n) src ++ drop (Z.to_nat n) (ifr_name ifreq_zeroed))
  else UB.

(** The common part of [mac_addr] and [ipv4_addr]. *)
Definition name_request (dev : NetworkDevice) : outcome ifreq :=
  if_name_bytes ← unwrap (CString_new (nd_if_name dev));
  name ← copy_name if_name_bytes (Z.min (len if_name_bytes) IF_NAMESIZE);
  Done (mkIfreq name (ifr_ifru ifreq_zeroed)).

(** The address starts after the two bytes of [sa_family]. *)
Definition mac_addr (dev : NetworkDevice) : outcome (result MacAddress io_error) :=
  if os_dgram_socket <? 0 then Done (Err LastOsError)
  else
    req ← name_request dev;
    let '(res, req) := os_ioctl SIOCGIFHWADDR req in
    if res <? 0 then Done (Err LastOsError)
    else
      bytes ← slice_range (ifr_ifru req) 2 8;
      Done (Ok (Mac bytes)).

(** [sin_addr] follows [sin_family] and [sin_port]; [to_ne_bytes] of [s_addr]
    are its bytes in memory. *)
Definition ipv4_addr (dev : NetworkDevice) : outcome (result Ipv4Addr io_error) :=
  if os_dgram_socket <? 0 then Done (Err LastOsError)
  else
    req ← name_request dev;
    let '(res, req) := os_ioctl SIOCGIFADDR req in
    if res <? 0 then Done (Err LastOsError)
    else
      a ← slice_get (ifr_ifru req) 4;
      b ← slice_get (ifr_ifru req) 5;
      c ← slice_get (ifr_ifru req) 6;
      d ← slice_get (ifr_ifru req) 7;
      Done (Ok (Ipv4 a b c d)).

Definition ring_sizes (if_name : list Z) : outcome (result RingSizes io_error) :=
  if os_dgram_socket <? 0 then Done (Err LastOsError)
  else
    let rp := mkEthtoolRingParam ETHTOOL_GRINGPARAM 0 0 0 0 0 0 0 0 in
    name ← copy_name if_name (Z.min (len if_name) IF_NAMESIZE);
    name ← slice_set name (IF_NAMESIZE - 1) 0;
    let '(res, rp) := os_ethtool name rp in
    if res <? 0 then Done (Err LastOsError)
    else Done (Ok (mkRingSizes (er_rx_pending rp) (er_tx_pending rp))).

Definition open_queue (dev : NetworkDevice) (queue_id : Z) : outcome (result DeviceQueue io_error) :=
  sizes ← ring_sizes (nd_if_name dev);
  Done (Ok (DeviceQueue_new (nd_if_index dev) queue_id (match sizes with Ok s => Some s | Err _ => None end))).
End network_device.

(** ** Requests *)

(** The name field of a request for [name]: NUL-padded to 16 bytes. *)
Definition padded_name (name : list Z) : list Z := name ++ replicate (16 - length name) 0.

Lemma copy_name_padded l n :
  n = Z.min (len l) IF_NAMESIZE -> copy_name l n = Done (take 16 l ++ replicate (16 - length l) 0).
Proof.
  intros ->. unfold copy_name, IF_NAMESIZE. pose proof (len_nonneg l). rewrite decide_True by lia.
  cbn [ifr_name ifreq_zeroed]. rewrite drop_replicate. unfold len.
  destruct (decide (length l <= 16)%nat).
  - rewrite !take_ge by lia. do 3 f_equal; lia.
  - replace (Z.to_nat (Z.min _ _)) with 16%nat by lia. replace (16 - length l)%nat with 0%nat by lia. done.
Qed.

Lemma name_request_padded dev :
  0 ∉ nd_if_name dev -> len (nd_if_name dev) < IF_NAMESIZE ->
  name_request dev = Done (mkIfreq (padded_name (nd_if_name dev)) (replicate 24 0)).
Proof.
  intros Hn Hl. unfold name_request, CString_new. rewrite bool_decide_eq_false_2 by done. cbn [unwrap].
  rewrite bind_Done, copy_name_padded by done. unfold IF_NAMESIZE, len in Hl.
  rewrite bind_Done. do 2 f_equal. rewrite take_ge by (rewrite length_app; cbn; lia). unfold padded_name.
  rewrite <-app_assoc, length_app. f_equal. replace (16 - length (nd_if_name dev))%nat with (1 + (16 - (length (nd_if_name dev) + 1)))%nat by lia.
  done.
Qed.

Lemma ring_name_padded name :
  len name < IF_NAMESIZE -> (n ← copy_name name (Z.min (len name) IF_NAMESIZE); slice_set n (IF_NAMESIZE - 1) 0) = Done (padded_name name).
Proof.
  intros Hl. rewrite copy_name_padded, bind_Done by done. unfold IF_NAMESIZE, len in Hl.
  rewrite take_ge by lia. fold (padded_name name).
  assert (length (padded_name name) = 16%nat) as El by (unfold padded_name; rewrite length_app, length_replicate; lia).
  rewrite slice_set_Done by (unfold len; rewrite El; done). f_equal.
  apply list_insert_id. change (Z.to_nat (IF_NAMESIZE - 1)) with 15%nat. unfold padded_name.
  rewrite lookup_app_r by lia. apply lookup_replicate. lia.
Qed.

(** Names in ASCII are kept as they are. *)
Lemma utf8_lossy_ascii fuel l :
  Forall (fun b => b <= 0x7F) l -> (length l <= fuel)%nat -> utf8_lossy fuel l = l.
Proof.
  revert l. induction fuel as [|fuel IH]; intros l Hl Hf; [by destruct l; [|cbn in Hf; lia]|].
  destruct l as [|b l]; [done|]. apply Forall_cons in Hl as [Hb Hl]. cbn in *.
  unfold utf8_chunk. rewrite (proj2 (Z.leb_le b 127)) by done. cbn [take drop app].
  rewrite take_0, drop_0. cbn [app]. f_equal. apply IH; [done|lia].
Qed.

Lemma utf8_lossy_no_nul fuel l : 0 ∉ l -> 0 ∉ utf8_lossy fuel l.
Proof.
  revert l. induction fuel as [|fuel IH]; intros l Hl; [by destruct l; apply not_elem_of_nil|].
  destruct l as [|b l]; [apply not_elem_of_nil|]. cbn -[take drop]. destruct (utf8_chunk b l) as [n ok].
  rewrite not_elem_of_app. split.
  - destruct ok; [|by_decide]. intros Hin. by apply Hl, (subseteq_take n).
  - apply IH. intros Hin. by apply Hl, (subseteq_drop n).
Qed.

(** A device that one of the constructors returned. *)
Inductive device_made `{NetOs} (dev : NetworkDevice) : Prop :=
  | made_by_name name : NetworkDevice_new name = Ok dev -> device_made dev
  | made_by_index i : NetworkDevice_new_from_index i = Ok dev -> device_made dev.

Section device_facts.
Context `{NetOs}.

(** What libc promises: requests keep the size of the union, and names are C
    strings. *)
Definition net_os_ok : Prop :=
  (forall r q, length (ifr_ifru (os_ioctl r q).2) = 24%nat) /\ (forall i name, os_if_indextoname i = Some name -> 0 ∉ name).

Lemma device_name_no_nul dev : net_os_ok -> device_made dev -> 0 ∉ nd_if_name dev.
Proof.
  intros [_ Hos] [name Hn|i Hi].
  - unfold NetworkDevice_new, CString_new in Hn. case_bool_decide; [done|]. destruct (_ =? 0); [done|]. by injection Hn as <-.
  - unfold NetworkDevice_new_from_index in Hi. destruct (os_if_indextoname i) as [name|] eqn:E; [|done].
    injection Hi as <-. by apply utf8_lossy_no_nul, (Hos i).
Qed.

Lemma name_request_done dev : 0 ∉ nd_if_name dev -> exists req, name_request dev = Done req.
Proof.
  intros Hn. unfold name_request, CString_new. rewrite bool_decide_eq_false_2 by done. cbn [unwrap].
  rewrite bind_Done, copy_name_padded by done. by eexists.
Qed.

(** C23: no device the constructors return makes [mac_addr], [ipv4_addr] or
    [open_queue] panic or write outside the request structure, whatever the
    operating system answers and however long the name is; a MAC address
    returned has six bytes. *)
Theorem device_calls_never_panic dev queue_id :
  net_os_ok -> device_made dev ->
  (exists r, mac_addr dev = Done r /\ match r with Ok m => length (mac_bytes m) = 6%nat | Err _ => True end) /\
  (exists r, ipv4_addr dev = Done r) /\ (exists q, open_queue dev queue_id = Done (Ok q)).
Proof.
  intros Hos Hdev. pose proof (device_name_no_nul dev Hos Hdev) as Hn. destruct Hos as [Hlen _].
  destruct (name_request_done dev Hn) as [req Hreq].
  unfold mac_addr, ipv4_addr, open_queue, ring_sizes. rewrite copy_name_padded, Hreq, !bind_Done by done.
  split_and!.
  - destruct (_ <? 0); [by eexists|]. pose proof (Hlen SIOCGIFHWADDR req) as Hl.
    destruct (os_ioctl _ _) as [res q]. cbn in Hl. destruct (res <? 0); [by eexists|].
    rewrite slice_range_Done, bind_Done by (unfold len; lia). eexists. split; [done|]. cbn.
    rewrite length_take, length_drop. lia.
  - destruct (_ <? 0); [by eexists|]. pose proof (Hlen SIOCGIFADDR req) as Hl.
    destruct (os_ioctl _ _) as [res q]. cbn in Hl. destruct (res <? 0); [by eexists|].
    destruct (slice_get_Done (ifr_ifru q) 4) as (a & -> & _); [unfold len; lia|].
    destruct (slice_get_Done (ifr_ifru q) 5) as (b & -> & _); [unfold len; lia|].
    destruct (slice_get_Done (ifr_ifru q) 6) as (c & -> & _); [unfold len; lia|].
    destruct (slice_get_Done (ifr_ifru q) 7) as (d & -> & _); [unfold len; lia|]. by eexists.
  - destruct (_ <? 0); [by eexists|]. rewrite slice_set_Done, bind_Done.
    + destruct (os_ethtool _ _) as [res rp]. by destruct (res <? 0); eexists.
    + unfold len, IF_NAMESIZE. rewrite length_app, length_take, length_replicate. lia.
Qed.
End device_facts.

(** ** Witness *)

(** One interface, number 2, called [lo]. *)
#[local] Instance example_net_os : NetOs := {|
  os_if_nametoindex n := if bool_decide (n = [108; 111]) then 2 else 0;
  os_if_indextoname i := if i =? 2 then Some [108; 111] else None;
  os_dgram_socket := 3;
  os_ioctl r q := (0, mkIfreq (ifr_name q) (replicate 24 7));
  os_ethtool _ rp := (-1, rp);
|}.

Lemma device_calls_never_panic_witness :
  (exists r, mac_addr (mkNetworkDevice 2 [108; 111]) = Done r /\
     match r with Ok m => length (mac_bytes m) = 6%nat | Err _ => True end) /\
  (exists r, ipv4_addr (mkNetworkDevice 2 [108; 111]) = Done r) /\
  (exists q, open_queue (mkNetworkDevice 2 [108; 111]) 0 = Done (Ok q)).
Proof.
  apply (device_calls_never_panic (mkNetworkDevice 2 [108; 111]) 0).
  - split; [done|]. intros i name. cbn. destruct (i =? 2); [|done]. intros [= <-]. by_decide.
  - apply (made_by_name _ [108; 111]). by vm_compute.
Defined.
