(* ===== verification/Socket.v ===== *)
(** * Opening an AF_XDP socket ([socket.rs], [mmap_ring] of [device.rs])

    [Socket::new] as the sequence of system calls it makes: register the UMEM,
    size the rings, configure busy polling, map the rings, in zero-copy mode
    populate the fill ring, bind. The operating system is a parameter that
    answers each call; set-up runs in a monad that logs the calls. *)

From S2P Require Import Prelude Words Net Umem Ring Netlink Route Device.

(** ** System calls *)

Definition AF_XDP : Z := 44.
Definition SOCK_RAW : Z := 3.
Definition SOL_SOCKET : Z := 1.
Definition SOL_XDP : Z := 283.
Definition XDP_MMAP_OFFSETS : Z := 1.
Definition XDP_RX_RING : Z := 2.
Definition XDP_TX_RING : Z := 3.
Definition XDP_UMEM_REG : Z := 4.
Definition XDP_UMEM_FILL_RING : Z := 5.
Definition XDP_UMEM_COMPLETION_RING : Z := 6.
Definition XDP_PGOFF_RX_RING : Z := 0.
Definition XDP_PGOFF_TX_RING : Z := 0x80000000.
Definition XDP_UMEM_PGOFF_FILL_RING : Z := 0x100000000.
Definition XDP_UMEM_PGOFF_COMPLETION_RING : Z := 0x180000000.
Definition XDP_COPY : Z := 2.
Definition XDP_ZEROCOPY : Z := 4.
Definition XDP_USE_NEED_WAKEUP : Z := 8.
Definition SO_BUSY_POLL : Z := 46.
Definition SO_BUSY_POLL_BUDGET : Z := 70.
Definition SO_PREFER_BUSY_POLL : Z := 69.

Record xdp_umem_reg := mkUmemReg {
  ur_addr : Z; ur_len : Z; ur_chunk_size : Z; ur_headroom : Z; ur_flags : Z; ur_tx_metadata_len : Z;
}.
Record sockaddr_xdp := mkSockaddrXdp {
  sxdp_family : Z; sxdp_flags : Z; sxdp_ifindex : Z; sxdp_queue_id : Z; sxdp_shared_umem_fd : Z;
}.
Record xdp_ring_offset := mkRingOffset { ro_producer : Z; ro_consumer : Z; ro_desc : Z; ro_flags : Z }.
Record xdp_mmap_offsets := mkMmapOffsets {
  mo_rx : xdp_ring_offset; mo_tx : xdp_ring_offset; mo_fr : xdp_ring_offset; mo_cr : xdp_ring_offset;
}.

Inductive sockopt := OptUmemReg (r : xdp_umem_reg) | OptInt (v : Z).
Inductive xsk_call :=
  | CallSocket (domain type protocol : Z)
  | CallSetsockopt (fd level name : Z) (value : sockopt)
  | CallMmapOffsets (fd level name : Z)
  | CallMmap (size fd offset : Z)
  | CallBind (fd : Z) (addr : sockaddr_xdp).

(** What lies at an address: the producer or consumer counter, the first
    descriptor or the flags of the ring with a page offset. *)
Inductive ring_cell :=
  | CellProducer (pgoff : Z)
  | CellConsumer (pgoff : Z)
  | CellDesc (pgoff : Z)
  | CellFlags (pgoff : Z).

(** What the operating system answers a call made after the calls [log]: its
    return value (the address for [mmap], -1 for [MAP_FAILED]), the offsets
    [getsockopt] fills in, what it has mapped at an address, and the memory of a
    mapped ring by page offset. *)
Class XdpOs := {
  os_call : list xsk_call -> xsk_call -> Z;
  os_offsets : xdp_mmap_offsets;
  os_cell : Z -> option ring_cell;
  os_ring_u64 : Z -> ring_mem Z;
  os_ring_desc : Z -> ring_mem XdpDesc;
}.

(** ** The set-up monad *)

Definition setup (A : Type) : Type := list xsk_call -> list xsk_call * outcome (result A io_error).

Definition setup_ret {A} (a : A) : setup A := fun log => (log, Done (Ok a)).
Definition setup_err {A} (e : io_error) : setup A := fun log => (log, Done (Err e)).
Definition setup_bind {A B} (m : setup A) (k : A -> setup B) : setup B := fun log =>
  match m log with
  | (log', Done (Ok a)) => k a log'
  | (log', Done (Err e)) => (log', Done (Err e))
  | (log', Panic p) => (log', Panic p)
  | (log', UB) => (log', UB)
  | (log', OutOfFuel) => (log', OutOfFuel)
  end.
(** A computation that makes no system call. *)
Definition local {A} (m : outcome (result A io_error)) : setup A := fun log => (log, m).
Definition local_ok {A} (m : outcome A) : setup A := fun log => (log, a ← m; Done (Ok a)).

Notation "x ←! m ; k" := (setup_bind m (fun x => k))
  (at level 20, m at level 100, k at level 200, right associativity) : rust_scope.
Notation "' x ←! m ; k" := (setup_bind m (fun x : _ => k))
  (at level 20, x pattern, m at level 100, k at level 200, right associativity) : rust_scope.

(** [RingMmap]: the mapping and the pointers into it. *)
Record RingMmap := mkRingMmap {
  mm_mmap : Z; mm_mmap_len : Z; mm_producer : Z; mm_consumer : Z; mm_desc : Z; mm_flags : Z;
}.

(** [Socket], [Tx] and [Rx] *)

Record Socket (U : Type) := mkSocket { so_fd : Z; so_dev_queue : DeviceQueue; so_umem : U }.
Arguments mkSocket {U} _ _ _.
Arguments so_fd {U} _.
Arguments so_dev_queue {U} _.
Arguments so_umem {U} _.
Record Tx := mkTx { t_tx_completion : TxCompletionRing; t_tx_ring : option TxRing }.
Record Rx := mkRx { r_rx_fill : RxFillRing; r_rx_ring : option RxRing }.

(** The memory behind the rings' pointers once the socket is open, and that of
    the fill ring as it was mapped. *)
Record SocketMem := mkSocketMem {
  sm_completion : ring_mem Z; sm_mapped_fill : ring_mem Z; sm_fill : ring_mem Z;
  sm_tx : ring_mem XdpDesc; sm_rx : option (ring_mem XdpDesc);
}.

Section setup.
Context `{BuildProfile} `{XdpOs}.

(** A call that fails with a negative value. *)
Definition call (c : xsk_call) : setup Z := fun log =>
  let ret := os_call log c in
  (log ++ [c], if ret <? 0 then Done (Err LastOsError) else Done (Ok ret)).

(** ** Mapping a ring *)

Definition saturating_add64 (a b : Z) : Z := Z.min (a + b) (2 ^ 64 - 1).
Definition saturating_mul64 (a b : Z) : Z := Z.min (a * b) (2 ^ 64 - 1).

Definition mmap_ring (fd size : Z) (offsets : xdp_ring_offset) (ring_type : Z) : setup RingMmap := fun log =>
  let map_size := saturating_add64 (ro_desc offsets) size in
  let c := CallMmap map_size fd ring_type in
  let map_addr := os_call log c in
  (log ++ [c],
   if map_addr =? -1 then Done (Err LastOsError)
   else Done (Ok (mkRingMmap map_addr map_size (map_addr + ro_producer offsets) (map_addr + ro_consumer offsets)
                    (map_addr + ro_desc offsets) (map_addr + ro_flags offsets)))).

(** The ring the pointers of a mapping lead to; loading a counter through a
    pointer that does not lead to that counter, or using pointers into different
    rings, is undefined. *)
Definition ring_at (r : RingMmap) : outcome Z :=
  match os_cell (mm_producer r), os_cell (mm_consumer r), os_cell (mm_desc r), os_cell (mm_flags r) with
  | Some (CellProducer p), Some (CellConsumer c), Some (CellDesc d), Some (CellFlags f) =>
      if (p =? c) && (p =? d) && (p =? f) then Done p else UB
  | _, _, _, _ => UB
  end.
Definition mapped_u64 (r : RingMmap) : outcome (ring_mem Z) := p ← ring_at r; Done (os_ring_u64 p).
Definition mapped_desc (r : RingMmap) : outcome (ring_mem XdpDesc) := p ← ring_at r; Done (os_ring_desc p).

(** ** [Socket] *)

Section socket.
Context {U F : Type} `{Umem U F}.

(** [for _ in 0..rx_fill_ring_size]: reserve a frame and write it to the fill
    ring. *)
Fixpoint populate (n : nat) (u : U) (m : ring_mem Z) (r : RxFillRing) : outcome (result (U * ring_mem Z * RxFillRing) io_error) :=
  match n with
  | O => Done (Ok (u, m, r))
  | S n =>
      o ← umem_reserve u;
      match o with
      | None => Done (Err (OtherError "Failed to reserve frame for RX fill ring"))
      | Some (frame, u) =>
          w ← RxFillRing_write m r frame;
          match w with
          | (Ok _, m, r) => populate n u m r
          | (Err e, _, _) => Done (Err e)
          end
      end
  end.

(** The [setsockopt] calls that size the rings; only the low 32 bits of a size
    are passed, and an RX ring of size zero is left out. *)
Fixpoint size_rings (fd : Z) (rings : list (Z * Z)) : setup unit :=
  match rings with
  | [] => setup_ret tt
  | (ring, size) :: rings =>
      if (ring =? XDP_RX_RING) && (size =? 0) then size_rings fd rings
      else
        _ ←! call (CallSetsockopt fd SOL_XDP ring (OptInt (wrap 32 size)));
        size_rings fd rings
  end.

(** [Socket::new]: the socket, its ends of the rings, and the memory its pointers
    lead to. [umem_ptr] is [umem.as_ptr()]. *)
Definition Socket_new (dev_queue : DeviceQueue) (umem_ptr : Z) (umem : U) (zero_copy : bool)
  (rx_fill_ring_size rx_ring_size tx_completion_ring_size tx_ring_size : Z)
  : setup (Socket U * Rx * Tx * SocketMem) :=
  fd ←! call (CallSocket AF_XDP SOCK_RAW 0);
  let reg := mkUmemReg umem_ptr (umem_len umem) (wrap 32 (umem_frame_size umem)) 0 0 0 in
  _ ←! call (CallSetsockopt fd SOL_XDP XDP_UMEM_REG (OptUmemReg reg));
  _ ←! size_rings fd [(XDP_UMEM_COMPLETION_RING, tx_completion_ring_size);
                      (XDP_UMEM_FILL_RING, rx_fill_ring_size);
                      (XDP_TX_RING, tx_ring_size);
                      (XDP_RX_RING, rx_ring_size)];
  _ ←! call (CallSetsockopt fd SOL_SOCKET SO_BUSY_POLL (OptInt 200));
  _ ←! call (CallSetsockopt fd SOL_SOCKET SO_BUSY_POLL_BUDGET (OptInt 256));
  _ ←! call (CallSetsockopt fd SOL_SOCKET SO_PREFER_BUSY_POLL (OptInt 1));
  _ ←! call (CallMmapOffsets fd SOL_XDP XDP_MMAP_OFFSETS);
  let offsets := os_offsets in
  mmap ←! mmap_ring fd (saturating_mul64 tx_completion_ring_size 8) (mo_cr offsets) XDP_UMEM_PGOFF_COMPLETION_RING;
  completion ←! local_ok (mapped_u64 mmap);
  tx_completion_ring ←! local_ok (TxCompletionRing_new completion (wrap 32 tx_completion_ring_size));
  mmap ←! mmap_ring fd (saturating_mul64 rx_fill_ring_size 8) (mo_fr offsets) XDP_UMEM_PGOFF_FILL_RING;
  mapped_fill ←! local_ok (mapped_u64 mmap);
  rx_fill_ring ←! local_ok (RxFillRing_new mapped_fill (wrap 32 rx_fill_ring_size));
  '(umem, fill, rx_fill_ring) ←!
     (if zero_copy then
        '(umem, fill, r) ←! local (populate (Z.to_nat rx_fill_ring_size) umem mapped_fill rx_fill_ring);
        setup_ret (umem, RxFillRing_commit fill r, r)
      else setup_ret (umem, mapped_fill, rx_fill_ring));
  mmap ←! mmap_ring fd (saturating_mul64 tx_ring_size 16) (mo_tx offsets) XDP_PGOFF_TX_RING;
  tx ←! local_ok (mapped_desc mmap);
  tx_ring ←! local_ok (TxRing_new tx (wrap 32 tx_ring_size));
  '(rx, rx_ring) ←!
    (if 0 <? rx_ring_size then
       mmap ←! mmap_ring fd (saturating_mul64 rx_ring_size 16) (mo_rx offsets) XDP_PGOFF_RX_RING;
       rx ←! local_ok (mapped_desc mmap);
       r ←! local_ok (RxRing_new rx (wrap 32 rx_ring_size));
       setup_ret (Some rx, Some r)
     else setup_ret (None, None));
  let sxdp := mkSockaddrXdp AF_XDP (Z.lor XDP_USE_NEED_WAKEUP (if zero_copy then XDP_ZEROCOPY else XDP_COPY))
                (dq_if_index dev_queue) (wrap 32 (dq_queue_id dev_queue)) 0 in
  _ ←! call (CallBind fd sxdp);
  setup_ret (mkSocket fd dev_queue umem, mkRx rx_fill_ring rx_ring, mkTx tx_completion_ring (Some tx_ring),
             mkSocketMem completion mapped_fill fill tx rx).

Definition Socket_tx (queue : DeviceQueue) (umem_ptr : Z) (umem : U) (zero_copy : bool) (completion_size ring_size : Z)
  : setup (Socket U * Tx * SocketMem) :=
  '(fill_size, rx_size) ←!
    (if zero_copy then
       match dq_ring_sizes queue with
       | Some sizes => setup_ret (rs_rx sizes, rs_rx sizes)
       | None => setup_err (OtherError "zero copy requires a set ring size")
       end
     else setup_ret (1, 0));
  '(socket, _, tx, mem) ←! Socket_new queue umem_ptr umem zero_copy fill_size rx_size completion_size ring_size;
  setup_ret (socket, tx, mem).

Definition Socket_rx (queue : DeviceQueue) (umem_ptr : Z) (umem : U) (zero_copy : bool) (fill_size ring_size : Z)
  : setup (Socket U * Rx * SocketMem) :=
  '(socket, rx, _, mem) ←! Socket_new queue umem_ptr umem zero_copy fill_size ring_size 0 0;
  setup_ret (socket, rx, mem).
End socket.
End setup.

(** ** Specification of the calls *)

Definition call_ok (c : xsk_call) (ret : Z) : bool :=
  match c with CallMmap _ _ _ => negb (ret =? -1) | _ => negb (ret <? 0) end.

(** Every call of [cs] made in turn after [log] succeeds. *)
Fixpoint answered `{XdpOs} (log cs : list xsk_call) : Prop :=
  match cs with
  | [] => True
  | c :: cs => call_ok c (os_call log c) = true /\ answered (log ++ [c]) cs
  end.
#[global] Instance answered_dec `{XdpOs} log cs : Decision (answered log cs).
Proof. revert log. induction cs as [|c cs IH]; intros log; cbn; apply _. Defined.

Definition ring_map (fd : Z) (offsets : xdp_ring_offset) (bytes pgoff : Z) : xsk_call :=
  CallMmap (saturating_add64 (ro_desc offsets) bytes) fd pgoff.

(** The calls of a complete set-up, in order. *)
Definition socket_calls `{XdpOs} (fd : Z) (queue : DeviceQueue) (reg : xdp_umem_reg) (zero_copy : bool)
  (fill rx cq tx : Z) : list xsk_call :=
  let ring r n := CallSetsockopt fd SOL_XDP r (OptInt (wrap 32 n)) in
  [CallSocket AF_XDP SOCK_RAW 0; CallSetsockopt fd SOL_XDP XDP_UMEM_REG (OptUmemReg reg);
   ring XDP_UMEM_COMPLETION_RING cq; ring XDP_UMEM_FILL_RING fill; ring XDP_TX_RING tx]
  ++ (if rx =? 0 then [] else [ring XDP_RX_RING rx])
  ++ [CallSetsockopt fd SOL_SOCKET SO_BUSY_POLL (OptInt 200);
      CallSetsockopt fd SOL_SOCKET SO_BUSY_POLL_BUDGET (OptInt 256);
      CallSetsockopt fd SOL_SOCKET SO_PREFER_BUSY_POLL (OptInt 1);
      CallMmapOffsets fd SOL_XDP XDP_MMAP_OFFSETS;
      ring_map fd (mo_cr os_offsets) (saturating_mul64 cq 8) XDP_UMEM_PGOFF_COMPLETION_RING;
      ring_map fd (mo_fr os_offsets) (saturating_mul64 fill 8) XDP_UMEM_PGOFF_FILL_RING;
      ring_map fd (mo_tx os_offsets) (saturating_mul64 tx 16) XDP_PGOFF_TX_RING]
  ++ (if 0 <? rx then [ring_map fd (mo_rx os_offsets) (saturating_mul64 rx 16) XDP_PGOFF_RX_RING] else [])
  ++ [CallBind fd (mkSockaddrXdp AF_XDP (Z.lor XDP_USE_NEED_WAKEUP (if zero_copy then XDP_ZEROCOPY else XDP_COPY))
                     (dq_if_index queue) (wrap 32 (dq_queue_id queue)) 0)].

(** ** Reasoning about set-up *)

Section setup_rules.
Context `{XdpOs}.

Lemma answered_app log c1 c2 : answered log (c1 ++ c2) <-> answered log c1 /\ answered (log ++ c1) c2.
Proof.
  revert log. induction c1 as [|c c1 IH]; intros log; cbn; [rewrite app_nil_r; tauto|].
  rewrite IH, <-app_assoc. cbn. tauto.
Qed.

(** [m] makes the calls [cs] in order, stops at the first that fails with its
    error, and establishes [Q] when it succeeds. *)
Definition traced {A} (m : setup A) (log cs : list xsk_call) (Q : A -> Prop) : Prop :=
  exists made rest, cs = made ++ rest /\ (m log).1 = log ++ made /\
    match (m log).2 with
    | Done (Ok a) => rest = [] /\ answered log made /\ Q a
    | Done (Err LastOsError) =>
        exists init c, made = init ++ [c] /\ answered log init /\ call_ok c (os_call (log ++ init) c) = false
    | _ => answered log made
    end.

Lemma traced_ret {A} (a : A) log (Q : A -> Prop) : Q a -> traced (setup_ret a) log [] Q.
Proof. intros Hq. exists [], []. rewrite (app_nil_r log). by split_and!. Qed.

(** A local computation, which builds no OS error. *)
Lemma traced_local {A} (m : outcome (result A io_error)) log (Q : A -> Prop) :
  m <> Done (Err LastOsError) -> (forall a, m = Done (Ok a) -> Q a) -> traced (local m) log [] Q.
Proof.
  intros Hm Hq. exists [], []. rewrite (app_nil_r log). split; [done|]. split; [done|]. cbn.
  destruct m as [[a|[]]| | |]; try done. split_and!; auto.
Qed.

Lemma traced_local_ok {A} (m : outcome A) log : traced (local_ok m) log [] (fun a => m = Done a).
Proof. exists [], []. rewrite (app_nil_r log). split; [done|]. split; [done|]. cbn. by destruct m. Qed.

Lemma traced_call c log :
  (forall a b d, c <> CallMmap a b d) -> traced (call c) log [c] (fun a => a = os_call log c).
Proof.
  intros Hc. exists [c], []. split; [done|]. split; [done|]. cbn.
  assert (call_ok c (os_call log c) = negb (os_call log c <? 0)) as E by (destruct c; try done; by edestruct Hc).
  destruct (os_call log c <? 0) eqn:El.
  - exists [], c. split_and!; try done. rewrite app_nil_r. by rewrite E.
  - by rewrite E.
Qed.

Lemma traced_mmap fd size off ty log :
  traced (mmap_ring fd size off ty) log [ring_map fd off size ty]
    (fun r => mm_mmap_len r = saturating_add64 (ro_desc off) size /\ mm_desc r = mm_mmap r + ro_desc off).
Proof.
  set (c := ring_map fd off size ty).
  assert (call_ok c (os_call log c) = negb (os_call log c =? -1)) as E by done.
  exists [c], []. split; [done|]. split; [done|]. unfold mmap_ring. cbn [snd].
  change (CallMmap _ fd ty) with c. destruct (os_call log c =? -1).
  - exists [], c. split_and!; try done. by rewrite app_nil_r.
  - done.
Qed.

Lemma traced_bind {A B} (m : setup A) (k : A -> setup B) log c1 c2 (Q1 : A -> Prop) (Q2 : B -> Prop) :
  traced m log c1 Q1 -> (forall a, Q1 a -> traced (k a) (log ++ c1) c2 Q2) ->
  traced (setup_bind m k) log (c1 ++ c2) Q2.
Proof.
  intros (made & rest & -> & El & Hm) Hk. unfold setup_bind, traced. destruct (m log) as [log' r]. cbn in El, Hm. subst log'.
  destruct r as [[a|e]| | |].
  - destruct Hm as (-> & Ha & Hq). rewrite app_nil_r in *.
    destruct (Hk a Hq) as (made2 & rest2 & -> & El2 & Hm2). exists (made ++ made2), rest2.
    rewrite <-app_assoc. split; [done|]. rewrite El2, <-app_assoc. split; [done|].
    destruct (k a (log ++ made)).2 as [[b|[]]| | |]; rewrite ?answered_app; try done.
    + destruct Hm2 as (-> & ? & ?). done.
    + destruct Hm2 as (init & c & -> & ? & ?). exists (made ++ init), c. rewrite answered_app, !app_assoc. done.
  - exists made, (rest ++ c2). rewrite app_assoc. split; [done|]. split; [done|]. done.
  - exists made, (rest ++ c2). by rewrite app_assoc.
  - exists made, (rest ++ c2). by rewrite app_assoc.
  - exists made, (rest ++ c2). by rewrite app_assoc.
Qed.

Lemma traced_mono {A} (m : setup A) log cs (Q1 Q2 : A -> Prop) :
  traced m log cs Q1 -> (forall a, Q1 a -> Q2 a) -> traced m log cs Q2.
Proof.
  intros (made & rest & E1 & E2 & Hm) Hq. exists made, rest. split; [done|]. split; [done|].
  destruct (m log).2 as [[a|[]]| | |]; try done. destruct Hm as (? & ? & ?). auto.
Qed.
End setup_rules.

(** ** The calls of [Socket::new] *)

Section socket_calls.
Context `{BuildProfile} `{XdpOs} {U F : Type} `{Umem U F}.

Definition ring_calls (fd : Z) (rings : list (Z * Z)) : list xsk_call :=
  (fun '(ring, size) => CallSetsockopt fd SOL_XDP ring (OptInt (wrap 32 size))) <$>
    filter (fun rs => (rs.1 =? XDP_RX_RING) && (rs.2 =? 0) = false) rings.

Lemma size_rings_traced fd rings log : traced (size_rings fd rings) log (ring_calls fd rings) (fun _ => True).
Proof.
  revert log. induction rings as [|[ring size] rings IH]; intros log; cbn [size_rings]; [by apply traced_ret|].
  unfold ring_calls. rewrite filter_cons. cbn [fst snd].
  destruct ((ring =? XDP_RX_RING) && (size =? 0)); [apply IH|]. cbn [fmap list_fmap].
  eapply (traced_bind _ _ _ [_]); [by apply traced_call|]. intros _ _. apply IH.
Qed.

Lemma populate_no_os_error n (u : U) m r : populate n u m r <> Done (Err LastOsError).
Proof.
  revert u m r. induction n as [|n IH]; intros u m r; cbn; [done|].
  destruct (umem_reserve u) as [[[f u']|]| | |]; cbn; try done.
  unfold RxFillRing_write. destruct (ring_push _ _ _ _) as [[[m' p']|]| | |]; cbn; done.
Qed.

Lemma Socket_new_traced queue ptr (u : U) zc fill rx cq tx log :
  traced (Socket_new queue ptr u zc fill rx cq tx) log
    (socket_calls (os_call log (CallSocket AF_XDP SOCK_RAW 0)) queue
       (mkUmemReg ptr (umem_len u) (wrap 32 (umem_frame_size u)) 0 0 0) zc fill rx cq tx) (fun _ => True).
Proof.
  unfold Socket_new. set (fd := os_call log _).
  replace (socket_calls fd queue _ zc fill rx cq tx) with
    ([CallSocket AF_XDP SOCK_RAW 0] ++ [CallSetsockopt fd SOL_XDP XDP_UMEM_REG
        (OptUmemReg (mkUmemReg ptr (umem_len u) (wrap 32 (umem_frame_size u)) 0 0 0))]
     ++ ring_calls fd [(XDP_UMEM_COMPLETION_RING, cq); (XDP_UMEM_FILL_RING, fill); (XDP_TX_RING, tx); (XDP_RX_RING, rx)]
     ++ drop (if rx =? 0 then 5 else 6) (socket_calls fd queue
          (mkUmemReg ptr (umem_len u) (wrap 32 (umem_frame_size u)) 0 0 0) zc fill rx cq tx)).
  2: { unfold ring_calls, socket_calls. rewrite !filter_cons. cbn. by destruct (rx =? 0). }
  eapply traced_bind; [by apply traced_call|]. intros a ->. fold fd.
  eapply traced_bind; [by apply traced_call|]. intros _ _.
  eapply traced_bind; [by apply size_rings_traced|]. intros _ _.
  set (log3 := ((log ++ _) ++ _) ++ _). clearbody log3. unfold socket_calls.
  match goal with |- traced _ _ (drop ?n (?l1 ++ ?l2 ++ ?l3)) _ =>
    replace (drop n (l1 ++ l2 ++ l3)) with l3 by (by destruct (rx =? 0)) end.
  do 4 (eapply (traced_bind _ _ _ [_]); [by apply traced_call|]; intros _ _).
  eapply (traced_bind _ _ _ [_]); [by apply traced_mmap|]. intros m1 _.
  do 2 (eapply (traced_bind _ _ _ []); [by apply traced_local_ok|]; intros ? _).
  eapply (traced_bind _ _ _ [_]); [by apply traced_mmap|]. intros m2 _.
  do 2 (eapply (traced_bind _ _ _ []); [by apply traced_local_ok|]; intros ? _).
  eapply (traced_bind _ _ _ [] _ (fun _ => True)).
  { destruct zc; [|by apply traced_ret]. eapply (traced_bind _ _ _ [] [] (fun _ => True)).
    - apply traced_local; [apply populate_no_os_error|done].
    - intros [[? ?] ?] _. by apply traced_ret. }
  intros [[u' fm] fr'] _.
  eapply (traced_bind _ _ _ [_]); [by apply traced_mmap|]. intros m3 _.
  do 2 (eapply (traced_bind _ _ _ []); [by apply traced_local_ok|]; intros ? _).
  eapply (traced_bind _ _ _ _ _ (fun _ => True)).
  { destruct (0 <? rx); [|by apply traced_ret].
    eapply (traced_bind _ _ _ [_] []); [by apply traced_mmap|]. intros m4 _.
    do 2 (eapply (traced_bind _ _ _ [] []); [by apply traced_local_ok|]; intros ? _). by apply traced_ret. }
  intros [rm rr] _. eapply (traced_bind _ _ _ [_] []); [by apply traced_call|]. intros _ _. by apply traced_ret.
Qed.
End socket_calls.

(** ** What a set-up that succeeds returns *)

Section opening.
Context `{BuildProfile} `{XdpOs}.

(** When all of [cs] succeed, [m] makes them and returns a value in [Q]. *)
Definition opens {A} (m : setup A) (log cs : list xsk_call) (Q : A -> Prop) : Prop :=
  answered log cs -> exists a, m log = (log ++ cs, Done (Ok a)) /\ Q a.

Lemma opens_ret {A} (a : A) log (Q : A -> Prop) : Q a -> opens (setup_ret a) log [] Q.
Proof. intros Hq _. exists a. by rewrite app_nil_r. Qed.

Lemma opens_local {A} m (a : A) log : m = Done (Ok a) -> opens (local m) log [] (eq a).
Proof. intros -> _. exists a. by rewrite app_nil_r. Qed.

Lemma opens_local_ok {A} m (a : A) log : m = Done a -> opens (local_ok m) log [] (eq a).
Proof. intros -> _. exists a. by rewrite app_nil_r. Qed.

Lemma opens_call c log :
  (forall a b d, c <> CallMmap a b d) -> opens (call c) log [c] (fun a => a = os_call log c).
Proof.
  intros Hc [Ha _]. exists (os_call log c). split; [|done]. unfold call.
  assert (call_ok c (os_call log c) = negb (os_call log c <? 0)) as E by (destruct c; try done; by edestruct Hc).
  rewrite E in Ha. by destruct (os_call log c <? 0).
Qed.

(** The operating system maps a ring of [bytes] bytes of descriptors the way the
    offsets it reports say. *)
Definition mapped_at (pgoff : Z) (off : xdp_ring_offset) (bytes : Z) : Prop :=
  0 <= ro_desc off < 2 ^ 63 /\
  forall log fd size, ro_desc off + bytes <= size ->
    let a := os_call log (CallMmap size fd pgoff) in
    a <> -1 ->
    os_cell (a + ro_producer off) = Some (CellProducer pgoff) /\
    os_cell (a + ro_consumer off) = Some (CellConsumer pgoff) /\
    os_cell (a + ro_desc off) = Some (CellDesc pgoff) /\
    os_cell (a + ro_flags off) = Some (CellFlags pgoff).

Lemma opens_mmap fd n w off pgoff log :
  mapped_at pgoff off (n * w) -> n * w < 2 ^ 63 ->
  opens (mmap_ring fd (saturating_mul64 n w) off pgoff) log [ring_map fd off (saturating_mul64 n w) pgoff]
    (fun r => ring_at r = Done pgoff).
Proof.
  intros [Hd Hmap] Hn [Ha _]. unfold saturating_mul64 in *. rewrite Z.min_l in * by lia.
  unfold mmap_ring. fold (ring_map fd off (n * w) pgoff). cbn in Ha. fold (ring_map fd off (n * w) pgoff) in Ha.
  destruct (Z.eqb_spec (os_call log (ring_map fd off (n * w) pgoff)) (-1)) as [|Hne]; [done|].
  eexists. split; [done|]. unfold ring_at, ring_map. cbn [mm_producer mm_consumer mm_desc mm_flags].
  destruct (Hmap log fd (saturating_add64 (ro_desc off) (n * w))) as (-> & -> & -> & ->); [unfold saturating_add64; lia|done|].
  by rewrite !Z.eqb_refl.
Qed.

(** The pointers of a mapping lead to its ring. *)
Lemma mapped_u64_Done r p : ring_at r = Done p -> mapped_u64 r = Done (os_ring_u64 p).
Proof. unfold mapped_u64. by intros ->. Qed.
Lemma mapped_desc_Done r p : ring_at r = Done p -> mapped_desc r = Done (os_ring_desc p).
Proof. unfold mapped_desc. by intros ->. Qed.

Lemma opens_bind {A B} (m : setup A) (k : A -> setup B) log c1 c2 (Q1 : A -> Prop) (Q2 : B -> Prop) :
  opens m log c1 Q1 -> (forall a, Q1 a -> opens (k a) (log ++ c1) c2 Q2) -> opens (setup_bind m k) log (c1 ++ c2) Q2.
Proof.
  intros Hm Hk [H1 H2]%answered_app. destruct (Hm H1) as (a & Ea & Hq). destruct (Hk a Hq H2) as (b & Eb & Hq2).
  exists b. unfold setup_bind. by rewrite Ea, Eb, app_assoc.
Qed.

Lemma size_rings_opens fd rings log : opens (size_rings fd rings) log (ring_calls fd rings) (fun _ => True).
Proof.
  revert log. induction rings as [|[ring size] rings IH]; intros log; cbn [size_rings]; [by apply opens_ret|].
  unfold ring_calls. rewrite filter_cons. cbn [fst snd].
  destruct ((ring =? XDP_RX_RING) && (size =? 0)); [apply IH|]. cbn [fmap list_fmap].
  eapply (opens_bind _ _ _ [_]); [by apply opens_call|]. intros _ _. apply IH.
Qed.

Lemma debug_assert_power k : 0 <= k -> debug_assert (is_power_of_two (2 ^ k)) = Done tt.
Proof.
  intros Hk. unfold debug_assert. rewrite (proj2 (is_power_of_two_spec _)) by eauto. by rewrite andb_false_r.
Qed.

Context {U F : Type} `{UmemSpec U F}.

(** Populating takes the frames from the end of the free list. *)
Lemma populate_ok kf n u m r c qf :
  0 <= kf <= 31 -> umem_wf u -> 0 <= umem_frame_size u -> umem_len u < 2 ^ 64 -> fr_size r = 2 ^ kf ->
  ring_holds kf qf (mkSpsc m (fr_producer r) c) ->
  Z.of_nat n <= rp_available (fr_producer r) -> (n <= length (free u))%nat ->
  exists u' m' r' taken, populate n u m r = Done (Ok (u', m', r')) /\
    umem_wf u' /\ free u = free u' ++ reverse taken /\ frames u' = frames u /\
    umem_mem u' = umem_mem u /\ umem_frame_size u' = umem_frame_size u /\
    fr_size r' = 2 ^ kf /\ ring_holds kf (qf ++ taken) (mkSpsc m' (fr_producer r') c) /\ length taken = n.
Proof.
  intros Hkf. revert u m r qf. induction n as [|n IH]; intros u m r qf Hwf Hfs Hlen Hsz Hr Hav Hn.
  { exists u, m, r, []. cbn. by rewrite !app_nil_r. }
  destruct (free_nil_or_last (free u)) as [E|(l & o & E)]; [by rewrite E in Hn; cbn in Hn; lia|].
  destruct (reserve_last u l o Hwf E) as (f & u1 & Hres & Ho & _ & Hwf1 & Hf1 & Hall1 & Hm1 & Hs1).
  assert (o ∈ frames u) as Hin by (apply (free_frames u Hwf); rewrite E, elem_of_app; right; by left).
  destruct (frames_in_mem u o Hwf Hin) as [Ho1 Ho2].
  cbn. rewrite Hres. cbn. unfold RxFillRing_write. rewrite Ho. cbn [fo].
  rewrite wrap_small by (unfold is_uint; lia). rewrite Hsz.
  destruct (ring_holds_push kf Hkf _ _ _ _ o Hr ltac:(lia)) as (m' & p' & -> & Hr' & Hav' & _). cbn.
  destruct (IH u1 m' (mkRxFillRing p' (2 ^ kf)) (qf ++ [o])) as (u2 & m2 & r2 & taken & -> & Hwf2 & Hf2 & Hall2 & Hm2 & Hs2 & Hsz2 & Hr2 & Hl2);
    [done|by rewrite Hs1|unfold umem_len in *; by rewrite Hm1|done|done|cbn; lia|rewrite Hf1; rewrite E, length_app in Hn; cbn in Hn; lia|].
  exists u2, m2, r2, (o :: taken). split_and!; try done; try congruence.
  - rewrite E, reverse_cons, app_assoc, <-Hf2, Hf1. done.
  - by rewrite <-app_assoc in Hr2.
  - cbn. lia.
Qed.

(** The rings of a socket of the given sizes are fresh when mapped, and mapped
    as the reported offsets say. *)
Definition fresh_rings (kf kc kt rx : Z) : Prop :=
  (fresh_ring kf (os_ring_u64 XDP_UMEM_PGOFF_FILL_RING) /\
   mapped_at XDP_UMEM_PGOFF_FILL_RING (mo_fr os_offsets) (2 ^ kf * 8)) /\
  (fresh_ring kc (os_ring_u64 XDP_UMEM_PGOFF_COMPLETION_RING) /\
   mapped_at XDP_UMEM_PGOFF_COMPLETION_RING (mo_cr os_offsets) (2 ^ kc * 8)) /\
  (fresh_ring kt (os_ring_desc XDP_PGOFF_TX_RING) /\
   mapped_at XDP_PGOFF_TX_RING (mo_tx os_offsets) (2 ^ kt * 16)) /\
  (rx = 0 \/ rx = 2 ^ Z.log2 rx /\ fresh_ring (Z.log2 rx) (os_ring_desc XDP_PGOFF_RX_RING) /\
     mapped_at XDP_PGOFF_RX_RING (mo_rx os_offsets) (rx * 16)).

(** What [Socket::new] returns: fresh TX, completion and RX rings, and a fill
    ring holding the frames [taken] off the end of the free list, published. *)
Definition opened (kf kc kt rx : Z) (zc : bool) (fd : Z) (queue : DeviceQueue) (u : U)
  (res : Socket U * Rx * Tx * SocketMem) : Prop :=
  exists u' r fill taken,
    res = (mkSocket fd queue u',
           mkRx r (if 0 <? rx then Some (mkRxRing (RingConsumer_new (os_ring_desc XDP_PGOFF_RX_RING)) rx) else None),
           mkTx (mkTxCompletionRing (RingConsumer_new (os_ring_u64 XDP_UMEM_PGOFF_COMPLETION_RING)) (2 ^ kc))
                (Some (mkTxRing (RingProducer_new (os_ring_desc XDP_PGOFF_TX_RING) (2 ^ kt)) (2 ^ kt))),
           mkSocketMem (os_ring_u64 XDP_UMEM_PGOFF_COMPLETION_RING) (os_ring_u64 XDP_UMEM_PGOFF_FILL_RING) fill
             (os_ring_desc XDP_PGOFF_TX_RING) (if 0 <? rx then Some (os_ring_desc XDP_PGOFF_RX_RING) else None)) /\
    umem_wf u' /\ free u = free u' ++ reverse taken /\ frames u' = frames u /\
    umem_mem u' = umem_mem u /\ umem_frame_size u' = umem_frame_size u /\
    ring_holds kf taken (mkSpsc fill (fr_producer r) (RingConsumer_new (os_ring_u64 XDP_UMEM_PGOFF_FILL_RING))) /\
    unpublished fill (fr_producer r) = 0 /\ fr_size r = 2 ^ kf /\ len taken = (if zc then 2 ^ kf else 0) /\
    (zc = false -> u' = u /\ fill = os_ring_u64 XDP_UMEM_PGOFF_FILL_RING /\
       r = mkRxFillRing (RingProducer_new (os_ring_u64 XDP_UMEM_PGOFF_FILL_RING) (2 ^ kf)) (2 ^ kf)).

(** The fill ring before [bind]. *)
Lemma prepare_fill_opens kf zc u log :
  fresh_ring kf (os_ring_u64 XDP_UMEM_PGOFF_FILL_RING) ->
  umem_wf u -> 0 <= umem_frame_size u -> umem_len u < 2 ^ 64 -> (zc = true -> 2 ^ kf <= len (free u)) ->
  let fill0 := os_ring_u64 XDP_UMEM_PGOFF_FILL_RING in
  let r0 := mkRxFillRing (RingProducer_new fill0 (2 ^ kf)) (2 ^ kf) in
  opens (if zc then
           '(umem, fill, r) ←! local (populate (Z.to_nat (2 ^ kf)) u fill0 r0);
           setup_ret (umem, RxFillRing_commit fill r, r)
         else setup_ret (u, fill0, r0)) log []
    (fun '(u', fill, r) => exists taken,
       umem_wf u' /\ free u = free u' ++ reverse taken /\ frames u' = frames u /\
       umem_mem u' = umem_mem u /\ umem_frame_size u' = umem_frame_size u /\
       ring_holds kf taken (mkSpsc fill (fr_producer r) (RingConsumer_new fill0)) /\
       unpublished fill (fr_producer r) = 0 /\ fr_size r = 2 ^ kf /\ len taken = (if zc then 2 ^ kf else 0) /\
       (zc = false -> u' = u /\ fill = fill0 /\ r = r0)).
Proof.
  intros (Hkf & Hf1 & Hf2 & Hf3) Hwf Hfs Hlen Hfree fill0 r0. pose proof (size_bounds kf Hkf).
  assert (ring_holds kf [] (mkSpsc fill0 (fr_producer r0) (RingConsumer_new fill0))) as Hr0
    by (eexists _, _; exact (spsc_init_inv kf Hkf fill0 Hf1 Hf2 Hf3)).
  destruct zc.
  - destruct (populate_ok kf (Z.to_nat (2 ^ kf)) u fill0 r0 _ [] Hkf Hwf Hfs Hlen eq_refl Hr0)
      as (u' & m' & r' & taken & Hp & Hwf' & Hfr & Hall & Hm & Hs & Hfs' & Hr & Hl).
    { unfold rp_available, saturating_sub, wrapping_sub, wrap. cbn. fold fill0 in Hf2. rewrite Hf2, Z.sub_diag, Z.mod_0_l by lia. lia. }
    { specialize (Hfree eq_refl). unfold len in Hfree. lia. }
    eapply (opens_bind _ _ _ [] []); [by apply opens_local|]. intros _ <-. apply opens_ret. exists taken.
    split_and!; try done.
    + eapply (ring_holds_tau kf Hkf); [exact Hr|apply sp_commit_prod].
    + apply unpublished_commit. pose proof (ring_holds_bounds kf Hkf _ _ _ _ Hr). lia.
    + unfold len. lia.
  - apply opens_ret. exists []. split_and!; try done.
    + by rewrite app_nil_r.
    + unfold unpublished, wrapping_sub, wrap. cbn. by rewrite Z.sub_diag.
Qed.

Lemma Socket_new_opens kf kc kt rx zc queue ptr u log :
  fresh_rings kf kc kt rx -> umem_wf u -> 0 <= umem_frame_size u -> umem_len u < 2 ^ 64 ->
  (zc = true -> 2 ^ kf <= len (free u)) ->
  let fd := os_call log (CallSocket AF_XDP SOCK_RAW 0) in
  opens (Socket_new queue ptr u zc (2 ^ kf) rx (2 ^ kc) (2 ^ kt)) log
    (socket_calls fd queue (mkUmemReg ptr (umem_len u) (wrap 32 (umem_frame_size u)) 0 0 0) zc (2 ^ kf) rx (2 ^ kc) (2 ^ kt))
    (opened kf kc kt rx zc fd queue u).
Proof.
  intros ((Hf & Mf) & ((Hkc & _) & Mc) & ((Hkt & _) & Mt) & Hrx) Hwf Hfs Hlen Hfree fd. pose proof Hf as (Hkf & _).
  pose proof (size_bounds kf Hkf). pose proof (size_bounds kc Hkc). pose proof (size_bounds kt Hkt).
  unfold Socket_new. rewrite (wrap_small 32 (2 ^ kf)), (wrap_small 32 (2 ^ kc)), (wrap_small 32 (2 ^ kt)) by (unfold is_uint; lia).
  set (reg := mkUmemReg _ _ _ _ _ _).
  replace (socket_calls fd queue reg zc (2 ^ kf) rx (2 ^ kc) (2 ^ kt)) with
    ([CallSocket AF_XDP SOCK_RAW 0] ++ [CallSetsockopt fd SOL_XDP XDP_UMEM_REG (OptUmemReg reg)]
     ++ ring_calls fd [(XDP_UMEM_COMPLETION_RING, 2 ^ kc); (XDP_UMEM_FILL_RING, 2 ^ kf); (XDP_TX_RING, 2 ^ kt); (XDP_RX_RING, rx)]
     ++ drop (if rx =? 0 then 5 else 6) (socket_calls fd queue reg zc (2 ^ kf) rx (2 ^ kc) (2 ^ kt))).
  2: { unfold ring_calls, socket_calls. rewrite !filter_cons. cbn. by destruct (rx =? 0). }
  eapply opens_bind; [by apply opens_call|]. intros a ->. fold fd.
  eapply opens_bind; [by apply opens_call|]. intros _ _.
  eapply opens_bind; [by apply size_rings_opens|]. intros _ _.
  set (log3 := ((log ++ _) ++ _) ++ _). clearbody log3. unfold socket_calls.
  match goal with |- opens _ _ (drop ?n (?l1 ++ ?l2 ++ ?l3)) _ =>
    replace (drop n (l1 ++ l2 ++ l3)) with l3 by (by destruct (rx =? 0)) end.
  do 4 (eapply (opens_bind _ _ _ [_]); [by apply opens_call|]; intros _ _).
  eapply (opens_bind _ _ _ [_]); [apply opens_mmap; [done|lia]|]. intros m1 ->%mapped_u64_Done.
  eapply (opens_bind _ _ _ []); [by apply opens_local_ok|]. intros _ <-.
  eapply (opens_bind _ _ _ []); [apply opens_local_ok; unfold TxCompletionRing_new; by rewrite debug_assert_power by lia|]. intros _ <-.
  eapply (opens_bind _ _ _ [_]); [apply opens_mmap; [done|lia]|]. intros m2 ->%mapped_u64_Done.
  eapply (opens_bind _ _ _ []); [by apply opens_local_ok|]. intros _ <-.
  eapply (opens_bind _ _ _ []); [apply opens_local_ok; unfold RxFillRing_new; by rewrite debug_assert_power by lia|]. intros _ <-.
  eapply (opens_bind _ _ _ []); [by apply prepare_fill_opens|]. intros [[u' fill] r] (taken & Hprep).
  eapply (opens_bind _ _ _ [_]); [apply opens_mmap; [done|lia]|]. intros m3 ->%mapped_desc_Done.
  eapply (opens_bind _ _ _ []); [by apply opens_local_ok|]. intros _ <-.
  eapply (opens_bind _ _ _ []); [apply opens_local_ok; unfold TxRing_new; by rewrite debug_assert_power by lia|]. intros _ <-.
  eapply (opens_bind _ _ _ _ _ (eq (if 0 <? rx then Some (os_ring_desc XDP_PGOFF_RX_RING) else None,
    if 0 <? rx then Some (mkRxRing (RingConsumer_new (os_ring_desc XDP_PGOFF_RX_RING)) rx) else None))).
  { destruct (Z.ltb_spec 0 rx) as [Hpos|]; [|by apply opens_ret].
    destruct Hrx as [->|(Erx & (Hkr & _) & Mr)]; [lia|]. pose proof (size_bounds (Z.log2 rx) Hkr).
    eapply (opens_bind _ _ _ [_] []); [apply opens_mmap; [done|lia]|]. intros m4 ->%mapped_desc_Done.
    eapply (opens_bind _ _ _ [] []); [by apply opens_local_ok|]. intros _ <-.
    assert (debug_assert (is_power_of_two rx) = Done tt) as Ed by (rewrite Erx; apply debug_assert_power; lia).
    eapply (opens_bind _ _ _ [] []); [apply opens_local_ok; unfold RxRing_new; rewrite wrap_small by (unfold is_uint; lia);
      by rewrite Ed|]. intros rr <-. by apply opens_ret. }
  intros _ <-. eapply (opens_bind _ _ _ [_] []); [by apply opens_call|]. intros _ _. apply opens_ret.
  by exists u', r, fill, taken.
Qed.
End opening.

(** ** Properties *)

Section socket_properties.
Context `{BuildProfile} `{XdpOs} {U F : Type} `{Umem U F}.

(** C22: whatever the operating system answers, [Socket::new] makes the calls of
    a complete set-up in their order and stops at the first one that fails,
    whose error it returns. It returns a socket only after every call, [bind]
    last, has succeeded; the other ways to fail (no frame left to populate the
    fill ring, a debug assertion, a pointer that misses its ring) come after
    calls that all succeeded. *)
Theorem socket_new_stops_at_first_failure queue ptr (u : U) zc fill rx cq tx :
  let fd := os_call [] (CallSocket AF_XDP SOCK_RAW 0) in
  let reg := mkUmemReg ptr (umem_len u) (wrap 32 (umem_frame_size u)) 0 0 0 in
  exists made rest, socket_calls fd queue reg zc fill rx cq tx = made ++ rest /\
    (Socket_new queue ptr u zc fill rx cq tx []).1 = made /\
    match (Socket_new queue ptr u zc fill rx cq tx []).2 with
    | Done (Ok _) => rest = [] /\ answered [] made
    | Done (Err LastOsError) =>
        exists init c, made = init ++ [c] /\ answered [] init /\ call_ok c (os_call init c) = false
    | _ => answered [] made
    end.
Proof.
  intros fd reg. destruct (Socket_new_traced queue ptr u zc fill rx cq tx []) as (made & rest & E & El & Hm).
  exists made, rest. split; [done|]. split; [done|].
  destruct (Socket_new _ _ _ _ _ _ _ _ _).2 as [[a|[]]| | |]; try done. by destruct Hm as (? & ? & _).
Qed.

(** [Socket::rx] asks for completion and TX rings of size zero, which a kernel
    that refuses rings without entries does not grant. *)
Lemma Socket_rx_fails queue ptr (u : U) zc fill ring log :
  (forall log fd ring, os_call log (CallSetsockopt fd SOL_XDP ring (OptInt 0)) < 0) ->
  exists log', Socket_rx queue ptr u zc fill ring log = (log', Done (Err LastOsError)).
Proof.
  intros Hos. unfold Socket_rx, Socket_new.
  pose proof (fun log fd ring => proj2 (Z.ltb_lt _ _) (Hos log fd ring)) as Hneg.
  unfold setup_bind at 1 2. unfold call at 1. destruct (_ <? 0); [by eexists|].
  unfold setup_bind at 1. unfold call at 1. destruct (_ <? 0); [by eexists|].
  unfold setup_bind at 1. cbn [size_rings]. cbn [Z.eqb XDP_UMEM_COMPLETION_RING XDP_RX_RING Pos.eqb andb].
  unfold setup_bind at 1. unfold call at 1. change (wrap 32 0) with 0. rewrite Hneg. by eexists.
Qed.
End socket_properties.

(** ** Witnesses *)

(** An operating system that grants everything except rings without entries. *)
Definition example_offset : xdp_ring_offset := mkRingOffset 0 64 320 128.
(** A ring lies at the address that is its page offset. *)
Definition cell_in_page (off : xdp_ring_offset) (p : Z) : option ring_cell :=
  let pgoff := p / 2 ^ 31 * 2 ^ 31 in
  if p - pgoff =? ro_producer off then Some (CellProducer pgoff)
  else if p - pgoff =? ro_consumer off then Some (CellConsumer pgoff)
  else if p - pgoff =? ro_desc off then Some (CellDesc pgoff)
  else if p - pgoff =? ro_flags off then Some (CellFlags pgoff)
  else None.
#[local] Instance example_os : XdpOs := {|
  os_call _ c := match c with
                 | CallSetsockopt _ _ _ (OptInt v) => if v =? 0 then -1 else 0
                 | CallMmap _ _ pgoff => pgoff
                 | _ => 3
                 end;
  os_offsets := mkMmapOffsets example_offset example_offset example_offset example_offset;
  os_cell p := cell_in_page example_offset p;
  os_ring_u64 _ := mkRingMem 0 0 0 [0; 0];
  os_ring_desc _ := mkRingMem 0 0 0 [mkXdpDesc 0 0 0; mkXdpDesc 0 0 0];
|}.

Example rx_socket_fails :
  (@Socket_rx dev_profile example_os SliceUmem SliceUmemFrame SliceUmemFrame_Frame (@SliceUmem_Umem dev_profile)
     (DeviceQueue_new 2 0 None) 0 example_umem false 2 2 []).2 = Done (Err LastOsError).
Proof. by vm_compute. Qed.

(** On the same system a TX socket opens. *)
Example tx_socket_opens :
  match (@Socket_tx dev_profile example_os SliceUmem SliceUmemFrame SliceUmemFrame_Frame (@SliceUmem_Umem dev_profile) (DeviceQueue_new 2 0 None) 0 example_umem false 2 2 []).2 with
  | Done (Ok (s, tx, _)) => so_fd s = 3 /\ t_tx_ring tx = Some (mkTxRing (mkRingProducer 0 0 2) 2)
  | _ => False
  end.
Proof. by vm_compute. Qed.
