(* ===== verification/Kernel.v ===== *)
(** * The other end of the TX and completion rings

    The kernel is not part of the sources: the loops take it as a parameter, a
    type class with one operation that runs whenever the program looks at
    shared memory and one for the [sendto] call that kicks the driver. Their
    law is the documented AF_XDP protocol, as a step
    relation: take a published TX descriptor and transmit the bytes it points
    to, give the frame of a taken descriptor back through the completion ring,
    publish its counters, read ours, change the wake-up flag. Nothing is said
    about when, how often or in which order it does so. *)

From S2P Require Import Prelude Words Umem Ring.

(** Shared memory of both rings, the kernel's end of each, the descriptors it
    has taken and not completed, and the frames it has transmitted. *)
Record tx_env := mkTxEnv {
  e_tx : ring_mem XdpDesc;
  e_txc : RingConsumer;
  e_cq : ring_mem Z;
  e_cqp : RingProducer;
  e_held : list XdpDesc;
  e_wire : list (list Z);
}.

(** The bytes of the UMEM a descriptor points to. *)
Definition desc_bytes (buf : list Z) (d : XdpDesc) : list Z :=
  take (Z.to_nat (xd_len d)) (drop (Z.to_nat (xd_addr d)) buf).

Definition set_flags {T} (m : ring_mem T) (f : Z) : ring_mem T :=
  mkRingMem (rm_producer m) (rm_consumer m) f (rm_desc m).

(** One step of a kernel over a UMEM [buf], a TX ring of [n] and a completion
    ring of [c] descriptors. *)
Inductive kernel_step (buf : list Z) (n c : Z) : tx_env -> tx_env -> Prop :=
  | k_take tx txc cq cqp held wire d txc' :
      ring_pop tx txc n = Done (Some (d, txc')) ->
      kernel_step buf n c (mkTxEnv tx txc cq cqp held wire)
        (mkTxEnv tx txc' cq cqp (held ++ [d]) (wire ++ [desc_bytes buf d]))
  | k_publish_tx tx txc cq cqp held wire :
      kernel_step buf n c (mkTxEnv tx txc cq cqp held wire)
        (mkTxEnv (rc_commit tx txc) txc cq cqp held wire)
  | k_see_tx tx txc cq cqp held wire :
      kernel_step buf n c (mkTxEnv tx txc cq cqp held wire)
        (mkTxEnv tx (rc_sync tx txc false).2 cq cqp held wire)
  | k_complete tx txc cq cqp h1 d h2 wire cq' cqp' :
      ring_push cq cqp c (xd_addr d) = Done (Some (cq', cqp')) ->
      kernel_step buf n c (mkTxEnv tx txc cq cqp (h1 ++ d :: h2) wire)
        (mkTxEnv tx txc cq' cqp' (h1 ++ h2) wire)
  | k_publish_cq tx txc cq cqp held wire :
      kernel_step buf n c (mkTxEnv tx txc cq cqp held wire)
        (mkTxEnv tx txc (rp_commit cq cqp) cqp held wire)
  | k_see_cq tx txc cq cqp held wire :
      kernel_step buf n c (mkTxEnv tx txc cq cqp held wire)
        (mkTxEnv tx txc cq (rp_sync cq cqp false).2 held wire)
  | k_flags tx txc cq cqp held wire f :
      kernel_step buf n c (mkTxEnv tx txc cq cqp held wire)
        (mkTxEnv (set_flags tx f) txc cq cqp held wire).

(** What a kernel does at a point where the program observes it, what it does
    inside a [sendto] call, and what that call returns. *)
Class XskKernel (K : Type) := {
  kernel_turn : Z -> Z -> K -> list Z -> tx_env -> K * tx_env;
  kernel_wake : Z -> Z -> K -> list Z -> tx_env -> K * tx_env;
  kernel_sendto : K -> Z;
}.

(** It follows the protocol. *)
Class XskKernelOk (K : Type) `{XskKernel K} : Prop := {
  kernel_follows n c k buf e : rtc (kernel_step buf n c) e (kernel_turn n c k buf e).2;
  kernel_wake_follows n c k buf e : rtc (kernel_step buf n c) e (kernel_wake n c k buf e).2;
}.

(** The kernel has nothing left to do: its counters are published, and either
    everything published to it is taken and completed, or the completion ring
    is full. *)
Definition kernel_idle (e : tx_env) : Prop :=
  rc_cached_consumer (e_txc e) = rm_consumer (e_tx e) /\
  rm_producer (e_cq e) = rp_cached_producer (e_cqp e) /\
  ((e_held e = [] /\ rm_consumer (e_tx e) = rm_producer (e_tx e)) \/
   rp_available (rp_sync (e_cq e) (e_cqp e) false).2 = 0).

(** A kernel that gets its work done, with a wake-up when it asks for one: a
    [sendto] call makes it work until it is idle. Otherwise it may work or not,
    but as long as it is not idle it either raises the wake-up flag or is on
    its way to be: its patience, at most [kernel_delay], goes down. A driver
    that never works without being kicked is such a kernel, and so is one that
    never asks to be kicked and finishes within [kernel_delay] looks. *)
Class XskResponsive (K : Type) `{XskKernel K} := {
  kernel_delay : nat;
  kernel_patience : K -> nat;
  patience_bound k : (kernel_patience k <= kernel_delay)%nat;
  kernel_works kt kc k buf e qt qc p c :
    0 <= kt <= 31 -> 0 <= kc <= 31 ->
    ring_holds kt qt (mkSpsc (e_tx e) p (e_txc e)) -> ring_holds kc qc (mkSpsc (e_cq e) (e_cqp e) c) ->
    let '(k', e') := kernel_turn (2 ^ kt) (2 ^ kc) k buf e in
    kernel_idle e' \/
    (kernel_patience k' <= kernel_patience k)%nat /\
    (TxRing_needs_wakeup (e_tx e') = false -> (kernel_patience k' < kernel_patience k)%nat);
  kernel_wakes kt kc k buf e qt qc p c :
    0 <= kt <= 31 -> 0 <= kc <= 31 ->
    ring_holds kt qt (mkSpsc (e_tx e) p (e_txc e)) -> ring_holds kc qc (mkSpsc (e_cq e) (e_cqp e) c) ->
    kernel_idle (kernel_wake (2 ^ kt) (2 ^ kc) k buf e).2;
}.

(** ** What every kernel preserves *)

(** From [e] with queues [qt] and [qc] the kernel went to [e'] with [qt'] and
    [qc']: the frames in flight are the same, what has been and will be
    transmitted is the same, and our counters are untouched. *)
Record kernel_moves (buf : list Z) (e : tx_env) (qt : list XdpDesc) (qc : list Z)
  (e' : tx_env) (qt' : list XdpDesc) (qc' : list Z) : Prop := mkMoves {
  mv_frames : (xd_addr <$> qt') ++ (xd_addr <$> e_held e') ++ qc'
              ≡ₚ (xd_addr <$> qt) ++ (xd_addr <$> e_held e) ++ qc;
  mv_wire : e_wire e' ++ (desc_bytes buf <$> qt') = e_wire e ++ (desc_bytes buf <$> qt);
  mv_queue : qt' `suffix_of` qt;
  mv_producer : rm_producer (e_tx e') = rm_producer (e_tx e);
  mv_consumer : rm_consumer (e_cq e') = rm_consumer (e_cq e);
}.

Lemma kernel_moves_refl buf e qt qc : kernel_moves buf e qt qc e qt qc.
Proof. done. Qed.

Lemma kernel_moves_trans buf e1 qt1 qc1 e2 qt2 qc2 e3 qt3 qc3 :
  kernel_moves buf e1 qt1 qc1 e2 qt2 qc2 -> kernel_moves buf e2 qt2 qc2 e3 qt3 qc3 ->
  kernel_moves buf e1 qt1 qc1 e3 qt3 qc3.
Proof.
  intros [A1 B1 C1 D1 E1] [A2 B2 C2 D2 E2]. split; [by rewrite A2|by rewrite B2|by etrans|congruence..].
Qed.

Section kernel_facts.
Context (kt kc : Z).
Hypothesis Hkt : 0 <= kt <= 31.
Hypothesis Hkc : 0 <= kc <= 31.

(** Both rings hold their queues; [p] and [c] are our ends. *)
Definition rings_hold (p : RingProducer) (c : RingConsumer) (e : tx_env)
  (qt : list XdpDesc) (qc : list Z) : Prop :=
  ring_holds kt qt (mkSpsc (e_tx e) p (e_txc e)) /\ ring_holds kc qc (mkSpsc (e_cq e) (e_cqp e) c).

Lemma kernel_step_moves buf p c e qt qc e' :
  rings_hold p c e qt qc -> kernel_step buf (2 ^ kt) (2 ^ kc) e e' ->
  exists qt' qc', rings_hold p c e' qt' qc' /\ kernel_moves buf e qt qc e' qt' qc'.
Proof.
  intros [Ht Hc] Hs.
  destruct Hs as [tx txc cq cqp held wire d txc' Hp|tx txc cq cqp held wire|tx txc cq cqp held wire
    |tx txc cq cqp h1 d h2 wire cq' cqp' Hp|tx txc cq cqp held wire|tx txc cq cqp held wire
    |tx txc cq cqp held wire f]; unfold rings_hold; cbn [e_tx e_txc e_cq e_cqp e_held e_wire] in *.
  - destruct (ring_holds_step kt Hkt _ _ _ _ Ht (sp_read _ _ p _ _ _ Hp)) as (qt' & Hq & Ht').
    cbn in Hq. destruct qt as [|x qt]; [done|]. case_decide; [|done]. simplify_eq.
    exists qt', qc. split; [done|]. split; cbn; try done.
    + rewrite fmap_app. cbn. rewrite <-app_assoc. cbn. by rewrite Permutation_middle, <-Permutation_middle.
    + by rewrite <-app_assoc.
    + by apply suffix_cons_r.
  - exists qt, qc. split; [split; [|done]|done].
    eapply (ring_holds_tau kt Hkt); [exact Ht|apply sp_commit_cons].
  - exists qt, qc. split; [split; [|done]|done].
    eapply (ring_holds_tau kt Hkt); [exact Ht|]. by eapply (sp_sync_cons _ _ _ _ false).
  - destruct (ring_holds_step kc Hkc _ _ _ _ Hc (sp_write _ _ _ c _ _ _ Hp)) as (qc' & Hq & Hc').
    cbn in Hq. case_decide; [|done]. simplify_eq.
    exists qt, (qc ++ [xd_addr d]). split; [done|]. split; cbn; try done.
    + rewrite !fmap_app. cbn. apply Permutation_app_head. rewrite <-!app_assoc. apply Permutation_app_head.
      cbn. rewrite app_assoc. by rewrite <-Permutation_cons_append.
    + by unfold ring_push in Hp; destruct (rp_produce cqp) as [[i|] pp]; [|done]; unfold desc_write in Hp;
        case_decide; [|done]; injection Hp as <- _.
  - exists qt, qc. split; [split; [done|]|done].
    eapply (ring_holds_tau kc Hkc); [exact Hc|apply sp_commit_prod].
  - exists qt, qc. split; [split; [done|]|done].
    eapply (ring_holds_tau kc Hkc); [exact Hc|]. by eapply (sp_sync_prod _ _ _ _ false).
  - exists qt, qc. split; [split; [|done]|done]. by apply ring_holds_flags.
Qed.

Lemma kernel_steps_move buf p c e e' qt qc :
  rtc (kernel_step buf (2 ^ kt) (2 ^ kc)) e e' -> rings_hold p c e qt qc ->
  exists qt' qc', rings_hold p c e' qt' qc' /\ kernel_moves buf e qt qc e' qt' qc'.
Proof.
  intros Hs. revert qt qc. induction Hs as [e|e1 e2 e3 H12 H23 IH]; intros qt qc Hr; [by eauto using kernel_moves_refl|].
  destruct (kernel_step_moves _ _ _ _ _ _ _ Hr H12) as (qt2 & qc2 & Hr2 & Hm2).
  destruct (IH _ _ Hr2) as (qt3 & qc3 & Hr3 & Hm3).
  exists qt3, qc3. split; [done|]. by eapply kernel_moves_trans.
Qed.

(** *** A kernel with nothing left to do *)

(** Everything published is taken, completed and reported. *)
Definition settled (e : tx_env) : Prop :=
  e_held e = [] /\ ring_drained (e_tx e) (e_txc e) /\ rm_producer (e_cq e) = rp_cached_producer (e_cqp e).

(** A drained ring has nothing to read. *)
Lemma drained_no_pop `{EqDecision T} (q : list T) m p c :
  ring_holds kt q (mkSpsc m p c) -> ring_drained m c -> ring_pop m c (2 ^ kt) = Done None.
Proof.
  intros Hr Hd. pose proof (ring_holds_bounds kt Hkt _ _ _ _ Hr) as (_ & [? _] & _ & Ha).
  destruct (rp_sync_available kt Hkt _ _ _ _ Hr) as (_ & _ & Hav). destruct (Hav Hd) as [_ Hl].
  pose proof (ring_holds_pop kt Hkt _ _ _ _ Hr) as Hpop. rewrite decide_True in Hpop by lia. done.
Qed.

Lemma settled_step buf p c e qt qc e' :
  rings_hold p c e qt qc -> kernel_step buf (2 ^ kt) (2 ^ kc) e e' -> settled e -> settled e'.
Proof.
  intros [Ht _] Hs (S1 & S2 & S3). pose proof S2 as [D1 D2].
  destruct Hs as [tx txc cq cqp held wire d txc' Hp|tx txc cq cqp held wire|tx txc cq cqp held wire
    |tx txc cq cqp h1 d h2 wire cq' cqp' Hp|tx txc cq cqp held wire|tx txc cq cqp held wire
    |tx txc cq cqp held wire f]; cbn [e_tx e_txc e_cq e_cqp e_held e_wire] in *; unfold settled, ring_drained in *; cbn in *;
    try by split_and!.
  - by rewrite (drained_no_pop _ _ _ _ Ht S2) in Hp.
  - by destruct h1.
Qed.

Lemma settled_steps buf p c e e' qt qc :
  rtc (kernel_step buf (2 ^ kt) (2 ^ kc)) e e' -> rings_hold p c e qt qc -> settled e -> settled e'.
Proof.
  intros Hs. revert qt qc. induction Hs as [e|e1 e2 e3 H12 H23 IH]; intros qt qc Hr Hi; [done|].
  destruct (kernel_step_moves _ _ _ _ _ _ _ Hr H12) as (qt2 & qc2 & Hr2 & _).
  eapply IH; [exact Hr2|]. exact (settled_step _ _ _ _ _ _ _ Hr H12 Hi).
Qed.
End kernel_facts.

(** ** A kernel that satisfies both laws

    A driver in generic mode: it raises the wake-up flag and does nothing until
    it is kicked; inside [sendto] it takes and completes one descriptor at a
    time for as long as both rings allow. *)
Definition run_one (buf : list Z) (n c : Z) (e : tx_env) : option tx_env :=
  let txc := (rc_sync (e_tx e) (e_txc e) false).2 in
  let cqp := (rp_sync (e_cq e) (e_cqp e) false).2 in
  if rp_available cqp =? 0 then None
  else
    match e_held e with
    | d :: held =>
        match ring_push (e_cq e) cqp c (xd_addr d) with
        | Done (Some (cq', cqp')) => Some (mkTxEnv (e_tx e) txc cq' cqp' held (e_wire e))
        | _ => None
        end
    | [] =>
        match ring_pop (e_tx e) txc n with
        | Done (Some (d, txc')) =>
            Some (mkTxEnv (e_tx e) txc' (e_cq e) cqp [d] (e_wire e ++ [desc_bytes buf d]))
        | _ => None
        end
    end.

Fixpoint run_all (fuel : nat) (buf : list Z) (n c : Z) (e : tx_env) : tx_env :=
  match fuel with
  | O => e
  | S fuel' => match run_one buf n c e with
               | Some e' => run_all fuel' buf n c e'
               | None => e
               end
  end.

Definition publish (e : tx_env) : tx_env :=
  mkTxEnv (set_flags (rc_commit (e_tx e) (e_txc e)) XDP_RING_NEED_WAKEUP) (e_txc e)
    (rp_commit (e_cq e) (e_cqp e)) (e_cqp e) (e_held e) (e_wire e).

Definition eager_turn (n c : Z) (buf : list Z) (e : tx_env) : tx_env :=
  publish (run_all (Z.to_nat (2 * (n + len (e_held e))) + 2) buf n c e).

(** Ask to be woken up. *)
Definition ask_wakeup (e : tx_env) : tx_env :=
  mkTxEnv (set_flags (e_tx e) XDP_RING_NEED_WAKEUP) (e_txc e) (e_cq e) (e_cqp e) (e_held e) (e_wire e).

Inductive skb_driver : Set := mkSkbDriver.
#[global] Instance skb_kernel : XskKernel skb_driver := {|
  kernel_turn n c k buf e := (k, ask_wakeup e);
  kernel_wake n c k buf e := (k, eager_turn n c buf e);
  kernel_sendto _ := 0;
|}.

Section eager_follows.
Context (buf : list Z) (n c : Z).
Abbreviation steps := (rtc (kernel_step buf n c)).

Lemma step_see tx txc cq cqp held wire :
  steps (mkTxEnv tx txc cq cqp held wire)
        (mkTxEnv tx (rc_sync tx txc false).2 cq (rp_sync cq cqp false).2 held wire).
Proof. eapply rtc_l; [apply k_see_tx|]. eapply rtc_once, k_see_cq. Qed.

Lemma run_one_steps e e' : run_one buf n c e = Some e' -> steps e e'.
Proof.
  destruct e as [tx txc cq cqp held wire]. unfold run_one.
  cbn [e_tx e_txc e_cq e_cqp e_held e_wire]. intros Hr. destruct (_ =? 0); [done|].
  etrans; [apply step_see|]. destruct held as [|d held].
  - destruct (ring_pop _ _ _) as [[[d txc']|]| | |] eqn:E; try done. injection Hr as <-.
    by eapply rtc_once, (k_take buf n c _ _ _ _ [] wire).
  - destruct (ring_push _ _ _ _) as [[[cq' cqp']|]| | |] eqn:E; try done. injection Hr as <-.
    by eapply rtc_once, (k_complete buf n c _ _ _ _ [] d held).
Qed.

Lemma run_all_steps fuel e : steps e (run_all fuel buf n c e).
Proof.
  revert e. induction fuel as [|fuel IH]; intros e; cbn; [done|].
  destruct (run_one buf n c e) eqn:E; [|done]. etrans; [by apply run_one_steps|apply IH].
Qed.

Lemma publish_steps e : steps e (publish e).
Proof.
  destruct e. eapply rtc_l; [apply k_publish_tx|]. eapply rtc_l; [apply k_publish_cq|].
  eapply rtc_once, k_flags.
Qed.

Lemma eager_turn_steps e : steps e (eager_turn n c buf e).
Proof. etrans; [apply run_all_steps|apply publish_steps]. Qed.
End eager_follows.

#[global] Instance skb_ok : XskKernelOk skb_driver.
Proof.
  split; intros n c k buf e; cbn.
  - destruct e. eapply rtc_once, k_flags.
  - apply eager_turn_steps.
Qed.

Section eager_responds.
Context (kt kc : Z) (buf : list Z) (p : RingProducer) (c : RingConsumer).
Hypothesis Hkt : 0 <= kt <= 31.
Hypothesis Hkc : 0 <= kc <= 31.

(** Work left: two steps for a published descriptor, one for a taken one. *)
Definition work (e : tx_env) (qt : list XdpDesc) : Z :=
  2 * (len qt - unpublished (e_tx e) p) + len (e_held e).

Definition no_work (e : tx_env) : Prop :=
  (e_held e = [] /\ rc_cached_consumer (e_txc e) = rm_producer (e_tx e)) \/
  rp_available (rp_sync (e_cq e) (e_cqp e) false).2 = 0.

Lemma rc_available_0 {T} (m : ring_mem T) cs :
  is_u32 (rc_cached_consumer cs) -> is_u32 (rm_producer m) ->
  rc_available (rc_sync m cs false).2 = 0 -> rc_cached_consumer cs = rm_producer m.
Proof.
  intros Hc Hp. unfold rc_available, rc_sync, wrapping_sub, wrap. cbn. intros E.
  unfold is_uint in *. apply Z.mod_divide in E as [z E]; [|done]. nia.
Qed.

Lemma ring_holds_u32 {T} k q (s : spsc T) :
  ring_holds k q s -> is_u32 (rc_cached_consumer (sp_cons s)) /\ is_u32 (rm_producer (sp_mem s)).
Proof.
  intros (base & hist & g & (Hmp & _ & _ & Ec) & _). rewrite Hmp, Ec. cbn.
  split; by apply wrap_range.
Qed.

(** After looking at both rings, one step makes progress or there is no work. *)
Lemma run_one_progress e qt qc :
  rings_hold kt kc p c e qt qc ->
  match run_one buf (2 ^ kt) (2 ^ kc) e with
  | Some e' => exists qt' qc', rings_hold kt kc p c e' qt' qc' /\ work e' qt' < work e qt
  | None => no_work e
  end.
Proof.
  intros Hr. pose proof Hr as [Ht0 Hc0].
  destruct (run_one buf (2 ^ kt) (2 ^ kc) e) as [e'|] eqn:E.
  - destruct (kernel_steps_move kt kc Hkt Hkc _ _ _ _ _ _ _ (run_one_steps _ _ _ _ _ E) Hr)
      as (qt' & qc' & Hr' & [_ Hw Hq Hp _]).
    exists qt', qc'. split; [done|]. unfold work, unpublished. rewrite Hp. clear Hp.
    unfold run_one in E. destruct (_ =? 0); [done|]. destruct (e_held e) as [|d held] eqn:Eh.
    + destruct (ring_pop _ _ _) as [[[d txc']|]| | |]; try done. injection E as <-.
      cbn in Hw |- *. apply (f_equal len) in Hw. unfold len in *. rewrite !length_app, !length_fmap in Hw. cbn in *. lia.
    + destruct (ring_push _ _ _ _) as [[[cq' cqp']|]| | |]; try done. injection E as <-.
      cbn in Hw |- *. apply (f_equal len) in Hw. unfold len in *. rewrite !length_app, !length_fmap in Hw. cbn in *. lia.
  - pose proof (ring_holds_tau kt Hkt _ _ _ Ht0 (sp_sync_cons _ _ _ _ false _ _ eq_refl)) as Ht.
    pose proof (ring_holds_tau kc Hkc _ _ _ Hc0 (sp_sync_prod _ _ _ _ false _ _ eq_refl)) as Hc.
    cbn in Ht, Hc. unfold run_one in E. unfold no_work.
    destruct (Z.eqb_spec (rp_available (rp_sync (e_cq e) (e_cqp e) false).2) 0); [by right|left].
    pose proof (ring_holds_bounds kc Hkc _ _ _ _ Hc) as [Hb _].
    destruct (e_held e) as [|d held].
    + split; [done|]. pose proof (ring_holds_pop kt Hkt _ _ _ _ Ht) as Hpop.
      destruct (ring_holds_u32 _ _ _ Ht0) as [U1 U2]. cbn in U1, U2.
      apply (rc_available_0 _ _ U1 U2). case_decide as Hz; [done|].
      destruct Hpop as (v & q' & c' & _ & Hpop & _). cbn in E, Hpop. by rewrite Hpop in E.
    + destruct (ring_holds_push kc Hkc _ _ _ _ (xd_addr d) Hc) as (m' & p' & Hpush & _); [cbn in *; lia|].
      cbn in E, Hpush. by rewrite Hpush in E.
Qed.

Lemma run_all_no_work fuel e qt qc :
  rings_hold kt kc p c e qt qc -> work e qt < Z.of_nat fuel -> no_work (run_all fuel buf (2 ^ kt) (2 ^ kc) e).
Proof.
  revert e qt qc. induction fuel as [|fuel IH]; intros e qt qc Hr Hw.
  { pose proof (ring_holds_bounds kt Hkt _ _ _ _ (proj1 Hr)) as (_ & _ & Hu & _).
    unfold work in Hw. pose proof (len_nonneg (e_held e)). lia. }
  cbn. pose proof (run_one_progress e qt qc Hr) as Hone.
  destruct (run_one buf (2 ^ kt) (2 ^ kc) e); [|done].
  destruct Hone as (qt' & qc' & Hr' & Hlt). eapply IH; [done|lia].
Qed.
End eager_responds.

Lemma eager_turn_idle kt kc buf e qt qc p c :
  0 <= kt <= 31 -> 0 <= kc <= 31 ->
  ring_holds kt qt (mkSpsc (e_tx e) p (e_txc e)) -> ring_holds kc qc (mkSpsc (e_cq e) (e_cqp e) c) ->
  kernel_idle (eager_turn (2 ^ kt) (2 ^ kc) buf e).
Proof.
  intros Hkt Hkc Ht Hc. unfold eager_turn.
  set (fuel := (_ + 2)%nat).
  pose proof (run_all_no_work kt kc buf p c Hkt Hkc fuel e qt qc (conj Ht Hc)) as Hn.
  set (e' := run_all _ _ _ _ _) in *. unfold kernel_idle, publish. cbn. split; [done|]. split; [done|].
  destruct Hn as [[Hh Hx]|Hf]; [|left; by rewrite Hh|right; exact Hf].
  pose proof (ring_holds_bounds kt Hkt _ _ _ _ Ht) as (Ha & _ & Hu & _).
  unfold work, fuel. pose proof (len_nonneg (e_held e)).
  pose proof (size_bounds kt Hkt). lia.
Qed.

#[global] Program Instance skb_responsive : XskResponsive skb_driver := {|
  kernel_delay := 0;
  kernel_patience _ := 0%nat;
|}.
Next Obligation. done. Qed.
Next Obligation. intros. right. by split. Qed.
Next Obligation. intros. by eapply eager_turn_idle. Qed.

