(* ===== verification/TxLoop.v ===== *)
(** * The transmit loop ([tx_loop.rs])

    Everything [tx_loop] does once its socket is open: it batches packets from
    a channel, waits for a free frame and a free slot, assembles each packet in
    a frame, submits it, commits and kicks the driver per chunk, and drains the
    ring at the end. The kernel runs (see [Kernel]) wherever the loop looks at
    shared memory. *)

From S2P Require Import Prelude Words Net Packet Umem Ring Netlink Route Assemble Kernel.

(** ** State *)

Definition BATCH_SIZE : Z := 64.
Definition MAX_TIMEOUTS : Z := 500.

(** What the loop was started with: [tx_loop]'s parameters after the defaults
    from the device, the routing table and the device's interface index. *)
Record tx_config := mkTxConfig {
  c_src_mac : MacAddress;
  c_src_ip : Ipv4Addr;
  c_src_port : Z;
  c_dest_mac : option MacAddress;
  c_router : Router;
  c_if_index : Z;
}.

Section tx_loop.
Context `{BuildProfile} {K : Type} `{XskKernel K}.

(** [umem], [ring], [completion], and the kernel with the shared memory. *)
Record tx_state := mkTxState {
  t_umem : SliceUmem;
  t_ring : TxRing;
  t_completion : TxCompletionRing;
  t_env : tx_env;
  t_kernel : K;
}.

Definition with_umem (s : tx_state) (u : SliceUmem) : tx_state :=
  mkTxState u (t_ring s) (t_completion s) (t_env s) (t_kernel s).
Definition with_tx (s : tx_state) (m : ring_mem XdpDesc) (r : TxRing) : tx_state :=
  mkTxState (t_umem s) r (t_completion s)
    (mkTxEnv m (e_txc (t_env s)) (e_cq (t_env s)) (e_cqp (t_env s)) (e_held (t_env s)) (e_wire (t_env s)))
    (t_kernel s).
Definition with_cq (s : tx_state) (m : ring_mem Z) (r : TxCompletionRing) : tx_state :=
  mkTxState (t_umem s) (t_ring s) r
    (mkTxEnv (e_tx (t_env s)) (e_txc (t_env s)) m (e_cqp (t_env s)) (e_held (t_env s)) (e_wire (t_env s)))
    (t_kernel s).

(** The kernel runs. *)
Definition kernel_runs (s : tx_state) : tx_state :=
  let '(k, e) := kernel_turn (tx_size (t_ring s)) (cr_size (t_completion s)) (t_kernel s)
                   (buffer (t_umem s)) (t_env s) in
  mkTxState (t_umem s) (t_ring s) (t_completion s) e k.

(** The kernel runs inside [sendto]. *)
Definition kernel_woken (s : tx_state) : tx_state :=
  let '(k, e) := kernel_wake (tx_size (t_ring s)) (cr_size (t_completion s)) (t_kernel s)
                   (buffer (t_umem s)) (t_env s) in
  mkTxState (t_umem s) (t_ring s) (t_completion s) e k.

(** ** Ring calls *)

(** [completion.sync(commit)] *)
Definition completion_sync (s : tx_state) (commit : bool) : tx_state :=
  let s := kernel_runs s in
  let '(m, r) := TxCompletionRing_sync (e_cq (t_env s)) (t_completion s) commit in
  with_cq s m r.

(** [ring.sync(commit)] *)
Definition ring_sync (s : tx_state) (commit : bool) : tx_state :=
  let s := kernel_runs s in
  let '(m, r) := TxRing_sync (e_tx (t_env s)) (t_ring s) commit in
  with_tx s m r.

(** [ring.commit()] *)
Definition ring_commit (s : tx_state) : tx_state :=
  with_tx s (TxRing_commit (e_tx (t_env s)) (t_ring s)) (t_ring s).

(** [kick_error]: what is logged for the OS error of a failed wake-up. *)
Inductive kick_report := NonFatal | LogInterfaceDown | LogDriverError.
Definition kick_error (raw_os_error : option Z) : kick_report :=
  match raw_os_error with
  | Some e =>
      if decide (e = 16 \/ e = 105 \/ e = 11) then NonFatal (* EBUSY, ENOBUFS, EAGAIN *)
      else if decide (e = 100) then LogInterfaceDown (* ENETDOWN *)
      else LogDriverError
  | None => LogDriverError
  end.

(** [kick]: unless the flag asks for it [sendto] is not called; an error of the
    call is only logged. *)
Definition kick (s : tx_state) : tx_state :=
  let s := kernel_runs s in
  if negb (TxRing_needs_wakeup (e_tx (t_env s))) then s
  else
    let s := kernel_woken s in
    match TxRing_wake (kernel_sendto (t_kernel s)) with
    | Err _ => s
    | Ok _ => s
    end.

(** [while let Some(frame_offset) = completion.read() { umem.release(..) }] *)
Definition release_completed (s : tx_state) : outcome tx_state :=
  loop (S (Z.to_nat (rc_available (cr_consumer (t_completion s))))) (fun s =>
    o ← TxCompletionRing_read (e_cq (t_env s)) (t_completion s);
    match o with
    | (None, _) => Done (Break s)
    | (Some frame_offset, r) =>
        u ← release (t_umem s) frame_offset;
        Done (Continue (with_cq (with_umem s u) (e_cq (t_env s)) r))
    end) s.

(** ** One packet *)

(** The body of the loop that waits for a frame and a slot. *)
Definition wait_step (s : tx_state) : outcome (control tx_state tx_state) :=
  let s := completion_sync s true in
  let s := ring_sync s false in
  s ← release_completed s;
  if (0 <? TxRing_available (t_ring s)) && (0 <? available (t_umem s)) then Done (Break s)
  else Done (Continue (kick s)).

Definition wait_for_space (fuel : nat) (s : tx_state) : outcome tx_state :=
  if (TxRing_available (t_ring s) =? 0) || (available (t_umem s) =? 0)
  then loop fuel wait_step s
  else Done s.

(** The destination MAC: the configured one, or the next hop's. [None] when
    the packet is dropped. *)
Definition resolve_mac (cfg : tx_config) (addr : SocketAddr) : outcome (option MacAddress) :=
  match c_dest_mac cfg with
  | Some mac => Done (Some mac)
  | None =>
      r ← Router_route (c_router cfg) (sa_ip addr);
      next_hop ← unwrap_ok r;
      let skip := negb (nh_if_index next_hop =? c_if_index cfg) in
      let skip := match nh_mac_addr next_hop with Some _ => skip | None => true end in
      if skip then Done None
      else m ← unwrap (nh_mac_addr next_hop); Done (Some m)
  end.

Definition packet_endpoints (cfg : tx_config) (mac : MacAddress) (dst_ip : Ipv4Addr) (port : Z) : endpoints :=
  mkEndpoints (c_src_mac cfg) mac (c_src_ip cfg) dst_ip (c_src_port cfg) port.

(** The loop's state and its two counters, [batched_packets] and
    [chunk_remaining]. *)
Record batch := mkBatch { b_state : tx_state; b_packets : Z; b_chunk : Z }.

(** With a frame and a slot at hand: write the packet and submit it. *)
Definition submit_packet (cfg : tx_config) (payload : list Z) (addr : SocketAddr) (b : batch) (s : tx_state)
  : outcome batch :=
  o ← reserve (t_umem s);
  '(frame, u) ← unwrap o;
  let s := with_umem s u in
  dst_ip ← match sa_ip addr with V4 ip => Done ip | V6 _ => Panic ExplicitPanic end;
  o ← resolve_mac cfg addr;
  match o with
  | None =>
      packets ← sub_u 64 (b_packets b) 1;
      u ← release (t_umem s) (frame_offset frame);
      Done (mkBatch (with_umem s u) packets (b_chunk b))
  | Some dest_mac =>
      n ← add_u 64 PACKET_HEADER_SIZE (len payload);
      let frame := set_len frame n in
      u ← map_frame_mut (t_umem s) frame (fun packet =>
            write_packet packet (packet_endpoints cfg dest_mac dst_ip (sa_port addr)) payload);
      let s := with_umem s u in
      w ← TxRing_write (e_tx (t_env s)) (t_ring s) frame 0;
      let '(r, m, ring) := w in
      _ ← unwrap_ok r;
      let s := with_tx s m ring in
      packets ← sub_u 64 (b_packets b) 1;
      chunk ← sub_u 64 (b_chunk b) 1;
      if chunk =? 0 then
        Done (mkBatch (kick (ring_commit s)) packets (Z.min BATCH_SIZE packets))
      else Done (mkBatch s packets chunk)
  end.

(** The body of [for addr in addrs.as_ref()]. *)
Definition send_packet (fuel : nat) (cfg : tx_config) (payload : list Z) (addr : SocketAddr) (b : batch)
  : outcome batch :=
  s ← wait_for_space fuel (b_state b);
  submit_packet cfg payload addr b s.

(** ** The batch *)

Abbreviation item := (list SocketAddr * list Z)%type.

(** [for (addrs, payload) in batched_items.drain(..)]; each item is then
    offered to [drop_sender]. *)
Definition send_item (fuel : nat) (cfg : tx_config) (it : item) (b : batch) : outcome batch :=
  for_each it.1 (send_packet fuel cfg it.2) b.

Definition send_batch (fuel : nat) (cfg : tx_config) (items : list item) (s : tx_state) (packets : Z)
  : outcome batch :=
  for_each items (send_item fuel cfg) (mkBatch s packets (Z.min BATCH_SIZE packets)).

(** ** The main loop *)

Inductive try_recv :=
  | Received (addrs : list SocketAddr) (payload : list Z)
  | Empty
  | Disconnected.

Record loop_state := mkLoopState {
  l_state : tx_state;
  l_items : list item;
  l_packets : Z;
  l_timeouts : Z;
  l_dropped : list item;
}.

(** What follows the [match]: send everything that is batched. *)
Definition flush (fuel : nat) (cfg : tx_config) (l : loop_state) : outcome loop_state :=
  b ← send_batch fuel cfg (l_items l) (l_state l) (l_packets l);
  _ ← debug_assert (b_packets b =? 0);
  Done (mkLoopState (b_state b) [] (b_packets b) (l_timeouts l) (l_dropped l ++ l_items l)).

(** One turn of [loop] on the answer of [receiver.try_recv()]. *)
Definition loop_step (fuel : nat) (cfg : tx_config) (ev : try_recv) (l : loop_state)
  : outcome (control loop_state loop_state) :=
  match ev with
  | Received addrs payload =>
      packets ← add_u 64 (l_packets l) (len addrs);
      let l := mkLoopState (l_state l) (vec_push (l_items l) (addrs, payload)) packets 0 (l_dropped l) in
      if packets <? BATCH_SIZE then Done (Continue l)
      else l ← flush fuel cfg l; Done (Continue l)
  | Empty =>
      let l :=
        if l_timeouts l <? MAX_TIMEOUTS
        then mkLoopState (l_state l) (l_items l) (l_packets l) (l_timeouts l + 1) (l_dropped l)
        else mkLoopState (kick (ring_commit (l_state l))) (l_items l) (l_packets l) 0 (l_dropped l) in
      l ← flush fuel cfg l; Done (Continue l)
  | Disconnected =>
      if l_packets l =? 0 then Done (Break l)
      else l ← flush fuel cfg l; Done (Continue l)
  end.

(** [while umem.available() < umem_tx_capacity || ring.available() <
    ring.capacity()] *)
Definition drain_cond (umem_tx_capacity : Z) (s : tx_state) : bool :=
  (available (t_umem s) <? umem_tx_capacity) || (TxRing_available (t_ring s) <? TxRing_capacity (t_ring s)).

Definition drain_step (s : tx_state) : outcome tx_state :=
  let s := completion_sync s true in
  s ← release_completed s;
  let s := ring_sync s false in
  Done (kick s).

Definition drain (fuel : nat) (umem_tx_capacity : Z) (s : tx_state) : outcome tx_state :=
  while fuel (drain_cond umem_tx_capacity) drain_step s.

(** The loop over a list of answers of the channel, then the drain;
    [OutOfFuel] when the answers run out before the channel is disconnected. *)
Fixpoint receive_loop (fuel : nat) (cfg : tx_config) (events : list try_recv) (l : loop_state)
  : outcome loop_state :=
  match events with
  | [] => OutOfFuel
  | ev :: events =>
      c ← loop_step fuel cfg ev l;
      match c with
      | Continue l => receive_loop fuel cfg events l
      | Break l => Done l
      end
  end.

Definition tx_loop (fuel : nat) (cfg : tx_config) (events : list try_recv) (s : tx_state)
  : outcome loop_state :=
  let umem_tx_capacity := available (t_umem s) in
  l ← receive_loop fuel cfg events (mkLoopState s [] 0 0 []);
  _ ← assert (l_packets l =? 0);
  s ← drain fuel umem_tx_capacity (l_state l);
  Done (mkLoopState s (l_items l) (l_packets l) (l_timeouts l) (l_dropped l)).
End tx_loop.
Arguments tx_state : clear implicits.
Arguments loop_state : clear implicits.
Arguments batch : clear implicits.
