(* ===== verification/TxInv.v ===== *)
(** * The transmit loop: invariant and safety

    The ownership invariant of the transmit side (every UMEM frame is free,
    lent, queued, held by the kernel or completed, exactly once), and the proof
    that every operation of [TxLoop] preserves it for every kernel that follows
    the protocol, up to the whole main loop and the drain. *)

From S2P Require Import Prelude Words Net Packet Umem Ring Netlink Route Assemble Kernel TxLoop.

(** ** The invariant *)

(** The transmit side with the descriptors [qt] in the TX ring and the
    completions [qc] in the completion ring: every frame of the UMEM is free,
    lent to the receive side, queued, held by the kernel or completed, exactly
    once, and the frames transmitted so far followed by the queued ones are
    [sent]. *)
Record tx_ok {K} (kt kc : Z) (lent : list Z) (s : tx_state K) (qt : list XdpDesc) (qc : list Z) (sent : list (list Z))
  : Prop := mkTxOk {
  ok_tx_size : tx_size (t_ring s) = 2 ^ kt;
  ok_cq_size : cr_size (t_completion s) = 2 ^ kc;
  ok_umem : slice_umem_wf (t_umem s);
  ok_rings : rings_hold kt kc (tx_producer (t_ring s)) (cr_consumer (t_completion s)) (t_env s) qt qc;
  ok_frames : (frame_base (t_umem s) <$> available_frames (t_umem s))
                ++ lent ++ (xd_addr <$> qt) ++ (xd_addr <$> e_held (t_env s)) ++ qc
              ≡ₚ frame_base (t_umem s) <$> seqZ 0 (capacity (t_umem s));
  ok_lens : Forall (fun d => 0 <= xd_len d <= frame_size (t_umem s)) qt;
  ok_sent : e_wire (t_env s) ++ (desc_bytes (buffer (t_umem s)) <$> qt) = sent;
}.

(** Descriptors submitted and not committed. *)
Definition pending {K} (s : tx_state K) : Z := unpublished (e_tx (t_env s)) (tx_producer (t_ring s)).

(** Frames on their way: neither free nor lent. *)
Definition in_flight {K} (lent : list Z) (s : tx_state K) : Z :=
  capacity (t_umem s) - len lent - available (t_umem s).

(** Completions read and not committed; together with the frames on their way,
    what the completion ring must have room for. *)
Definition reads {K} (s : tx_state K) : Z :=
  uncommitted_reads (e_cq (t_env s)) (cr_consumer (t_completion s)).
Definition room_needed {K} (lent : list Z) (s : tx_state K) : Z := reads s + in_flight lent s.

Definition geometry {K} (s : tx_state K) : Z * Z := (frame_size (t_umem s), capacity (t_umem s)).

(** [s'] is a state with the same transmitted and queued packets, the same
    UMEM geometry and the same uncommitted descriptors. *)
Record tx_same {K} (kt kc : Z) (lent : list Z) (s s' : tx_state K) (sent : list (list Z)) : Prop := mkTxSame {
  same_ok : exists qt qc, tx_ok kt kc lent s' qt qc sent;
  same_geometry : geometry s' = geometry s;
  same_pending : pending s' = pending s;
}.

(** [u] is the UMEM of [s] after frame [o] was reserved. *)
Record reserved (u0 u : SliceUmem) (o : Z) : Prop := mkReserved {
  rs_wf : slice_umem_wf u;
  rs_buffer : buffer u = buffer u0;
  rs_size : frame_size u = frame_size u0;
  rs_capacity : capacity u = capacity u0;
  rs_free : frame_base u0 <$> available_frames u0 = (frame_base u <$> available_frames u) ++ [o];
}.

(** [u'] is [u] with the bytes [f] written to frame [o]; the frames of [qt] are
    as they were. *)
Record assembled (u u' : SliceUmem) (o : Z) (f : list Z) (qt : list XdpDesc) : Prop := mkAssembled {
  as_wf : slice_umem_wf u';
  as_free : available_frames u' = available_frames u;
  as_size : frame_size u' = frame_size u;
  as_capacity : capacity u' = capacity u;
  as_bytes : desc_bytes (buffer u') (mkXdpDesc o (len f) 0) = f;
  as_others : (desc_bytes (buffer u') <$> qt) = (desc_bytes (buffer u) <$> qt);
}.

(** ** What is sent *)

(** The frame a packet is sent as, or nothing when it is dropped. *)
Definition packet_frames (cfg : tx_config) (payload : list Z) (addr : SocketAddr) : list (list Z) :=
  match resolve_mac cfg addr, sa_ip addr with
  | Done (Some mac), V4 ip => [frame_bytes (packet_endpoints cfg mac ip (sa_port addr)) payload]
  | _, _ => []
  end.
Definition item_frames (cfg : tx_config) (it : list SocketAddr * list Z) : list (list Z) :=
  concat (packet_frames cfg it.2 <$> it.1).
Definition items_frames (cfg : tx_config) (items : list (list SocketAddr * list Z)) : list (list Z) :=
  concat (item_frames cfg <$> items).

(** A packet that can be sent: an IPv4 destination with a route to it, and a
    payload that fits a frame behind the headers. *)
Definition sendable (cfg : tx_config) (fsize : Z) (payload : list Z) (addr : SocketAddr) : Prop :=
  match sa_ip addr with V4 ip => ipv4_ok ip | V6 _ => False end /\ is_u16 (sa_port addr) /\
  match resolve_mac cfg addr with Done o => opt_ok mac_ok o | _ => False end /\
  42 + len payload <= fsize.
Definition item_sendable (cfg : tx_config) (fsize : Z) (it : list SocketAddr * list Z) : Prop :=
  Forall (sendable cfg fsize it.2) it.1.
Definition config_ok (cfg : tx_config) : Prop :=
  mac_ok (c_src_mac cfg) /\ ipv4_ok (c_src_ip cfg) /\ is_u16 (c_src_port cfg).

#[global] Instance sendable_dec cfg fsize payload addr : Decision (sendable cfg fsize payload addr).
Proof.
  unfold sendable. destruct (sa_ip addr); [|right; tauto].
  destruct (resolve_mac cfg addr) as [[m|]| | |]; cbn; try apply _; right; tauto.
Defined.
#[global] Instance item_sendable_dec cfg fsize it : Decision (item_sendable cfg fsize it).
Proof. unfold item_sendable. apply _. Defined.
#[global] Instance config_ok_dec cfg : Decision (config_ok cfg).
Proof. unfold config_ok. apply _. Defined.

(** Packets in a list of items. *)
Definition packet_count (items : list (list SocketAddr * list Z)) : Z :=
  foldr (fun it n => len it.1 + n) 0 items.

Lemma packet_count_cons it items : packet_count (it :: items) = len it.1 + packet_count items.
Proof. done. Qed.

Lemma packet_count_nonneg items : 0 <= packet_count items.
Proof.
  induction items as [|it items IH]; [done|]. rewrite packet_count_cons. pose proof (len_nonneg it.1). lia.
Qed.

Lemma packet_count_app items1 items2 :
  packet_count (items1 ++ items2) = packet_count items1 + packet_count items2.
Proof. induction items1 as [|it items IH]; [done|]. cbn [app]. rewrite !packet_count_cons, IH. lia. Qed.

Lemma items_frames_app cfg items1 items2 :
  items_frames cfg (items1 ++ items2) = items_frames cfg items1 ++ items_frames cfg items2.
Proof. unfold items_frames. by rewrite fmap_app, concat_app. Qed.

#[global] Arguments items_frames : simpl never.
#[global] Arguments packet_count : simpl never.

(** The items received up to some point. *)
Definition received (events : list try_recv) : list (list SocketAddr * list Z) :=
  omap (fun ev => match ev with Received addrs payload => Some (addrs, payload) | _ => None end) events.

Lemma received_cons ev events : received (ev :: events) = received [ev] ++ received events.
Proof. by destruct ev. Qed.

Definition event_ok (cfg : tx_config) (fsize : Z) (ev : try_recv) : Prop :=
  match ev with
  | Received addrs payload => item_sendable cfg fsize (addrs, payload) /\ len addrs < 2 ^ 63
  | _ => True
  end.
#[global] Instance event_ok_dec cfg fsize ev : Decision (event_ok cfg fsize ev).
Proof. destruct ev; apply _. Defined.

(** The batch counters: [chunk_remaining] is positive while packets remain, and
    covers the uncommitted descriptors. *)
Record counters_ok {K} (b : batch K) : Prop := mkCounters {
  ct_packets : 0 <= b_packets b < 2 ^ 64;
  ct_chunk : 0 <= b_chunk b <= BATCH_SIZE;
  ct_chunk_pos : 0 < b_packets b -> 0 < b_chunk b;
}.

(** Every chunk is committed in full: the chunk counter never exceeds the
    packets left, and nothing is uncommitted between chunks. *)
Record chunks_full {K} (b : batch K) : Prop := mkChunksFull {
  cf_chunk : b_chunk b <= b_packets b;
  cf_pending : b_chunk b = 0 -> pending (b_state b) = 0;
  cf_bound : pending (b_state b) + b_chunk b <= BATCH_SIZE;
}.

Section tx_facts.
Context `{BuildProfile} {K : Type} `{XskKernelOk K}.
Context (kt kc : Z) (lent : list Z).
Hypothesis Hkt : 0 <= kt <= 31.
Hypothesis Hkc : 0 <= kc <= 31.
Implicit Types (s : tx_state K).

Lemma tx_same_trans s1 s2 s3 sent :
  tx_same kt kc lent s1 s2 sent -> tx_same kt kc lent s2 s3 sent -> tx_same kt kc lent s1 s3 sent.
Proof. intros [_ G1 P1] [O2 G2 P2]. split; [done|congruence..]. Qed.

(** The frames in flight, counted. *)
Lemma tx_ok_count s qt qc sent :
  tx_ok kt kc lent s qt qc sent ->
  in_flight lent s = len qt + len (e_held (t_env s)) + len qc /\ 0 <= available (t_umem s) <= capacity (t_umem s) - len lent.
Proof.
  intros [_ _ Hwf _ Hp _ _]. apply Permutation_length in Hp.
  rewrite !length_app, !length_fmap, length_seqZ in Hp.
  assert (0 <= capacity (t_umem s)).
  { destruct Hwf as ([? ?] & _ & -> & _). apply Z.div_pos; [apply len_nonneg|lia]. }
  unfold in_flight, available, len in *. lia.
Qed.

Definition with_env s (k : K) (e : tx_env) : tx_state K :=
  mkTxState (t_umem s) (t_ring s) (t_completion s) e k.

(** Whatever the kernel does, as long as it follows the protocol. *)
Lemma kernel_steps_ok s k e qt qc sent :
  tx_ok kt kc lent s qt qc sent -> rtc (kernel_step (buffer (t_umem s)) (2 ^ kt) (2 ^ kc)) (t_env s) e ->
  exists qt' qc', tx_ok kt kc lent (with_env s k e) qt' qc' sent /\
    pending (with_env s k e) = pending s /\ reads (with_env s k e) = reads s.
Proof.
  intros [Hn Hc Hwf Hr Hp Hl Hs] Hst.
  destruct (kernel_steps_move kt kc Hkt Hkc _ _ _ _ _ _ _ Hst Hr) as (qt' & qc' & Hr' & [Mf Mw Mq Mp Mc]).
  exists qt', qc'. unfold pending, unpublished, reads, uncommitted_reads. cbn. rewrite Mp, Mc. split_and!; try done.
  split; cbn; try done.
  - by rewrite Mf.
  - destruct Mq as [pre ->]. by apply Forall_app in Hl as [_ ?].
  - by rewrite Mw.
Qed.

(** What looking at shared memory, and a [sendto] call, do to the state. *)
Lemma kernel_runs_env s qt qc sent :
  tx_ok kt kc lent s qt qc sent ->
  exists k e, kernel_runs s = with_env s k e /\ rtc (kernel_step (buffer (t_umem s)) (2 ^ kt) (2 ^ kc)) (t_env s) e /\
    kernel_turn (2 ^ kt) (2 ^ kc) (t_kernel s) (buffer (t_umem s)) (t_env s) = (k, e).
Proof.
  intros [Hn Hc _ _ _ _ _]. unfold kernel_runs. rewrite Hn, Hc.
  pose proof (kernel_follows (2 ^ kt) (2 ^ kc) (t_kernel s) (buffer (t_umem s)) (t_env s)) as Hf.
  destruct (kernel_turn _ _ _ _ _) as [k e]. by exists k, e.
Qed.

Lemma kernel_woken_env s qt qc sent :
  tx_ok kt kc lent s qt qc sent ->
  exists k e, kernel_woken s = with_env s k e /\ rtc (kernel_step (buffer (t_umem s)) (2 ^ kt) (2 ^ kc)) (t_env s) e /\
    kernel_wake (2 ^ kt) (2 ^ kc) (t_kernel s) (buffer (t_umem s)) (t_env s) = (k, e).
Proof.
  intros [Hn Hc _ _ _ _ _]. unfold kernel_woken. rewrite Hn, Hc.
  pose proof (kernel_wake_follows (2 ^ kt) (2 ^ kc) (t_kernel s) (buffer (t_umem s)) (t_env s)) as Hf.
  destruct (kernel_wake _ _ _ _ _) as [k e]. by exists k, e.
Qed.

Lemma kernel_runs_ok s qt qc sent :
  tx_ok kt kc lent s qt qc sent ->
  exists qt' qc', tx_ok kt kc lent (kernel_runs s) qt' qc' sent /\
    t_umem (kernel_runs s) = t_umem s /\ t_ring (kernel_runs s) = t_ring s /\
    t_completion (kernel_runs s) = t_completion s /\ pending (kernel_runs s) = pending s /\
    reads (kernel_runs s) = reads s.
Proof.
  intros Ho. destruct (kernel_runs_env s _ _ _ Ho) as (k & e & -> & Hst & _).
  destruct (kernel_steps_ok s k e _ _ _ Ho Hst) as (qt' & qc' & Ho' & Ep & Er). by exists qt', qc'.
Qed.

Lemma kernel_woken_ok s qt qc sent :
  tx_ok kt kc lent s qt qc sent ->
  exists qt' qc', tx_ok kt kc lent (kernel_woken s) qt' qc' sent /\
    t_umem (kernel_woken s) = t_umem s /\ t_ring (kernel_woken s) = t_ring s /\
    t_completion (kernel_woken s) = t_completion s /\ pending (kernel_woken s) = pending s /\
    reads (kernel_woken s) = reads s.
Proof.
  intros Ho. destruct (kernel_woken_env s _ _ _ Ho) as (k & e & -> & Hst & _).
  destruct (kernel_steps_ok s k e _ _ _ Ho Hst) as (qt' & qc' & Ho' & Ep & Er). by exists qt', qc'.
Qed.

Lemma completion_sync_ok s qt qc sent b :
  tx_ok kt kc lent s qt qc sent ->
  exists qt' qc', tx_ok kt kc lent (completion_sync s b) qt' qc' sent /\
    t_umem (completion_sync s b) = t_umem s /\ t_ring (completion_sync s b) = t_ring s /\
    pending (completion_sync s b) = pending s /\
    e_tx (t_env (completion_sync s b)) = e_tx (t_env (kernel_runs s)).
Proof.
  intros Ho. destruct (kernel_runs_ok s qt qc sent Ho) as (qt' & qc' & Ho' & Eu & Er & Ec & Ep & _).
  exists qt', qc'. unfold completion_sync. set (s' := kernel_runs s) in *.
  destruct Ho' as [Hn Hc Hwf [Ht Hq] Hp Hl Hs]. cbn. unfold TxCompletionRing_sync.
  pose proof (sp_sync_cons (2 ^ kc) (e_cq (t_env s')) (e_cqp (t_env s')) (cr_consumer (t_completion s')) b) as Hstep.
  destruct (rc_sync (e_cq (t_env s')) (cr_consumer (t_completion s')) b) as [m c] eqn:E.
  split_and!; try done. split; try done. split; [done|]. cbn.
  eapply (ring_holds_tau kc Hkc); [exact Hq|]. by apply Hstep.
Qed.

Lemma ring_sync_ok s qt qc sent :
  tx_ok kt kc lent s qt qc sent ->
  exists qt' qc', tx_ok kt kc lent (ring_sync s false) qt' qc' sent /\
    t_umem (ring_sync s false) = t_umem s /\ t_completion (ring_sync s false) = t_completion s /\
    pending (ring_sync s false) = pending s.
Proof.
  intros Ho. destruct (kernel_runs_ok s qt qc sent Ho) as (qt' & qc' & Ho' & Eu & Er & Ec & Ep & _).
  exists qt', qc'. unfold ring_sync. set (s' := kernel_runs s) in *.
  destruct Ho' as [Hn Hc Hwf [Ht Hq] Hp Hl Hs]. cbn.
  split_and!; try done. split; try done. split; [|done]. cbn.
  eapply (ring_holds_tau kt Hkt); [exact Ht|]. by eapply (sp_sync_prod _ _ _ _ false).
Qed.

Lemma ring_commit_ok s qt qc sent :
  tx_ok kt kc lent s qt qc sent -> tx_ok kt kc lent (ring_commit s) qt qc sent /\ pending (ring_commit s) = 0.
Proof.
  intros [Hn Hc Hwf [Ht Hq] Hp Hl Hs]. split.
  - split; try done. split; [|done]. cbn. eapply (ring_holds_tau kt Hkt); [exact Ht|apply sp_commit_prod].
  - unfold pending. cbn. apply unpublished_commit.
    by pose proof (ring_holds_bounds kt Hkt _ _ _ _ Ht) as (_ & _ & [? _] & _).
Qed.

Lemma kick_ok s qt qc sent :
  tx_ok kt kc lent s qt qc sent ->
  exists qt' qc', tx_ok kt kc lent (kick s) qt' qc' sent /\ t_umem (kick s) = t_umem s /\
    t_ring (kick s) = t_ring s /\ pending (kick s) = pending s /\ reads (kick s) = reads s.
Proof.
  intros Ho. destruct (kernel_runs_ok s qt qc sent Ho) as (q1 & c1 & Ho1 & Eu1 & Er1 & _ & Ep1 & Ed1).
  unfold kick. destruct (negb _); [by exists q1, c1|].
  destruct (kernel_woken_ok _ _ _ _ Ho1) as (q2 & c2 & Ho2 & Eu2 & Er2 & _ & Ep2 & Ed2).
  exists q2, c2. destruct (TxRing_wake _); split_and!; (done || congruence).
Qed.

(** Taking one completion out of the ring and giving its frame back. *)
Lemma release_one_ok s qt qc sent o qc' r :
  tx_ok kt kc lent s qt (o :: qc') sent -> qc = o :: qc' -> cr_size r = 2 ^ kc ->
  ring_holds kc qc' (mkSpsc (e_cq (t_env s)) (e_cqp (t_env s)) (cr_consumer r)) ->
  exists u, release (t_umem s) (mkFrameOffset (wrap 64 o)) = Done u /\
    let s' := with_cq (with_umem s u) (e_cq (t_env s)) r in
    tx_ok kt kc lent s' qt qc' sent /\ t_ring s' = t_ring s /\ t_env s' = t_env s /\ geometry s' = geometry s.
Proof.
  intros [Hn Hc Hwf [Ht Hq] Hp Hl Hs] Eq Hsz Hq'.
  assert (o ∈ frames (t_umem s)) as Hin.
  { cbn. rewrite <-Hp. rewrite !elem_of_app. do 4 right. by left. }
  destruct (@frames_in_mem _ _ _ _ SliceUmem_spec _ _ Hwf Hin) as [Ho1 Ho2]. cbn in Ho2.
  pose proof Hwf as ([? ?] & ? & _). rewrite wrap_small by (unfold is_uint, umem_len in *; cbn in *; lia).
  destruct (@release_frame _ _ _ _ SliceUmem_spec (t_umem s) o 0 Hwf Hin) as (u & Hr & Hwf' & Hf & Hfr & Hm & Hsi);
    [cbn; lia|]. rewrite Z.add_0_r in Hr. exists u. split; [exact Hr|]. cbn in *.
  assert (capacity u = capacity (t_umem s)) as Ecap.
  { destruct Hwf as (_ & _ & -> & _), Hwf' as (_ & _ & -> & _). congruence. }
  split_and!; [split; cbn; try done|done|by destruct (t_env s)|unfold geometry; cbn; congruence].
  - rewrite Hf, Hfr, <-Hp. rewrite <-app_assoc. apply Permutation_app_head. cbn.
    rewrite !(app_assoc (xd_addr <$> qt)), !(app_assoc lent). apply Permutation_middle.
  - by rewrite Hsi.
  - by rewrite Hm.
Qed.

Lemma release_completed_ok s qt qc sent :
  tx_ok kt kc lent s qt qc sent ->
  exists s' qc', release_completed s = Done s' /\ tx_ok kt kc lent s' qt qc' sent /\
    t_ring s' = t_ring s /\ t_env s' = t_env s /\ geometry s' = geometry s /\
    len qc' = len qc - rc_available (cr_consumer (t_completion s)) /\ reads s' + len qc' = reads s + len qc /\
    t_kernel s' = t_kernel s.
Proof.
  intros Ho. unfold release_completed.
  set (n := rc_available (cr_consumer (t_completion s))).
  set (Inv := fun s' : tx_state K => exists qc', tx_ok kt kc lent s' qt qc' sent /\ t_ring s' = t_ring s /\
    t_env s' = t_env s /\ geometry s' = geometry s /\ 
    len qc' - rc_available (cr_consumer (t_completion s')) = len qc - n /\ reads s' + len qc' = reads s + len qc /\
    t_kernel s' = t_kernel s).
  destruct (loop_spec Inv (fun s' => Inv s' /\ rc_available (cr_consumer (t_completion s')) = 0)
    (fun s' => Z.to_nat (rc_available (cr_consumer (t_completion s'))))
    (fun s0 => o ← TxCompletionRing_read (e_cq (t_env s0)) (t_completion s0);
      match o with
      | (None, _) => Done (Break s0)
      | (Some frame_offset, r) =>
          u ← release (t_umem s0) frame_offset;
          Done (Continue (with_cq (with_umem s0 u) (e_cq (t_env s0)) r))
      end)) with (fuel := S (Z.to_nat n)) (s := s) as (s' & Hd & (qc' & ? & ? & ? & ? & ? & ? & ?) & Hz).
  - intros s0 (q0 & Ho0 & Er & Ee & Eg & En & Erd & Ek). pose proof Ho0 as [Hn Hc _ [_ Hq] _ _ _].
    pose proof (ring_holds_pop kc Hkc _ _ _ _ Hq) as Hpop.
    pose proof (ring_holds_bounds kc Hkc _ _ _ _ Hq) as (_ & Hb & _).
    unfold TxCompletionRing_read. rewrite Hc. case_decide as Hz.
    + rewrite Hpop. cbn. eexists. split; [done|]. split; [by exists q0|done].
    + destruct Hpop as (o & q' & c' & -> & -> & Hq' & Ea & Eu). rewrite !bind_Done.
      destruct (release_one_ok s0 qt _ sent o q' (mkTxCompletionRing c' (2 ^ kc)) Ho0 eq_refl eq_refl Hq')
        as (u & -> & Ho' & Er' & Ee' & Eg'). rewrite bind_Done. eexists. split; [done|]. cbn zeta in *.
      split; [|cbn; lia]. exists q'. split_and!; try congruence.
      * rewrite len_cons in En. cbn. lia.
      * rewrite len_cons in Erd. unfold reads in *. cbn in *. lia.
      * exact Ek.
  - by exists qc.
  - fold n. lia.
  - exists s', qc'. split_and!; try done. lia.
Qed.

Lemma geometry_umem s s' : t_umem s' = t_umem s -> geometry s' = geometry s.
Proof. unfold geometry. by intros ->. Qed.

Lemma pending_env s s' : t_ring s' = t_ring s -> t_env s' = t_env s -> pending s' = pending s.
Proof. unfold pending. by intros -> ->. Qed.

(** One round of waiting. *)
Lemma wait_step_ok s qt qc sent :
  tx_ok kt kc lent s qt qc sent ->
  exists c, wait_step s = Done c /\
    match c with
    | Continue s' => tx_same kt kc lent s s' sent
    | Break s' => tx_same kt kc lent s s' sent /\ 0 < TxRing_available (t_ring s') /\ 0 < available (t_umem s')
    end.
Proof.
  intros Ho. unfold wait_step. cbn zeta.
  destruct (completion_sync_ok s _ _ _ true Ho) as (q1 & c1 & O1 & U1 & R1 & P1 & _).
  destruct (ring_sync_ok _ _ _ _ O1) as (q2 & c2 & O2 & U2 & _ & P2).
  set (s2 := ring_sync _ _) in *.
  destruct (release_completed_ok s2 _ _ _ O2) as (s3 & c3 & -> & O3 & R3 & E3 & G3 & _).
  pose proof (pending_env _ _ R3 E3) as P3. rewrite bind_Done.
  pose proof (geometry_umem _ _ U1) as G1. pose proof (geometry_umem _ _ U2) as G2.
  destruct (_ && _) eqn:Ea.
  - eexists. split; [done|]. apply andb_prop in Ea as [?%Z.ltb_lt ?%Z.ltb_lt].
    split; [|done]. split; [eauto|congruence..].
  - eexists. split; [done|]. destruct (kick_ok s3 _ _ _ O3) as (q4 & c4 & O4 & U4 & R4 & P4 & _).
    pose proof (geometry_umem _ _ U4). split; [eauto|congruence..].
Qed.

Lemma wait_for_space_safe fuel s qt qc sent :
  tx_ok kt kc lent s qt qc sent ->
  safely (wait_for_space fuel s) (fun s' => tx_same kt kc lent s s' sent /\
    0 < TxRing_available (t_ring s') /\ 0 < available (t_umem s')).
Proof.
  intros Ho. unfold wait_for_space.
  destruct (_ || _) eqn:Ea.
  - apply (safely_loop (fun s' => tx_same kt kc lent s s' sent)).
    + intros s0 Hs. pose proof Hs as [(q & c & O) _ _]. right.
      destruct (wait_step_ok s0 _ _ _ O) as (r & -> & Hr). eexists. split; [done|].
      destruct r as [s'|s']; [by eapply tx_same_trans|]. destruct Hr as (Hr & ? & ?).
      split_and!; try done. by eapply tx_same_trans.
    + split; [eauto|done..].
  - apply safely_Done. apply orb_false_elim in Ea as [E1%Z.eqb_neq E2%Z.eqb_neq].
    destruct Ho as [Hn Hc Hwf Hr Hp Hl Hs] eqn:EHo. pose proof (len_nonneg (available_frames (t_umem s))).
    pose proof (ring_holds_bounds kt Hkt _ _ _ _ (proj1 Hr)) as ([? _] & _).
    unfold TxRing_available, available in *. split; [split; [eauto|done..]|]. lia.
Qed.

(** Reserving a frame takes it out of the free frames. *)
Lemma reserve_ok s qt qc sent :
  tx_ok kt kc lent s qt qc sent -> 0 < available (t_umem s) ->
  exists o u, reserve (t_umem s) = Done (Some (mkFrame o 0, u)) /\ reserved (t_umem s) u o.
Proof.
  intros [_ _ Hwf _ _ _ _] Ha.
  destruct (free_nil_or_last (free (t_umem s))) as [E|(l & o & E)].
  { apply fmap_nil_inv in E. unfold available in Ha. by rewrite E in Ha. }
  destruct (@reserve_last _ _ _ _ SliceUmem_spec _ _ _ Hwf E) as ([o' l'] & u & Hr & Ho & Hl & Hwf' & Hf & _ & Hm & Hs).
  cbn in *. injection Ho as ->. subst l'. exists o, u. split; [done|]. split; try done.
  - destruct Hwf as (_ & _ & -> & _), Hwf' as (_ & _ & -> & _). congruence.
  - by rewrite Hf.
Qed.

(** Giving the frame straight back: the dropped-packet path. *)
Lemma give_back_ok s qt qc sent o u :
  tx_ok kt kc lent s qt qc sent -> reserved (t_umem s) u o ->
  exists u', release u (mkFrameOffset o) = Done u' /\ tx_same kt kc lent s (with_umem (with_umem s u) u') sent.
Proof.
  intros [Hn Hc Hwf0 Hri Hp Hl Hs] [Hwf Eb Es Ec Ef].
  assert (o ∈ frames u) as Hin.
  { cbn. assert (frame_base u <$> seqZ 0 (capacity u) = frame_base (t_umem s) <$> seqZ 0 (capacity (t_umem s))) as ->
      by (unfold frame_base; by rewrite Es, Ec).
    rewrite <-Hp, Ef, !elem_of_app. left. right. by apply list_elem_of_singleton. }
  destruct (@release_frame _ _ _ _ SliceUmem_spec u o 0 Hwf Hin) as (u' & Hr' & Hwf' & Hf & Hfr & Hm & Hsi);
    [cbn; destruct Hwf as ([? ?] & _); lia|]. rewrite Z.add_0_r in Hr'. exists u'. split; [exact Hr'|].
  assert (capacity u' = capacity u) as Ecap.
  { destruct Hwf as (_ & _ & -> & _), Hwf' as (_ & _ & -> & _). cbn in *. congruence. }
  cbn in Hf, Hfr, Hm, Hsi. split; [exists qt, qc| |done].
  - split; cbn; try done.
    + rewrite Hf, Hfr, <-Ef, Hp. unfold frame_base. by rewrite Es, Ec.
    + by rewrite Hsi, Es.
    + by rewrite Hm, Eb.
  - unfold geometry. cbn. congruence.
Qed.

(** The descriptors in the ring point into frames other than the reserved one. *)
Lemma reserved_elsewhere s qt qc sent o u d :
  tx_ok kt kc lent s qt qc sent -> reserved (t_umem s) u o -> d ∈ qt ->
  0 <= o /\ o + frame_size (t_umem s) <= len (buffer (t_umem s)) /\ 0 <= xd_addr d /\
  (xd_addr d + frame_size (t_umem s) <= o \/ o + frame_size (t_umem s) <= xd_addr d).
Proof.
  intros [Hn Hc Hwf Hr Hp Hl Hs] [_ _ _ _ Ef] Hd. rewrite Ef in Hp.
  assert (xd_addr d ∈ xd_addr <$> qt) as Hdq by (apply list_elem_of_fmap; eauto).
  assert (NoDup (((frame_base u <$> available_frames u) ++ [o])
    ++ lent ++ (xd_addr <$> qt) ++ (xd_addr <$> e_held (t_env s)) ++ qc)) as Hnd.
  { rewrite Hp. apply frame_bases_NoDup. by destruct Hwf as ([? ?] & _). }
  assert (o ∈ frames (t_umem s)) as Ho by (cbn; rewrite <-Hp, !elem_of_app; left; right; by apply list_elem_of_singleton).
  assert (xd_addr d ∈ frames (t_umem s)) as Hx by (cbn; rewrite <-Hp, !elem_of_app; auto).
  assert (o <> xd_addr d) as Hne.
  { rewrite <-app_assoc in Hnd. apply NoDup_app in Hnd as (_ & _ & Hnd). cbn in Hnd.
    apply NoDup_cons in Hnd as [Hni _]. intros ->. apply Hni. rewrite !elem_of_app. auto. }
  destruct (@frames_in_mem _ _ _ _ SliceUmem_spec _ _ Hwf Ho) as [? ?].
  destruct (@frames_in_mem _ _ _ _ SliceUmem_spec _ _ Hwf Hx) as [? _].
  pose proof (@frames_disjoint _ _ _ _ SliceUmem_spec _ _ _ Hwf Ho Hx Hne) as Hdis.
  unfold umem_len in *. cbn in *. split_and!; try done. lia.
Qed.

Lemma reserved_in_buffer s qt qc sent o u :
  tx_ok kt kc lent s qt qc sent -> reserved (t_umem s) u o -> 0 <= o /\ o + frame_size (t_umem s) <= len (buffer (t_umem s)).
Proof.
  intros [Hn Hc Hwf Hr Hp Hl Hs] [_ _ _ _ Ef]. rewrite Ef in Hp.
  apply (@frames_in_mem _ _ _ _ SliceUmem_spec _ _ Hwf). cbn.
  rewrite <-Hp, !elem_of_app. left. right. by apply list_elem_of_singleton.
Qed.

(** Assembling a packet in the reserved frame. *)
Lemma assemble_ok s qt qc sent o u e payload :
  tx_ok kt kc lent s qt qc sent -> reserved (t_umem s) u o ->
  endpoints_ok e -> 42 + len payload <= frame_size (t_umem s) ->
  exists u', map_frame_mut u (mkFrame o (42 + len payload)) (fun p => write_packet p e payload) = Done u' /\
    assembled u u' o (frame_bytes e payload) qt.
Proof.
  intros Ho Hres He Hlen. pose proof (len_nonneg payload).
  destruct (reserved_in_buffer _ _ _ _ _ _ Ho Hres) as [Ho1 Ho2]. pose proof Hres as [Hwf Eb Es Ec Ef].
  unfold map_frame_mut, map_frame, umem_len. cbn [frame_offset frame_len fo f_offset f_len umem_mem SliceUmem_Umem SliceUmemFrame_Frame].
  rewrite Eb, decide_True, bind_Done by lia.
  rewrite write_packet_eq, bind_Done by (done || (rewrite len_take, len_drop; lia)).
  assert (length (frame_bytes e payload) = Z.to_nat (42 + len payload)) as Lf
    by (pose proof (frame_bytes_len e payload He); unfold len in *; lia).
  unfold len in *. eexists. split; [done|]. split; cbn; try done.
  - unfold slice_umem_wf, len in *. cbn. rewrite splice_length by lia. by rewrite <-Eb.
  - unfold desc_bytes, len. cbn. rewrite Nat2Z.id, Lf. by apply splice_inside; lia.
  - apply list_fmap_ext. intros i d Hd%list_elem_of_lookup_2.
    destruct (reserved_elsewhere _ _ _ _ _ _ _ Ho Hres Hd) as (_ & _ & Hd1 & Hd2).
    pose proof (proj1 (Forall_forall _ _) (ok_lens _ _ _ _ _ _ _ Ho) d Hd) as Hdl. cbn in Hdl.
    unfold desc_bytes. rewrite Eb. apply splice_outside; [done|lia|]. lia.
Qed.

(** Submitting it. *)
Lemma submit_ok s qt qc sent o u u' e payload :
  tx_ok kt kc lent s qt qc sent -> 0 < TxRing_available (t_ring s) ->
  reserved (t_umem s) u o -> endpoints_ok e -> 42 + len payload <= frame_size (t_umem s) ->
  assembled u u' o (frame_bytes e payload) qt ->
  exists m ring, TxRing_write (e_tx (t_env s)) (t_ring s) (mkFrame o (42 + len payload)) 0 = Done (Ok tt, m, ring) /\
    let s' := with_tx (with_umem s u') m ring in
    tx_ok kt kc lent s' (qt ++ [mkXdpDesc o (42 + len payload) 0]) qc (sent ++ [frame_bytes e payload]) /\
    geometry s' = geometry s /\ pending s' = pending s + 1.
Proof.
  intros Ho Ha Hres He Hlen [Hwf' Ea' Es' Ec' Ebytes Eqt]. pose proof (len_nonneg payload).
  rewrite frame_bytes_len in Ebytes by done.
  destruct (reserved_in_buffer _ _ _ _ _ _ Ho Hres) as [Ho1 Ho2]. pose proof Hres as [_ Eb Es Ec Ef].
  destruct Ho as [Hn Hc Hwf [Ht Hq] Hp Hl Hs]. pose proof Hwf as ([? ?] & ? & _).
  set (d := mkXdpDesc o (42 + len payload) 0) in *.
  destruct (ring_holds_push kt Hkt _ _ _ _ d Ht Ha) as (m & p & Hpush & Ht' & _ & Hun).
  exists m, (mkTxRing p (2 ^ kt)). unfold TxRing_write. rewrite Hn.
  cbn [frame_offset frame_len fo f_offset f_len SliceUmemFrame_Frame].
  rewrite !wrap_small by (unfold is_uint; lia). fold d. rewrite Hpush, bind_Done. split; [done|].
  cbn zeta. split_and!; [split; cbn; try done| |].
  - assert (frame_base u' = frame_base (t_umem s)) as -> by (unfold frame_base; by rewrite Es', Es).
    assert (frame_base u = frame_base (t_umem s)) as Eu by (unfold frame_base; by rewrite Es).
    rewrite Ea', Ec', Ec, <-Hp, Ef, Eu, fmap_app, <-!app_assoc. apply Permutation_app_head. cbn.
    rewrite !(app_assoc lent). symmetry. apply Permutation_middle.
  - rewrite Es', Es. apply Forall_app_2; [done|]. apply Forall_singleton. cbn. lia.
  - rewrite fmap_app, app_assoc, Eqt, Eb, Hs. cbn. by rewrite Ebytes.
  - unfold geometry. cbn. congruence.
  - unfold pending. cbn. exact Hun.
Qed.

Lemma submit_packet_ok cfg payload addr b s qt qc sent :
  config_ok cfg -> tx_ok kt kc lent s qt qc sent -> 0 < TxRing_available (t_ring s) -> 0 < available (t_umem s) ->
  sendable cfg (frame_size (t_umem s)) payload addr -> counters_ok b -> 0 < b_packets b ->
  exists b', submit_packet cfg payload addr b s = Done b' /\ counters_ok b' /\
    b_packets b' = b_packets b - 1 /\ geometry (b_state b') = geometry s /\
    (exists qt' qc', tx_ok kt kc lent (b_state b') qt' qc' (sent ++ packet_frames cfg payload addr)) /\
    (packet_frames cfg payload addr <> [] -> chunks_full b -> pending s = pending (b_state b) -> chunks_full b').
Proof.
  intros (Hsm & Hsi & Hsp) Ho Ha Hu (Hip & Hport & Hres & Hlen) [Cp Cc Cpos] Hpos.
  unfold submit_packet. destruct (reserve_ok s _ _ _ Ho Hu) as (o & u & -> & Hrs). rewrite !bind_Done.
  cbn [unwrap]. rewrite bind_Done. cbn beta iota zeta. unfold packet_frames, BATCH_SIZE in *.
  destruct (sa_ip addr) as [ip|]; [|done]. rewrite bind_Done.
  destruct (resolve_mac cfg addr) as [[mac|]| | |]; try done; rewrite bind_Done.
  - change PACKET_HEADER_SIZE with 42. pose proof (len_nonneg payload).
    assert (endpoints_ok (packet_endpoints cfg mac ip (sa_port addr))) as He by done.
    pose proof (ok_umem _ _ _ _ _ _ _ Ho) as ([? ?] & _).
    rewrite add_u_Done, bind_Done by lia. cbn [with_umem t_umem].
    change (set_len (mkFrame o 0) (42 + len payload)) with (mkFrame o (42 + len payload)).
    destruct (assemble_ok s _ _ _ o u _ payload Ho Hrs He Hlen) as (u' & -> & Has). rewrite bind_Done.
    cbn [with_umem t_umem t_ring t_env].
    destruct (submit_ok s _ _ _ o u u' _ payload Ho Ha Hrs He Hlen Has) as (m & ring & -> & Ho' & Hg & Hp).
    rewrite bind_Done. cbn [unwrap_ok]. rewrite bind_Done, !sub_u_Done, !bind_Done by lia.
    set (s' := with_tx _ m ring) in *.
    change (with_tx (with_umem (with_umem s u) u') m ring) with s'.
    destruct (Z.eqb_spec (b_chunk b - 1) 0).
    + destruct (ring_commit_ok s' _ _ _ Ho') as [Ho2 Hp2].
      destruct (kick_ok _ _ _ _ Ho2) as (q3 & c3 & Ho3 & U3 & _ & P3 & _).
      eexists. split; [done|]. unfold BATCH_SIZE. split_and!; cbn; try done.
      * split; unfold BATCH_SIZE; cbn; lia.
      * rewrite (geometry_umem _ _ U3). exact Hg.
      * eauto.
      * intros _ _ _. split; unfold BATCH_SIZE; cbn; lia.
    + eexists. split; [done|]. split_and!; cbn; try done.
      * split; unfold BATCH_SIZE; cbn; lia.
      * eauto.
      * intros _ [F1 F2 F3] Eq. unfold BATCH_SIZE in F3. split; unfold BATCH_SIZE; cbn; lia.
  - rewrite sub_u_Done, bind_Done by lia.
    destruct (give_back_ok s _ _ _ o u Ho Hrs) as (u' & Hrel & [Ho' Hg' Hp']).
    cbn [frame_offset f_offset SliceUmemFrame_Frame with_umem t_umem] in *. rewrite Hrel, bind_Done.
    eexists. split; [done|]. rewrite app_nil_r. split_and!; cbn; try done.
    split; unfold BATCH_SIZE; cbn; lia.
Qed.

(** The state between two packets of a batch, with [n] packets to go. *)
Definition batch_ok (g : Z * Z) (n : Z) (sent : list (list Z)) (b : batch K) : Prop :=
  counters_ok b /\ b_packets b = n /\ geometry (b_state b) = g /\
  exists qt qc, tx_ok kt kc lent (b_state b) qt qc sent.

Lemma send_packet_safe fuel cfg payload addr b n g sent :
  config_ok cfg -> batch_ok g (1 + n) sent b -> 0 <= n -> sendable cfg g.1 payload addr ->
  safely (send_packet fuel cfg payload addr b) (batch_ok g n (sent ++ packet_frames cfg payload addr)).
Proof.
  intros Hcfg (Hct & Hp & <- & qt & qc & Ho) Hn Hs. unfold send_packet.
  eapply safely_bind; [by apply (wait_for_space_safe fuel _ _ _ _ Ho)|].
  intros s ([(q1 & c1 & O1) G1 P1] & Ha & Hu).
  destruct (submit_packet_ok cfg payload addr b s q1 c1 sent) as (b' & -> & Hct' & Hp' & Hg' & Ho' & _);
    try done; [by injection G1 as -> _|lia|].
  apply safely_Done. split_and!; [done|lia|congruence|done].
Qed.

Lemma send_item_safe fuel cfg it b n g sent :
  config_ok cfg -> batch_ok g (len it.1 + n) sent b -> 0 <= n -> item_sendable cfg g.1 it ->
  safely (send_item fuel cfg it b) (batch_ok g n (sent ++ item_frames cfg it)).
Proof.
  intros Hcfg Hb Hn Hs. destruct it as [addrs payload]. unfold send_item, item_frames, item_sendable in *. cbn in *.
  eapply (safely_mono _ (fun b' => exists done', addrs = done' ++ [] /\
      batch_ok g (len (@nil SocketAddr) + n) (sent ++ concat (packet_frames cfg payload <$> done')) b')).
  - apply (safely_for_each (fun rest b => exists done', addrs = done' ++ rest /\
      batch_ok g (len rest + n) (sent ++ concat (packet_frames cfg payload <$> done')) b)).
    + intros a rest b0 (done' & -> & Hb0). apply Forall_app in Hs as [_ [Ha _]%Forall_cons].
      rewrite len_cons, <-Z.add_assoc in Hb0. pose proof (len_nonneg rest).
      eapply safely_mono; [eapply (send_packet_safe fuel cfg payload a b0); [done|exact Hb0|lia|done]|].
      intros b' Hb'. exists (done' ++ [a]). rewrite <-app_assoc. split; [done|].
      rewrite fmap_app, concat_app. cbn. by rewrite app_nil_r, app_assoc.
    + exists []. cbn. by rewrite app_nil_r.
  - intros b' (done' & E & Hb'). rewrite app_nil_r in E. by subst done'.
Qed.

Lemma send_batch_safe fuel cfg items s g sent :
  config_ok cfg -> (exists qt qc, tx_ok kt kc lent s qt qc sent) -> geometry s = g ->
  Forall (item_sendable cfg g.1) items -> packet_count items < 2 ^ 64 ->
  safely (send_batch fuel cfg items s (packet_count items))
    (batch_ok g 0 (sent ++ items_frames cfg items)).
Proof.
  intros Hcfg Ho Hg Hs Hn. unfold send_batch, items_frames. pose proof (packet_count_nonneg items).
  eapply (safely_mono _ (fun b' => exists done', items = done' ++ [] /\
      batch_ok g (packet_count []) (sent ++ concat (item_frames cfg <$> done')) b')).
  - apply (safely_for_each (fun rest b => exists done', items = done' ++ rest /\
      batch_ok g (packet_count rest) (sent ++ concat (item_frames cfg <$> done')) b)).
    + intros it rest b0 (done' & E & Hb0). rewrite E in Hs. apply Forall_app in Hs as [_ [Ha _]%Forall_cons].
      pose proof (packet_count_nonneg rest). rewrite packet_count_cons in Hb0.
      eapply safely_mono; [eapply (send_item_safe fuel cfg it b0); [done|exact Hb0|lia|done]|].
      intros b' Hb'. exists (done' ++ [it]). rewrite <-app_assoc. split; [done|].
      rewrite fmap_app, concat_app. cbn. by rewrite app_nil_r, app_assoc.
    + exists []. cbn. rewrite app_nil_r. split; [done|]. split_and!; try done.
      split; unfold BATCH_SIZE; cbn; lia.
  - intros b' (done' & E & Hb'). rewrite app_nil_r in E. by subst done'.
Qed.

(** The main loop between two answers of the channel: [items] are all items
    received so far, those not yet batched out counted by [l_packets]. *)
Record loop_ok (cfg : tx_config) (g : Z * Z) (sent : list (list Z)) (items : list (list SocketAddr * list Z))
  (l : loop_state K) : Prop := mkLoopOk {
  lo_state : exists qt qc, tx_ok kt kc lent (l_state l) qt qc (sent ++ items_frames cfg (l_dropped l));
  lo_geometry : geometry (l_state l) = g;
  lo_items : l_dropped l ++ l_items l = items;
  lo_packets : l_packets l = packet_count (l_items l);
  lo_sendable : Forall (item_sendable cfg g.1) (l_items l);
  lo_bound : l_packets l < 2 ^ 64;
}.

Lemma loop_start_ok cfg s :
  tx_ok kt kc lent s [] [] [] -> loop_ok cfg (geometry s) [] [] (mkLoopState s [] 0 0 []).
Proof. intros Ho. split; cbn; try done. eauto. Qed.

Lemma flush_safe fuel cfg g sent items l :
  config_ok cfg -> loop_ok cfg g sent items l ->
  safely (flush fuel cfg l) (fun l' => loop_ok cfg g sent items l' /\ l_packets l' = 0).
Proof.
  intros Hcfg [Ho Hg Hi Hp Hs Hb]. unfold flush. rewrite Hp.
  eapply safely_bind; [apply (send_batch_safe fuel cfg (l_items l) (l_state l) g _ Hcfg Ho Hg Hs); lia|].
  intros b (Hct & Hb0 & Hg' & Ho'). rewrite Hb0. unfold debug_assert. rewrite andb_false_r, bind_Done.
  apply safely_Done. split; [|done]. split; cbn; try done.
  - by rewrite items_frames_app, app_assoc.
  - by rewrite app_nil_r.
Qed.

Lemma loop_step_safe fuel cfg g sent items ev l :
  config_ok cfg -> loop_ok cfg g sent items l -> l_packets l < BATCH_SIZE -> event_ok cfg g.1 ev ->
  safely (loop_step fuel cfg ev l) (fun c => match c with
    | Continue l' => loop_ok cfg g sent (items ++ received [ev]) l' /\ l_packets l' < BATCH_SIZE
    | Break l' => l' = l /\ ev = Disconnected /\ l_packets l = 0
    end).
Proof.
  intros Hcfg Hl Hb Hev. pose proof Hl as [Ho Hg Hi Hp Hs Hb64]. unfold BATCH_SIZE in *.
  assert (forall l', loop_ok cfg g sent (items ++ received [ev]) l' ->
    safely (l'' ← flush fuel cfg l'; Done (Continue l'')) (fun c => match c with
      | Continue l' => loop_ok cfg g sent (items ++ received [ev]) l' /\ l_packets l' < 64
      | Break l' => l' = l /\ ev = Disconnected /\ l_packets l = 0
      end)) as Hflush.
  { intros l' Hl'. eapply safely_bind; [by eapply flush_safe|]. intros l'' [? E].
    apply safely_Done. split; [done|lia]. }
  destruct ev as [addrs payload| |]; cbn [loop_step]; cbn [received omap list_omap] in *; rewrite ?app_nil_r in *.
  - destruct Hev as [Hev Hlen]. pose proof (len_nonneg addrs). pose proof (packet_count_nonneg (l_items l)).
    rewrite add_u_Done, bind_Done by lia. set (l' := mkLoopState _ _ _ _ _).
    assert (loop_ok cfg g sent (items ++ [(addrs, payload)]) l') as Hl'.
    { split; cbn; try done.
      - unfold vec_push. by rewrite app_assoc, Hi.
      - unfold vec_push. rewrite packet_count_app, packet_count_cons, Hp.
        change (packet_count []) with 0. cbn. lia.
      - by apply Forall_app_2, Forall_singleton.
      - lia. }
    destruct (Z.ltb_spec (l_packets l + len addrs) BATCH_SIZE); [|by apply Hflush].
    apply safely_Done. split; [done|]. unfold BATCH_SIZE in *. cbn. lia.
  - apply Hflush. destruct (_ <? _); [by destruct Hl|].
    destruct Ho as (qt & qc & Ho). destruct (ring_commit_ok _ _ _ _ Ho) as [O1 _].
    destruct (kick_ok _ _ _ _ O1) as (q2 & c2 & O2 & U2 & _). split; cbn; try done; [by eauto|].
    rewrite (geometry_umem _ _ U2). done.
  - destruct (Z.eqb_spec (l_packets l) 0); [by apply safely_Done|by apply Hflush].
Qed.

Lemma receive_loop_safe fuel cfg g sent events items l :
  config_ok cfg -> loop_ok cfg g sent items l -> l_packets l < BATCH_SIZE ->
  Forall (event_ok cfg g.1) events ->
  safely (receive_loop fuel cfg events l) (fun l' => exists pre post, events = pre ++ Disconnected :: post /\
    loop_ok cfg g sent (items ++ received pre) l' /\ l_packets l' = 0).
Proof.
  intros Hcfg. revert items l. induction events as [|ev events IH]; intros items l Hl Hb Hev; [by left|].
  apply Forall_cons in Hev as [Hev Hevs].
  eapply safely_bind; [by eapply loop_step_safe|]. intros [l'|l'] Hc.
  - destruct Hc as [Hl' Hb']. eapply safely_mono; [by apply (IH _ _ Hl')|].
    intros l'' (pre & post & -> & Hl'' & Hz). exists (ev :: pre), post. split; [done|].
    by rewrite received_cons, app_assoc.
  - destruct Hc as (-> & -> & Hz). apply safely_Done. exists [], events. by rewrite app_nil_r.
Qed.

Lemma drain_step_ok s qt qc sent :
  tx_ok kt kc lent s qt qc sent -> exists s', drain_step s = Done s' /\ tx_same kt kc lent s s' sent.
Proof.
  intros Ho. unfold drain_step. cbn zeta.
  destruct (completion_sync_ok s _ _ _ true Ho) as (q1 & c1 & O1 & U1 & R1 & P1 & _).
  destruct (release_completed_ok _ _ _ _ O1) as (s2 & c2 & -> & O2 & R2 & E2 & G2 & _). rewrite bind_Done.
  destruct (ring_sync_ok _ _ _ _ O2) as (q3 & c3 & O3 & U3 & _ & P3).
  destruct (kick_ok _ _ _ _ O3) as (q4 & c4 & O4 & U4 & _ & P4 & _).
  eexists. split; [done|]. pose proof (pending_env _ _ R2 E2).
  pose proof (geometry_umem _ _ U1). pose proof (geometry_umem _ _ U3). pose proof (geometry_umem _ _ U4).
  split; [eauto|congruence..].
Qed.

Lemma drain_safe fuel cap s qt qc sent :
  tx_ok kt kc lent s qt qc sent ->
  safely (drain fuel cap s) (fun s' => tx_same kt kc lent s s' sent /\ cap <= available (t_umem s')).
Proof.
  intros Ho. unfold drain, while. apply (safely_loop (fun s' => tx_same kt kc lent s s' sent)).
  - intros s0 Hs0. unfold drain_cond. destruct (_ || _) eqn:E.
    + destruct Hs0 as [(q & c & O) G P]. destruct (drain_step_ok s0 _ _ _ O) as (s1 & -> & Hs1).
      rewrite bind_Done. apply safely_Done. by eapply tx_same_trans; [split; [|exact G|exact P]; eauto|].
    + apply safely_Done. split; [done|]. apply orb_false_elim in E as [?%Z.ltb_ge _]. done.
  - split; [eauto|done..].
Qed.

(** With nothing in flight everything sent is on the wire. *)
Lemma drained_wire s qt qc sent :
  tx_ok kt kc lent s qt qc sent -> in_flight lent s <= 0 -> e_wire (t_env s) = sent.
Proof.
  intros Ho Hf. destruct (tx_ok_count _ _ _ _ Ho) as [E _].
  pose proof (len_nonneg qt). pose proof (len_nonneg qc). pose proof (len_nonneg (e_held (t_env s))).
  rewrite <-(ok_sent _ _ _ _ _ _ _ Ho). assert (qt = []) as -> by (apply length_zero_iff_nil; unfold len in *; lia).
  cbn. by rewrite app_nil_r.
Qed.
End tx_facts.
