(* ===== verification/TxProgress.v ===== *)
(** * The transmit loop: progress

    With a responsive kernel, which may need to be kicked, and large enough
    rings the waits and the drain end; with uncommitted descriptors they do
    not. *)

From S2P Require Import Prelude Words Net Packet Umem Ring Netlink Route Assemble Kernel TxLoop TxInv.

(** ** Progress with a responsive kernel *)

Section tx_live.
Context `{BuildProfile} {K : Type} `{XskKernelOk K} `{!XskResponsive K}.
Context (kt kc : Z) (lent : list Z).
Hypothesis Hkt : 0 <= kt <= 31.
Hypothesis Hkc : 0 <= kc <= 31.
Implicit Types (s : tx_state K).

(** *** When the kernel has done its work *)

(** With room in the completion ring for all frames on their way, an idle kernel
    has nothing left to do. *)
Lemma idle_settled s qt qc sent :
  tx_ok kt kc lent s qt qc sent -> room_needed lent s <= 2 ^ kc -> kernel_idle (t_env s) -> settled (t_env s).
Proof.
  intros Ho Hroom (I1 & I2 & I3). pose proof Ho as [_ _ _ [Ht Hq] _ _ _].
  destruct (tx_ok_count kt kc lent _ _ _ _ Ho) as [Ef _].
  destruct (rp_sync_room kc Hkc _ _ _ _ Hq) as (Hr1 & Hr2 & _). fold (reads s) in Hr1, Hr2.
  pose proof (ring_holds_bounds kt Hkt _ _ _ _ Ht) as (_ & _ & Hu & _). fold (pending s) in Hu.
  pose proof (len_nonneg (e_held (t_env s))). unfold room_needed in Hroom.
  destruct I3 as [[Hh Hx]|Hfull].
  { unfold settled, ring_drained. split_and!; (done || congruence). }
  assert (len qt = 0 /\ len (e_held (t_env s)) = 0) as [Hqt Hhe] by lia. split_and!; [| |done].
  - apply length_zero_iff_nil. unfold len in Hhe. lia.
  - apply (ring_drained_intro kt Hkt qt _ (tx_producer (t_ring s))); [exact Ht| |congruence]. fold (pending s). lia.
Qed.

(** Then only uncommitted descriptors are left in the TX ring, and every other
    frame on its way is in the completion ring and can be read. *)
Lemma settled_counts s qt qc sent :
  tx_ok kt kc lent s qt qc sent -> settled (t_env s) ->
  len qt = pending s /\ len qc = in_flight lent s - pending s /\
  unpublished (e_cq (t_env s)) (e_cqp (t_env s)) = 0.
Proof.
  intros Ho (S1 & S2 & S3). pose proof Ho as [_ _ _ [Ht _] _ _ _].
  destruct (tx_ok_count kt kc lent _ _ _ _ Ho) as [Ef _]. rewrite S1, len_nil in Ef.
  destruct (rp_sync_available kt Hkt _ _ _ _ Ht) as (_ & _ & Hav). destruct (Hav S2) as [_ Hlen].
  fold (pending s) in Hlen. split_and!; [lia|lia|].
  unfold unpublished. rewrite S3. unfold wrapping_sub, wrap. by rewrite Z.sub_diag.
Qed.

Lemma kernel_runs_settled s qt qc sent :
  tx_ok kt kc lent s qt qc sent -> settled (t_env s) -> settled (t_env (kernel_runs s)).
Proof.
  intros Ho Hs. destruct (kernel_runs_env kt kc lent s _ _ _ Ho) as (k & e & -> & Hst & _).
  pose proof Ho as [_ _ _ Hr _ _ _]. exact (settled_steps kt kc Hkt Hkc _ _ _ _ _ _ _ Hst Hr Hs).
Qed.

Definition patience s : nat := kernel_patience (t_kernel s).

(** Settled, or within [n] looks of asking for a wake-up. *)
Definition calm (n : nat) s : Prop := settled (t_env s) \/ (patience s <= n)%nat.

Lemma calm_always s : calm kernel_delay s.
Proof. right. apply patience_bound. Qed.

Lemma kernel_runs_works s qt qc sent n :
  tx_ok kt kc lent s qt qc sent -> room_needed lent s <= 2 ^ kc -> calm n s ->
  settled (t_env (kernel_runs s)) \/ (patience (kernel_runs s) <= n)%nat /\
    (TxRing_needs_wakeup (e_tx (t_env (kernel_runs s))) = false -> (patience (kernel_runs s) < n)%nat).
Proof.
  intros Ho Hroom [Hs|Hp]; [left; by eapply kernel_runs_settled|].
  destruct (kernel_runs_ok kt kc lent Hkt Hkc s _ _ _ Ho) as (q1 & c1 & O1 & U1 & _ & _ & _ & D1).
  assert (room_needed lent (kernel_runs s) <= 2 ^ kc) as Hroom1 by (unfold room_needed, in_flight in *; rewrite U1, D1; lia).
  destruct (kernel_runs_env kt kc lent s _ _ _ Ho) as (k & e & Es & _ & Et). pose proof Ho as [_ _ _ [Ht Hq] _ _ _].
  pose proof (kernel_works kt kc (t_kernel s) (buffer (t_umem s)) (t_env s) _ _ _ _ Hkt Hkc Ht Hq) as Hw.
  rewrite Et in Hw. rewrite Es in *. unfold patience in *. cbn [with_env t_env t_kernel] in *. destruct Hw as [Hi|[Hle Hlt]].
  - left. exact (idle_settled _ _ _ _ O1 Hroom1 Hi).
  - right. split; [lia|]. intros Hf. specialize (Hlt Hf). lia.
Qed.

(** *** One look at each ring *)

Lemma completion_sync_room s qt qc sent :
  tx_ok kt kc lent s qt qc sent -> reads (completion_sync s true) = 0 /\
    in_flight lent (completion_sync s true) = in_flight lent s.
Proof.
  intros Ho. destruct (completion_sync_ok kt kc lent Hkt Hkc s _ _ _ true Ho) as (_ & _ & _ & Eu & _).
  split; [|unfold in_flight; by rewrite Eu]. unfold completion_sync, TxCompletionRing_sync, reads, uncommitted_reads.
  cbn. unfold wrapping_sub, wrap. by rewrite Z.sub_diag.
Qed.

(** The program's own counters do not matter to the kernel's work. *)
Lemma completion_sync_calm s qt qc sent n :
  tx_ok kt kc lent s qt qc sent -> room_needed lent s <= 2 ^ kc -> calm n s -> calm n (completion_sync s true).
Proof.
  intros Ho Hroom Hc. destruct (kernel_runs_works s _ _ _ n Ho Hroom Hc) as [Hs|[Hp _]]; [left|by right].
  exact Hs.
Qed.

Lemma ring_sync_calm s qt qc sent n :
  tx_ok kt kc lent s qt qc sent -> room_needed lent s <= 2 ^ kc -> calm n s -> calm n (ring_sync s false).
Proof.
  intros Ho Hroom Hc. destruct (kernel_runs_works s _ _ _ n Ho Hroom Hc) as [Hs|[Hp _]]; [left|by right].
  exact Hs.
Qed.

Lemma completion_sync_settled s qt qc sent :
  tx_ok kt kc lent s qt qc sent -> settled (t_env s) ->
  settled (t_env (completion_sync s true)) /\
  rc_available (cr_consumer (t_completion (completion_sync s true))) = in_flight lent s - pending s.
Proof.
  intros Ho Hs. pose proof (kernel_runs_settled s _ _ _ Ho Hs) as Hs1. split; [exact Hs1|].
  destruct (kernel_runs_ok kt kc lent Hkt Hkc s _ _ _ Ho) as (q1 & c1 & O1 & U1 & _ & _ & P1 & _).
  destruct (settled_counts _ _ _ _ O1 Hs1) as (_ & L2 & Hu). pose proof O1 as [_ _ _ [_ Hq] _ _ _].
  pose proof (rc_sync_available kc Hkc _ _ _ _ true Hq) as Hav. rewrite Hu in Hav.
  unfold in_flight in *. rewrite U1, P1 in L2.
  unfold completion_sync, TxCompletionRing_sync. cbn in *. lia.
Qed.

Lemma ring_sync_settled s qt qc sent :
  tx_ok kt kc lent s qt qc sent -> settled (t_env s) ->
  settled (t_env (ring_sync s false)) /\ TxRing_available (t_ring (ring_sync s false)) = 2 ^ kt - pending s.
Proof.
  intros Ho Hs. pose proof (kernel_runs_settled s _ _ _ Ho Hs) as Hs1. split; [exact Hs1|].
  destruct (kernel_runs_ok kt kc lent Hkt Hkc s _ _ _ Ho) as (q1 & c1 & O1 & _ & _ & _ & P1 & _).
  pose proof O1 as [_ _ _ [Ht _] _ _ _]. destruct (rp_sync_available kt Hkt _ _ _ _ Ht) as (_ & _ & Hav).
  destruct (Hav (proj1 (proj2 Hs1))) as [Hav' _]. fold (pending (kernel_runs s)) in Hav'. rewrite P1 in Hav'.
  exact Hav'.
Qed.

(** Reading completions turns frames on their way into free frames. *)
Lemma release_completed_live s qt qc sent :
  tx_ok kt kc lent s qt qc sent ->
  exists s', release_completed s = Done s' /\ t_ring s' = t_ring s /\ pending s' = pending s /\
    in_flight lent s' = in_flight lent s - rc_available (cr_consumer (t_completion s)) /\
    room_needed lent s' = room_needed lent s /\ geometry s' = geometry s /\
    t_env s' = t_env s /\ t_kernel s' = t_kernel s /\
    exists qt' qc', tx_ok kt kc lent s' qt' qc' sent.
Proof.
  intros Ho. destruct (release_completed_ok kt kc lent Hkt Hkc s _ _ _ Ho) as (s' & qc' & Hr & Ho' & Er & Ee & Eg & El & Erd & Ek).
  destruct (tx_ok_count kt kc lent _ _ _ _ Ho) as [Ef _]. destruct (tx_ok_count kt kc lent _ _ _ _ Ho') as [Ef' _].
  rewrite Ee in Ef'. exists s'. split_and!; try done; [by apply pending_env|lia|unfold room_needed; lia|eauto].
Qed.

Lemma in_flight_geometry s s' : t_umem s' = t_umem s -> in_flight lent s' = in_flight lent s.
Proof. unfold in_flight. by intros ->. Qed.

(** *** A kick *)

(** A kick settles the kernel, or the kernel was clearly at work: the only other
    way is that it did not ask for the wake-up, with less patience left. *)
Lemma kick_settles s qt qc sent n :
  tx_ok kt kc lent s qt qc sent -> room_needed lent s <= 2 ^ kc -> calm n s ->
  settled (t_env (kick s)) \/ (patience (kick s) < n)%nat.
Proof.
  intros Ho Hroom Hc. destruct (kernel_runs_ok kt kc lent Hkt Hkc s _ _ _ Ho) as (q1 & c1 & O1 & U1 & _ & _ & _ & D1).
  assert (room_needed lent (kernel_runs s) <= 2 ^ kc) as Hroom1 by (unfold room_needed, in_flight in *; rewrite U1, D1; lia).
  pose proof (kernel_runs_works s _ _ _ n Ho Hroom Hc) as Hw. unfold kick. set (s1 := kernel_runs s) in *.
  destruct (TxRing_needs_wakeup (e_tx (t_env s1))); cbn [negb].
  2: { destruct Hw as [?|[_ Hp]]; [by left|right; by apply Hp]. }
  left. destruct (kernel_woken_ok kt kc lent Hkt Hkc s1 _ _ _ O1) as (q2 & c2 & O2 & U2 & _ & _ & _ & D2).
  assert (room_needed lent (kernel_woken s1) <= 2 ^ kc) as Hroom2 by (unfold room_needed, in_flight in *; rewrite U2, D2; lia).
  assert (settled (t_env (kernel_woken s1))) as Hs2; [|by destruct (TxRing_wake _)].
  apply (idle_settled _ _ _ _ O2 Hroom2). destruct (kernel_woken_env kt kc lent s1 _ _ _ O1) as (k & e & -> & _ & Et).
  pose proof O1 as [_ _ _ [Ht Hq] _ _ _].
  pose proof (kernel_wakes kt kc (t_kernel s1) (buffer (t_umem s1)) (t_env s1) _ _ _ _ Hkt Hkc Ht Hq) as Hi.
  rewrite Et in Hi. exact Hi.
Qed.

(** *** Waiting for space *)

(** What waiting needs: the completion ring can take every frame, and fewer
    descriptors are uncommitted than there are slots and frames. *)
Definition can_progress s : Prop :=
  capacity (t_umem s) - len lent <= 2 ^ kc /\ pending s < 2 ^ kt /\ pending s < capacity (t_umem s) - len lent.

Lemma can_progress_same s s' sent : tx_same kt kc lent s s' sent -> can_progress s -> can_progress s'.
Proof. intros [_ G P]. unfold can_progress. rewrite P. unfold geometry in G. by injection G as _ ->. Qed.

(** A round of waiting keeps the state and leaves room in the completion ring;
    with room it brings the kernel closer to being settled, and once the kernel
    is settled it succeeds. *)
Lemma wait_step_live s qt qc sent n :
  tx_ok kt kc lent s qt qc sent -> can_progress s ->
  exists c, wait_step s = Done c /\
    match c with
    | Continue s' => tx_same kt kc lent s s' sent /\ room_needed lent s' <= 2 ^ kc /\ ~ settled (t_env s) /\
        (room_needed lent s <= 2 ^ kc -> calm n s -> settled (t_env s') \/ (patience s' < n)%nat)
    | Break _ => True
    end.
Proof.
  intros Ho (Hcap & Hp1 & Hp2). unfold wait_step. cbn zeta.
  destruct (completion_sync_ok kt kc lent Hkt Hkc s _ _ _ true Ho) as (q1 & c1 & O1 & U1 & R1 & P1 & _).
  destruct (completion_sync_room s _ _ _ Ho) as [D1 F1].
  destruct (tx_ok_count kt kc lent _ _ _ _ Ho) as [_ Hav].
  assert (room_needed lent (completion_sync s true) <= 2 ^ kc) as Hroom1
    by (unfold room_needed; rewrite D1, F1; unfold in_flight; lia).
  pose proof (completion_sync_settled s _ _ _ Ho) as Hset1. pose proof (completion_sync_calm s _ _ _ n Ho) as Hcalm1.
  set (s1 := completion_sync s true) in *.
  destruct (ring_sync_ok kt kc lent Hkt Hkc s1 _ _ _ O1) as (q2 & c2 & O2 & U2 & C2 & P2).
  pose proof (ring_sync_settled s1 _ _ _ O1) as Hset2. pose proof (ring_sync_calm s1 _ _ _ n O1 Hroom1) as Hcalm2.
  assert (room_needed lent (ring_sync s1 false) = room_needed lent s1) as Hroom2.
  { destruct (kernel_runs_ok kt kc lent Hkt Hkc s1 _ _ _ O1) as (_ & _ & _ & _ & _ & _ & _ & D2).
    unfold room_needed. rewrite (in_flight_geometry _ _ U2). f_equal. exact D2. }
  set (s2 := ring_sync s1 false) in *.
  destruct (release_completed_live s2 _ _ _ O2) as (s3 & -> & R3 & P3 & F3 & M3 & G3 & E3 & K3 & q3 & c3 & O3).
  rewrite bind_Done. pose proof (geometry_umem _ _ U1) as G1. pose proof (geometry_umem _ _ U2) as G2.
  pose proof (in_flight_geometry _ _ U2) as F2.
  assert (capacity (t_umem s3) = capacity (t_umem s)) as Ecap by (unfold geometry in *; congruence).
  destruct ((0 <? TxRing_available (t_ring s3)) && (0 <? available (t_umem s3))) eqn:Eok; [by eexists|].
  destruct (kick_ok kt kc lent Hkt Hkc s3 _ _ _ O3) as (q4 & c4 & O4 & U4 & _ & P4 & D4).
  assert (room_needed lent s3 <= 2 ^ kc) as Hroom3 by lia.
  eexists. split; [done|]. split_and!.
  - split; [eauto| |congruence]. rewrite (geometry_umem _ _ U4). congruence.
  - unfold room_needed in *. rewrite D4, (in_flight_geometry _ _ U4). lia.
  - intros Hs. destruct (Hset1 Hs) as [Hs1 Hrc]. destruct (Hset2 Hs1) as [_ Ha].
    rewrite C2, Hrc, F2, F1 in F3. unfold in_flight in F3 at 1. rewrite Ecap in F3. unfold in_flight in F3.
    rewrite R3, Ha, P1, (proj2 (Z.ltb_lt _ _)) in Eok by lia. cbn [andb] in Eok. apply Z.ltb_ge in Eok. lia.
  - intros Hroom Hc. apply (kick_settles s3 _ _ _ n O3 Hroom3). unfold calm, patience. rewrite E3, K3.
    apply Hcalm2, Hcalm1; done.
Qed.

Lemma wait_rounds_live n s qt qc sent :
  tx_ok kt kc lent s qt qc sent -> can_progress s -> room_needed lent s <= 2 ^ kc -> calm n s ->
  exists s', loop (n + 2) wait_step s = Done s'.
Proof.
  revert s qt qc. induction n as [|n IH]; intros s qt qc Ho Hc Hroom Hcalm.
  - destruct (wait_step_live s _ _ _ 0 Ho Hc) as ([s1|s1] & E1 & C1); cbn [Nat.add loop]; rewrite E1, bind_Done; [|by eexists].
    destruct C1 as (Hs1 & Hroom1 & _ & Hset). destruct (Hset Hroom Hcalm) as [Hset1|]; [|lia].
    pose proof Hs1 as [(q & c & O1) _ _].
    destruct (wait_step_live s1 _ _ _ 0 O1 (can_progress_same _ _ _ Hs1 Hc)) as ([s2|s2] & E2 & C2);
      rewrite E2, bind_Done; [|by eexists]. by destruct C2 as (_ & _ & [] & _).
  - destruct (wait_step_live s _ _ _ (S n) Ho Hc) as ([s1|s1] & E1 & C1);
      change (S n + 2)%nat with (S (n + 2)); cbn [loop]; rewrite E1, bind_Done; [|by eexists].
    destruct C1 as (Hs1 & Hroom1 & _ & Hset). pose proof Hs1 as [(q & c & O1) _ _].
    apply (IH s1 q c); [done|by eapply can_progress_same|done|].
    destruct (Hset Hroom Hcalm) as [?|?]; [by left|right; lia].
Qed.

(** The fuel that waiting needs, and more than the fuel that is needed. *)
Definition wait_fuel : nat := kernel_delay + 3.

Lemma wait_for_space_live s qt qc sent :
  tx_ok kt kc lent s qt qc sent -> can_progress s -> exists s', wait_for_space wait_fuel s = Done s'.
Proof.
  intros Ho Hc. unfold wait_for_space, wait_fuel. destruct (_ || _); [|by eexists].
  replace (kernel_delay + 3)%nat with (S (kernel_delay + 2)) by lia.
  destruct (wait_step_live s _ _ _ 0 Ho Hc) as ([s1|s1] & E1 & C1); cbn [loop]; rewrite E1, bind_Done; [|by eexists].
  destruct C1 as (Hs1 & Hroom & _). pose proof Hs1 as [(q & c & O1) _ _].
  apply (wait_rounds_live kernel_delay s1 q c sent); [done|by eapply can_progress_same|done|apply calm_always].
Qed.

Lemma wait_for_space_fuel fuel s s' :
  (wait_fuel <= fuel)%nat -> wait_for_space wait_fuel s = Done s' -> wait_for_space fuel s = Done s'.
Proof.
  intros Hf. unfold wait_for_space. destruct (_ || _); [|done]. intros Hl. by eapply loop_fuel_mono.
Qed.

(** The rings are large enough for a batch. *)
Definition big_enough (g : Z * Z) : Prop :=
  BATCH_SIZE <= 2 ^ kt /\ BATCH_SIZE <= g.2 - len lent /\ g.2 - len lent <= 2 ^ kc.

Lemma send_packet_live fuel cfg payload addr b n g sent :
  (wait_fuel <= fuel)%nat -> big_enough g -> config_ok cfg -> batch_ok kt kc lent g (1 + n) sent b -> 0 <= n ->
  chunks_full b -> sendable cfg g.1 payload addr -> packet_frames cfg payload addr <> [] ->
  exists b', send_packet fuel cfg payload addr b = Done b' /\
    batch_ok kt kc lent g n (sent ++ packet_frames cfg payload addr) b' /\ chunks_full b'.
Proof.
  intros Hf (B1 & B2 & B3) Hcfg (Hct & Hp & <- & qt & qc & Ho) Hn Hcf Hs Hd. unfold send_packet.
  assert (can_progress (b_state b)) as Hprog.
  { destruct Hcf as [F1 F2 F3], Hct as [_ _ Cpos]. unfold can_progress, BATCH_SIZE in *. cbn in *. lia. }
  destruct (wait_for_space_live _ _ _ _ Ho Hprog) as (s & Ew%(wait_for_space_fuel fuel)); [|done].
  destruct (wait_for_space_safe kt kc lent Hkt Hkc fuel _ _ _ _ Ho) as [E|(s' & Ew' & Hs' & Ha & Hu)]; [congruence|].
  rewrite Ew in Ew'. injection Ew' as <-. destruct Hs' as [(q1 & c1 & O1) G1 P1]. rewrite Ew, bind_Done.
  destruct (submit_packet_ok kt kc lent Hkt Hkc cfg payload addr b s q1 c1 sent)
    as (b' & Hb' & Hct' & Hp' & Hg' & Ho' & Hcf'); try done; [by injection G1 as -> _|lia|].
  exists b'. split_and!; [done|split_and!; [done|lia|congruence|done]|]. by apply Hcf'.
Qed.

(** A packet that is not dropped. *)
Definition delivered (cfg : tx_config) (it : list SocketAddr * list Z) : Prop :=
  Forall (fun addr => packet_frames cfg it.2 addr <> []) it.1.

(** Sending a list of parts one after the other, each of which goes through. *)
Lemma for_each_live {A} (body : A -> batch K -> outcome (batch K)) (count : A -> Z) (frames : A -> list (list Z))
  (good : A -> Prop) (g : Z * Z) n l sent b :
  (forall a b n sent, good a -> 0 <= n -> batch_ok kt kc lent g (count a + n) sent b -> chunks_full b ->
     exists b', body a b = Done b' /\ batch_ok kt kc lent g n (sent ++ frames a) b' /\ chunks_full b') ->
  (forall a, 0 <= count a) -> Forall good l -> 0 <= n ->
  batch_ok kt kc lent g (foldr (fun a m => count a + m) n l) sent b -> chunks_full b ->
  exists b', for_each l body b = Done b' /\
    batch_ok kt kc lent g n (sent ++ concat (frames <$> l)) b' /\ chunks_full b'.
Proof.
  intros Hbody Hcount Hl Hn. revert sent b. induction Hl as [|a l Ha Hl IH]; intros sent b Hb Hcf.
  - exists b. by rewrite app_nil_r.
  - assert (0 <= foldr (fun a m => count a + m) n l) as Hge.
    { clear -Hcount Hn. induction l as [|x l IH]; cbn; [done|]. pose proof (Hcount x). lia. }
    destruct (Hbody a b _ sent Ha Hge Hb Hcf) as (b1 & E1 & Hb1 & Hcf1). cbn [for_each]. rewrite E1, bind_Done.
    destruct (IH _ _ Hb1 Hcf1) as (b2 & E2 & Hb2 & Hcf2). exists b2. split; [done|]. cbn. by rewrite app_assoc.
Qed.

Lemma send_item_live fuel cfg it b n g sent :
  (wait_fuel <= fuel)%nat -> big_enough g -> config_ok cfg -> batch_ok kt kc lent g (len it.1 + n) sent b -> 0 <= n ->
  chunks_full b -> item_sendable cfg g.1 it -> delivered cfg it ->
  exists b', send_item fuel cfg it b = Done b' /\
    batch_ok kt kc lent g n (sent ++ item_frames cfg it) b' /\ chunks_full b'.
Proof.
  intros Hf Hbig Hcfg Hb Hn Hcf Hs Hd. unfold send_item, item_frames.
  apply (for_each_live _ (fun _ => 1) _ (fun addr => sendable cfg g.1 it.2 addr /\ packet_frames cfg it.2 addr <> [])).
  - intros a b0 m st [? ?] Hm Hb0 Hcf0. by apply send_packet_live.
  - done.
  - by apply Forall_and.
  - done.
  - replace (foldr _ n it.1) with (len it.1 + n); [done|].
    clear. induction it.1 as [|a l IH]; cbn; [done|]. rewrite len_cons. lia.
  - done.
Qed.

Lemma send_batch_live fuel cfg items s g sent :
  (wait_fuel <= fuel)%nat -> big_enough g -> config_ok cfg ->
  (exists qt qc, tx_ok kt kc lent s qt qc sent) -> geometry s = g -> pending s = 0 ->
  Forall (item_sendable cfg g.1) items -> Forall (delivered cfg) items -> packet_count items < 2 ^ 64 ->
  exists b, send_batch fuel cfg items s (packet_count items) = Done b /\
    batch_ok kt kc lent g 0 (sent ++ items_frames cfg items) b /\ pending (b_state b) = 0.
Proof.
  intros Hf Hbig Hcfg Ho Hg Hpe Hs Hd Hn. unfold send_batch. pose proof (packet_count_nonneg items).
  destruct (for_each_live (send_item fuel cfg) (fun it => len it.1) (item_frames cfg)
    (fun it => item_sendable cfg g.1 it /\ delivered cfg it) g 0 items sent
    (mkBatch s (packet_count items) (Z.min BATCH_SIZE (packet_count items)))) as (b & E & Hb & Hcf).
  - intros a b0 m st [? ?] Hm Hb0 Hcf0. by apply send_item_live.
  - intros a. apply len_nonneg.
  - by apply Forall_and.
  - done.
  - split_and!; try done. split; unfold BATCH_SIZE; cbn; lia.
  - split; unfold BATCH_SIZE; cbn; lia.
  - exists b. split; [done|]. split; [done|]. destruct Hcf as [F1 F2 F3], Hb as ([_ C _] & Hz & _). apply F2. lia.
Qed.

Lemma flush_live fuel cfg g sent items l :
  (wait_fuel <= fuel)%nat -> big_enough g -> config_ok cfg -> loop_ok kt kc lent cfg g sent items l ->
  Forall (delivered cfg) (l_items l) -> pending (l_state l) = 0 ->
  exists l', flush fuel cfg l = Done l' /\ pending (l_state l') = 0 /\ l_items l' = [].
Proof.
  intros Hf Hbig Hcfg [Ho Hg Hi Hp Hs Hb] Hd Hpe. unfold flush. rewrite Hp.
  destruct (send_batch_live fuel cfg (l_items l) (l_state l) g _ Hf Hbig Hcfg Ho Hg Hpe Hs Hd ltac:(lia))
    as (b & -> & (_ & Hz & _) & Hpb). rewrite bind_Done, Hz. unfold debug_assert. rewrite andb_false_r, bind_Done.
  by eexists.
Qed.

Definition event_delivered (cfg : tx_config) (ev : try_recv) : Prop :=
  match ev with Received addrs payload => delivered cfg (addrs, payload) | _ => True end.

(** The main loop with nothing uncommitted and only deliverable items batched. *)
Definition loop_live (cfg : tx_config) (l : loop_state K) : Prop :=
  pending (l_state l) = 0 /\ Forall (delivered cfg) (l_items l).

Lemma loop_step_live fuel cfg g sent items ev l :
  (wait_fuel <= fuel)%nat -> big_enough g -> config_ok cfg -> loop_ok kt kc lent cfg g sent items l ->
  l_packets l < BATCH_SIZE -> event_ok cfg g.1 ev -> event_delivered cfg ev -> loop_live cfg l ->
  exists c, loop_step fuel cfg ev l = Done c /\
    match c with
    | Continue l' => loop_live cfg l' /\ (ev = Disconnected -> l_packets l' = 0)
    | Break l' => loop_live cfg l'
    end.
Proof.
  intros Hf Hbig Hcfg Hl Hb Hev Hdel [Hpe Hd]. pose proof Hl as [Ho Hg Hi Hp Hs Hb64].
  assert (forall l' its, loop_ok kt kc lent cfg g sent its l' -> loop_live cfg l' ->
    exists c, (l'' ← flush fuel cfg l'; Done (Continue l'')) = Done (c : control (loop_state K) (loop_state K)) /\
    match c with
    | Continue l'' => loop_live cfg l'' /\ (ev = Disconnected -> l_packets l'' = 0)
    | Break l'' => loop_live cfg l''
    end) as Hflush.
  { intros l' its Hl' [Hpe' Hd'].
    destruct (flush_live fuel cfg g sent its l' Hf Hbig Hcfg Hl' Hd' Hpe') as (l'' & E & Hpe'' & Hi'').
    destruct (flush_safe kt kc lent Hkt Hkc fuel cfg g sent its l' Hcfg Hl') as [E2|(l2 & E2 & _ & Hz)]; [congruence|].
    rewrite E in E2. injection E2 as <-. rewrite E, bind_Done. eexists. split; [done|].
    split; [|done]. split; [done|]. by rewrite Hi''. }
  destruct ev as [addrs payload| |]; cbn [loop_step].
  - destruct Hev as [Hev Hlen]. pose proof (len_nonneg addrs). pose proof (packet_count_nonneg (l_items l)).
    unfold BATCH_SIZE in *. rewrite add_u_Done, bind_Done by lia. set (l' := mkLoopState _ _ _ _ _).
    assert (loop_live cfg l') as Hlive by (split; [done|]; by apply Forall_app_2, Forall_singleton).
    destruct (_ <? _); [by eexists|]. apply (Hflush _ (items ++ [(addrs, payload)])); [|done]. split; cbn; try done.
    + unfold vec_push. by rewrite app_assoc, Hi.
    + unfold vec_push. rewrite packet_count_app, packet_count_cons, Hp. change (packet_count []) with 0. cbn. lia.
    + by apply Forall_app_2, Forall_singleton.
    + lia.
  - destruct (_ <? _); [by apply (Hflush _ items); destruct Hl|].
    destruct Ho as (qt & qc & Ho). destruct (ring_commit_ok kt kc lent Hkt _ _ _ _ Ho) as [O1 P1].
    destruct (kick_ok kt kc lent Hkt Hkc _ _ _ _ O1) as (q2 & c2 & O2 & U2 & _ & P2 & _).
    apply (Hflush _ items); [split; cbn; try done; [by eauto|]|].
    + rewrite (geometry_umem _ _ U2). done.
    + split; cbn; [congruence|done].
  - destruct (_ =? _); [by eexists|by apply (Hflush _ items)].
Qed.

Lemma receive_loop_live fuel cfg g sent events items l :
  (wait_fuel <= fuel)%nat -> big_enough g -> config_ok cfg -> loop_ok kt kc lent cfg g sent items l ->
  l_packets l < BATCH_SIZE -> Forall (event_ok cfg g.1) events -> Forall (event_delivered cfg) events ->
  loop_live cfg l ->
  exists l', receive_loop fuel cfg (events ++ [Disconnected; Disconnected]) l = Done l' /\ pending (l_state l') = 0.
Proof.
  intros Hf Hbig Hcfg. revert items l.
  assert (forall ev events items l, loop_ok kt kc lent cfg g sent items l -> l_packets l < BATCH_SIZE ->
    event_ok cfg g.1 ev -> event_delivered cfg ev -> loop_live cfg l ->
    (forall its l', loop_ok kt kc lent cfg g sent its l' -> l_packets l' < BATCH_SIZE -> loop_live cfg l' ->
       (ev = Disconnected -> l_packets l' = 0) ->
       exists l'', receive_loop fuel cfg events l' = Done l'' /\ pending (l_state l'') = 0) ->
    exists l'', receive_loop fuel cfg (ev :: events) l = Done l'' /\ pending (l_state l'') = 0) as Hone.
  { intros ev evs items l Hl Hb Hev Hdel Hlive Hnext.
    destruct (loop_step_live fuel cfg g sent items ev l Hf Hbig Hcfg Hl Hb Hev Hdel Hlive) as (c & E & Hc).
    destruct (loop_step_safe kt kc lent Hkt Hkc fuel cfg g sent items ev l Hcfg Hl Hb Hev) as [E2|(c2 & E2 & Hc2)]; [congruence|].
    rewrite E in E2. injection E2 as <-. cbn [receive_loop]. rewrite E, bind_Done. destruct c as [l'|l'].
    - destruct Hc, Hc2. eauto.
    - exists l'. split; [done|]. by destruct Hc. }
  induction events as [|ev events IH]; intros items l Hl Hb Hev Hdel Hlive.
  - apply (Hone _ _ items); try done. intros its l' Hl' Hb' Hlive' Hz. specialize (Hz eq_refl).
    cbn [receive_loop loop_step]. rewrite Hz. cbn [Z.eqb]. exists l'. by destruct Hlive'.
  - apply Forall_cons in Hev as [? ?]. apply Forall_cons in Hdel as [? ?]. cbn [app].
    apply (Hone _ _ items); try done. intros its l' Hl' Hb' Hlive' _. by apply (IH its).
Qed.

(** *** Draining with nothing uncommitted *)

Lemma drain_step_live s qt qc sent n :
  tx_ok kt kc lent s qt qc sent -> pending s = 0 -> capacity (t_umem s) - len lent <= 2 ^ kc ->
  exists s', drain_step s = Done s' /\ tx_same kt kc lent s s' sent /\ room_needed lent s' <= 2 ^ kc /\
    (settled (t_env s) -> TxRing_available (t_ring s') = 2 ^ kt /\ in_flight lent s' = 0) /\
    (room_needed lent s <= 2 ^ kc -> calm n s -> settled (t_env s') \/ (patience s' < n)%nat).
Proof.
  intros Ho Hpe Hcap. pose proof (drain_step_ok kt kc lent Hkt Hkc s _ _ _ Ho) as (s' & E & Hsame).
  exists s'. split; [done|]. split; [done|]. revert E. unfold drain_step. cbn zeta.
  destruct (completion_sync_ok kt kc lent Hkt Hkc s _ _ _ true Ho) as (q1 & c1 & O1 & U1 & R1 & P1 & _).
  destruct (completion_sync_room s _ _ _ Ho) as [D1 F1].
  destruct (tx_ok_count kt kc lent _ _ _ _ Ho) as [_ Hav].
  assert (room_needed lent (completion_sync s true) <= 2 ^ kc) as Hroom1
    by (unfold room_needed; rewrite D1, F1; unfold in_flight; lia).
  pose proof (completion_sync_settled s _ _ _ Ho) as Hset1. pose proof (completion_sync_calm s _ _ _ n Ho) as Hcalm1.
  set (s1 := completion_sync s true) in *.
  destruct (release_completed_live s1 _ _ _ O1) as (s2 & -> & R2 & P2 & F2 & M2 & G2 & E2 & K2 & q2 & c2 & O2).
  rewrite bind_Done. assert (room_needed lent s2 <= 2 ^ kc) as Hroom2 by lia.
  pose proof (ring_sync_settled s2 _ _ _ O2) as Hset3. pose proof (ring_sync_calm s2 _ _ _ n O2 Hroom2) as Hcalm3.
  destruct (ring_sync_ok kt kc lent Hkt Hkc s2 _ _ _ O2) as (q3 & c3 & O3 & U3 & _ & P3).
  assert (room_needed lent (ring_sync s2 false) = room_needed lent s2) as Hroom3.
  { destruct (kernel_runs_ok kt kc lent Hkt Hkc s2 _ _ _ O2) as (_ & _ & _ & _ & _ & _ & _ & D3).
    unfold room_needed. rewrite (in_flight_geometry _ _ U3). f_equal. exact D3. }
  destruct (kick_ok kt kc lent Hkt Hkc _ _ _ _ O3) as (q4 & c4 & O4 & U4 & R4 & P4 & D4).
  pose proof (kick_settles (ring_sync s2 false) _ _ _ n O3 ltac:(lia)) as Hkick.
  intros [= <-].
  assert (in_flight lent (kick (ring_sync s2 false)) = in_flight lent s2) as F4
    by (by rewrite (in_flight_geometry _ _ U4), (in_flight_geometry _ _ U3)).
  split_and!; [unfold room_needed in *; rewrite D4, (in_flight_geometry _ _ U4); lia| |].
  - intros Hs. destruct (Hset1 Hs) as [Hs1 Hrc]. rewrite <-E2 in Hs1. destruct (Hset3 Hs1) as [_ Ha]. rewrite R4, Ha. lia.
  - intros Hroom Hc. apply Hkick, Hcalm3. unfold calm, patience. rewrite E2, K2. by apply Hcalm1.
Qed.

Lemma drain_done s qt qc sent cap :
  tx_ok kt kc lent s qt qc sent -> cap = capacity (t_umem s) - len lent ->
  TxRing_available (t_ring s) = 2 ^ kt -> in_flight lent s = 0 -> drain_cond cap s = false.
Proof.
  intros Ho -> Ha Hf. unfold drain_cond, TxRing_capacity. rewrite Ha, (ok_tx_size _ _ _ _ _ _ _ Ho), Z.ltb_irrefl, orb_false_r.
  apply Z.ltb_ge. unfold in_flight in Hf. lia.
Qed.

Lemma drain_settled_live s qt qc sent cap :
  tx_ok kt kc lent s qt qc sent -> pending s = 0 -> cap <= 2 ^ kc -> cap = capacity (t_umem s) - len lent ->
  settled (t_env s) -> exists s', drain 2 cap s = Done s'.
Proof.
  intros Ho Hpe Hcap Ecap Hs. unfold drain, while. cbn [loop]. destruct (drain_cond _ s); [|rewrite bind_Done; by eexists].
  destruct (drain_step_live s _ _ _ 0 Ho Hpe ltac:(lia)) as (s1 & -> & [(q1 & c1 & O1) G1 P1] & _ & Hd & _).
  rewrite !bind_Done. destruct (Hd Hs) as [Ha Hf].
  rewrite (drain_done s1 _ _ _ cap O1); [rewrite bind_Done; by eexists| |done|done]. unfold geometry in G1. injection G1 as _ ->. lia.
Qed.

Lemma drain_rounds_live n s qt qc sent cap :
  tx_ok kt kc lent s qt qc sent -> pending s = 0 -> cap <= 2 ^ kc -> cap = capacity (t_umem s) - len lent ->
  room_needed lent s <= 2 ^ kc -> calm n s -> exists s', drain (n + 3) cap s = Done s'.
Proof.
  revert s qt qc. induction n as [|n IH]; intros s qt qc Ho Hpe Hcap Ecap Hroom Hcalm.
  - unfold drain, while. change (0 + 3)%nat with (S 2). cbn [loop]. destruct (drain_cond _ s); [|rewrite bind_Done; by eexists].
    destruct (drain_step_live s _ _ _ 0 Ho Hpe ltac:(lia)) as (s1 & -> & [(q1 & c1 & O1) G1 P1] & _ & _ & Hs).
    rewrite !bind_Done. destruct (Hs Hroom Hcalm) as [Hs1|]; [|lia].
    apply (drain_settled_live s1 q1 c1 sent cap); try done; [congruence|]. unfold geometry in G1. injection G1 as _ ->. lia.
  - unfold drain, while. change (S n + 3)%nat with (S (n + 3)). cbn [loop]. destruct (drain_cond _ s); [|rewrite bind_Done; by eexists].
    destruct (drain_step_live s _ _ _ (S n) Ho Hpe ltac:(lia)) as (s1 & -> & [(q1 & c1 & O1) G1 P1] & Hroom1 & _ & Hs).
    rewrite !bind_Done. apply (IH s1 q1 c1); try done; [congruence| |destruct (Hs Hroom Hcalm); [by left|right; lia]].
    unfold geometry in G1. injection G1 as _ ->. lia.
Qed.

Definition drain_fuel : nat := kernel_delay + 4.

Lemma drain_live fuel s qt qc sent :
  (drain_fuel <= fuel)%nat -> tx_ok kt kc lent s qt qc sent -> pending s = 0 -> capacity (t_umem s) - len lent <= 2 ^ kc ->
  exists s', drain fuel (capacity (t_umem s) - len lent) s = Done s'.
Proof.
  intros Hf Ho Hpe Hcap. enough (exists s', drain drain_fuel (capacity (t_umem s) - len lent) s = Done s') as (s' & E)
    by (exists s'; by eapply loop_fuel_mono).
  unfold drain, while, drain_fuel. replace (kernel_delay + 4)%nat with (S (kernel_delay + 3)) by lia. cbn [loop].
  destruct (drain_cond _ s); [|rewrite bind_Done; by eexists].
  destruct (drain_step_live s _ _ _ 0 Ho Hpe Hcap) as (s1 & -> & [(q1 & c1 & O1) G1 P1] & M1 & _).
  rewrite !bind_Done. apply (drain_rounds_live kernel_delay s1 q1 c1 sent); try done; [congruence| |apply calm_always].
  unfold geometry in G1. injection G1 as _ ->. lia.
Qed.
End tx_live.

(** ** Descriptors that are not committed *)

Section tx_stuck.
Context `{BuildProfile} {K : Type} `{XskKernelOk K}.
Context (kt kc : Z) (lent : list Z).
Hypothesis Hkt : 0 <= kt <= 31.
Hypothesis Hkc : 0 <= kc <= 31.
Implicit Types (s : tx_state K).

Lemma available_uncommitted s qt qc sent :
  tx_ok kt kc lent s qt qc sent -> TxRing_available (t_ring s) <= 2 ^ kt - pending s.
Proof.
  intros [_ _ _ [Ht _] _ _ _]. pose proof (ring_holds_bounds kt Hkt _ _ _ _ Ht) as (Ha & _ & Hu & _).
  unfold pending, TxRing_available. lia.
Qed.

Lemma drain_stuck s qt qc sent fuel cap :
  tx_ok kt kc lent s qt qc sent -> 0 < pending s -> drain fuel cap s = OutOfFuel.
Proof.
  intros Ho Hp. apply (loop_never (fun s' => tx_same kt kc lent s s' sent)); [|split; [eauto|done..]].
  intros s0 Hs0. pose proof Hs0 as [(q & c & O) G P]. pose proof (available_uncommitted _ _ _ _ O) as Ha.
  assert (drain_cond cap s0 = true) as ->.
  { unfold drain_cond, TxRing_capacity. rewrite (ok_tx_size _ _ _ _ _ _ _ O).
    rewrite (proj2 (Z.ltb_lt _ (2 ^ kt))) by lia. apply orb_true_r. }
  destruct (drain_step_ok kt kc lent Hkt Hkc s0 _ _ _ O) as (s1 & -> & Hs1). rewrite bind_Done.
  eexists. split; [done|]. by eapply tx_same_trans.
Qed.

Lemma wait_stuck s qt qc sent fuel :
  tx_ok kt kc lent s qt qc sent -> pending s = 2 ^ kt -> wait_for_space fuel s = OutOfFuel.
Proof.
  intros Ho Hp. unfold wait_for_space.
  assert (forall s', tx_same kt kc lent s s' sent -> TxRing_available (t_ring s') = 0) as Hz.
  { intros s' [(q & c & O) _ P]. pose proof (available_uncommitted _ _ _ _ O).
    pose proof O as [_ _ _ [Ht _] _ _ _]. pose proof (ring_holds_bounds kt Hkt _ _ _ _ Ht) as ([? _] & _).
    unfold TxRing_available in *. lia. }
  assert (tx_same kt kc lent s s sent) as Hrefl by (split; [eauto|done..]).
  rewrite (Hz s Hrefl). cbn [Z.eqb orb]. apply (loop_never (fun s' => tx_same kt kc lent s s' sent)); [|done].
  intros s0 Hs0. pose proof Hs0 as [(q & c & O) G P].
  destruct (wait_step_ok kt kc lent Hkt Hkc s0 _ _ _ O) as ([s1|s1] & -> & Hs1).
  - exists s1. split; [done|]. by eapply tx_same_trans.
  - destruct Hs1 as (Hs1 & Ha & _). rewrite (Hz s1) in Ha; [lia|]. by eapply tx_same_trans.
Qed.
End tx_stuck.

