(* ===== verification/TxProps.v ===== *)
(** * The transmit loop: properties

    End-to-end statements about [tx_loop] on a fresh socket: what goes out on
    the wire, when it returns, and when it cannot. *)

From S2P Require Import Prelude Words Net Packet Umem Ring Netlink Route Assemble Kernel TxLoop TxInv TxProgress.

(** ** A fresh socket *)

(** The state [tx_loop] starts from: both rings empty, their counters anywhere. *)
Definition tx_start {K} (kt kc : Z) (u : SliceUmem) (tx : ring_mem XdpDesc) (cq : ring_mem Z) (k : K) : tx_state K :=
  mkTxState u (mkTxRing (RingProducer_new tx (2 ^ kt)) (2 ^ kt))
    (mkTxCompletionRing (RingConsumer_new cq) (2 ^ kc))
    (mkTxEnv tx (RingConsumer_new tx) cq (RingProducer_new cq (2 ^ kc)) [] []) k.

(** Fresh rings over a UMEM whose frames are free or lent to the receive side. *)
Definition fresh_socket (kt kc : Z) (u : SliceUmem) (lent : list Z) (tx : ring_mem XdpDesc) (cq : ring_mem Z) : Prop :=
  fresh_ring kt tx /\ fresh_ring kc cq /\ slice_umem_wf u /\
  (frame_base u <$> available_frames u) ++ lent ≡ₚ frame_base u <$> seqZ 0 (capacity u).

Lemma tx_start_ok {K} kt kc u lent tx cq (k : K) :
  fresh_socket kt kc u lent tx cq ->
  tx_ok kt kc lent (tx_start kt kc u tx cq k) [] [] [] /\ pending (tx_start kt kc u tx cq k) = 0 /\
  available u = capacity u - len lent.
Proof.
  intros ((Hkt & Ht1 & Ht2 & Ht3) & (Hkc & Hc1 & Hc2 & Hc3) & Hwf & Hp).
  pose proof (spsc_init_inv kt Hkt tx Ht1 Ht2 Ht3) as It. pose proof (spsc_init_inv kc Hkc cq Hc1 Hc2 Hc3) as Ic.
  assert (tx_ok kt kc lent (tx_start kt kc u tx cq k) [] [] []) as Ho.
  { split; cbn; try done; [split; by eexists _, _|]. by rewrite !app_nil_r. }
  split_and!; [done| |].
  - unfold pending, unpublished. cbn. unfold wrapping_sub, wrap. by rewrite Z.sub_diag.
  - destruct (tx_ok_count kt kc lent _ _ _ _ Ho) as [E _]. unfold in_flight in E.
    change (capacity u - len lent - available u = 0) in E. lia.
Qed.

(** Items without an address produce nothing. *)
Lemma packet_count_0 cfg items :
  packet_count items = 0 -> Forall (fun it => it.1 = []) items /\ items_frames cfg items = [].
Proof.
  induction items as [|it items IH]; [done|]. rewrite packet_count_cons. intros Hz.
  pose proof (len_nonneg it.1). pose proof (packet_count_nonneg items).
  destruct IH as [IH1 IH2]; [lia|].
  assert (it.1 = []) as E by (apply length_zero_iff_nil; unfold len in *; lia).
  split; [by constructor|]. change (it :: items) with ([it] ++ items). rewrite items_frames_app, IH2.
  unfold items_frames, item_frames. cbn. by rewrite E.
Qed.


Section tx_properties.
Context `{BuildProfile} {K : Type} `{XskKernelOk K}.
Variables (kt kc : Z) (u : SliceUmem) (lent : list Z) (tx : ring_mem XdpDesc) (cq : ring_mem Z) (k : K).
Variable cfg : tx_config.

Lemma tx_loop_safe fuel events :
  fresh_socket kt kc u lent tx cq -> config_ok cfg -> Forall (event_ok cfg (frame_size u)) events ->
  safely (tx_loop fuel cfg events (tx_start kt kc u tx cq k)) (fun l =>
    exists pre post, events = pre ++ Disconnected :: post /\
      l_dropped l ++ l_items l = received pre /\ Forall (fun it => it.1 = []) (l_items l) /\
      e_wire (t_env (l_state l)) = items_frames cfg (received pre) /\
      available (t_umem (l_state l)) = available u).
Proof.
  intros Hfresh Hcfg Hev. destruct (tx_start_ok kt kc u lent tx cq k Hfresh) as (Ho & Hpe & Hav).
  pose proof Hfresh as ((Hkt & _) & (Hkc & _) & _). unfold tx_loop. cbn [t_umem tx_start].
  set (s := tx_start kt kc u tx cq k) in *.
  eapply safely_bind; [apply (receive_loop_safe kt kc lent Hkt Hkc fuel cfg (geometry s) [] events [] _ Hcfg)|].
  { by apply loop_start_ok. } { done. } { exact Hev. }
  intros l (pre & post & -> & [Hlo Hg Hi Hp Hs Hb] & Hz). rewrite Hz. cbn [Z.eqb assert]. rewrite bind_Done.
  destruct Hlo as (qt & qc & Hlo).
  eapply safely_bind; [by apply (drain_safe kt kc lent Hkt Hkc fuel _ _ _ _ _ Hlo)|].
  intros s' [[(q & c & O) G P] Hcap]. apply safely_Done. exists pre, post. cbn [l_dropped l_state l_items app] in *.
  rewrite Hz in Hp. destruct (packet_count_0 cfg _ (eq_sym Hp)) as [Hempty Hnone].
  assert (in_flight lent s' <= 0) as Hfl.
  { unfold in_flight. assert (capacity (t_umem s') = capacity u) by (unfold geometry in *; cbn in *; congruence). lia. }
  split_and!; [done|done|done| |].
  - rewrite (drained_wire kt kc lent s' _ _ _ O Hfl), <-Hi. by rewrite items_frames_app, Hnone, app_nil_r.
  - destruct (tx_ok_count kt kc lent _ _ _ _ O) as [_ Hb2].
    assert (capacity (t_umem s') = capacity u) by (unfold geometry in *; cbn in *; congruence). lia.
Qed.


(** ** Properties *)

(** C3: for every kernel that follows the AF_XDP protocol, whatever it
    interleaves, and every sequence of channel answers with sendable packets,
    [tx_loop] never panics and never touches memory outside the rings and the
    UMEM; and when it returns, the frames that went out are exactly the frames
    of the received packets that have a route through the device, each once,
    byte for byte and in order, all UMEM frames are free again, and every item
    except trailing ones without an address was offered to the drop channel. In
    particular the [unwrap] on [reserve] and the [expect] on the ring write
    cannot fail, and the packet counter ends at zero. *)
Theorem tx_loop_transmits_exactly fuel events :
  fresh_socket kt kc u lent tx cq -> config_ok cfg -> Forall (event_ok cfg (frame_size u)) events ->
  safely (tx_loop fuel cfg events (tx_start kt kc u tx cq k)) (fun l =>
    exists pre post, events = pre ++ Disconnected :: post /\
      l_dropped l ++ l_items l = received pre /\ Forall (fun it => it.1 = []) (l_items l) /\
      e_wire (t_env (l_state l)) = items_frames cfg (received pre) /\
      available (t_umem (l_state l)) = available u).
Proof. apply tx_loop_safe. Qed.


(** C35: descriptors the loop has written and not committed are never sent, by
    any kernel, kicked or not. If some are left when the channel is closed (as
    after a batch whose last packet was dropped, since a dropped packet does
    not count towards the chunk), the final drain, which syncs the ring without
    committing it, goes on for ever, whatever the number of free frames it
    waits for and however long it runs: [tx_loop] does not return. *)
Theorem uncommitted_descriptors_block fuel events l :
  fresh_socket kt kc u lent tx cq -> config_ok cfg -> Forall (event_ok cfg (frame_size u)) events ->
  receive_loop fuel cfg events (mkLoopState (tx_start kt kc u tx cq k) [] 0 0 []) = Done l ->
  0 < pending (l_state l) ->
  (forall rounds cap, drain rounds cap (l_state l) = OutOfFuel) /\
  tx_loop fuel cfg events (tx_start kt kc u tx cq k) = OutOfFuel.
Proof.
  intros Hfresh Hcfg Hev El Hp. destruct (tx_start_ok kt kc u lent tx cq k Hfresh) as (Ho & _ & _).
  pose proof Hfresh as ((Hkt & _) & (Hkc & _) & _). set (s := tx_start kt kc u tx cq k) in *.
  destruct (receive_loop_safe kt kc lent Hkt Hkc fuel cfg (geometry s) [] events [] _ Hcfg (loop_start_ok kt kc lent cfg s Ho)
    ltac:(done) Hev) as [E|(l' & E & _ & _ & _ & [(qt & qc & O) _ _ _ _ _] & Hz)]; [congruence|].
  rewrite El in E. injection E as <-.
  assert (forall rounds cap, drain rounds cap (l_state l) = OutOfFuel) as Hd
    by (intros rounds cap; by apply (drain_stuck kt kc lent Hkt Hkc _ qt qc _ rounds cap O)).
  split; [done|]. unfold tx_loop. rewrite El, bind_Done, Hz. cbn [Z.eqb assert]. rewrite bind_Done. by rewrite Hd.
Qed.
End tx_properties.

(** ** A concrete socket *)

(** 64 frames of 64 bytes, rings of 64 descriptors, counters about to wrap. *)
Definition ex_umem : SliceUmem := mkSliceUmem (replicate 4096 0) 64 (seqZ 0 64) 64.
Definition ex_tx : ring_mem XdpDesc := mkRingMem (2 ^ 32 - 1) (2 ^ 32 - 1) 0 (replicate 64 (mkXdpDesc 0 0 0)).
Definition ex_cq : ring_mem Z := mkRingMem (2 ^ 32 - 2) (2 ^ 32 - 2) 0 (replicate 64 0).
Definition ex_config : tx_config :=
  mkTxConfig (Mac [2;0;0;0;0;1]) example_src 8001 (Some (Mac [2;0;0;0;0;2])) example_router 4.
Definition ex_addr (d p : Z) : SocketAddr := mkSocketAddr (V4 (Ipv4 10 1 2 d)) p.
Definition ex_events : list try_recv :=
  [Received [ex_addr 3 8002; ex_addr 4 8003] [1; 2; 3]; Empty; Received [ex_addr 5 8004] [9]].
Definition ex_start : tx_state skb_driver := tx_start 6 6 ex_umem ex_tx ex_cq mkSkbDriver.

Lemma ex_fresh : fresh_socket 6 6 ex_umem [] ex_tx ex_cq.
Proof.
  split; [by_decide|]. split; [by_decide|]. split; [by_decide|]. by rewrite app_nil_r.
Qed.

(** No configured MAC: the second destination is reached through the default
    gateway, whose MAC is not known, so that packet is dropped. *)
Definition drop_config : tx_config := mkTxConfig (Mac [2;0;0;0;0;1]) example_src 8001 None example_router 4.
Definition drop_events : list try_recv :=
  [Received [ex_addr 3 8002; mkSocketAddr (V4 (Ipv4 10 9 9 9)) 8003] [1; 2; 3]; Empty].

Definition drop_run (fuel : nat) : outcome (loop_state skb_driver) :=
  @receive_loop release_profile skb_driver _ fuel drop_config (drop_events ++ [Disconnected])
    (mkLoopState ex_start [] 0 0 []).

Lemma drop_run_pending fuel :
  match drop_run fuel with Done l => pending (l_state l) = 1 | _ => False end.
Proof. by vm_compute. Qed.

Lemma drop_events_ok : Forall (event_ok drop_config (frame_size ex_umem)) (drop_events ++ [Disconnected]).
Proof. by_decide. Qed.

Lemma drop_run_ok fuel :
  exists l qt qc sent, drop_run fuel = Done l /\ pending (l_state l) = 1 /\ l_packets l = 0 /\
    tx_ok 6 6 [] (l_state l) qt qc sent.
Proof.
  destruct (tx_start_ok 6 6 ex_umem [] ex_tx ex_cq mkSkbDriver ex_fresh) as (Ho & _ & _).
  pose proof (@receive_loop_safe release_profile skb_driver _ _ 6 6 [] ltac:(lia) ltac:(lia) fuel drop_config (geometry ex_start) []
    (drop_events ++ [Disconnected]) [] (mkLoopState ex_start [] 0 0 []) ltac:(by_decide)
    (@loop_start_ok skb_driver 6 6 [] drop_config _ Ho) ltac:(done) drop_events_ok) as Hsafe.
  fold (drop_run fuel) in Hsafe. pose proof (drop_run_pending fuel) as Hrun. revert Hsafe Hrun.
  generalize (drop_run fuel). intros r [->|(l & -> & pre & post & _ & [(qt & qc & Ho') _ _ _ _ _] & Hz)] Hrun; [destruct Hrun|].
  by eexists l, qt, qc, _.
Qed.

(** One dropped packet can keep the thread from ever ending. A batch of two
    packets, the second of them dropped for lack of a MAC address, leaves the
    first uncommitted, because a dropped packet does not count towards the
    chunk; when the channel is then closed, [tx_loop] never returns. *)
Theorem dropped_packet_hangs_shutdown fuel :
  @tx_loop release_profile skb_driver _ fuel drop_config (drop_events ++ [Disconnected]) ex_start = OutOfFuel.
Proof.
  destruct (drop_run_ok fuel) as (l & qt & qc & sent & E & Hp & Hz & Ho). unfold tx_loop, drop_run in *. rewrite E, bind_Done, Hz.
  cbn [Z.eqb assert]. rewrite bind_Done.
  rewrite (@drain_stuck release_profile skb_driver _ _ 6 6 [] ltac:(lia) ltac:(lia) _ qt qc sent); [done|done|lia].
Qed.

(** ** Witnesses *)

Lemma tx_loop_transmits_exactly_witness :
  safely (@tx_loop dev_profile _ _ 3 ex_config (ex_events ++ [Disconnected; Disconnected]) ex_start) (fun l =>
    exists pre post, ex_events ++ [Disconnected; Disconnected] = pre ++ Disconnected :: post /\
      l_dropped l ++ l_items l = received pre /\ Forall (fun it => it.1 = []) (l_items l) /\
      e_wire (t_env (l_state l)) = items_frames ex_config (received pre) /\
      available (t_umem (l_state l)) = available ex_umem).
Proof.
  refine (@tx_loop_transmits_exactly dev_profile skb_driver _ _ 6 6 ex_umem [] ex_tx ex_cq mkSkbDriver ex_config
    3 _ ex_fresh _ _); by_decide.
Defined.


(** The run with the dropped packet, on a driver that transmits when kicked. *)
Lemma uncommitted_descriptors_block_witness :
  exists l, drop_run 3 = Done l /\ (forall rounds cap, @drain skb_driver _ rounds cap (l_state l) = OutOfFuel) /\
    @tx_loop release_profile skb_driver _ 3 drop_config (drop_events ++ [Disconnected]) ex_start = OutOfFuel.
Proof.
  destruct (drop_run_ok 3) as (l & qt & qc & sent & E & Hp & _ & _). exists l. split; [exact E|].
  apply (@uncommitted_descriptors_block release_profile skb_driver _ _ 6 6 ex_umem [] ex_tx ex_cq mkSkbDriver drop_config
    3 (drop_events ++ [Disconnected]) l ex_fresh); [by_decide|exact drop_events_ok|exact E|lia].
Defined.
