(* ===== verification/KernelRx.v ===== *)
(** * The other end of the fill and RX rings

    The receive side of the kernel, a parameter like the transmit side in
    [Kernel]: it takes frames from the fill ring, writes a packet somewhere
    inside such a frame (in the aligned mode the crate uses, the address in the
    fill ring only selects the frame), and queues a descriptor for it in the RX
    ring. *)

From S2P Require Import Prelude Words Umem Ring Kernel.

(** Shared memory of both rings, the kernel's end of each, the frame addresses
    it has taken and not filled, and the packets it has delivered. *)
Record rx_env := mkRxEnv {
  e_fill : ring_mem Z;
  e_fillc : RingConsumer;
  e_rx : ring_mem XdpDesc;
  e_rxp : RingProducer;
  e_taken : list Z;
  e_arrived : list (list Z);
}.

(** The frame an address lies in. *)
Definition frame_of (fsize a : Z) : Z := a / fsize * fsize.

(** Writing [t] at [a]. *)
Definition splice (buf : list Z) (a : Z) (t : list Z) : list Z :=
  take (Z.to_nat a) buf ++ t ++ drop (Z.to_nat a + length t) buf.

(** One step over the UMEM bytes and the rings of [nf] and [nr] descriptors. *)
Inductive rx_kernel_step (fsize nf nr : Z) : list Z * rx_env -> list Z * rx_env -> Prop :=
  | rk_take buf fill fillc rx rxp taken arrived o fillc' :
      ring_pop fill fillc nf = Done (Some (o, fillc')) ->
      rx_kernel_step fsize nf nr (buf, mkRxEnv fill fillc rx rxp taken arrived)
        (buf, mkRxEnv fill fillc' rx rxp (taken ++ [o]) arrived)
  | rk_deliver buf fill fillc rx rxp h1 o h2 arrived d pkt opts rx' rxp' :
      0 <= d < fsize -> d + len pkt <= fsize -> bytes_ok pkt ->
      ring_push rx rxp nr (mkXdpDesc (frame_of fsize o + d) (len pkt) opts) = Done (Some (rx', rxp')) ->
      rx_kernel_step fsize nf nr (buf, mkRxEnv fill fillc rx rxp (h1 ++ o :: h2) arrived)
        (splice buf (frame_of fsize o + d) pkt, mkRxEnv fill fillc rx' rxp' (h1 ++ h2) (arrived ++ [pkt]))
  | rk_publish_fill buf fill fillc rx rxp taken arrived :
      rx_kernel_step fsize nf nr (buf, mkRxEnv fill fillc rx rxp taken arrived)
        (buf, mkRxEnv (rc_commit fill fillc) fillc rx rxp taken arrived)
  | rk_see_fill buf fill fillc rx rxp taken arrived :
      rx_kernel_step fsize nf nr (buf, mkRxEnv fill fillc rx rxp taken arrived)
        (buf, mkRxEnv fill (rc_sync fill fillc false).2 rx rxp taken arrived)
  | rk_publish_rx buf fill fillc rx rxp taken arrived :
      rx_kernel_step fsize nf nr (buf, mkRxEnv fill fillc rx rxp taken arrived)
        (buf, mkRxEnv fill fillc (rp_commit rx rxp) rxp taken arrived)
  | rk_see_rx buf fill fillc rx rxp taken arrived :
      rx_kernel_step fsize nf nr (buf, mkRxEnv fill fillc rx rxp taken arrived)
        (buf, mkRxEnv fill fillc rx (rp_sync rx rxp false).2 taken arrived).

(** A descriptor lies inside one frame. *)
Definition desc_in_frame (fsize : Z) (d : XdpDesc) : Prop :=
  0 <= xd_addr d /\ 0 <= xd_len d /\ xd_addr d + xd_len d <= frame_of fsize (xd_addr d) + fsize.

(** The frame of a descriptor. *)
Definition desc_frame (fsize : Z) (d : XdpDesc) : Z := frame_of fsize (xd_addr d).

Lemma splice_len buf a t : 0 <= a -> a + len t <= len buf -> len (splice buf a t) = len buf.
Proof. intros. unfold splice, len in *. f_equal. apply splice_length; lia. Qed.

Lemma frame_of_base fsize i d : 0 < fsize -> 0 <= d < fsize -> frame_of fsize (i * fsize + d) = i * fsize.
Proof. intros. unfold frame_of. rewrite Z.div_add_l, (Z.div_small d), Z.add_0_r by lia. done. Qed.

Lemma frame_of_range fsize a : 0 < fsize -> frame_of fsize a <= a < frame_of fsize a + fsize.
Proof.
  intros. unfold frame_of. pose proof (Z.div_mod a fsize). pose proof (Z.mod_pos_bound a fsize). lia.
Qed.

Lemma frame_of_idem fsize a d :
  0 < fsize -> 0 <= d < fsize -> frame_of fsize (frame_of fsize a + d) = frame_of fsize a.
Proof. intros. unfold frame_of at 2. by apply frame_of_base. Qed.

(** Frames are disjoint. *)
Lemma frame_of_disjoint fsize a b :
  0 < fsize -> frame_of fsize a <> frame_of fsize b ->
  frame_of fsize a + fsize <= frame_of fsize b \/ frame_of fsize b + fsize <= frame_of fsize a.
Proof.
  intros Hf Hne. unfold frame_of in *. assert (a / fsize <> b / fsize) by congruence.
  destruct (decide (a / fsize < b / fsize)); [left|right]; nia.
Qed.

(** Writing into one frame leaves the packets in the others as they were. *)
Lemma desc_bytes_splice fsize buf a t d :
  0 < fsize -> 0 <= a -> a + len t <= frame_of fsize a + fsize -> a + len t <= len buf ->
  desc_in_frame fsize d -> desc_frame fsize d <> frame_of fsize a ->
  desc_bytes (splice buf a t) d = desc_bytes buf d.
Proof.
  intros Hf Ha Ht Hb (Hd1 & Hd2 & Hd3) Hne. unfold desc_bytes, splice, len in *.
  destruct (frame_of_disjoint fsize (xd_addr d) a Hf Hne) as [Hdis|Hdis];
    pose proof (frame_of_range fsize a Hf); pose proof (frame_of_range fsize (xd_addr d) Hf);
    (apply splice_outside; lia).
Qed.

Lemma desc_bytes_written buf a t opts :
  0 <= a -> a + len t <= len buf -> desc_bytes (splice buf a t) (mkXdpDesc a (len t) opts) = t.
Proof.
  intros Ha Hb. unfold desc_bytes, splice, len in *. cbn. rewrite Nat2Z.id. apply splice_inside; [done|lia].
Qed.

(** ** What every kernel preserves *)

(** The frames on the receive side: in the fill ring, taken, and in the RX ring. *)
Definition rx_frames (fsize : Z) (e : rx_env) (qf : list Z) (qr : list XdpDesc) : list Z :=
  (frame_of fsize <$> qf) ++ (frame_of fsize <$> e_taken e) ++ (desc_frame fsize <$> qr).

(** Frames the kernel may write to. *)
Definition writable (fsize : Z) (e : rx_env) (qf : list Z) : list Z :=
  (frame_of fsize <$> qf) ++ (frame_of fsize <$> e_taken e).

(** Each frame is there once and inside the UMEM, descriptors stay inside their
    frame, and [e_arrived] is what was read, [seen], followed by the packets in
    the RX ring. *)
Record rx_wf (fsize : Z) (buf : list Z) (e : rx_env) (qf : list Z) (qr : list XdpDesc) (seen : list (list Z))
  : Prop := mkRxWf {
  rw_nodup : NoDup (rx_frames fsize e qf qr);
  rw_inside : Forall (fun f => 0 <= f /\ f + fsize <= len buf) (rx_frames fsize e qf qr);
  rw_descs : Forall (desc_in_frame fsize) qr;
  rw_arrived : e_arrived e = seen ++ (desc_bytes buf <$> qr);
}.

Record rx_moves (fsize : Z) (buf : list Z) (e : rx_env) (qf : list Z) (qr : list XdpDesc)
  (buf' : list Z) (e' : rx_env) (qf' : list Z) (qr' : list XdpDesc) : Prop := mkRxMoves {
  rm_frames : rx_frames fsize e' qf' qr' ≡ₚ rx_frames fsize e qf qr;
  rm_writable : forall f, f ∈ writable fsize e' qf' -> f ∈ writable fsize e qf;
  rm_len : len buf' = len buf;
  rm_outside : forall d, desc_in_frame fsize d -> desc_frame fsize d ∉ writable fsize e qf ->
                 desc_bytes buf' d = desc_bytes buf d;
  rm_fill_producer : rm_producer (e_fill e') = rm_producer (e_fill e);
  rm_rx_consumer : rm_consumer (e_rx e') = rm_consumer (e_rx e);
}.

Section rx_kernel_facts.
Context (fsize kf kr : Z).
Hypothesis Hfs : 0 < fsize.
Hypothesis Hkf : 0 <= kf <= 31.
Hypothesis Hkr : 0 <= kr <= 31.

Definition rx_rings_hold (p : RingProducer) (c : RingConsumer) (e : rx_env) (qf : list Z) (qr : list XdpDesc) : Prop :=
  ring_holds kf qf (mkSpsc (e_fill e) p (e_fillc e)) /\ ring_holds kr qr (mkSpsc (e_rx e) (e_rxp e) c).

Lemma rx_moves_refl buf e qf qr : rx_moves fsize buf e qf qr buf e qf qr.
Proof. done. Qed.

Lemma rx_moves_trans buf1 e1 qf1 qr1 buf2 e2 qf2 qr2 buf3 e3 qf3 qr3 :
  rx_moves fsize buf1 e1 qf1 qr1 buf2 e2 qf2 qr2 -> rx_moves fsize buf2 e2 qf2 qr2 buf3 e3 qf3 qr3 ->
  rx_moves fsize buf1 e1 qf1 qr1 buf3 e3 qf3 qr3.
Proof.
  intros [A1 B1 C1 D1 E1 F1] [A2 B2 C2 D2 E2 F2]. split; [by rewrite A2|auto|congruence| |congruence..].
  intros d Hd Hn. rewrite D2, D1; auto.
Qed.

(** Steps that change neither queues nor frames. *)
Lemma rx_wf_same buf e e' qf qr seen :
  e_taken e' = e_taken e -> e_arrived e' = e_arrived e ->
  rx_wf fsize buf e qf qr seen -> rx_wf fsize buf e' qf qr seen.
Proof.
  intros Et Ea [A B C D]. unfold rx_frames in *. split; unfold rx_frames; rewrite ?Et, ?Ea; done.
Qed.

(** Delivering a packet into a taken frame. *)
Lemma rx_deliver_wf buf fill fillc rx rxp h1 o h2 arrived d pkt opts rx' rxp' qf qr seen :
  0 <= d < fsize -> d + len pkt <= fsize ->
  rx_wf fsize buf (mkRxEnv fill fillc rx rxp (h1 ++ o :: h2) arrived) qf qr seen ->
  let a := frame_of fsize o + d in
  let x := mkXdpDesc a (len pkt) opts in
  let e := mkRxEnv fill fillc rx rxp (h1 ++ o :: h2) arrived in
  let e' := mkRxEnv fill fillc rx' rxp' (h1 ++ h2) (arrived ++ [pkt]) in
  let buf' := splice buf a pkt in
  rx_wf fsize buf' e' qf (qr ++ [x]) seen /\ len buf' = len buf /\
  rx_frames fsize e' qf (qr ++ [x]) ≡ₚ rx_frames fsize e qf qr /\
  (forall y, desc_in_frame fsize y -> desc_frame fsize y ∉ writable fsize e qf ->
     desc_bytes buf' y = desc_bytes buf y).
Proof.
  intros Hd1 Hd2 [Hnd Hin Hdesc Harr] a x e e' buf'. pose proof (len_nonneg pkt).
  assert (frame_of fsize a = frame_of fsize o) as Ea by (by apply frame_of_idem).
  assert (frame_of fsize o ∈ writable fsize e qf) as How
    by (unfold writable; cbn; rewrite elem_of_app, fmap_app, elem_of_app; right; right; by left).
  assert (0 <= frame_of fsize o /\ frame_of fsize o + fsize <= len buf) as [Ho1 Ho2].
  { apply (proj1 (Forall_forall _ _) Hin). unfold rx_frames, writable in *. rewrite app_assoc, elem_of_app. by left. }
  assert (rx_frames fsize e' qf (qr ++ [x]) ≡ₚ rx_frames fsize e qf qr) as Hp.
  { unfold rx_frames. cbn [e_taken e e']. rewrite !fmap_app. cbn [fmap list_fmap].
    change (desc_frame fsize x) with (frame_of fsize a). rewrite Ea.
    apply Permutation_app_head. rewrite <-!app_assoc. apply Permutation_app_head. cbn.
    rewrite app_assoc. symmetry. apply Permutation_cons_append. }
  assert (len buf' = len buf) as Hl by (apply splice_len; lia).
  assert (forall y, desc_in_frame fsize y -> desc_frame fsize y <> frame_of fsize o ->
    desc_bytes buf' y = desc_bytes buf y) as Hout.
  { intros y Hy Hne. apply (desc_bytes_splice fsize); try done; rewrite ?Ea; try done; lia. }
  split_and!; try done.
  - split.
    + by rewrite Hp.
    + rewrite Hp, Hl. done.
    + apply Forall_app_2; [done|]. apply Forall_singleton.
      change (0 <= a /\ 0 <= len pkt /\ a + len pkt <= frame_of fsize a + fsize). rewrite Ea. subst a. lia.
    + cbn in Harr. cbn [e_arrived e']. rewrite Harr, <-app_assoc, fmap_app. f_equal. cbn [fmap list_fmap].
      f_equal; [|unfold buf', x; by rewrite (desc_bytes_written buf a pkt opts) by lia].
      apply list_fmap_ext. intros i y Hy%list_elem_of_lookup_2. symmetry. apply Hout.
      * by apply (proj1 (Forall_forall _ _) Hdesc).
      * intros E. unfold rx_frames in Hnd. rewrite app_assoc in Hnd. apply NoDup_app in Hnd as (_ & Hnd & _).
        apply (Hnd (frame_of fsize o) How). rewrite <-E. apply list_elem_of_fmap. eauto.
  - intros y Hy Hn. apply Hout; [done|]. by intros E; rewrite E in Hn.
Qed.

Lemma rx_kernel_step_moves p c s s' qf qr seen :
  rx_rings_hold p c s.2 qf qr -> rx_wf fsize s.1 s.2 qf qr seen ->
  rx_kernel_step fsize (2 ^ kf) (2 ^ kr) s s' ->
  exists qf' qr', rx_rings_hold p c s'.2 qf' qr' /\ rx_wf fsize s'.1 s'.2 qf' qr' seen /\
    rx_moves fsize s.1 s.2 qf qr s'.1 s'.2 qf' qr'.
Proof.
  intros [Hf Hr] Hwf Hs.
  destruct Hs as [buf fill fillc rx rxp taken arrived o fillc' Hp
    |buf fill fillc rx rxp h1 o h2 arrived d pkt opts rx' rxp' Hd1 Hd2 Hpk Hp
    |buf fill fillc rx rxp taken arrived|buf fill fillc rx rxp taken arrived
    |buf fill fillc rx rxp taken arrived|buf fill fillc rx rxp taken arrived];
    unfold rx_rings_hold; cbn [fst snd e_fill e_fillc e_rx e_rxp e_taken e_arrived] in *.
  - destruct (ring_holds_step kf Hkf _ _ _ _ Hf (sp_read _ _ p _ _ _ Hp)) as (qf' & Hq & Hf').
    cbn in Hq. destruct qf as [|x qf]; [done|]. case_decide; [|done]. simplify_eq.
    exists qf', qr. set (e' := mkRxEnv fill fillc' rx rxp (taken ++ [o]) arrived).
    assert (rx_frames fsize e' qf' qr ≡ₚ rx_frames fsize (mkRxEnv fill fillc rx rxp taken arrived) (o :: qf') qr) as Hpm.
    { unfold rx_frames. cbn. rewrite fmap_app, <-!app_assoc. cbn. by rewrite !(app_assoc (frame_of fsize <$> qf')), Permutation_middle. }
    split; [done|]. split.
    + destruct Hwf as [A B C D]. split; [by rewrite Hpm|by rewrite Hpm|done|done].
    + split; try done. intros f. unfold writable. cbn. rewrite fmap_app. set_solver.
  - destruct (ring_holds_step kr Hkr _ _ _ _ Hr (sp_write _ _ _ c _ _ _ Hp)) as (qr' & Hq & Hr').
    cbn in Hq. case_decide; [|done]. simplify_eq.
    destruct (rx_deliver_wf _ _ _ _ _ _ _ _ _ _ _ opts rx' rxp' _ _ _ Hd1 Hd2 Hwf) as (Hwf' & Hl & Hpm & Hout).
    eexists qf, _. split; [done|]. split; [exact Hwf'|]. split; try done.
    + intros f. unfold writable. cbn. rewrite !fmap_app. set_solver.
    + cbn. unfold ring_push in Hp. destruct (rp_produce rxp) as [[i|] pp]; [|done]. unfold desc_write in Hp.
      case_decide; [|done]. by injection Hp as <- _.
  - exists qf, qr. split; [split; [|done]|split; [by eapply rx_wf_same; [..|exact Hwf]|done]].
    eapply (ring_holds_tau kf Hkf); [exact Hf|apply sp_commit_cons].
  - exists qf, qr. split; [split; [|done]|split; [by eapply rx_wf_same; [..|exact Hwf]|done]].
    eapply (ring_holds_tau kf Hkf); [exact Hf|]. by eapply (sp_sync_cons _ _ _ _ false).
  - exists qf, qr. split; [split; [done|]|split; [by eapply rx_wf_same; [..|exact Hwf]|done]].
    eapply (ring_holds_tau kr Hkr); [exact Hr|apply sp_commit_prod].
  - exists qf, qr. split; [split; [done|]|split; [by eapply rx_wf_same; [..|exact Hwf]|done]].
    eapply (ring_holds_tau kr Hkr); [exact Hr|]. by eapply (sp_sync_prod _ _ _ _ false).
Qed.

Lemma rx_kernel_steps_move p c s s' qf qr seen :
  rtc (rx_kernel_step fsize (2 ^ kf) (2 ^ kr)) s s' ->
  rx_rings_hold p c s.2 qf qr -> rx_wf fsize s.1 s.2 qf qr seen ->
  exists qf' qr', rx_rings_hold p c s'.2 qf' qr' /\ rx_wf fsize s'.1 s'.2 qf' qr' seen /\
    rx_moves fsize s.1 s.2 qf qr s'.1 s'.2 qf' qr'.
Proof.
  intros Hs. revert qf qr. induction Hs as [s|s1 s2 s3 H12 H23 IH]; intros qf qr Hr Hwf.
  - exists qf, qr. split_and!; [done..|apply rx_moves_refl].
  - destruct (rx_kernel_step_moves _ _ _ _ _ _ _ Hr Hwf H12) as (qf2 & qr2 & Hr2 & Hwf2 & Hm2).
    destruct (IH _ _ Hr2 Hwf2) as (qf3 & qr3 & Hr3 & Hwf3 & Hm3).
    exists qf3, qr3. split_and!; [done..|]. by eapply rx_moves_trans.
Qed.
End rx_kernel_facts.
