(* ===== verification/RxLoop.v ===== *)
(** * The receive loop ([rx_loop.rs])

    Everything [rx_loop] does once its socket is open: pre-fill the fill ring,
    then until the exit flag is set read every received descriptor, count it and
    free its frame, and hand all free frames back to the kernel. The refill loop
    is shared with [relay_loop.rs]. *)

From S2P Require Import Prelude Words Umem Ring Kernel KernelRx.

(** ** The receiving kernel *)

(** What the kernel does where the loop observes it: over the frame size, the
    sizes of the fill and RX rings, the UMEM bytes and the rings. *)
Class XskReceiver (K : Type) :=
  receiver_turn : Z -> Z -> Z -> K -> list Z * rx_env -> K * (list Z * rx_env).
Class XskReceiverOk (K : Type) `{XskReceiver K} : Prop :=
  receiver_follows : forall fsize nf nr k s, rtc (rx_kernel_step fsize nf nr) s (receiver_turn fsize nf nr k s).2.

(** ** Refilling *)

(** The free frames and our end of the fill ring. *)
Record filler := mkFiller { fl_umem : SliceUmem; fl_mem : ring_mem Z; fl_ring : RxFillRing }.

Section refill.
Context `{BuildProfile}.

(** The body of [while fill.available() > 0]. *)
Definition refill_step (s : filler) : outcome (control filler filler) :=
  if 0 <? RxFillRing_available (fl_ring s) then
    o ← reserve (fl_umem s);
    match o with
    | None => Done (Break s)
    | Some (frame, u) =>
        let offset := frame_offset frame in
        w ← RxFillRing_write (fl_mem s) (fl_ring s) frame;
        match w with
        | (Ok _, m, r) => Done (Continue (mkFiller u m r))
        | (Err _, m, r) => u ← release u offset; Done (Break (mkFiller u m r))
        end
    end
  else Done (Break s).

Definition refill (s : filler) : outcome filler :=
  loop (S (Z.to_nat (RxFillRing_available (fl_ring s)))) refill_step s.
End refill.

(** ** The loop *)

Section rx_loop.
Context `{BuildProfile} {K : Type} `{XskReceiver K}.

(** [umem], [fill], [rx_ring], the kernel, and [RxStats]. *)
Record rx_state := mkRxState {
  x_umem : SliceUmem;
  x_fill : RxFillRing;
  x_ring : RxRing;
  x_env : rx_env;
  x_kernel : K;
  rx_packets : Z;
  rx_bytes : Z;
}.

Definition set_fill (e : rx_env) (m : ring_mem Z) : rx_env :=
  mkRxEnv m (e_fillc e) (e_rx e) (e_rxp e) (e_taken e) (e_arrived e).
Definition set_rx (e : rx_env) (m : ring_mem XdpDesc) : rx_env :=
  mkRxEnv (e_fill e) (e_fillc e) m (e_rxp e) (e_taken e) (e_arrived e).

(** The kernel runs; it may write into frames it was given. *)
Definition receiver_runs (s : rx_state) : rx_state :=
  let u := x_umem s in
  let '(k, (buf, e)) := receiver_turn (frame_size u) (fr_size (x_fill s)) (rx_size (x_ring s)) (x_kernel s)
                          (buffer u, x_env s) in
  mkRxState (mkSliceUmem buf (frame_size u) (available_frames u) (capacity u)) (x_fill s) (x_ring s) e k
    (rx_packets s) (rx_bytes s).

(** The refill loop followed by [fill.commit()]. *)
Definition refill_and_commit (s : rx_state) : outcome rx_state :=
  f ← refill (mkFiller (x_umem s) (e_fill (x_env s)) (x_fill s));
  let m := RxFillRing_commit (fl_mem f) (fl_ring f) in
  Done (mkRxState (fl_umem f) (fl_ring f) (x_ring s) (set_fill (x_env s) m) (x_kernel s)
          (rx_packets s) (rx_bytes s)).

(** The body of [while let Some(desc) = rx_ring.read()]. *)
Definition receive_step (s : rx_state) : outcome (control rx_state rx_state) :=
  r ← RxRing_read (e_rx (x_env s)) (x_ring s);
  match r with
  | (None, _) => Done (Break s)
  | (Some desc, ring) =>
      let packet_len := xd_len desc in
      u ← release (x_umem s) (mkFrameOffset (wrap 64 (xd_addr desc)));
      Done (Continue (mkRxState u (x_fill s) ring (x_env s) (x_kernel s)
                        (wrapping_add 64 (rx_packets s) 1)
                        (wrapping_add 64 (rx_bytes s) packet_len)))
  end.

Definition receive_all (s : rx_state) : outcome rx_state :=
  loop (S (Z.to_nat (RxRing_available (x_ring s)))) receive_step s.

(** [rx_ring.sync(false)] and [fill.sync(false)] *)
Definition rx_sync (s : rx_state) : rx_state :=
  let s := receiver_runs s in
  let '(m, r) := RxRing_sync (e_rx (x_env s)) (x_ring s) false in
  mkRxState (x_umem s) (x_fill s) r (set_rx (x_env s) m) (x_kernel s) (rx_packets s) (rx_bytes s).
Definition fill_sync (s : rx_state) : rx_state :=
  let s := receiver_runs s in
  let '(m, r) := RxFillRing_sync (e_fill (x_env s)) (x_fill s) false in
  mkRxState (x_umem s) r (x_ring s) (set_fill (x_env s) m) (x_kernel s) (rx_packets s) (rx_bytes s).
(** [rx_ring.commit()] *)
Definition rx_commit (s : rx_state) : rx_state :=
  mkRxState (x_umem s) (x_fill s) (x_ring s) (set_rx (x_env s) (RxRing_commit (e_rx (x_env s)) (x_ring s)))
    (x_kernel s) (rx_packets s) (rx_bytes s).

(** One round of the main loop. *)
Definition rx_round (s : rx_state) : outcome rx_state :=
  let s := rx_sync s in
  s ← receive_all s;
  let s := rx_commit s in
  let s := fill_sync s in
  refill_and_commit s.

(** The main loop, over the values the exit flag is read with; [OutOfFuel] when
    they run out before it is set. *)
Fixpoint rx_rounds (exit : list bool) (s : rx_state) : outcome rx_state :=
  match exit with
  | [] => OutOfFuel
  | true :: _ => Done s
  | false :: exit => s ← rx_round s; rx_rounds exit s
  end.

Definition rx_loop (exit : list bool) (s : rx_state) : outcome rx_state :=
  s ← refill_and_commit s;
  rx_rounds exit s.
End rx_loop.
Arguments rx_state : clear implicits.

(** ** Invariant *)

(** The frames a UMEM has, and those that are free. *)
Definition all_frames (u : SliceUmem) : list Z := frame_base u <$> seqZ 0 (capacity u).
Definition free_bases (u : SliceUmem) : list Z := frame_base u <$> available_frames u.

(** With [qf] in the fill ring and [qr] in the RX ring: every frame is free or
    on the receive side, exactly once; [seen] are the packets read so far. *)
Record rx_ok {K} (kf kr : Z) (s : rx_state K) (qf : list Z) (qr : list XdpDesc) (seen : list (list Z))
  : Prop := mkRxOk {
  xo_fill_size : fr_size (x_fill s) = 2 ^ kf;
  xo_rx_size : rx_size (x_ring s) = 2 ^ kr;
  xo_umem : slice_umem_wf (x_umem s);
  xo_rings : rx_rings_hold kf kr (fr_producer (x_fill s)) (rx_consumer (x_ring s)) (x_env s) qf qr;
  xo_frames : free_bases (x_umem s) ++ rx_frames (frame_size (x_umem s)) (x_env s) qf qr ≡ₚ all_frames (x_umem s);
  xo_descs : Forall (desc_in_frame (frame_size (x_umem s))) qr;
  xo_arrived : e_arrived (x_env s) = seen ++ (desc_bytes (buffer (x_umem s)) <$> qr);
}.

(** *** UMEM facts in terms of frames *)

Section umem_frames.
Context `{BuildProfile}.

Lemma all_frames_inside u f :
  slice_umem_wf u -> f ∈ all_frames u ->
  0 <= f /\ f + frame_size u <= len (buffer u) /\ f < 2 ^ 63 /\ frame_of (frame_size u) f = f.
Proof.
  intros Hwf Hf. destruct (@frames_in_mem _ _ _ _ SliceUmem_spec u f Hwf Hf) as [H1 H2]. cbn in H2.
  pose proof Hwf as ([? ?] & ? & _). unfold umem_len in H2. cbn in H2.
  apply elem_of_frame_bases in Hf as (i & -> & Hi). split_and!; try lia.
  unfold frame_base. rewrite <-(Z.add_0_r (i * frame_size u)) at 1. by rewrite frame_of_base by lia.
Qed.

Lemma all_frames_nodup u : slice_umem_wf u -> NoDup (all_frames u).
Proof. intros ([? ?] & _). by apply frame_bases_NoDup. Qed.

(** Giving a frame back by an address inside it. *)
Lemma release_address u a :
  slice_umem_wf u -> frame_of (frame_size u) a ∈ all_frames u ->
  exists u', release u (mkFrameOffset a) = Done u' /\ slice_umem_wf u' /\
    free_bases u' = free_bases u ++ [frame_of (frame_size u) a] /\ all_frames u' = all_frames u /\
    buffer u' = buffer u /\ frame_size u' = frame_size u.
Proof.
  intros Hwf Hin. pose proof Hwf as ([Hf _] & _). pose proof (frame_of_range (frame_size u) a Hf).
  destruct (@release_frame _ _ _ _ SliceUmem_spec u _ (a - frame_of (frame_size u) a) Hwf Hin)
    as (u' & Hr & Hwf' & Hfr & Hall & Hm & Hs); [cbn; lia|].
  replace (frame_of (frame_size u) a + (a - frame_of (frame_size u) a)) with a in Hr by lia.
  exists u'. split_and!; done.
Qed.

Lemma frame_of_frames u l :
  slice_umem_wf u -> Forall (fun f => f ∈ all_frames u) l -> frame_of (frame_size u) <$> l = l.
Proof.
  intros Hwf Hl. rewrite <-(list_fmap_id l) at 2. apply list_fmap_ext. intros i f Hf%list_elem_of_lookup_2.
  apply (proj1 (Forall_forall _ _) Hl) in Hf. by destruct (all_frames_inside _ _ Hwf Hf) as (_ & _ & _ & ?).
Qed.

(** Reserving takes the last free frame. *)
Lemma reserve_frame u :
  slice_umem_wf u ->
  (free_bases u = [] /\ reserve u = Done None) \/
  exists o u', reserve u = Done (Some (mkFrame o 0, u')) /\ slice_umem_wf u' /\
    free_bases u = free_bases u' ++ [o] /\ all_frames u' = all_frames u /\
    buffer u' = buffer u /\ frame_size u' = frame_size u.
Proof.
  intros Hwf. destruct (free_nil_or_last (free u)) as [E|(l & o & E)]; [left|right].
  { split; [exact E|]. exact (@reserve_empty _ _ _ _ SliceUmem_spec u Hwf E). }
  destruct (@reserve_last _ _ _ _ SliceUmem_spec _ _ _ Hwf E) as ([o' l'] & u' & Hr & Ho & Hl & Hwf' & Hf & Hall & Hm & Hs).
  cbn in Ho, Hl. injection Ho as ->. subst l'. exists o, u'. split_and!; try done.
  unfold free_bases. cbn in E, Hf. by rewrite Hf.
Qed.
End umem_frames.

(** ** Refilling *)

Section refill_facts.
Context `{BuildProfile} (kf : Z).
Hypothesis Hkf : 0 <= kf <= 31.

(** Writing a descriptor does not publish it. *)
Lemma ring_push_producer {T} (m m' : ring_mem T) p p' size v :
  ring_push m p size v = Done (Some (m', p')) -> rm_producer m' = rm_producer m.
Proof.
  unfold ring_push. destruct (rp_produce p) as [[i|] q]; [|done].
  unfold desc_write. case_decide; [|done]. by intros [= <- <-].
Qed.

(** A refill moves frames from the free list to the fill ring until one of them
    runs out. *)
Lemma refill_ok u m r c qf :
  slice_umem_wf u -> fr_size r = 2 ^ kf -> ring_holds kf qf (mkSpsc m (fr_producer r) c) ->
  Forall (fun f => f ∈ all_frames u) (free_bases u) ->
  exists u' m' r' new, refill (mkFiller u m r) = Done (mkFiller u' m' r') /\
    slice_umem_wf u' /\ fr_size r' = 2 ^ kf /\ ring_holds kf (qf ++ new) (mkSpsc m' (fr_producer r') c) /\
    free_bases u ≡ₚ free_bases u' ++ new /\ Forall (fun f => f ∈ all_frames u) new /\
    all_frames u' = all_frames u /\ buffer u' = buffer u /\ frame_size u' = frame_size u /\
    rm_producer m' = rm_producer m /\ (RxFillRing_available r' = 0 \/ free_bases u' = []).
Proof.
  intros Hwf Hsz Hr Hin. unfold refill. cbn [fl_ring].
  set (Inv := fun f : filler => exists new, slice_umem_wf (fl_umem f) /\ fr_size (fl_ring f) = 2 ^ kf /\
    ring_holds kf (qf ++ new) (mkSpsc (fl_mem f) (fr_producer (fl_ring f)) c) /\
    free_bases u ≡ₚ free_bases (fl_umem f) ++ new /\ all_frames (fl_umem f) = all_frames u /\
    buffer (fl_umem f) = buffer u /\ frame_size (fl_umem f) = frame_size u /\ rm_producer (fl_mem f) = rm_producer m).
  destruct (loop_spec Inv (fun f => Inv f /\ (RxFillRing_available (fl_ring f) = 0 \/ free_bases (fl_umem f) = []))
    (fun f => Z.to_nat (RxFillRing_available (fl_ring f))) refill_step)
    with (fuel := S (Z.to_nat (RxFillRing_available r))) (s := mkFiller u m r)
    as ([u' m' r'] & -> & (new & ? & ? & ? & Hp & ? & ? & ? & ?) & Hmax).
  - intros [u0 m0 r0] (new & Hwf0 & Hsz0 & Hr0 & Hp0 & Ha0 & Hb0 & Hf0 & Hm0). cbn in *.
    unfold refill_step. cbn [fl_umem fl_mem fl_ring].
    pose proof (ring_holds_bounds kf Hkf _ _ _ _ Hr0) as ([Hav _] & _). fold (RxFillRing_available r0) in Hav.
    destruct (Z.ltb_spec 0 (RxFillRing_available r0)) as [Hpos|Hz].
    2: { eexists. split; [done|]. split; [by exists new|]. left. cbn. lia. }
    destruct (reserve_frame u0 Hwf0) as [[E ->]|(o & u1 & -> & Hwf1 & Hfr1 & Ha1 & Hb1 & Hs1)]; rewrite bind_Done.
    { eexists. split; [done|]. split; [by exists new|]. by right. }
    destruct (ring_holds_push kf Hkf _ _ _ _ o Hr0 Hpos) as (m1 & p1 & Hpush & Hr1 & Hav1 & _).
    assert (o ∈ all_frames u0) as Ho.
    { rewrite Ha0. apply (proj1 (Forall_forall _ _) Hin). rewrite Hp0, Hfr1, !elem_of_app. left. right. by left. }
    destruct (all_frames_inside u0 o Hwf0 Ho) as (Ho1 & _ & Ho2 & _).
    unfold RxFillRing_write. cbn [frame_offset f_offset fo SliceUmemFrame_Frame].
    rewrite wrap_small by (unfold is_uint; lia). rewrite Hsz0, Hpush, !bind_Done.
    eexists. split; [done|]. split; [|unfold RxFillRing_available in *; cbn; lia].
    exists (new ++ [o]). cbn. rewrite app_assoc. split_and!; try done; [|congruence..|by rewrite (ring_push_producer _ _ _ _ _ _ Hpush)].
    rewrite Hp0, Hfr1, <-!app_assoc. apply Permutation_app_head. apply Permutation_app_comm.
  - exists []. cbn. rewrite !app_nil_r. by split_and!.
  - cbn. lia.
  - exists u', m', r', new. split_and!; try done.
    apply Forall_forall. intros f Hf. apply (proj1 (Forall_forall _ _) Hin). rewrite Hp, elem_of_app. by right.
Qed.
End refill_facts.

(** ** The rounds *)

(** Bytes of a list of packets. *)
Definition total_len (pkts : list (list Z)) : Z := foldr (fun p n => len p + n) 0 pkts.

Lemma total_len_app l1 l2 : total_len (l1 ++ l2) = total_len l1 + total_len l2.
Proof. unfold total_len. induction l1 as [|p l1 IH]; cbn; [done|]. rewrite IH. lia. Qed.
#[global] Arguments total_len : simpl never.

(** The counters account for the packets [seen]. *)
Definition counted {K} (s : rx_state K) (seen : list (list Z)) : Prop :=
  rx_packets s = wrap 64 (len seen) /\ rx_bytes s = wrap 64 (total_len seen).

Section rx_facts.
Context `{BuildProfile} {K : Type} `{XskReceiverOk K}.
Context (kf kr : Z).
Hypothesis Hkf : 0 <= kf <= 31.
Hypothesis Hkr : 0 <= kr <= 31.
Implicit Types (s : rx_state K).

Lemma rx_ok_wf s qf qr seen :
  rx_ok kf kr s qf qr seen -> rx_wf (frame_size (x_umem s)) (buffer (x_umem s)) (x_env s) qf qr seen.
Proof.
  intros [_ _ Hwf _ Hp Hd Ha]. split; try done.
  - apply (NoDup_app (free_bases (x_umem s))). rewrite Hp. by apply all_frames_nodup.
  - apply Forall_forall. intros f Hf. destruct (all_frames_inside (x_umem s) f Hwf) as (? & ? & _); [|done].
    rewrite <-Hp, elem_of_app. by right.
Qed.

Lemma receiver_runs_ok s qf qr seen :
  rx_ok kf kr s qf qr seen ->
  exists qf' qr', rx_ok kf kr (receiver_runs s) qf' qr' seen /\
    x_fill (receiver_runs s) = x_fill s /\ x_ring (receiver_runs s) = x_ring s /\
    rx_packets (receiver_runs s) = rx_packets s /\ rx_bytes (receiver_runs s) = rx_bytes s.
Proof.
  intros Ho. pose proof (rx_ok_wf _ _ _ _ Ho) as Hw. destruct Ho as [Hf Hr Hwf Hrings Hp Hd Ha].
  pose proof Hwf as ([Hfs Hfs'] & Hlen & Hcap & Hfree).
  unfold receiver_runs. rewrite Hf, Hr.
  destruct (rx_kernel_steps_move _ kf kr Hfs Hkf Hkr _ _ (buffer (x_umem s), x_env s) _ _ _ _
    (receiver_follows (frame_size (x_umem s)) (2 ^ kf) (2 ^ kr) (x_kernel s) _) Hrings Hw)
    as (qf' & qr' & Hrings' & [_ _ Hd' Ha'] & [Mp _ Ml _ _ _]).
  destruct (receiver_turn _ _ _ _ _) as [k [buf e]]. cbn in *.
  exists qf', qr'. split_and!; try done. split; cbn; try done.
  - unfold slice_umem_wf. cbn. by rewrite Ml.
  - rewrite Mp. exact Hp.
Qed.

Lemma rx_sync_ok s qf qr seen :
  rx_ok kf kr s qf qr seen ->
  exists qf' qr', rx_ok kf kr (rx_sync s) qf' qr' seen /\
    rx_packets (rx_sync s) = rx_packets s /\ rx_bytes (rx_sync s) = rx_bytes s.
Proof.
  intros Ho. destruct (receiver_runs_ok s _ _ _ Ho) as (qf' & qr' & [A B C [D1 D2] E F G] & _ & _ & P1 & P2).
  exists qf', qr'. split; [|done]. split; try done. split; [done|]. cbn.
  eapply (ring_holds_tau kr Hkr); [exact D2|]. by eapply (sp_sync_cons _ _ _ _ false).
Qed.

Lemma fill_sync_ok s qf qr seen :
  rx_ok kf kr s qf qr seen ->
  exists qf' qr', rx_ok kf kr (fill_sync s) qf' qr' seen /\
    rx_packets (fill_sync s) = rx_packets s /\ rx_bytes (fill_sync s) = rx_bytes s.
Proof.
  intros Ho. destruct (receiver_runs_ok s _ _ _ Ho) as (qf' & qr' & [A B C [D1 D2] E F G] & _ & _ & P1 & P2).
  exists qf', qr'. split; [|done]. split; try done. split; [|done]. cbn.
  eapply (ring_holds_tau kf Hkf); [exact D1|]. by eapply (sp_sync_prod _ _ _ _ false).
Qed.

Lemma rx_commit_ok s qf qr seen : rx_ok kf kr s qf qr seen -> rx_ok kf kr (rx_commit s) qf qr seen.
Proof.
  intros [A B C [D1 D2] E F G]. split; try done. split; [done|]. cbn.
  eapply (ring_holds_tau kr Hkr); [exact D2|apply sp_commit_cons].
Qed.

(** Every free frame goes to the kernel, or the fill ring is full. *)
Lemma refill_and_commit_ok s qf qr seen :
  rx_ok kf kr s qf qr seen ->
  exists s' qf', refill_and_commit s = Done s' /\ rx_ok kf kr s' qf' qr seen /\
    rx_packets s' = rx_packets s /\ rx_bytes s' = rx_bytes s /\
    (RxFillRing_available (x_fill s') = 0 \/ available (x_umem s') = 0).
Proof.
  intros [A B C [D1 D2] E F G]. unfold refill_and_commit.
  destruct (refill_ok kf Hkf _ _ _ _ _ C A D1) as (u' & m' & r' & new & -> & Hwf' & Hsz' & Hr' & Hp & Hn & Ha & Hb & Hs & _ & Hmax).
  { apply Forall_forall. intros f Hf. rewrite <-E, elem_of_app. by left. }
  rewrite bind_Done. cbn [fl_umem fl_mem fl_ring]. eexists _, (qf ++ new). split; [done|]. cbn.
  split; [split; cbn; try done|split; [done|split; [done|]]].
  - split; [|done]. cbn. eapply (ring_holds_tau kf Hkf); [exact Hr'|apply sp_commit_prod].
  - rewrite Hs, Ha, <-E, Hp. unfold rx_frames. cbn. rewrite fmap_app, (frame_of_frames _ _ C Hn), <-!app_assoc. apply Permutation_app_head.
    by rewrite !app_assoc, (Permutation_app_comm _ new).
  - by rewrite Hs.
  - by rewrite Hb.
  - destruct Hmax as [?|Hz]; [by left|right]. unfold available, len. unfold free_bases in Hz.
    by apply fmap_nil_inv in Hz as ->.
Qed.

(** Reading one descriptor. *)
Lemma receive_step_ok s qf qr seen :
  rx_ok kf kr s qf qr seen ->
  if decide (RxRing_available (x_ring s) = 0) then receive_step s = Done (Break s)
  else exists s' qr' pkt, receive_step s = Done (Continue s') /\ rx_ok kf kr s' qf qr' (seen ++ [pkt]) /\
    RxRing_available (x_ring s') = RxRing_available (x_ring s) - 1 /\
    rx_packets s' = wrapping_add 64 (rx_packets s) 1 /\ rx_bytes s' = wrapping_add 64 (rx_bytes s) (len pkt).
Proof.
  intros [A B C [D1 D2] E F G]. unfold receive_step, RxRing_read. rewrite B.
  pose proof (ring_holds_pop kr Hkr _ _ _ _ D2) as Hpop. fold (RxRing_available (x_ring s)) in Hpop.
  case_decide as Hz; [by rewrite Hpop|].
  destruct Hpop as (d & qr' & c' & -> & -> & D2' & Hav & _). rewrite !bind_Done.
  apply Forall_cons in F as [(Fd1 & Fd2 & Fd3) F].
  assert (desc_frame (frame_size (x_umem s)) d ∈ all_frames (x_umem s)) as Hin.
  { rewrite <-E. unfold rx_frames. cbn. set_solver. }
  destruct (all_frames_inside _ _ C Hin) as (I1 & I2 & I3 & _).
  pose proof C as ([Hfs ?] & ? & _). pose proof (frame_of_range (frame_size (x_umem s)) (xd_addr d) Hfs).
  unfold desc_frame in *. rewrite wrap_small by (unfold is_uint; lia).
  destruct (release_address _ _ C Hin) as (u & -> & Hwf & Hf & Ha & Hb & Hs). rewrite bind_Done.
  eexists _, qr', (desc_bytes (buffer (x_umem s)) d). split; [done|]. cbn. split_and!; try done.
  - split; cbn; try done.
    + rewrite Hs, Ha, <-E, Hf. unfold rx_frames. cbn. rewrite <-app_assoc. apply Permutation_app_head. cbn.
      by rewrite !(app_assoc (frame_of _ <$> qf)), Permutation_middle.
    + by rewrite Hs.
    + rewrite Hb, <-app_assoc. exact G.
  - f_equal. unfold desc_bytes. rewrite len_take, len_drop. lia.
Qed.

Lemma counted_step (s s' : rx_state K) seen pkt :
  counted s seen -> rx_packets s' = wrapping_add 64 (rx_packets s) 1 ->
  rx_bytes s' = wrapping_add 64 (rx_bytes s) (len pkt) -> counted s' (seen ++ [pkt]).
Proof.
  intros [C1 C2] E1 E2. unfold counted. rewrite E1, E2, C1, C2. unfold wrapping_add.
  rewrite !wrap_add_l, len_app, total_len_app by done. by split; f_equal; unfold total_len; cbn; lia.
Qed.

Lemma counted_same (s s' : rx_state K) seen :
  rx_packets s' = rx_packets s -> rx_bytes s' = rx_bytes s -> counted s seen -> counted s' seen.
Proof. unfold counted. by intros -> ->. Qed.

Lemma receive_all_ok s qf qr seen :
  rx_ok kf kr s qf qr seen -> counted s seen ->
  exists s' qr' new, receive_all s = Done s' /\ rx_ok kf kr s' qf qr' (seen ++ new) /\ counted s' (seen ++ new).
Proof.
  intros Ho Hc. unfold receive_all.
  destruct (loop_spec (fun s' => exists qr' new, rx_ok kf kr s' qf qr' (seen ++ new) /\ counted s' (seen ++ new))
    (fun s' => exists qr' new, rx_ok kf kr s' qf qr' (seen ++ new) /\ counted s' (seen ++ new))
    (fun s' => Z.to_nat (RxRing_available (x_ring s'))) receive_step)
    with (fuel := S (Z.to_nat (RxRing_available (x_ring s)))) (s := s) as (s' & -> & qr' & new & ? & ?).
  - intros s0 (q0 & n0 & O0 & C0). pose proof (receive_step_ok s0 _ _ _ O0) as Hstep.
    case_decide as Hz; [exists (Break s0); split; [done|]; by exists q0, n0|].
    destruct Hstep as (s1 & q1 & pkt & -> & O1 & Hav & E1 & E2). eexists. split; [done|].
    pose proof O0 as [_ _ _ [_ D2] _ _ _]. pose proof (ring_holds_bounds kr Hkr _ _ _ _ D2) as (_ & Hb & _).
    fold (RxRing_available (x_ring s0)) in Hb. split; [|lia].
    exists q1, (n0 ++ [pkt]). rewrite app_assoc. split; [done|]. by eapply counted_step.
  - exists qr, []. by rewrite app_nil_r.
  - lia.
  - by exists s', qr', new.
Qed.

Lemma rx_round_ok s qf qr seen :
  rx_ok kf kr s qf qr seen -> counted s seen ->
  exists s' qf' qr' new, rx_round s = Done s' /\ rx_ok kf kr s' qf' qr' (seen ++ new) /\
    counted s' (seen ++ new) /\ (RxFillRing_available (x_fill s') = 0 \/ available (x_umem s') = 0).
Proof.
  intros Ho Hc. unfold rx_round. cbn zeta.
  destruct (rx_sync_ok s _ _ _ Ho) as (qf1 & qr1 & O1 & P1 & B1).
  pose proof (counted_same _ _ _ P1 B1 Hc) as C1.
  destruct (receive_all_ok _ _ _ _ O1 C1) as (s2 & qr2 & new & -> & O2 & C2). rewrite bind_Done.
  pose proof (rx_commit_ok _ _ _ _ O2) as O3.
  destruct (fill_sync_ok _ _ _ _ O3) as (qf4 & qr4 & O4 & P4 & B4).
  destruct (refill_and_commit_ok _ _ _ _ O4) as (s5 & qf5 & -> & O5 & P5 & B5 & Hmax).
  exists s5, qf5, qr4, new. split_and!; try done. eapply counted_same; [exact P5|exact B5|].
  eapply counted_same; [exact P4|exact B4|]. exact C2.
Qed.

Lemma rx_rounds_ok exit s qf qr seen :
  true ∈ exit -> rx_ok kf kr s qf qr seen -> counted s seen ->
  exists s' qf' qr' new, rx_rounds exit s = Done s' /\ rx_ok kf kr s' qf' qr' (seen ++ new) /\ counted s' (seen ++ new).
Proof.
  revert s qf qr seen. induction exit as [|b exit IH]; intros s qf qr seen Hex Ho Hc; [by apply not_elem_of_nil in Hex|].
  cbn [rx_rounds]. destruct b; [exists s, qf, qr, []; by rewrite app_nil_r|].
  apply elem_of_cons in Hex as [?|Hex]; [done|].
  destruct (rx_round_ok s _ _ _ Ho Hc) as (s1 & qf1 & qr1 & n1 & -> & O1 & C1 & _). rewrite bind_Done.
  destruct (IH _ _ _ _ Hex O1 C1) as (s2 & qf2 & qr2 & n2 & -> & O2 & C2).
  exists s2, qf2, qr2, (n1 ++ n2). by rewrite app_assoc.
Qed.
End rx_facts.

(** ** A fresh socket *)

Definition rx_start {K} (kf kr : Z) (u : SliceUmem) (fill : ring_mem Z) (rx : ring_mem XdpDesc) (k : K) : rx_state K :=
  mkRxState u (mkRxFillRing (RingProducer_new fill (2 ^ kf)) (2 ^ kf)) (mkRxRing (RingConsumer_new rx) (2 ^ kr))
    (mkRxEnv fill (RingConsumer_new fill) rx (RingProducer_new rx (2 ^ kr)) [] []) k 0 0.

Definition fresh_receiver (kf kr : Z) (u : SliceUmem) (fill : ring_mem Z) (rx : ring_mem XdpDesc) : Prop :=
  fresh_ring kf fill /\ fresh_ring kr rx /\ slice_umem_wf u /\ free_bases u ≡ₚ all_frames u.

Lemma rx_start_ok {K} kf kr u fill rx (k : K) :
  fresh_receiver kf kr u fill rx ->
  rx_ok kf kr (rx_start kf kr u fill rx k) [] [] [] /\ counted (rx_start kf kr u fill rx k) [].
Proof.
  intros ((Hkf & Hf1 & Hf2 & Hf3) & (Hkr & Hr1 & Hr2 & Hr3) & Hwf & Hp).
  pose proof (spsc_init_inv kf Hkf fill Hf1 Hf2 Hf3) as If. pose proof (spsc_init_inv kr Hkr rx Hr1 Hr2 Hr3) as Ir.
  split; [|done]. split; cbn; try done; [split; by eexists _, _|]. unfold rx_frames. cbn. by rewrite app_nil_r.
Qed.

(** ** Properties *)

(** C27: for every kernel that follows the protocol, [rx_loop] returns once the
    exit flag is set: no read, release or refill panics or leaves the rings and
    the UMEM. The packet and byte counters are the number and total size of the
    packets read (modulo 2^64), the packets read are a prefix of those the
    kernel delivered, in order and unchanged; the rest of them is in the RX
    ring, which holds the descriptors [qr]. No frame is lost: with [qf] in the
    fill ring, each is free, in one of the two rings or with the kernel. *)
Theorem rx_loop_counts_packets `{BuildProfile} {K} `{XskReceiverOk K} kf kr u fill rx (k : K) exit :
  fresh_receiver kf kr u fill rx -> true ∈ exit ->
  exists s qf qr seen, rx_loop exit (rx_start kf kr u fill rx k) = Done s /\
    rx_packets s = len seen mod 2 ^ 64 /\ rx_bytes s = total_len seen mod 2 ^ 64 /\
    ring_holds kf qf (mkSpsc (e_fill (x_env s)) (fr_producer (x_fill s)) (e_fillc (x_env s))) /\
    ring_holds kr qr (mkSpsc (e_rx (x_env s)) (e_rxp (x_env s)) (rx_consumer (x_ring s))) /\
    e_arrived (x_env s) = seen ++ (desc_bytes (buffer (x_umem s)) <$> qr) /\
    free_bases (x_umem s) ++ rx_frames (frame_size (x_umem s)) (x_env s) qf qr ≡ₚ all_frames (x_umem s).
Proof.
  intros Hfresh Hex. destruct (rx_start_ok kf kr u fill rx k Hfresh) as [Ho Hc].
  destruct Hfresh as ((Hkf & _) & (Hkr & _) & _). unfold rx_loop.
  destruct (refill_and_commit_ok kf kr Hkf _ _ _ _ Ho) as (s1 & qf1 & -> & O1 & P1 & B1 & _). rewrite bind_Done.
  pose proof (counted_same _ _ _ P1 B1 Hc) as C1.
  destruct (rx_rounds_ok kf kr Hkf Hkr exit _ _ _ _ Hex O1 C1) as (s2 & qf2 & qr2 & new & -> & [_ _ _ [D1 D2] Hp _ Ha] & [C2 C3]).
  by exists s2, qf2, qr2, ([] ++ new).
Qed.

(** ** Witnesses *)

(** A receiving kernel that delivers the next packet of a script at every turn,
    when it has a frame and a slot for it. *)
Definition script_turn (fsize nf nr : Z) (k : list (list Z)) (s : list Z * rx_env)
  : list (list Z) * (list Z * rx_env) :=
  let '(buf, e) := s in
  match k with
  | [] => (k, s)
  | pkt :: k' =>
      let d := if decide (8 + len pkt <= fsize) then 8 else 0 in
      if decide (0 < fsize /\ d < fsize /\ d + len pkt <= fsize /\ bytes_ok pkt) then
        let fillc := (rc_sync (e_fill e) (e_fillc e) false).2 in
        let rxp := (rp_sync (e_rx e) (e_rxp e) false).2 in
        match ring_pop (e_fill e) fillc nf with
        | Done (Some (o, fillc')) =>
            let a := frame_of fsize o + d in
            match ring_push (e_rx e) rxp nr (mkXdpDesc a (len pkt) 0), e_taken e with
            | Done (Some (rx', rxp')), [] =>
                (k', (splice buf a pkt, mkRxEnv (rc_commit (e_fill e) fillc') fillc' (rp_commit rx' rxp') rxp'
                                          [] (e_arrived e ++ [pkt])))
            | _, _ => (k, s)
            end
        | _ => (k, s)
        end
      else (k, s)
  end.

#[global] Instance script_receiver : XskReceiver (list (list Z)) := script_turn.

#[global] Instance script_receiver_ok : XskReceiverOk (list (list Z)).
Proof.
  intros fsize nf nr [|pkt k] [buf [fill fillc rx rxp taken arrived]]; [done|].
  unfold receiver_turn, script_receiver, script_turn. cbn [e_fill e_fillc e_rx e_rxp e_taken e_arrived].
  set (d := if decide (8 + len pkt <= fsize) then 8 else 0). assert (0 <= d) by (unfold d; case_decide; lia).
  case_decide as Hd; [|done]. destruct Hd as (_ & Hd1 & Hd2 & Hb).
  destruct (ring_pop _ _ _) as [[[o fillc']|]| | |] eqn:Epop; try done.
  destruct (ring_push _ _ _ _) as [[[rx' rxp']|]| | |] eqn:Epush; try done. destruct taken; [|done].
  eapply rtc_l; [apply rk_see_fill|]. eapply rtc_l; [apply rk_see_rx|].
  eapply rtc_l; [apply rk_take; exact Epop|].
  eapply rtc_l; [apply (rk_deliver fsize nf nr _ _ _ _ _ [] o [] _ d pkt 0); [lia|lia|exact Hb|exact Epush]|].
  eapply rtc_l; [apply rk_publish_fill|]. eapply rtc_l; [apply rk_publish_rx|]. done.
Qed.

Definition rx_example_umem : SliceUmem := mkSliceUmem (replicate 64 0) 16 [0; 1; 2; 3] 4.
Definition rx_example : rx_state (list (list Z)) :=
  rx_start 1 1 rx_example_umem (mkRingMem (2 ^ 32 - 1) (2 ^ 32 - 1) 0 [0; 0])
    (mkRingMem 5 5 0 [mkXdpDesc 0 0 0; mkXdpDesc 0 0 0]) [[1; 2; 3]; [4; 5]; [6]].

Lemma rx_loop_counts_packets_witness :
  exists s qf qr seen, @rx_loop dev_profile _ _ [false; false; false; true] rx_example = Done s /\
    rx_packets s = len seen mod 2 ^ 64 /\ rx_bytes s = total_len seen mod 2 ^ 64 /\
    ring_holds 1 qf (mkSpsc (e_fill (x_env s)) (fr_producer (x_fill s)) (e_fillc (x_env s))) /\
    ring_holds 1 qr (mkSpsc (e_rx (x_env s)) (e_rxp (x_env s)) (rx_consumer (x_ring s))) /\
    e_arrived (x_env s) = seen ++ (desc_bytes (buffer (x_umem s)) <$> qr) /\
    free_bases (x_umem s) ++ rx_frames (frame_size (x_umem s)) (x_env s) qf qr ≡ₚ all_frames (x_umem s).
Proof.
  apply (@rx_loop_counts_packets dev_profile _ _ _ 1 1).
  - split; [by_decide|]. split; [by_decide|]. split; [by_decide|]. done.
  - by_decide.
Defined.

Example rx_example_counts :
  match @rx_loop dev_profile _ _ [false; false; false; true] rx_example with
  | Done s => (rx_packets s, rx_bytes s) = (3, 6)
  | _ => False
  end.
Proof. by vm_compute. Qed.
