(* ===== verification/RelayLoop.v ===== *)
(** * The relay loop ([relay_loop.rs])

    Everything [relay_loop] does once its socket is open: pre-fill the fill
    ring, then in every round sync the four rings, free completed frames, look
    at every received packet and either return its frame or rewrite its headers
    in place and queue the same frame for transmission, refill, and commit. *)

From S2P Require Import Prelude Words Net Packet Umem Ring Netlink Route Assemble Kernel KernelRx RxLoop.

(** ** The kernel on all four rings *)

Record xsk_sizes := mkSizes { n_frame : Z; n_fill : Z; n_rx : Z; n_tx : Z; n_cq : Z }.

(** UMEM bytes and both sides. *)
Abbreviation duplex := (list Z * tx_env * rx_env)%type.

Inductive duplex_step (n : xsk_sizes) : duplex -> duplex -> Prop :=
  | dx_tx buf te te' re :
      kernel_step buf (n_tx n) (n_cq n) te te' -> duplex_step n (buf, te, re) (buf, te', re)
  | dx_rx buf te re buf' re' :
      rx_kernel_step (n_frame n) (n_fill n) (n_rx n) (buf, re) (buf', re') ->
      duplex_step n (buf, te, re) (buf', te, re').

(** What the kernel does where the loop observes it and inside [sendto], and
    what [sendto] returns. *)
Class XskDuplex (K : Type) := {
  duplex_turn : xsk_sizes -> K -> duplex -> K * duplex;
  duplex_wake : xsk_sizes -> K -> duplex -> K * duplex;
  duplex_sendto : K -> Z;
}.
Class XskDuplexOk (K : Type) `{XskDuplex K} : Prop := {
  duplex_follows n k s : rtc (duplex_step n) s (duplex_turn n k s).2;
  duplex_wake_follows n k s : rtc (duplex_step n) s (duplex_wake n k s).2;
}.

(** ** State *)

Definition RELAY_BATCH_SIZE : Z := 32.
Definition VOTE_SIZE_THRESHOLD : Z := 400.
Definition IPPROTO_UDP : Z := 17.

(** The addresses the loop rewrites packets with; forwarding is off unless the
    destination address, port and MAC are all known. *)
Record relay_config := mkRelayConfig {
  rl_src_mac : MacAddress;
  rl_src_ip : Ipv4Addr;
  rl_dest_ip : option Ipv4Addr;
  rl_dest_port : option Z;
  rl_dest_mac : option MacAddress;
}.

(** The destination MAC: the override, or the next hop's. *)
Definition relay_dest_mac (router : Router) (dest_ip : option Ipv4Addr) (dest_mac_override : option MacAddress)
  : outcome (option MacAddress) :=
  match dest_ip with
  | Some ip =>
      match dest_mac_override with
      | Some mac => Done (Some mac)
      | None =>
          r ← Router_route router (V4 ip);
          Done (match r with Ok next_hop => nh_mac_addr next_hop | Err _ => None end)
      end
  | None => Done None
  end.

Section relay_loop.
Context `{BuildProfile} {K : Type} `{XskDuplex K}.

Record relay_state := mkRelayState {
  r_umem : SliceUmem;
  r_fill : RxFillRing;
  r_rx : RxRing;
  r_tx : TxRing;
  r_completion : TxCompletionRing;
  r_te : tx_env;
  r_re : rx_env;
  r_kernel : K;
  r_batch : Z;
  r_total : Z;
}.

Definition relay_sizes (s : relay_state) : xsk_sizes :=
  mkSizes (frame_size (r_umem s)) (fr_size (r_fill s)) (rx_size (r_rx s)) (tx_size (r_tx s)) (cr_size (r_completion s)).

Definition rl_umem (s : relay_state) (u : SliceUmem) : relay_state :=
  mkRelayState u (r_fill s) (r_rx s) (r_tx s) (r_completion s) (r_te s) (r_re s) (r_kernel s) (r_batch s) (r_total s).
Definition rl_fill (s : relay_state) (m : ring_mem Z) (r : RxFillRing) : relay_state :=
  mkRelayState (r_umem s) r (r_rx s) (r_tx s) (r_completion s) (r_te s) (set_fill (r_re s) m) (r_kernel s) (r_batch s) (r_total s).
Definition rl_rx (s : relay_state) (m : ring_mem XdpDesc) (r : RxRing) : relay_state :=
  mkRelayState (r_umem s) (r_fill s) r (r_tx s) (r_completion s) (r_te s) (set_rx (r_re s) m) (r_kernel s) (r_batch s) (r_total s).
Definition set_tx (e : tx_env) (m : ring_mem XdpDesc) : tx_env :=
  mkTxEnv m (e_txc e) (e_cq e) (e_cqp e) (e_held e) (e_wire e).
Definition set_cq (e : tx_env) (m : ring_mem Z) : tx_env :=
  mkTxEnv (e_tx e) (e_txc e) m (e_cqp e) (e_held e) (e_wire e).
Definition rl_tx (s : relay_state) (m : ring_mem XdpDesc) (r : TxRing) : relay_state :=
  mkRelayState (r_umem s) (r_fill s) (r_rx s) r (r_completion s) (set_tx (r_te s) m) (r_re s) (r_kernel s) (r_batch s) (r_total s).
Definition rl_cq (s : relay_state) (m : ring_mem Z) (r : TxCompletionRing) : relay_state :=
  mkRelayState (r_umem s) (r_fill s) (r_rx s) (r_tx s) r (set_cq (r_te s) m) (r_re s) (r_kernel s) (r_batch s) (r_total s).
Definition rl_counts (s : relay_state) (batch total : Z) : relay_state :=
  mkRelayState (r_umem s) (r_fill s) (r_rx s) (r_tx s) (r_completion s) (r_te s) (r_re s) (r_kernel s) batch total.

(** What the kernel sees of the state, and the state after it ran. *)
Definition duplex_of (s : relay_state) : duplex := (buffer (r_umem s), r_te s, r_re s).
Definition with_duplex (s : relay_state) (r : K * duplex) : relay_state :=
  let '(k, (buf, te, re)) := r in
  let u := r_umem s in
  mkRelayState (mkSliceUmem buf (frame_size u) (available_frames u) (capacity u)) (r_fill s) (r_rx s) (r_tx s)
    (r_completion s) te re k (r_batch s) (r_total s).

(** The kernel runs on both sides: by itself, and inside [sendto]. *)
Definition duplex_runs (s : relay_state) : relay_state :=
  with_duplex s (duplex_turn (relay_sizes s) (r_kernel s) (duplex_of s)).
Definition duplex_woken (s : relay_state) : relay_state :=
  with_duplex s (duplex_wake (relay_sizes s) (r_kernel s) (duplex_of s)).

(** ** Ring calls *)

Definition relay_rx_sync (s : relay_state) : relay_state :=
  let s := duplex_runs s in
  let '(m, r) := RxRing_sync (e_rx (r_re s)) (r_rx s) false in rl_rx s m r.
Definition relay_tx_sync (s : relay_state) : relay_state :=
  let s := duplex_runs s in
  let '(m, r) := TxRing_sync (e_tx (r_te s)) (r_tx s) false in rl_tx s m r.
Definition relay_completion_sync (s : relay_state) : relay_state :=
  let s := duplex_runs s in
  let '(m, r) := TxCompletionRing_sync (e_cq (r_te s)) (r_completion s) false in rl_cq s m r.
Definition relay_fill_sync (s : relay_state) : relay_state :=
  let s := duplex_runs s in
  let '(m, r) := RxFillRing_sync (e_fill (r_re s)) (r_fill s) false in rl_fill s m r.

(** [rx_ring.commit(); tx_ring.commit(); fill.commit();] *)
Definition relay_commit (s : relay_state) : relay_state :=
  let s := rl_rx s (RxRing_commit (e_rx (r_re s)) (r_rx s)) (r_rx s) in
  let s := rl_tx s (TxRing_commit (e_tx (r_te s)) (r_tx s)) (r_tx s) in
  rl_fill s (RxFillRing_commit (e_fill (r_re s)) (r_fill s)) (r_fill s).

(** [if tx_ring.needs_wakeup() { let _ = tx_ring.wake(); }] *)
Definition relay_wake (s : relay_state) : relay_state :=
  let s := duplex_runs s in
  if TxRing_needs_wakeup (e_tx (r_te s)) then
    let s := duplex_woken s in
    match TxRing_wake (duplex_sendto (r_kernel s)) with Ok _ => s | Err _ => s end
  else s.

(** ** Pre-filling *)

(** [for _ in 0..frames_to_add]: a frame whose write fails is not given back. *)
Definition prefill_step (c : Z * filler) : outcome (control (Z * filler) filler) :=
  let '(n, f) := c in
  if 0 <? n then
    o ← reserve (fl_umem f);
    match o with
    | Some (frame, u) =>
        w ← RxFillRing_write (fl_mem f) (fl_ring f) frame;
        match w with
        | (Err _, m, r) => Done (Break (mkFiller u m r))
        | (Ok _, m, r) => Done (Continue (n - 1, mkFiller u m r))
        end
    | None => Done (Break f)
    end
  else Done (Break f).

Definition prefill (rx_size : Z) (s : relay_state) : outcome relay_state :=
  let s := relay_fill_sync s in
  let frames_to_add := Z.min rx_size (available (r_umem s)) in
  f ← loop (S (Z.to_nat frames_to_add)) prefill_step
        (frames_to_add, mkFiller (r_umem s) (e_fill (r_re s)) (r_fill s));
  let s := rl_fill (rl_umem s (fl_umem f)) (fl_mem f) (fl_ring f) in
  Done (rl_fill s (RxFillRing_commit (e_fill (r_re s)) (r_fill s)) (r_fill s)).

(** ** One packet *)

(** Return a frame to the fill ring, or to the free list when that is full. *)
Definition return_frame (umem_offset : Z) (s : relay_state) : outcome relay_state :=
  w ← RxFillRing_write (e_fill (r_re s)) (r_fill s) (from_offset (mkFrameOffset umem_offset) 0);
  match w with
  | (Ok _, m, r) => Done (rl_fill s m r)
  | (Err _, m, r) =>
      u ← release (r_umem s) (mkFrameOffset umem_offset);
      Done (rl_umem (rl_fill s m r) u)
  end.

(** Rewrite the headers of the packet in place and queue its frame. *)
Definition forward_packet (e : endpoints) (umem_offset packet_len : Z) (s : relay_state) : outcome relay_state :=
  u ← map_frame_mut (r_umem s) (mkFrame umem_offset packet_len)
        (fun packet_mut => write_headers packet_mut e (packet_len - PACKET_HEADER_SIZE));
  let s := rl_umem s u in
  w ← TxRing_write (e_tx (r_te s)) (r_tx s) (from_offset (mkFrameOffset umem_offset) packet_len) 0;
  match w with
  | (Ok _, m, r) => Done (rl_tx s m r)
  | (Err _, m, r) => return_frame umem_offset (rl_tx s m r)
  end.

Definition relay_endpoints (cfg : relay_config) : option endpoints :=
  match rl_dest_ip cfg, rl_dest_port cfg, rl_dest_mac cfg with
  | Some dest_ip, Some dest_port, Some dest_mac =>
      Some (mkEndpoints (rl_src_mac cfg) dest_mac (rl_src_ip cfg) dest_ip 12345 dest_port)
  | _, _, _ => None
  end.

(** The end of the packet loop's body: count and commit per batch. *)
Definition count_packet (s : relay_state) : relay_state :=
  let batch_count := r_batch s + 1 in
  if RELAY_BATCH_SIZE <=? batch_count
  then rl_counts (relay_wake (relay_commit s)) 0 (r_total s)
  else rl_counts s batch_count (r_total s).

(** The body of [while let Some(desc) = rx_ring.read()]. *)
Definition relay_packet (cfg : relay_config) (desc : XdpDesc) (s : relay_state) : outcome relay_state :=
  let umem_offset := wrap 64 (xd_addr desc) in
  let packet_len := xd_len desc in
  total ← add_u 64 (r_total s) 1;
  let s := rl_counts s (r_batch s) total in
  if decide (packet_len < PACKET_HEADER_SIZE + VOTE_SIZE_THRESHOLD) then return_frame umem_offset s
  else
    packet ← map_frame (r_umem s) (mkFrame umem_offset packet_len);
    ip_header ← slice_from packet ETH_HEADER_SIZE;
    proto ← slice_get ip_header 9;
    if decide (proto <> IPPROTO_UDP) then return_frame umem_offset s
    else
      s ← match relay_endpoints cfg with
          | Some e => forward_packet e umem_offset packet_len s
          | None => return_frame umem_offset s
          end;
      Done (count_packet s).

(** ** The main loop *)

Definition relay_packets_step (cfg : relay_config) (s : relay_state) : outcome (control relay_state relay_state) :=
  r ← RxRing_read (e_rx (r_re s)) (r_rx s);
  match r with
  | (None, _) => Done (Break s)
  | (Some desc, ring) =>
      s ← relay_packet cfg desc (rl_rx s (e_rx (r_re s)) ring);
      Done (Continue s)
  end.
Definition relay_packets (cfg : relay_config) (s : relay_state) : outcome relay_state :=
  loop (S (Z.to_nat (RxRing_available (r_rx s)))) (relay_packets_step cfg) s.

Definition relay_release_step (s : relay_state) : outcome (control relay_state relay_state) :=
  o ← TxCompletionRing_read (e_cq (r_te s)) (r_completion s);
  match o with
  | (None, _) => Done (Break s)
  | (Some frame_offset, r) =>
      u ← release (r_umem s) frame_offset;
      Done (Continue (rl_cq (rl_umem s u) (e_cq (r_te s)) r))
  end.
Definition relay_release (s : relay_state) : outcome relay_state :=
  loop (S (Z.to_nat (rc_available (cr_consumer (r_completion s))))) relay_release_step s.

Definition relay_refill (s : relay_state) : outcome relay_state :=
  f ← refill (mkFiller (r_umem s) (e_fill (r_re s)) (r_fill s));
  Done (rl_fill (rl_umem s (fl_umem f)) (fl_mem f) (fl_ring f)).

(** One turn of [loop]. *)
Definition relay_round (cfg : relay_config) (s : relay_state) : outcome relay_state :=
  let s := relay_rx_sync s in
  let s := relay_tx_sync s in
  let s := relay_completion_sync s in
  let s := relay_fill_sync s in
  s ← relay_release s;
  s ← relay_packets cfg s;
  s ← relay_refill s;
  if 0 <? r_batch s then Done (rl_counts (relay_commit s) 0 (r_total s)) else Done s.

(** [n] turns. *)
Fixpoint relay_rounds (n : nat) (cfg : relay_config) (s : relay_state) : outcome relay_state :=
  match n with
  | O => Done s
  | S n => s ← relay_round cfg s; relay_rounds n cfg s
  end.

(** From the open socket to the end of turn [n]; the source never leaves the
    loop. *)
Definition relay_loop (n : nat) (cfg : relay_config) (rx_size : Z) (s : relay_state) : outcome relay_state :=
  s ← prefill rx_size s;
  relay_rounds n cfg s.
End relay_loop.
Arguments relay_state : clear implicits.
