(* ===== verification/RelayInv.v ===== *)
(** * Invariant of the relay loop

    Who owns which frame while [relay_loop] forwards packets in place, which
    packets it has read and which frames it has queued, and two counters it
    never moves; every operation of [RelayLoop] preserves it, for every kernel
    that follows the protocol on all four rings. *)

From S2P Require Import Prelude Words Net Packet Umem Ring Netlink Route Assemble Kernel KernelRx RxLoop RelayLoop.

#[local] Arguments all_frames : simpl never.
#[local] Arguments free_bases : simpl never.

(** ** Specification of one packet *)

(** Packets the loop drops: too small, or not UDP. *)
Definition filtered (pkt : list Z) : bool :=
  (len pkt <? PACKET_HEADER_SIZE + VOTE_SIZE_THRESHOLD) || negb (nth 23 pkt 0 =? IPPROTO_UDP).

(** What is sent for a packet: the same payload under new headers. *)
Definition relay_image (cfg : relay_config) (pkt : list Z) : option (list Z) :=
  if filtered pkt then None
  else (fun e => frame_bytes e (drop 42 pkt)) <$> relay_endpoints cfg.

Definition relay_config_ok (cfg : relay_config) : Prop :=
  match relay_endpoints cfg with Some e => endpoints_ok e | None => True end.
#[global] Instance relay_config_ok_dec cfg : Decision (relay_config_ok cfg).
Proof. unfold relay_config_ok. destruct (relay_endpoints cfg); apply _. Defined.

(** ** A producer whose consumer never gives slots back *)

(** It started at [c0] and has written [n] descriptors. *)
Definition stalled {T} (k c0 n : Z) (m : ring_mem T) (p : RingProducer) : Prop :=
  rm_consumer m = c0 /\ rp_cached_consumer p = c0 /\ rp_cached_producer p = wrap 32 (c0 + n) /\
  rp_size p = 2 ^ k /\ 0 <= n <= 2 ^ k.

Lemma stalled_push {T} k c0 n (m m' : ring_mem T) p p' size v :
  0 <= k <= 31 -> stalled k c0 n m p -> ring_push m p size v = Done (Some (m', p')) -> stalled k c0 (n + 1) m' p'.
Proof.
  intros Hk (E1 & E2 & E3 & E4 & Hn). pose proof (size_bounds k Hk).
  assert (rp_available p = 2 ^ k - n) as Ha.
  { unfold rp_available, saturating_sub, wrapping_sub. rewrite E2, E3, E4.
    change (wrap 32 (c0 + n) - c0) with (wrap 32 (c0 + n) + - c0). rewrite wrap_add_l by lia.
    replace (c0 + n + - c0) with n by lia. rewrite wrap_small by (unfold is_uint; lia). lia. }
  unfold ring_push, rp_produce. rewrite Ha. destruct (Z.eqb_spec (2 ^ k - n) 0); [done|].
  unfold desc_write. case_decide; [|done]. intros [= <- <-]. unfold stalled. cbn.
  rewrite E3. unfold wrapping_add. rewrite wrap_add_l by lia. split_and!; try done; try lia. f_equal. lia.
Qed.

Lemma stalled_commit {T} k c0 n (m : ring_mem T) p : stalled k c0 n m p -> stalled k c0 n (rp_commit m p) p.
Proof. done. Qed.

Lemma stalled_sync {T} k c0 n (m : ring_mem T) p : stalled k c0 n m p -> stalled k c0 n m (rp_sync m p false).2.
Proof. by intros (E1 & E2 & ?). Qed.

Lemma stalled_fresh {T} k (m : ring_mem T) : fresh_ring k m -> stalled k (rm_consumer m) 0 m (RingProducer_new m (2 ^ k)).
Proof.
  intros (Hk & Hu & E & _). pose proof (size_bounds k Hk). unfold stalled. cbn.
  rewrite E, Z.add_0_r, wrap_small by done. split_and!; try done; lia.
Qed.

(** Frames completed so far. *)
Definition completing (kc c0 : Z) (e : tx_env) : Prop :=
  exists n, len (e_wire e) = len (e_held e) + n /\ stalled kc c0 n (e_cq e) (e_cqp e).

Lemma completing_step kc c0 buf nt nc e e' :
  0 <= kc <= 31 -> kernel_step buf nt nc e e' -> completing kc c0 e -> completing kc c0 e'.
Proof.
  intros Hk Hs (n & Hn & Hst). unfold completing.
  destruct Hs as [tx txc cq cqp held wire d txc' Hp|tx txc cq cqp held wire|tx txc cq cqp held wire
    |tx txc cq cqp h1 d h2 wire cq' cqp' Hp|tx txc cq cqp held wire|tx txc cq cqp held wire
    |tx txc cq cqp held wire f]; cbn [e_tx e_txc e_cq e_cqp e_held e_wire] in *; try by eauto.
  - exists n. rewrite !len_app. split; [cbn in *; unfold len in *; cbn; lia|done].
  - exists (n + 1). split; [|by eapply stalled_push]. rewrite len_app, len_cons in Hn. rewrite len_app. lia.
  - exists n. split; [done|]. by apply stalled_sync.
Qed.

Lemma arriving_step kr c0 fsize nf nr s s' :
  0 <= kr <= 31 -> rx_kernel_step fsize nf nr s s' ->
  stalled kr c0 (len (e_arrived s.2)) (e_rx s.2) (e_rxp s.2) ->
  stalled kr c0 (len (e_arrived s'.2)) (e_rx s'.2) (e_rxp s'.2).
Proof.
  intros Hk Hs Hst. destruct Hs; cbn [fst snd e_arrived e_rx e_rxp] in *; try done.
  - rewrite len_app. by eapply stalled_push.
  - by apply stalled_sync.
Qed.

(** The kernel does not move the producer of the fill ring. *)
Lemma rx_step_fill_producer fsize nf nr s s' :
  rx_kernel_step fsize nf nr s s' -> rm_producer (e_fill s'.2) = rm_producer (e_fill s.2).
Proof. by intros []. Qed.

(** ** The invariant *)

(** Frames on the transmit side: in the TX ring, with the kernel, in the
    completion ring. *)
Definition tx_frames (fsize : Z) (e : tx_env) (qt : list XdpDesc) (qc : list Z) : list Z :=
  frame_of fsize <$> ((xd_addr <$> qt) ++ (xd_addr <$> e_held e) ++ qc).

(** Every frame is in exactly one place: held by the loop or lost ([own]), free,
    on the receive side or on the transmit side. [seen] are the packets read, [sent]
    the frames queued; [cq0], [rx0] and [fp0] are the counters of the completion,
    RX and fill rings at the start. *)
Record relay_ok {K} (kf kr kt kc cq0 rx0 fp0 : Z) (s : relay_state K) (own : list Z)
  (qf : list Z) (qr qt : list XdpDesc) (qc : list Z) (seen sent : list (list Z)) : Prop := mkRelayOk {
  ro_sizes : relay_sizes s = mkSizes (frame_size (r_umem s)) (2 ^ kf) (2 ^ kr) (2 ^ kt) (2 ^ kc);
  ro_umem : slice_umem_wf (r_umem s);
  ro_rx_rings : rx_rings_hold kf kr (fr_producer (r_fill s)) (rx_consumer (r_rx s)) (r_re s) qf qr;
  ro_tx_rings : rings_hold kt kc (tx_producer (r_tx s)) (cr_consumer (r_completion s)) (r_te s) qt qc;
  ro_frames : own ++ free_bases (r_umem s) ++ rx_frames (frame_size (r_umem s)) (r_re s) qf qr
              ++ tx_frames (frame_size (r_umem s)) (r_te s) qt qc ≡ₚ all_frames (r_umem s);
  ro_rx_descs : Forall (desc_in_frame (frame_size (r_umem s))) qr;
  ro_tx_descs : Forall (desc_in_frame (frame_size (r_umem s))) qt;
  ro_arrived : e_arrived (r_re s) = seen ++ (desc_bytes (buffer (r_umem s)) <$> qr);
  ro_wire : e_wire (r_te s) ++ (desc_bytes (buffer (r_umem s)) <$> qt) = sent;
  ro_completing : completing kc cq0 (r_te s);
  ro_room : 2 ^ kt - len sent <= TxRing_available (r_tx s);
  ro_unread : Forall (fun p => filtered p) seen ->
    r_batch s = 0 /\ stalled kr rx0 (len (e_arrived (r_re s))) (e_rx (r_re s)) (e_rxp (r_re s)) /\
    rm_producer (e_fill (r_re s)) = fp0;
}.

Section relay_facts.
Context `{BuildProfile} {K : Type} `{XskDuplexOk K}.
Context (kf kr kt kc cq0 rx0 fp0 : Z).
Hypothesis Hkf : 0 <= kf <= 31.
Hypothesis Hkr : 0 <= kr <= 31.
Hypothesis Hkt : 0 <= kt <= 31.
Hypothesis Hkc : 0 <= kc <= 31.
Implicit Types (s : relay_state K).

Definition relay_inv (own : list Z) (seen sent : list (list Z)) (s : relay_state K) : Prop :=
  exists qf qr qt qc, relay_ok kf kr kt kc cq0 rx0 fp0 s own qf qr qt qc seen sent.

(** What the ring calls and the kernel leave alone. *)
Definition relay_same s s' : Prop :=
  r_rx s' = r_rx s /\ r_batch s' = r_batch s /\ r_total s' = r_total s.

(** *** Frames *)

(** A frame on the transmit side is not one the kernel receives into. *)
Lemma tx_frame_not_writable s own qf qr qt qc seen sent d :
  relay_ok kf kr kt kc cq0 rx0 fp0 s own qf qr qt qc seen sent -> d ∈ qt ->
  desc_frame (frame_size (r_umem s)) d ∉ writable (frame_size (r_umem s)) (r_re s) qf.
Proof.
  intros [_ Hwf _ _ Hp _ _ _ _ _ _ _] Hd Hw. pose proof (all_frames_nodup _ Hwf) as Hnd. rewrite <-Hp in Hnd.
  apply NoDup_app in Hnd as (_ & _ & Hnd). apply NoDup_app in Hnd as (_ & _ & Hnd).
  apply NoDup_app in Hnd as (_ & Hnd & _). apply (Hnd (desc_frame (frame_size (r_umem s)) d)).
  - unfold rx_frames, writable in *. rewrite app_assoc, elem_of_app. by left.
  - unfold tx_frames. rewrite !fmap_app, !elem_of_app. left. rewrite <-list_fmap_compose.
    apply list_elem_of_fmap. by exists d.
Qed.

Lemma relay_rx_wf s own qf qr qt qc seen sent :
  relay_ok kf kr kt kc cq0 rx0 fp0 s own qf qr qt qc seen sent ->
  rx_wf (frame_size (r_umem s)) (buffer (r_umem s)) (r_re s) qf qr seen.
Proof.
  intros [_ Hwf _ _ Hp Hd _ Ha _ _ _ _]. split; try done.
  - pose proof (all_frames_nodup _ Hwf) as Hnd. rewrite <-Hp in Hnd.
    apply NoDup_app in Hnd as (_ & _ & Hnd). apply NoDup_app in Hnd as (_ & _ & Hnd). by apply NoDup_app in Hnd as [? _].
  - apply Forall_forall. intros f Hf. destruct (all_frames_inside (r_umem s) f Hwf) as (? & ? & _); [|done].
    rewrite <-Hp, !elem_of_app. by right; right; left.
Qed.

(** *** The kernel *)

Lemma duplex_step_ok s k own seen sent d d' :
  relay_inv own seen sent (with_duplex s (k, d)) ->
  duplex_step (mkSizes (frame_size (r_umem s)) (2 ^ kf) (2 ^ kr) (2 ^ kt) (2 ^ kc)) d d' ->
  relay_inv own seen sent (with_duplex s (k, d')).
Proof.
  intros (qf & qr & qt & qc & Ho) Hs. pose proof (relay_rx_wf _ _ _ _ _ _ _ _ Ho) as Hw.
  pose proof (fun d => tx_frame_not_writable _ _ _ _ _ _ _ _ d Ho) as Hnw.
  destruct Hs as [buf te te' re Hs|buf te re buf' re' Hs]; destruct Ho as [A B C D E F G I J L R M]; cbn in * |-.
  - destruct (kernel_step_moves kt kc Hkt Hkc _ _ _ _ _ _ _ D Hs) as (qt' & qc' & D' & [Mf Mw Mq _ _]).
    exists qf, qr, qt', qc'. split; cbn; try done.
    + rewrite <-E. do 3 apply Permutation_app_head. unfold tx_frames. by rewrite Mf.
    + destruct Mq as [l ->]. by apply Forall_app in G as [_ ?].
    + by rewrite Mw.
    + by eapply completing_step.
  - pose proof B as ([Hfs _] & _ & _). cbn in Hfs.
    destruct (rx_kernel_step_moves _ kf kr Hfs Hkf Hkr _ _ (buf, re) _ _ _ _ C Hw Hs)
      as (qf' & qr' & C' & [_ _ F' I'] & [Mp _ Ml Mo _ _]). cbn in *.
    exists qf', qr', qt, qc. split; cbn; try done.
    + unfold slice_umem_wf. cbn. by rewrite Ml.
    + rewrite <-E. do 2 apply Permutation_app_head. by rewrite Mp.
    + rewrite <-J. f_equal. apply list_fmap_ext. intros i d Hd%list_elem_of_lookup_2.
      apply Mo; [by apply (proj1 (Forall_forall _ _) G)|by apply Hnw].
    + intros Hf. destruct (M Hf) as (? & Hst & Hfp). split; [done|]. split.
      * exact (arriving_step kr rx0 _ _ _ _ _ Hkr Hs Hst).
      * by etrans; [exact (rx_step_fill_producer _ _ _ _ _ Hs)|].
Qed.

Lemma with_duplex_ok s k d own seen sent :
  relay_inv own seen sent s -> rtc (duplex_step (relay_sizes s)) (duplex_of s) d ->
  relay_inv own seen sent (with_duplex s (k, d)) /\ relay_same s (with_duplex s (k, d)).
Proof.
  intros Hi Hs. pose proof Hi as (? & ? & ? & ? & [A _ _ _ _ _ _ _ _ _ _ _]). split; [|by destruct d as [[buf te] re]].
  rewrite A in Hs. assert (relay_inv own seen sent (with_duplex s (k, duplex_of s))) as Hi0.
  { destruct Hi as (qf & qr & qt & qc & Ho). exists qf, qr, qt, qc. destruct s as [[] ? ? ? ? ? ? ? ? ?]. destruct Ho. by split. }
  revert Hi0. induction Hs as [d|d1 d2 d3 H12 _ IH]; intros Hi0; [done|].
  apply IH. by eapply duplex_step_ok.
Qed.

Lemma duplex_runs_ok s own seen sent :
  relay_inv own seen sent s -> relay_inv own seen sent (duplex_runs s) /\ relay_same s (duplex_runs s).
Proof.
  intros Hi. unfold duplex_runs. pose proof (duplex_follows (relay_sizes s) (r_kernel s) (duplex_of s)) as Hs.
  destruct (duplex_turn _ _ _). by apply with_duplex_ok.
Qed.
Lemma duplex_woken_ok s own seen sent :
  relay_inv own seen sent s -> relay_inv own seen sent (duplex_woken s) /\ relay_same s (duplex_woken s).
Proof.
  intros Hi. unfold duplex_woken. pose proof (duplex_wake_follows (relay_sizes s) (r_kernel s) (duplex_of s)) as Hs.
  destruct (duplex_wake _ _ _). by apply with_duplex_ok.
Qed.

(** *** Ring calls *)

Lemma relay_rx_sync_ok s own seen sent :
  relay_inv own seen sent s ->
  relay_inv own seen sent (relay_rx_sync s) /\ r_total (relay_rx_sync s) = r_total s.
Proof.
  intros Hi. destruct (duplex_runs_ok s _ _ _ Hi) as ((qf & qr & qt & qc & [A B [C1 C2] D E F G I J L R M]) & _ & _ & Et).
  split; [|done]. exists qf, qr, qt, qc. split; try done. split; [done|]. cbn.
  eapply (ring_holds_tau kr Hkr); [exact C2|]. by eapply (sp_sync_cons _ _ _ _ false).
Qed.

Lemma relay_tx_sync_ok s own seen sent :
  relay_inv own seen sent s ->
  relay_inv own seen sent (relay_tx_sync s) /\ r_total (relay_tx_sync s) = r_total s.
Proof.
  intros Hi. destruct (duplex_runs_ok s _ _ _ Hi) as ((qf & qr & qt & qc & [A B C [D1 D2] E F G I J L R M]) & _ & _ & Et).
  split; [|done]. exists qf, qr, qt, qc. split; try done.
  - split; [|done]. cbn. eapply (ring_holds_tau kt Hkt); [exact D1|]. by eapply (sp_sync_prod _ _ _ _ false).
  - etrans; [exact R|]. apply (rp_sync_available kt Hkt _ _ _ _ D1).
Qed.

Lemma relay_completion_sync_ok s own seen sent :
  relay_inv own seen sent s ->
  relay_inv own seen sent (relay_completion_sync s) /\ r_total (relay_completion_sync s) = r_total s.
Proof.
  intros Hi. destruct (duplex_runs_ok s _ _ _ Hi) as ((qf & qr & qt & qc & [A B C [D1 D2] E F G I J L R M]) & _ & _ & Et).
  split; [|done]. exists qf, qr, qt, qc. split; try done. split; [done|]. cbn.
  eapply (ring_holds_tau kc Hkc); [exact D2|]. by eapply (sp_sync_cons _ _ _ _ false).
Qed.

Lemma relay_fill_sync_ok s own seen sent :
  relay_inv own seen sent s ->
  relay_inv own seen sent (relay_fill_sync s) /\ r_total (relay_fill_sync s) = r_total s.
Proof.
  intros Hi. destruct (duplex_runs_ok s _ _ _ Hi) as ((qf & qr & qt & qc & [A B [C1 C2] D E F G I J L R M]) & _ & _ & Et).
  split; [|done]. exists qf, qr, qt, qc. split; try done. split; [|done]. cbn.
  eapply (ring_holds_tau kf Hkf); [exact C1|]. by eapply (sp_sync_prod _ _ _ _ false).
Qed.

(** Committing the three rings, once some packet was not filtered. *)
Lemma relay_commit_ok s own seen sent :
  ~ Forall (fun p => filtered p) seen ->
  relay_inv own seen sent s ->
  relay_inv own seen sent (relay_commit s) /\ relay_same s (relay_commit s).
Proof.
  intros Hn (qf & qr & qt & qc & [A B [C1 C2] [D1 D2] E F G I J L R M]). split; [|done].
  exists qf, qr, qt, qc. split; try done; cbn.
  - split; cbn.
    + eapply (ring_holds_tau kf Hkf); [exact C1|apply sp_commit_prod].
    + eapply (ring_holds_tau kr Hkr); [exact C2|apply sp_commit_cons].
  - split; cbn; [|done]. eapply (ring_holds_tau kt Hkt); [exact D1|apply sp_commit_prod].
Qed.

Lemma relay_wake_ok s own seen sent :
  relay_inv own seen sent s -> relay_inv own seen sent (relay_wake s) /\ relay_same s (relay_wake s).
Proof.
  intros Hi. unfold relay_wake. destruct (duplex_runs_ok s _ _ _ Hi) as [Hi1 (E1 & E2 & E3)].
  set (s1 := duplex_runs s) in *. cbn zeta. destruct (TxRing_needs_wakeup _); [|done].
  destruct (duplex_woken_ok s1 _ _ _ Hi1) as [Hi2 (F1 & F2 & F3)].
  assert (relay_same s (duplex_woken s1)) by (unfold relay_same; split_and!; congruence).
  by destruct (TxRing_wake _).
Qed.

Lemma relay_counts_ok s own seen sent batch total :
  ~ Forall (fun p => filtered p) seen ->
  relay_inv own seen sent s -> relay_inv own seen sent (rl_counts s batch total).
Proof.
  intros Hn (qf & qr & qt & qc & [A B C D E F G I J L R M]). by exists qf, qr, qt, qc.
Qed.

Lemma count_packet_ok s own seen sent :
  ~ Forall (fun p => filtered p) seen -> relay_inv own seen sent s ->
  relay_inv own seen sent (count_packet s) /\ r_rx (count_packet s) = r_rx s /\ r_total (count_packet s) = r_total s.
Proof.
  intros Hn Hi. unfold count_packet. destruct (_ <=? _).
  - destruct (relay_commit_ok s _ _ _ Hn Hi) as [Hi1 (E1 & E2 & E3)].
    destruct (relay_wake_ok _ _ _ _ Hi1) as [Hi2 (F1 & F2 & F3)].
    split; [by apply relay_counts_ok|]. cbn. split; congruence.
  - split; [by apply relay_counts_ok|done].
Qed.

(** *** One packet *)

Lemma address_inside u a :
  slice_umem_wf u -> frame_of (frame_size u) a ∈ all_frames u ->
  0 <= a < len (buffer u) /\ frame_of (frame_size u) a + frame_size u <= len (buffer u) /\ wrap 64 a = a.
Proof.
  intros Hwf Hin. destruct (all_frames_inside _ _ Hwf Hin) as (? & ? & _). pose proof Hwf as ([? ?] & ? & _).
  pose proof (frame_of_range (frame_size u) a ltac:(lia)). split_and!; try lia.
  apply wrap_small. unfold is_uint. lia.
Qed.

Lemma ring_push_full {T} (m : ring_mem T) p size v : rp_available p = 0 -> ring_push m p size v = Done None.
Proof. intros E. unfold ring_push, rp_produce. by rewrite E. Qed.

(** A frame the loop holds goes to the fill ring or the free list. *)
Lemma return_frame_ok s a own seen sent :
  relay_inv (frame_of (frame_size (r_umem s)) a :: own) seen sent s ->
  exists s', return_frame a s = Done s' /\ relay_inv own seen sent s' /\ relay_same s s'.
Proof.
  intros (qf & qr & qt & qc & [A B [C1 C2] D E F G I J L R M]). cbn [app] in E.
  assert (frame_of (frame_size (r_umem s)) a ∈ all_frames (r_umem s)) as Hin by (rewrite <-E; by left).
  destruct (address_inside _ _ B Hin) as (_ & _ & Hw). unfold return_frame, RxFillRing_write. cbn -[wrap].
  rewrite Hw. pose proof A as [= Hf _ _ _]. rewrite Hf.
  pose proof (ring_holds_bounds kf Hkf _ _ _ _ C1) as ([Hav _] & _).
  destruct (decide (0 < rp_available (fr_producer (r_fill s)))) as [Hpos|Hz].
  - destruct (ring_holds_push kf Hkf _ _ _ _ a C1 Hpos) as (m' & p' & Hpush & C1' & _). rewrite Hpush, !bind_Done.
    eexists. split; [done|]. split; [|done]. exists (qf ++ [a]), qr, qt, qc.
    split; try done; cbn; [unfold relay_sizes in *; cbn; congruence| |by rewrite (ring_push_producer _ _ _ _ _ _ Hpush)].
    rewrite <-E. unfold rx_frames. cbn. rewrite fmap_app. cbn. rewrite <-!app_assoc. cbn. solve_Permutation.
  - rewrite ring_push_full, !bind_Done by lia.
    destruct (release_address _ _ B Hin) as (u & -> & Hwf & Hfr & Ha & Hb & Hs). rewrite bind_Done.
    eexists. split; [done|]. split; [|done]. exists qf, qr, qt, qc. split; cbn; try done; rewrite ?Hs, ?Hb; try done.
    + unfold relay_sizes in *. cbn. by rewrite Hs.
    + rewrite Ha, <-E, Hfr. solve_Permutation.
Qed.

(** Writing into a frame the loop holds changes no packet in a ring. *)
Lemma own_write_ok s a t own seen sent :
  let u := r_umem s in
  a + len t <= frame_of (frame_size u) a + frame_size u ->
  relay_inv (frame_of (frame_size u) a :: own) seen sent s ->
  relay_inv (frame_of (frame_size u) a :: own) seen sent
    (rl_umem s (mkSliceUmem (splice (buffer u) a t) (frame_size u) (available_frames u) (capacity u))).
Proof.
  intros u Ht (qf & qr & qt & qc & [A B C D E F G I J L R M]). fold u in A, B, E, F, G, I, J. pose proof E as E'. cbn [app] in E'.
  assert (frame_of (frame_size u) a ∈ all_frames u) as Hin by (rewrite <-E'; by left).
  destruct (address_inside _ _ B Hin) as (Ha & Hl & _). pose proof B as ([Hfs _] & _).
  assert (NoDup (frame_of (frame_size u) a :: own ++ free_bases u ++ rx_frames (frame_size u) (r_re s) qf qr
    ++ tx_frames (frame_size u) (r_te s) qt qc)) as Hnd by (rewrite E'; by apply all_frames_nodup).
  apply NoDup_cons in Hnd as [Hnd _]. rewrite !elem_of_app in Hnd.
  assert (forall d, desc_in_frame (frame_size u) d -> desc_frame (frame_size u) d <> frame_of (frame_size u) a ->
    desc_bytes (splice (buffer u) a t) d = desc_bytes (buffer u) d) as Hout.
  { intros d Hd Hne. apply (desc_bytes_splice (frame_size u)); try done; lia. }
  exists qf, qr, qt, qc. split; cbn; try done.
  - unfold slice_umem_wf. cbn. rewrite splice_len by lia. done.
  - rewrite I. f_equal. apply list_fmap_ext. intros i d Hd%list_elem_of_lookup_2. symmetry. apply Hout.
    + by apply (proj1 (Forall_forall _ _) F).
    + intros Ed. apply Hnd. right; right; left. unfold rx_frames. rewrite !elem_of_app. right; right.
      rewrite <-Ed. apply list_elem_of_fmap. by exists d.
  - rewrite <-J. f_equal. apply list_fmap_ext. intros i d Hd%list_elem_of_lookup_2. apply Hout.
    + by apply (proj1 (Forall_forall _ _) G).
    + intros Ed. apply Hnd. right; right; right. unfold tx_frames. rewrite !fmap_app, !elem_of_app. left.
      rewrite <-Ed, <-list_fmap_compose. apply list_elem_of_fmap. by exists d.
Qed.

(** Queueing a frame the loop holds for transmission. *)
Lemma queue_frame_ok s a n own seen sent :
  let u := r_umem s in
  0 <= n -> a + n <= frame_of (frame_size u) a + frame_size u ->
  relay_inv (frame_of (frame_size u) a :: own) seen sent s ->
  exists w m r, TxRing_write (e_tx (r_te s)) (r_tx s) (from_offset (mkFrameOffset a) n) 0 = Done (w, m, r) /\
    match w with
    | Ok _ => relay_inv own seen (sent ++ [desc_bytes (buffer u) (mkXdpDesc a n 0)]) (rl_tx s m r)
    | Err _ => rl_tx s m r = s /\ 2 ^ kt <= len sent
    end.
Proof.
  intros u Hn Ht (qf & qr & qt & qc & [A B C [D1 D2] E F G I J L R M]). fold u in A, B, E, F, G, I, J. cbn [app] in E.
  assert (frame_of (frame_size u) a ∈ all_frames u) as Hin by (rewrite <-E; by left).
  destruct (address_inside _ _ B Hin) as (Ha & Hl & Hw). pose proof B as ([Hfs Hfs'] & _).
  pose proof (frame_of_range (frame_size u) a Hfs).
  unfold TxRing_write. cbn -[wrap]. rewrite Hw, (wrap_small 32 n) by (unfold is_uint; lia).
  pose proof A as [= _ _ Hsz _]. rewrite Hsz.
  pose proof (ring_holds_bounds kt Hkt _ _ _ _ D1) as ([Hav _] & _).
  destruct (decide (0 < rp_available (tx_producer (r_tx s)))) as [Hpos|Hz].
  - destruct (ring_holds_push kt Hkt _ _ _ _ (mkXdpDesc a n 0) D1 Hpos) as (m' & p' & -> & D1' & Hav' & _). rewrite !bind_Done.
    eexists _, _, _. split; [done|]. cbn. exists qf, qr, (qt ++ [mkXdpDesc a n 0]), qc. split; cbn; try done.
    + unfold relay_sizes in *. cbn. congruence.
    + fold u. rewrite <-E. unfold tx_frames. cbn. rewrite !fmap_app. cbn. rewrite <-!app_assoc. cbn. solve_Permutation.
    + apply Forall_app_2; [done|]. apply Forall_singleton. unfold desc_in_frame. cbn. fold u. lia.
    + fold u. by rewrite fmap_app, app_assoc, J.
    + rewrite len_app. unfold TxRing_available in *. cbn. unfold len at 2. cbn. lia.
  - rewrite ring_push_full, !bind_Done by lia. eexists _, _, _. split; [done|]. cbn.
    unfold TxRing_available in R. split; [|lia]. unfold rl_tx, set_tx. destruct s as [? ? ? [] ? [] ? ? ? ?]. cbn in *. congruence.
Qed.

(** Rewriting and queueing a packet, or giving its frame back when the TX ring
    is full. *)
Lemma forward_packet_ok e d s own seen sent :
  let u := r_umem s in
  endpoints_ok e -> desc_in_frame (frame_size u) d -> 42 <= xd_len d ->
  relay_inv (desc_frame (frame_size u) d :: own) seen sent s ->
  exists s' new, forward_packet e (xd_addr d) (xd_len d) s = Done s' /\
    relay_inv own seen (sent ++ new) s' /\ relay_same s s' /\
    (new = [frame_bytes e (drop 42 (desc_bytes (buffer u) d))] \/ new = [] /\ 2 ^ kt <= len sent).
Proof.
  intros u He (Hd1 & Hd2 & Hd3) Hlen Hi. pose proof Hi as (qf & qr & qt & qc & [_ B _ _ E _ _ _ _ _ _ _]).
  fold u in B, E. cbn [app] in E.
  assert (desc_frame (frame_size u) d ∈ all_frames u) as Hin by (rewrite <-E; by left).
  destruct (address_inside _ _ B Hin) as (Ha & Hl & Hw). unfold desc_frame in *.
  set (pkt := desc_bytes (buffer u) d). assert (len pkt = xd_len d) as Lp.
  { unfold pkt, desc_bytes. rewrite len_take, len_drop. lia. }
  set (img := frame_bytes e (drop 42 pkt)). assert (len img = xd_len d) as Li.
  { unfold img. rewrite frame_bytes_len, len_drop by done. lia. }
  unfold forward_packet, map_frame_mut, map_frame. cbn [frame_offset frame_len fo f_offset f_len SliceUmemFrame_Frame umem_mem SliceUmem_Umem]. fold u.
  unfold umem_len. cbn [umem_mem SliceUmem_Umem]. rewrite decide_True, bind_Done by lia.
  change (take _ (drop _ (buffer u))) with pkt. rewrite write_headers_eq, bind_Done by (done || lia).
  assert (xd_len d - PACKET_HEADER_SIZE = len (drop 42 pkt)) as -> by (change PACKET_HEADER_SIZE with 42; rewrite len_drop, Lp; lia).
  change (eth_header _ _ ++ _) with img. rewrite bind_Done. cbn [umem_set_mem].
  replace (take _ (buffer u) ++ img ++ drop _ (buffer u)) with (splice (buffer u) (xd_addr d) img)
    by (unfold splice; do 3 f_equal; unfold len in Li; lia).
  pose proof (own_write_ok s (xd_addr d) img own seen sent) as Hown. cbn zeta in Hown. fold u in Hown.
  specialize (Hown ltac:(lia) Hi). set (s1 := rl_umem s _) in *.
  destruct (queue_frame_ok s1 (xd_addr d) (xd_len d) own seen sent) as (w & m & r & -> & Hq); [done..|]. rewrite bind_Done.
  destruct w as [[]|].
  - exists (rl_tx s1 m r), [img]. split_and!; try done; [|by left].
    replace img with (desc_bytes (buffer (r_umem s1)) (mkXdpDesc (xd_addr d) (xd_len d) 0)); [done|].
    cbn. rewrite <-Li. apply desc_bytes_written; lia.
  - destruct Hq as [-> Hfull]. destruct (return_frame_ok s1 (xd_addr d) own seen sent Hown) as (s2 & -> & Hi2 & Hs).
    exists s2, []. rewrite app_nil_r. split_and!; try done; by (apply Hs || right).
Qed.

Lemma relay_total_ok s own seen sent total :
  relay_inv own seen sent s -> relay_inv own seen sent (rl_counts s (r_batch s) total).
Proof. intros (qf & qr & qt & qc & [A B C D E F G I J L R M]). by exists qf, qr, qt, qc. Qed.

(** The protocol byte the loop looks at. *)
Lemma protocol_byte pkt :
  24 <= len pkt ->
  slice_from pkt ETH_HEADER_SIZE = Done (drop 14 pkt) /\ slice_get (drop 14 pkt) 9 = Done (nth 23 pkt 0).
Proof.
  intros Hl. unfold ETH_HEADER_SIZE. rewrite slice_from_Done by lia. split; [done|].
  apply slice_get_lookup; [done|]. rewrite lookup_drop. change (pkt !! 23%nat = Some (nth 23 pkt 0)).
  destruct (lookup_lt_is_Some_2 pkt 23) as [x Hx]; [unfold len in Hl; lia|]. by rewrite (nth_lookup_Some _ _ _ _ Hx).
Qed.

(** What the packets [seen] make the loop queue: nothing else, in order, and
    everything until the TX ring has been filled once. *)
Definition relayed (cfg : relay_config) (seen sent : list (list Z)) : Prop :=
  sent `sublist_of` omap (relay_image cfg) seen /\
  (len sent < 2 ^ kt -> sent = omap (relay_image cfg) seen).

Lemma relayed_snoc cfg seen sent pkt new :
  relayed cfg seen sent ->
  (new = option_list (relay_image cfg pkt) \/ new = [] /\ 2 ^ kt <= len sent) ->
  relayed cfg (seen ++ [pkt]) (sent ++ new).
Proof.
  intros [R1 R2] Hnew. unfold relayed. rewrite omap_app.
  assert (omap (relay_image cfg) [pkt] = option_list (relay_image cfg pkt)) as Ei by (cbn; by destruct (relay_image cfg pkt)).
  rewrite Ei. pose proof (len_nonneg new). destruct Hnew as [->|[-> Hfull]].
  - split; [by apply sublist_app|]. rewrite len_app. intros ?. rewrite R2 by lia. done.
  - split; [apply sublist_app; [done|apply sublist_nil_l]|]. rewrite app_nil_r. lia.
Qed.

(** The body of the packet loop. *)
Lemma relay_packet_ok cfg d s own seen sent :
  let u := r_umem s in
  let pkt := desc_bytes (buffer u) d in
  relay_config_ok cfg -> desc_in_frame (frame_size u) d -> 0 <= r_total s < 2 ^ 64 - 1 ->
  relay_inv (desc_frame (frame_size u) d :: own) (seen ++ [pkt]) sent s ->
  exists s' new, relay_packet cfg d s = Done s' /\ relay_inv own (seen ++ [pkt]) (sent ++ new) s' /\
    r_rx s' = r_rx s /\ r_total s' = r_total s + 1 /\
    (new = option_list (relay_image cfg pkt) \/ new = [] /\ 2 ^ kt <= len sent).
Proof.
  intros u pkt Hcfg Hd Htot Hi. pose proof Hi as (qf & qr & qt & qc & [_ B _ _ E _ _ _ _ _ _ _]).
  fold u in B, E. cbn [app] in E.
  assert (desc_frame (frame_size u) d ∈ all_frames u) as Hin by (rewrite <-E; by left).
  destruct (address_inside _ _ B Hin) as (Ha & Hl & Hw). unfold desc_frame in *. pose proof Hd as (Hd1 & Hd2 & Hd3).
  assert (len pkt = xd_len d) as Lp by (unfold pkt, desc_bytes; rewrite len_take, len_drop; lia).
  unfold relay_packet. rewrite Hw, add_u_Done, bind_Done by lia.
  set (s1 := rl_counts s _ _). assert (relay_inv (frame_of (frame_size u) (xd_addr d) :: own) (seen ++ [pkt]) sent s1) as Hi1 by (by apply relay_total_ok).
  destruct (return_frame_ok s1 _ _ _ _ Hi1) as (s2 & Hret & Hi2 & Es1 & Es2 & Es3).
  unfold relay_image, filtered. rewrite Lp. change (PACKET_HEADER_SIZE + VOTE_SIZE_THRESHOLD) with 442.
  case_decide as Hsmall; change (PACKET_HEADER_SIZE + VOTE_SIZE_THRESHOLD) with 442 in Hsmall.
  { rewrite (proj2 (Z.ltb_lt _ _) Hsmall). exists s2, []. rewrite app_nil_r. split_and!; try done. by left. }
  rewrite (proj2 (Z.ltb_ge (xd_len d) 442)) by lia. cbn [orb].
  unfold map_frame, umem_len. cbn [frame_offset frame_len fo f_offset f_len SliceUmemFrame_Frame umem_mem SliceUmem_Umem].
  change (buffer (r_umem s1)) with (buffer u). rewrite decide_True, bind_Done by lia.
  change (take _ (drop _ (buffer u))) with pkt. destruct (protocol_byte pkt ltac:(lia)) as [-> Hproto].
  rewrite bind_Done, Hproto, bind_Done.
  case_decide as Hudp.
  { rewrite (proj2 (Z.eqb_neq _ _) Hudp). exists s2, []. rewrite app_nil_r. split_and!; try done. by left. }
  rewrite (proj2 (Z.eqb_eq _ _) Hudp). cbn [negb].
  assert (~ Forall (fun p => filtered p) (seen ++ [pkt])) as Hn.
  { intros [_ [Hf _]%Forall_cons]%Forall_app. unfold filtered in Hf. rewrite Lp, Hudp in Hf.
    change (PACKET_HEADER_SIZE + VOTE_SIZE_THRESHOLD) with 442 in Hf. by rewrite (proj2 (Z.ltb_ge (xd_len d) 442)) in Hf by lia. }
  unfold relay_config_ok in Hcfg. destruct (relay_endpoints cfg) as [e|].
  - destruct (forward_packet_ok e d s1 own (seen ++ [pkt]) sent Hcfg Hd ltac:(lia) Hi1)
      as (s3 & new & -> & Hi3 & (F1 & F2 & F3) & Hnew). rewrite bind_Done.
    destruct (count_packet_ok s3 _ _ _ Hn Hi3) as (Hi4 & G1 & G2).
    exists (count_packet s3), new. split_and!; [done|done|by rewrite G1, F1|by rewrite G2, F3|].
    destruct Hnew as [->|?]; [by left|by right].
  - rewrite Hret, bind_Done. destruct (count_packet_ok s2 _ _ _ Hn Hi2) as (Hi4 & G1 & G2).
    exists (count_packet s2), []. rewrite app_nil_r. split_and!; [done|done|by rewrite G1, Es1|by rewrite G2, Es3|by left].
Qed.

(** *** The loops of a round *)

Lemma relay_packets_ok cfg s own seen sent :
  relay_config_ok cfg -> 0 <= r_total s -> r_total s + RxRing_available (r_rx s) < 2 ^ 64 ->
  relay_inv own seen sent s -> r_total s = len seen -> relayed cfg seen sent ->
  exists s' seen' sent', relay_packets cfg s = Done s' /\ relay_inv own seen' sent' s' /\
    relayed cfg seen' sent' /\ r_total s' = len seen' /\ len seen' = len seen + RxRing_available (r_rx s) /\
    RxRing_available (r_rx s') = 0.
Proof.
  intros Hcfg Htot Hmax Hi Et Hrel. unfold relay_packets. set (n0 := len seen + RxRing_available (r_rx s)).
  set (Inv := fun s1 : relay_state K => exists seen1 sent1, relay_inv own seen1 sent1 s1 /\ relayed cfg seen1 sent1 /\
    r_total s1 = len seen1 /\ len seen1 + RxRing_available (r_rx s1) = n0).
  destruct (loop_spec Inv (fun s1 => Inv s1 /\ RxRing_available (r_rx s1) = 0)
    (fun s1 => Z.to_nat (RxRing_available (r_rx s1))) (relay_packets_step cfg))
    with (fuel := S (Z.to_nat (RxRing_available (r_rx s)))) (s := s)
    as (s' & -> & (seen' & sent' & ? & ? & ? & ?) & ?).
  - intros s1 (seen1 & sent1 & Hi1 & Hrel1 & Et1 & En). unfold relay_packets_step, RxRing_read.
    pose proof Hi1 as (qf & qr & qt & qc & [A B [C1 C2] D E F G I J L R M]).
    pose proof A as [= _ Hsz _ _]. rewrite Hsz.
    pose proof (ring_holds_bounds kr Hkr _ _ _ _ C2) as (_ & [Hb _] & _). fold (RxRing_available (r_rx s1)) in Hb.
    pose proof (ring_holds_pop kr Hkr _ _ _ _ C2) as Hpop. fold (RxRing_available (r_rx s1)) in Hpop.
    case_decide as Hz.
    { rewrite Hpop, !bind_Done. eexists. split; [done|]. split; [by exists seen1, sent1|done]. }
    destruct Hpop as (d & qr' & c' & -> & -> & C2' & Hav & _). rewrite !bind_Done.
    apply Forall_cons in F as [Fd F]. set (s2 := rl_rx s1 _ _).
    assert (relay_inv (desc_frame (frame_size (r_umem s2)) d :: own) (seen1 ++ [desc_bytes (buffer (r_umem s2)) d]) sent1 s2) as Hi2.
    { exists qf, qr', qt, qc. split; cbn; try done; [unfold relay_sizes in *; cbn; congruence| | |].
      - rewrite <-E. unfold rx_frames. cbn. solve_Permutation.
      - by rewrite <-app_assoc.
      - intros [Hf _]%Forall_app. by apply M. }
    pose proof (len_nonneg seen1).
    destruct (relay_packet_ok cfg d s2 own seen1 sent1 Hcfg Fd ltac:(cbn; lia) Hi2)
      as (s3 & new & -> & Hi3 & E1 & E2 & Hnew). rewrite bind_Done. eexists. split; [done|].
    assert (RxRing_available (r_rx s3) = RxRing_available (r_rx s1) - 1) as Eav by (rewrite E1; exact Hav).
    split; [|lia]. eexists _, _. split; [exact Hi3|]. split; [by apply relayed_snoc|].
    rewrite E2, len_app, Eav. cbn. unfold len at 2 4. cbn. lia.
  - by exists seen, sent.
  - lia.
  - exists s', seen', sent'. split_and!; try done. lia.
Qed.

Lemma relay_release_ok s own seen sent :
  relay_inv own seen sent s ->
  exists s', relay_release s = Done s' /\ relay_inv own seen sent s' /\ relay_same s s'.
Proof.
  intros Hi. unfold relay_release.
  destruct (loop_spec (fun s' => relay_inv own seen sent s' /\ relay_same s s') (fun s' => relay_inv own seen sent s' /\ relay_same s s')
    (fun s' => Z.to_nat (rc_available (cr_consumer (r_completion s')))) relay_release_step)
    with (fuel := S (Z.to_nat (rc_available (cr_consumer (r_completion s))))) (s := s) as (s' & -> & ?).
  - intros s1 [(qf & qr & qt & qc & [A B C [D1 D2] E F G I J L R M]) Hs].
    unfold relay_release_step, TxCompletionRing_read. pose proof A as [= _ _ _ Hsz]. rewrite Hsz.
    pose proof (ring_holds_bounds kc Hkc _ _ _ _ D2) as (_ & [Hb _] & _).
    pose proof (ring_holds_pop kc Hkc _ _ _ _ D2) as Hpop. case_decide as Hz.
    { rewrite Hpop, !bind_Done. eexists. split; [done|]. split; [by exists qf, qr, qt, qc|done]. }
    destruct Hpop as (a & qc' & c' & -> & -> & D2' & Hav & _). rewrite !bind_Done.
    assert (frame_of (frame_size (r_umem s1)) a ∈ all_frames (r_umem s1)) as Hin.
    { rewrite <-E. unfold tx_frames. rewrite !fmap_app, !elem_of_app. cbn. set_solver. }
    destruct (address_inside _ _ B Hin) as (_ & _ & ->).
    destruct (release_address _ _ B Hin) as (u & -> & Hwf & Hfr & Ha & Hb' & Hfs). rewrite bind_Done.
    eexists. split; [done|]. split; [|cbn in *; lia]. split; [|done].
    exists qf, qr, qt, qc'. split; cbn; try done; rewrite ?Hfs, ?Hb'; try done.
    + unfold relay_sizes in *. cbn. rewrite Hfs. congruence.
    + rewrite Ha, <-E, Hfr. unfold tx_frames. cbn. rewrite !fmap_app. cbn. solve_Permutation.
  - done.
  - lia.
  - by exists s'.
Qed.

Lemma relay_refill_ok s own seen sent :
  relay_inv own seen sent s ->
  exists s', relay_refill s = Done s' /\ relay_inv own seen sent s' /\ relay_same s s'.
Proof.
  intros (qf & qr & qt & qc & [A B [C1 C2] D E F G I J L R M]). unfold relay_refill. pose proof A as [= Hsz _ _ _].
  destruct (refill_ok kf Hkf _ _ _ _ _ B Hsz C1)
    as (u' & m' & r' & new & -> & Hwf' & Hsz' & Hr' & Hp & Hn & Ha & Hb & Hs & Hfp & _).
  { apply Forall_forall. intros f Hf. rewrite <-E, !elem_of_app. by right; left. }
  rewrite bind_Done. cbn [fl_umem fl_mem fl_ring]. eexists. split; [done|]. split; [|done].
  exists (qf ++ new), qr, qt, qc. split; cbn; try done; rewrite ?Hs, ?Hb; try done.
  - unfold relay_sizes in *. cbn. rewrite Hs. congruence.
  - rewrite Ha, <-E, Hp. unfold rx_frames. cbn. rewrite fmap_app, (frame_of_frames _ _ B Hn). solve_Permutation.
  - by rewrite Hfp.
Qed.

(** *** Rounds *)

Lemma relay_round_ok cfg s own seen sent :
  relay_config_ok cfg -> len seen + 2 ^ kr < 2 ^ 64 ->
  relay_inv own seen sent s -> r_total s = len seen -> relayed cfg seen sent ->
  exists s' seen' sent', relay_round cfg s = Done s' /\ relay_inv own seen' sent' s' /\
    relayed cfg seen' sent' /\ r_total s' = len seen' /\ len seen' <= len seen + 2 ^ kr /\
    RxRing_available (r_rx s') = 0.
Proof.
  intros Hcfg Hmax Hi Et Hrel. unfold relay_round. cbn zeta.
  destruct (relay_rx_sync_ok s _ _ _ Hi) as [Hi1 T1]. set (s1 := relay_rx_sync s) in *.
  destruct (relay_tx_sync_ok s1 _ _ _ Hi1) as [Hi2 T2]. set (s2 := relay_tx_sync s1) in *.
  destruct (relay_completion_sync_ok s2 _ _ _ Hi2) as [Hi3 T3]. set (s3 := relay_completion_sync s2) in *.
  destruct (relay_fill_sync_ok s3 _ _ _ Hi3) as [Hi4 T4]. set (s4 := relay_fill_sync s3) in *.
  destruct (relay_release_ok s4 _ _ _ Hi4) as (s5 & -> & Hi5 & (_ & _ & T5)). rewrite bind_Done.
  assert (RxRing_available (r_rx s5) <= 2 ^ kr) as Hav.
  { pose proof Hi5 as (qf & qr & qt & qc & [_ _ [_ C2] _ _ _ _ _ _ _ _ _]).
    pose proof (ring_holds_bounds kr Hkr _ _ _ _ C2) as ([? ?] & [? ?] & _). unfold RxRing_available. lia. }
  pose proof (len_nonneg seen).
  destruct (relay_packets_ok cfg s5 own seen sent) as (s6 & seen6 & sent6 & -> & Hi6 & Hrel6 & T6 & L6 & Z6); [done|lia..|done|lia|done|].
  rewrite bind_Done. destruct (relay_refill_ok s6 _ _ _ Hi6) as (s7 & -> & Hi7 & (X7 & _ & T7)). rewrite bind_Done.
  destruct (Z.ltb_spec 0 (r_batch s7)) as [Hb|Hb].
  - assert (~ Forall (fun p => filtered p) seen6) as Hn.
    { intros Hf. destruct Hi7 as (qf & qr & qt & qc & [_ _ _ _ _ _ _ _ _ _ _ M]). destruct (M Hf). lia. }
    destruct (relay_commit_ok s7 _ _ _ Hn Hi7) as [Hi8 (X8 & _ & T8)].
    eexists _, seen6, sent6. split; [done|]. split_and!; try done; [by apply relay_counts_ok|cbn; lia|lia|by cbn in *; rewrite X7].
  - exists s7, seen6, sent6. split_and!; try done; by rewrite ?X7; lia.
Qed.

Lemma relay_rounds_ok n cfg s own seen sent :
  relay_config_ok cfg -> len seen + Z.of_nat n * 2 ^ kr < 2 ^ 64 ->
  relay_inv own seen sent s -> r_total s = len seen -> relayed cfg seen sent ->
  exists s' seen' sent', relay_rounds n cfg s = Done s' /\ relay_inv own seen' sent' s' /\
    relayed cfg seen' sent' /\ r_total s' = len seen' /\ (n <> O -> RxRing_available (r_rx s') = 0).
Proof.
  intros Hcfg. revert s seen sent. induction n as [|n IH]; intros s seen sent Hmax Hi Et Hrel; cbn [relay_rounds].
  { by exists s, seen, sent. }
  pose proof (size_bounds kr Hkr).
  destruct (relay_round_ok cfg s own seen sent) as (s1 & seen1 & sent1 & -> & Hi1 & Hrel1 & T1 & L1 & Z1); try done; [nia|].
  rewrite bind_Done. destruct (IH s1 seen1 sent1) as (s' & seen' & sent' & Hrun & Hi' & Hrel' & T' & Z'); try done; [lia|].
  exists s', seen', sent'. split_and!; try done. intros _. destruct n; [|by apply Z']. by injection Hrun as <-.
Qed.

End relay_facts.

(** ** Pre-filling *)

Section prefill_facts.
Context `{BuildProfile} {K : Type} `{XskDuplexOk K}.
Context (kf kr kt kc cq0 rx0 fp0 : Z).
Hypothesis Hkf : 0 <= kf <= 31.
Hypothesis Hkr : 0 <= kr <= 31.
Hypothesis Hkt : 0 <= kt <= 31.
Hypothesis Hkc : 0 <= kc <= 31.
Implicit Types (s : relay_state K).
Abbreviation inv := (relay_inv kf kr kt kc cq0 rx0 fp0).

(** Nothing has been published in the fill ring, which was at [c0]. *)
Definition idle_fill (c0 : Z) (e : rx_env) : Prop :=
  rm_producer (e_fill e) = c0 /\ rm_consumer (e_fill e) = c0 /\ e_fillc e = mkRingConsumer c0 c0.

Lemma idle_fill_step n c0 d d' : duplex_step n d d' -> idle_fill c0 d.2 -> idle_fill c0 d'.2.
Proof.
  intros Hs (E1 & E2 & E3). destruct Hs as [buf te te' re _|buf te re buf' re' Hs]; [done|]. cbn [snd] in *.
  inversion Hs; subst; cbn in *; subst; try done.
  match goal with Hp : ring_pop _ _ _ = _ |- _ => unfold ring_pop, rc_consume in Hp; cbn in Hp; by rewrite Z.eqb_refl in Hp end.
Qed.

Lemma idle_fill_runs c0 s : idle_fill c0 (r_re s) -> idle_fill c0 (r_re (duplex_runs s)).
Proof.
  intros Hf. pose proof (duplex_follows (relay_sizes s) (r_kernel s) (buffer (r_umem s), r_te s, r_re s)) as Hs.
  unfold duplex_runs. destruct (duplex_turn _ _ _) as [k d]. cbn in Hs.
  assert (idle_fill c0 d.2) as Hd; [|by destruct d as [[buf te] re]].
  set (d0 := (buffer (r_umem s), r_te s, r_re s)) in *. assert (idle_fill c0 d0.2) as Hd0 by done. clearbody d0.
  induction Hs; [done|]. eauto using idle_fill_step.
Qed.

(** An idle fill ring has room for every slot. *)
Lemma idle_fill_sync_room c0 s :
  rp_cached_producer (fr_producer (r_fill s)) = c0 -> rp_size (fr_producer (r_fill s)) = 2 ^ kf ->
  idle_fill c0 (r_re s) -> RxFillRing_available (r_fill (relay_fill_sync s)) = 2 ^ kf.
Proof.
  intros Ep Es Hf. destruct (idle_fill_runs c0 s Hf) as (_ & E2 & _). unfold relay_fill_sync.
  assert (r_fill (duplex_runs s) = r_fill s) as Er.
  { unfold duplex_runs. by destruct (duplex_turn _ _ _) as [? [[? ?] ?]]. }
  unfold RxFillRing_sync, rp_sync. cbn -[duplex_runs]. rewrite Er, E2. unfold RxFillRing_available, rp_available. cbn.
  rewrite Ep, Es. unfold wrapping_sub, wrap. rewrite Z.sub_diag, Z.mod_0_l by lia.
  pose proof (size_bounds kf Hkf). unfold saturating_sub. lia.
Qed.

(** One turn: a frame is handed out, or the loop stops; it stops with a frame
    of its own only when the ring is full. *)
Lemma prefill_step_ok s own seen sent n f :
  let state f := rl_fill (rl_umem s (fl_umem f)) (fl_mem f) (fl_ring f) in
  inv own seen sent (state f) ->
  exists c, prefill_step (n, f) = Done c /\
    match c with
    | Continue (n', f') => n' = n - 1 /\ 0 < n /\ inv own seen sent (state f') /\
        RxFillRing_available (fl_ring f') = RxFillRing_available (fl_ring f) - 1
    | Break f' => exists lost, inv (lost ++ own) seen sent (state f') /\
        (lost = [] \/ len lost = 1 /\ 0 < n /\ RxFillRing_available (fl_ring f) = 0)
    end.
Proof.
  destruct f as [u fm fr]. intros state (qf & qr & qt & qc & [A B [C1 C2] D E F G I J L R M]).
  unfold prefill_step. cbn [fl_umem fl_mem fl_ring]. cbn in B, E.
  destruct (Z.ltb_spec 0 n) as [Hpos|Hz]; [|eexists; split; [done|]; exists []; split; [by exists qf, qr, qt, qc|by left]].
  destruct (reserve_frame u B) as [[Ee ->]|(o & u1 & -> & Hwf1 & Hfr1 & Ha1 & Hb1 & Hs1)]; rewrite bind_Done.
  { eexists. split; [done|]. exists []. split; [by exists qf, qr, qt, qc|by left]. }
  assert (o ∈ all_frames u) as Ho by (rewrite <-E, Hfr1; set_solver).
  destruct (all_frames_inside u o B Ho) as (Ho1 & _ & Ho2 & Ho3).
  unfold RxFillRing_write. cbn [frame_offset f_offset fo SliceUmemFrame_Frame].
  rewrite wrap_small by (unfold is_uint; lia). pose proof A as [= Hsz _ _ _]. cbn in Hsz. rewrite Hsz.
  pose proof (ring_holds_bounds kf Hkf _ _ _ _ C1) as ([Hav _] & _). cbn in Hav, C1.
  destruct (decide (rp_available (fr_producer fr) = 0)) as [Hfull|Hroom].
  - rewrite ring_push_full, !bind_Done by done. eexists. split; [done|]. exists [o].
    split; [|right; by unfold RxFillRing_available].
    exists qf, qr, qt, qc. cbn in *. split; cbn; try done; rewrite ?Hs1, ?Hb1; try done.
    + unfold relay_sizes in *. cbn in *. rewrite Hs1. congruence.
    + rewrite Ha1, <-E, Hfr1. unfold rx_frames. cbn. solve_Permutation.
  - destruct (ring_holds_push kf Hkf _ _ _ _ o C1) as (m1 & p1 & Hpush & C1' & Hav1 & _); [lia|].
    rewrite Hpush, !bind_Done. eexists. split; [done|]. split; [done|]. split; [done|]. split; [|exact Hav1].
    exists (qf ++ [o]), qr, qt, qc. cbn in *. split; cbn; try done; rewrite ?Hs1, ?Hb1; try done.
    + unfold relay_sizes in *. cbn in *. rewrite Hs1. congruence.
    + rewrite Ha1, <-E, Hfr1. unfold rx_frames. cbn. rewrite fmap_app. cbn. rewrite Ho3. solve_Permutation.
    + by rewrite (ring_push_producer _ _ _ _ _ _ Hpush).
Qed.

(** Pre-filling hands out free frames. At most one is lost, and none while the
    ring has room for all of them. *)
Lemma prefill_ok rxsize s own seen sent :
  inv own seen sent s ->
  exists s' lost, prefill rxsize s = Done s' /\
    relay_inv kf kr kt kc cq0 rx0 (rm_producer (e_fill (r_re s'))) (lost ++ own) seen sent s' /\
    r_total s' = r_total s /\ len lost <= 1 /\
    (rxsize <= RxFillRing_available (r_fill (relay_fill_sync s)) -> lost = []).
Proof.
  intros Hi. unfold prefill. cbn zeta. destruct (relay_fill_sync_ok _ _ _ _ _ _ _ Hkf Hkr Hkt Hkc s _ _ _ Hi) as [Hi1 T1].
  set (s1 := relay_fill_sync s) in *. clearbody s1. set (n := Z.min _ _).
  set (state f := rl_fill (rl_umem s1 (fl_umem f)) (fl_mem f) (fl_ring f)).
  set (room := n <= RxFillRing_available (r_fill s1)).
  destruct (loop_spec (fun c => inv own seen sent (state c.2) /\ (room -> c.1 <= RxFillRing_available (fl_ring c.2)))
    (fun f => exists lost, inv (lost ++ own) seen sent (state f) /\ len lost <= 1 /\ (room -> lost = []))
    (fun c => Z.to_nat c.1) prefill_step)
    with (fuel := S (Z.to_nat n)) (s := (n, mkFiller (r_umem s1) (e_fill (r_re s1)) (r_fill s1))) as (f & -> & lost & Hf & Hl & Hroom).
  - intros [m f] [Hf Hm]. cbn [fst snd] in *. destruct (prefill_step_ok s1 _ _ _ m f Hf) as (c & -> & Hc).
    exists c. split; [done|]. destruct c as [[m' f']|f'].
    + destruct Hc as (-> & Hpos & Hf' & Hav). cbn [fst snd]. split; [|lia]. split; [done|]. intros Hr. specialize (Hm Hr). lia.
    + destruct Hc as (lost & Hf' & [->|(Hl & Hpos & Hav)]); [by exists []|]. exists lost. split_and!; [done|lia|].
      intros Hr. specialize (Hm Hr). lia.
  - cbn. split; [|done]. destruct s1 as [? ? ? ? ? ? [] ? ? ?]. exact Hi1.
  - cbn. lia.
  - rewrite bind_Done. eexists _, lost. split; [done|]. split_and!; [|done|done|intros ?; apply Hroom; unfold room; lia].
    destruct Hf as (qf & qr & qt & qc & [A B [C1 C2] D E F G I J L R M]). exists qf, qr, qt, qc. split; try done.
    + split; cbn; [|done]. eapply (ring_holds_tau kf Hkf); [exact C1|apply sp_commit_prod].
    + intros Hfil. by destruct (M Hfil) as (? & ? & _).
Qed.
End prefill_facts.
