(* ===== verification/RelayProps.v ===== *)
(** * Properties of the relay loop

    What [relay_loop] forwards, which frames it can lose, and the counters it
    never publishes, from a socket opened in copy or in zero-copy mode. *)

From S2P Require Import Prelude Words Net Packet Umem Ring Netlink Route Assemble Kernel KernelRx RxLoop RelayLoop RelayInv.

(** ** An open socket *)

(** Our end of the fill ring, its memory and the kernel's end. *)
Record fill_side := mkFillSide { fs_ring : RxFillRing; fs_mem : ring_mem Z; fs_kernel : RingConsumer }.
Definition fresh_fill (kf : Z) (m : ring_mem Z) : fill_side :=
  mkFillSide (mkRxFillRing (RingProducer_new m (2 ^ kf)) (2 ^ kf)) m (RingConsumer_new m).

Definition relay_start {K} (kr kt kc : Z) (u : SliceUmem) (f : fill_side) (rx tx : ring_mem XdpDesc)
  (cq : ring_mem Z) (k : K) : relay_state K :=
  mkRelayState u (fs_ring f) (mkRxRing (RingConsumer_new rx) (2 ^ kr))
    (mkTxRing (RingProducer_new tx (2 ^ kt)) (2 ^ kt)) (mkTxCompletionRing (RingConsumer_new cq) (2 ^ kc))
    (mkTxEnv tx (RingConsumer_new tx) cq (RingProducer_new cq (2 ^ kc)) [] [])
    (mkRxEnv (fs_mem f) (fs_kernel f) rx (RingProducer_new rx (2 ^ kr)) [] []) k 0 0.

(** The fill ring [Socket::new] returns: fresh in copy mode; in zero-copy mode it
    already holds the frames [lent]. *)
Definition open_fill (zero_copy : bool) (kf : Z) (f : fill_side) (lent : list Z) : Prop :=
  if zero_copy then
    0 <= kf <= 31 /\ fr_size (fs_ring f) = 2 ^ kf /\
    ring_holds kf lent (mkSpsc (fs_mem f) (fr_producer (fs_ring f)) (fs_kernel f))
  else fresh_ring kf (fs_mem f) /\ f = fresh_fill kf (fs_mem f) /\ lent = [].

(** The other rings are fresh, and every frame that is not in the fill ring is
    free. *)
Definition open_relay (zero_copy : bool) (kf kr kt kc : Z) (u : SliceUmem) (f : fill_side) (lent : list Z)
  (rx tx : ring_mem XdpDesc) (cq : ring_mem Z) : Prop :=
  open_fill zero_copy kf f lent /\ fresh_ring kr rx /\ fresh_ring kt tx /\ fresh_ring kc cq /\
  slice_umem_wf u /\ free_bases u ++ lent ≡ₚ all_frames u.

Section relay_props.
Context `{BuildProfile} {K : Type} `{XskDuplexOk K}.
Context (zc : bool) (kf kr kt kc : Z) (u : SliceUmem) (f : fill_side) (lent : list Z).
Context (rx tx : ring_mem XdpDesc) (cq : ring_mem Z) (k : K) (cfg : relay_config).

(** A socket as [Socket::new] returns it in either mode, and a configuration of
    proper addresses. *)
Definition relay_setup : Prop := open_relay zc kf kr kt kc u f lent rx tx cq /\ relay_config_ok cfg.

Abbreviation start := (relay_start kr kt kc u f rx tx cq k).
Abbreviation inv fp := (relay_inv kf kr kt kc (rm_consumer cq) (rm_consumer rx) fp).

Lemma open_fill_holds :
  open_fill zc kf f lent -> 0 <= kf <= 31 /\ fr_size (fs_ring f) = 2 ^ kf /\
    ring_holds kf lent (mkSpsc (fs_mem f) (fr_producer (fs_ring f)) (fs_kernel f)).
Proof.
  unfold open_fill. destruct zc; [done|]. intros ((Hkf & Hf1 & Hf2 & Hf3) & Ef & ->). destruct f as [fr fm fc]. cbn in *. injection Ef as -> ->.
  split; [done|]. split; [done|]. eexists _, _. exact (spsc_init_inv kf Hkf fm Hf1 Hf2 Hf3).
Qed.

Lemma relay_start_inv :
  open_relay zc kf kr kt kc u f lent rx tx cq -> inv (rm_producer (fs_mem f)) [] [] [] start.
Proof.
  intros (Hf & Hr & Ht & Hc & Hwf & Hfree). pose proof (stalled_fresh kc cq Hc) as Sc. pose proof (stalled_fresh kr rx Hr) as Sr.
  destruct (open_fill_holds Hf) as (Hkf & Hfs & Hfr).
  destruct Hr as (Hkr & Hr1 & Hr2 & Hr3), Ht as (Hkt & Ht1 & Ht2 & Ht3), Hc as (Hkc & Hc1 & Hc2 & Hc3).
  pose proof (spsc_init_inv kr Hkr rx Hr1 Hr2 Hr3). pose proof (spsc_init_inv kt Hkt tx Ht1 Ht2 Ht3).
  pose proof (spsc_init_inv kc Hkc cq Hc1 Hc2 Hc3).
  assert (frame_of (frame_size u) <$> lent = lent) as Elent.
  { apply (frame_of_frames u); [done|]. apply Forall_forall. intros o Ho. rewrite <-Hfree, elem_of_app. by right. }
  exists lent, [], [], []. split; cbn; try done.
  - unfold relay_sizes. cbn. by rewrite Hfs.
  - split; [done|]. by eexists _, _.
  - split; by eexists _, _.
  - unfold rx_frames, tx_frames. cbn. by rewrite Elent, !app_nil_r.
  - by exists 0.
  - pose proof (size_bounds kt Hkt). unfold TxRing_available, rp_available, wrapping_sub, wrap, saturating_sub. cbn.
    rewrite Ht2, Z.sub_diag, Z.mod_0_l by lia. change (len []) with 0. lia.
Qed.

(** The state before the first turn: in copy mode no frame is lost. *)
Lemma relay_prefill_ok :
  open_relay zc kf kr kt kc u f lent rx tx cq ->
  exists s lost, prefill (2 ^ kf) start = Done s /\ inv (rm_producer (e_fill (r_re s))) lost [] [] s /\
    r_total s = 0 /\ len lost <= (if zc then 1 else 0).
Proof.
  intros Hs. pose proof (relay_start_inv Hs) as Hi. destruct Hs as (Hf & (Hkr & _) & (Hkt & _) & (Hkc & _) & _).
  destruct (open_fill_holds Hf) as (Hkf & _ & _).
  destruct (prefill_ok kf kr kt kc _ _ _ Hkf Hkr Hkt Hkc (2 ^ kf) start [] [] [] Hi) as (s & lost & Hrun & Hi1 & T1 & Hl & Hroom).
  exists s, lost. rewrite app_nil_r in Hi1. split_and!; try done. unfold open_fill in Hf. destruct zc; [done|].
  destruct Hf as ((_ & Hf1 & Hf2 & _) & Ef & ->). rewrite Hroom; [done|].
  destruct f as [fr fm fc]. cbn in Hf1, Hf2, Ef. injection Ef as -> ->.
  rewrite (idle_fill_sync_room kf Hkf (rm_producer fm)); [done..|].
  unfold idle_fill, relay_start, RingConsumer_new. cbn. by rewrite Hf2.
Qed.

(** Everything [RelayInv] says of the state after [n] turns. *)
Lemma relay_loop_ok :
  relay_setup ->
  exists s1 lost, prefill (2 ^ kf) start = Done s1 /\ len lost <= (if zc then 1 else 0) /\
    forall n, Z.of_nat n * 2 ^ kr < 2 ^ 64 ->
    exists s seen sent, relay_loop n cfg (2 ^ kf) start = Done s /\
      inv (rm_producer (e_fill (r_re s1))) lost seen sent s /\
      relayed kt cfg seen sent /\ r_total s = len seen /\ (n <> O -> RxRing_available (r_rx s) = 0).
Proof.
  intros [Hopen Hcfg]. destruct (relay_prefill_ok Hopen) as (s1 & lost & Hrun & Hi & T & Hl).
  exists s1, lost. split; [done|]. split; [done|]. intros n Hn. unfold relay_loop. rewrite Hrun, bind_Done.
  destruct Hopen as (Hf & (Hkr & _) & (Hkt & _) & (Hkc & _) & _). destruct (open_fill_holds Hf) as (Hkf & _ & _).
  apply (relay_rounds_ok kf kr kt kc _ _ _ Hkf Hkr Hkt Hkc n cfg s1 lost [] []); [done|by rewrite len_nil|done..].
Qed.
End relay_props.

Section relay_theorems.
Context `{BuildProfile} {K : Type} `{XskDuplexOk K}.

(** C12: for every kernel that follows the protocol on all four rings, any
    number of turns of [relay_loop] complete without a panic or an access
    outside the rings and the UMEM. The packets read are counted; they are the
    packets delivered except those still in the RX ring, and a turn leaves none
    there that its sync saw. The frames transmitted followed by those in the TX
    ring are the images of the packets read, each with its payload under new
    headers, in order, nothing else and none twice. Packets are only left out
    when the TX ring is full: none is before [2^kt] frames have been queued. *)
Theorem relay_forwards_in_order zc kf kr kt kc u f lent rx tx cq (k : K) cfg n :
  relay_setup zc kf kr kt kc u f lent rx tx cq cfg -> Z.of_nat n * 2 ^ kr < 2 ^ 64 ->
  exists s seen qf qr qt qc, relay_loop n cfg (2 ^ kf) (relay_start kr kt kc u f rx tx cq k) = Done s /\
    rx_rings_hold kf kr (fr_producer (r_fill s)) (rx_consumer (r_rx s)) (r_re s) qf qr /\
    rings_hold kt kc (tx_producer (r_tx s)) (cr_consumer (r_completion s)) (r_te s) qt qc /\
    let packets := fmap (desc_bytes (buffer (r_umem s))) in
    let sent := e_wire (r_te s) ++ packets qt in
    e_arrived (r_re s) = seen ++ packets qr /\ r_total s = len seen /\
    (n <> O -> RxRing_available (r_rx s) = 0) /\
    sent `sublist_of` omap (relay_image cfg) seen /\
    (len sent < 2 ^ kt -> sent = omap (relay_image cfg) seen).
Proof.
  intros Hs Hn. destruct (relay_loop_ok zc kf kr kt kc u f lent rx tx cq k cfg Hs) as (s1 & lost & _ & _ & Hloop).
  destruct (Hloop n Hn) as (s & seen & sent & Hrun & (qf & qr & qt & qc & [_ _ C D _ _ _ Ha Hw _ _ _]) & [R1 R2] & T & Z0).
  exists s, seen, qf, qr, qt, qc. cbn zeta. rewrite Hw. by split_and!.
Qed.

(** C13: the relay loses no frame while it runs. Before its first turn it has
    lost none in copy mode and at most one in zero-copy mode; from then on,
    after any number of turns, every other frame of the UMEM is in exactly one
    place: free, in the fill ring, with the receiving kernel, in the RX ring, in
    the TX ring, with the transmitting kernel, or in the completion ring. *)
Theorem relay_conserves_frames zc kf kr kt kc u f lent rx tx cq (k : K) cfg :
  relay_setup zc kf kr kt kc u f lent rx tx cq cfg ->
  exists lost, len lost <= (if zc then 1 else 0) /\ forall n, Z.of_nat n * 2 ^ kr < 2 ^ 64 ->
  exists s qf qr qt qc, relay_loop n cfg (2 ^ kf) (relay_start kr kt kc u f rx tx cq k) = Done s /\
    rx_rings_hold kf kr (fr_producer (r_fill s)) (rx_consumer (r_rx s)) (r_re s) qf qr /\
    rings_hold kt kc (tx_producer (r_tx s)) (cr_consumer (r_completion s)) (r_te s) qt qc /\
    lost ++ free_bases (r_umem s) ++ rx_frames (frame_size (r_umem s)) (r_re s) qf qr
      ++ tx_frames (frame_size (r_umem s)) (r_te s) qt qc ≡ₚ all_frames (r_umem s) /\
    NoDup (all_frames (r_umem s)).
Proof.
  intros Hs. destruct (relay_loop_ok zc kf kr kt kc u f lent rx tx cq k cfg Hs) as (s1 & lost & _ & Hl & Hloop).
  exists lost. split; [done|]. intros n Hn.
  destruct (Hloop n Hn) as (s & seen & sent & Hrun & (qf & qr & qt & qc & [_ Hwf C D E _ _ _ _ _ _ _]) & _).
  exists s, qf, qr, qt, qc. split_and!; try done; by (apply C || apply D || apply all_frames_nodup).
Qed.

(** C28: every frame the relay puts on the wire is one a receiver accepts, from
    the configured endpoints. Its payload is what follows byte 42 of a packet of
    at least 442 bytes that was delivered to the relay and whose byte 23, the
    protocol of an IPv4 header without options, is 17; the loop looks at no
    other byte of the packet. Packets whose length fits an IPv4 length field are
    meant. *)
Theorem relay_transmits_valid_frames zc kf kr kt kc u fs lent rx tx cq (k : K) cfg n f :
  relay_setup zc kf kr kt kc u fs lent rx tx cq cfg -> Z.of_nat n * 2 ^ kr < 2 ^ 64 ->
  exists s, relay_loop n cfg (2 ^ kf) (relay_start kr kt kc u fs rx tx cq k) = Done s /\
    (f ∈ e_wire (r_te s) -> exists pkt e, pkt ∈ e_arrived (r_re s) /\ 442 <= len pkt /\ nth 23 pkt 0 = 17 /\
      relay_endpoints cfg = Some e /\ (len pkt < 2 ^ 16 + 14 -> receive_frame f = Some (e, drop 42 pkt))).
Proof.
  intros Hs Hn. destruct (relay_loop_ok zc kf kr kt kc u fs lent rx tx cq k cfg Hs) as (s1 & lost & _ & _ & Hloop).
  destruct (Hloop n Hn) as (s & seen & sent & Hrun & (qf & qr & qt & qc & [_ _ _ _ _ _ _ Ha Hw _ _ _]) & [R1 _] & _).
  exists s. split; [done|]. intros Hf. assert (f ∈ omap (relay_image cfg) seen) as Him.
  { eapply elem_of_sublist; [|exact R1]. rewrite <-Hw, elem_of_app. by left. }
  apply list_elem_of_omap in Him as (pkt & Hp & Hi). unfold relay_image, filtered in Hi.
  destruct (Z.ltb_spec (len pkt) (PACKET_HEADER_SIZE + VOTE_SIZE_THRESHOLD)) as [|Hl]; [done|].
  change (PACKET_HEADER_SIZE + VOTE_SIZE_THRESHOLD) with 442 in Hl.
  destruct (Z.eqb_spec (nth 23 pkt 0) IPPROTO_UDP) as [Hu|]; [|done]. cbn in Hi.
  destruct Hs as (_ & Hcfg). unfold relay_config_ok in Hcfg. destruct (relay_endpoints cfg) as [e|]; [|done].
  injection Hi as <-. exists pkt, e. split_and!; try done.
  - rewrite Ha, elem_of_app. by left.
  - intros Hmax. apply receive_frame_bytes; [done|]. rewrite len_drop. lia.
Qed.

(** C36: packets that are filtered out are never given back to the kernel. As
    long as every packet delivered is too small or not UDP, the loop reads them
    but publishes neither its RX counter, which keeps its initial value, nor its
    fill counter, which keeps the value the pre-filling left; so no more than
    the [2^kr] packets that fit into the RX ring are ever delivered. *)
Theorem filtered_packets_stop_reception zc kf kr kt kc u f lent rx tx cq (k : K) cfg n :
  relay_setup zc kf kr kt kc u f lent rx tx cq cfg -> Z.of_nat n * 2 ^ kr < 2 ^ 64 ->
  exists s0 s, prefill (2 ^ kf) (relay_start kr kt kc u f rx tx cq k) = Done s0 /\
    relay_loop n cfg (2 ^ kf) (relay_start kr kt kc u f rx tx cq k) = Done s /\
    (Forall (fun p => filtered p) (e_arrived (r_re s)) ->
     rm_consumer (e_rx (r_re s)) = rm_consumer rx /\
     rm_producer (e_fill (r_re s)) = rm_producer (e_fill (r_re s0)) /\ len (e_arrived (r_re s)) <= 2 ^ kr).
Proof.
  intros Hs Hn. destruct (relay_loop_ok zc kf kr kt kc u f lent rx tx cq k cfg Hs) as (s0 & lost & Hpre & _ & Hloop).
  destruct (Hloop n Hn) as (s & seen & sent & Hrun & (qf & qr & qt & qc & [_ _ _ _ _ _ _ Ha _ _ _ M]) & _).
  exists s0, s. split; [done|]. split; [done|]. intros Hf. destruct M as (_ & (E & _ & _ & _ & ?) & Hfp); [|by split_and!; [|..|lia]].
  rewrite Ha in Hf. by apply Forall_app in Hf as [? _].
Qed.

(** C37: the relay reads the completion ring but never publishes its position,
    so the kernel can report [2^kc] completions and no more; over the whole
    life of the socket at most [2^kc] frames plus those that stay with the
    kernel, one for each frame of the UMEM at most, are transmitted. *)
Theorem unpublished_completions_bound_transmission zc kf kr kt kc u f lent rx tx cq (k : K) cfg n :
  relay_setup zc kf kr kt kc u f lent rx tx cq cfg -> Z.of_nat n * 2 ^ kr < 2 ^ 64 ->
  exists s, relay_loop n cfg (2 ^ kf) (relay_start kr kt kc u f rx tx cq k) = Done s /\
    rm_consumer (e_cq (r_te s)) = rm_consumer cq /\
    len (e_wire (r_te s)) <= 2 ^ kc + len (e_held (r_te s)) /\
    len (e_held (r_te s)) <= capacity (r_umem s).
Proof.
  intros Hs Hn. destruct (relay_loop_ok zc kf kr kt kc u f lent rx tx cq k cfg Hs) as (s1 & lost & _ & _ & Hloop).
  destruct (Hloop n Hn) as (s & seen & sent & Hrun & (qf & qr & qt & qc & [_ Hwf _ _ E _ _ _ _ (m & Hm & (Ec & _ & _ & _ & ?)) _ _]) & _).
  exists s. split_and!; try done; [lia|]. apply Permutation_length in E.
  unfold all_frames, tx_frames in E. rewrite !length_app, !length_fmap, !length_app, !length_fmap, length_seqZ in E.
  pose proof (len_nonneg (buffer (r_umem s))). destruct Hwf as ([? ?] & _ & Hc & _).
  assert (0 <= capacity (r_umem s)) by (rewrite Hc; apply Z.div_pos; lia). unfold len. cbn in E. lia.
Qed.
End relay_theorems.

(** ** Witnesses *)

(** The scripted receiver, and a transmitter that works when it runs as well as
    when it is woken up. *)
Definition script_both (n : xsk_sizes) (k : list (list Z)) (d : duplex) : list (list Z) * duplex :=
  let '(buf, te, re) := d in
  let '(k', (buf', re')) := script_turn (n_frame n) (n_fill n) (n_rx n) k (buf, re) in
  (k', (buf', eager_turn (n_tx n) (n_cq n) buf' te, re')).
#[global] Instance script_duplex : XskDuplex (list (list Z)) := {|
  duplex_turn := script_both;
  duplex_wake := script_both;
  duplex_sendto _ := 0;
|}.

Lemma script_both_steps n k d : rtc (duplex_step n) d (script_both n k d).2.
Proof.
  destruct d as [[buf te] re]. unfold script_both.
  pose proof (receiver_follows (n_frame n) (n_fill n) (n_rx n) k (buf, re)) as Hr.
  unfold receiver_turn, script_receiver in Hr. destruct (script_turn _ _ _ _ _) as [k' [buf' re']]. cbn [snd] in *.
  etrans.
  - apply (rtc_congruence (fun x : list Z * rx_env => (x.1, te, x.2)) (duplex_step n)) in Hr; [exact Hr|].
    intros [b1 r1] [b2 r2] Hs. by constructor.
  - apply (rtc_congruence (R := kernel_step buf' (n_tx n) (n_cq n)) (fun x => (buf', x, re'))).
    + intros x y Hs. by constructor.
    + apply eager_turn_steps.
Qed.
#[global] Instance script_duplex_ok : XskDuplexOk (list (list Z)).
Proof. split; apply script_both_steps. Qed.

(** Frames of 512 bytes; the packets of the script are a small one, one of 450
    bytes with 17 in its protocol byte, and one with another protocol. *)
Definition relay_example_packet (proto : Z) : list Z := <[23%nat := proto]> (replicate 450 7).
Definition relay_example_packets : list (list Z) := [[1; 2; 3]; relay_example_packet 17; relay_example_packet 6].
Definition relay_example_config : relay_config :=
  mkRelayConfig (Mac [2;0;0;0;0;1]) example_src (Some example_dst) (Some 8002) (Some (Mac [2;0;0;0;0;2])).
Definition relay_example_umem : SliceUmem := mkSliceUmem (replicate 2048 0) 512 [0; 1; 2; 3] 4.
Definition relay_example_fill : ring_mem Z := mkRingMem (2 ^ 32 - 1) (2 ^ 32 - 1) 0 [0; 0].
Definition relay_example_descs : ring_mem XdpDesc := mkRingMem 5 5 0 [mkXdpDesc 0 0 0; mkXdpDesc 0 0 0].
Definition relay_example (k : list (list Z)) : relay_state (list (list Z)) :=
  relay_start 1 1 1 relay_example_umem (fresh_fill 1 relay_example_fill) relay_example_descs relay_example_descs
    relay_example_fill k.

Lemma relay_example_setup :
  relay_setup false 1 1 1 1 relay_example_umem (fresh_fill 1 relay_example_fill) [] relay_example_descs relay_example_descs
    relay_example_fill relay_example_config.
Proof.
  split; [|by_decide]. split; [split; [by_decide|done]|]. do 4 (split; [by_decide|]). by rewrite app_nil_r.
Qed.

(** A zero-copy socket over the same UMEM, two of its frames in the fill ring. *)
Definition full_fill : fill_side :=
  mkFillSide (mkRxFillRing (mkRingProducer 2 0 2) 2) (mkRingMem 2 0 0 [1536; 1024]) (mkRingConsumer 0 0).
Definition full_umem : SliceUmem := mkSliceUmem (replicate 2048 0) 512 [0; 1] 4.
Definition full_state (k : list (list Z)) : relay_state (list (list Z)) :=
  relay_start 1 1 1 full_umem full_fill relay_example_descs relay_example_descs relay_example_fill k.

Lemma full_fill_open : open_fill true 1 full_fill [1536; 1024].
Proof.
  assert (0 <= 1 <= 31) as Hk by lia. split; [done|]. split; [done|].
  pose proof (spsc_init_inv 1 Hk (mkRingMem 0 0 0 [0; 0]) ltac:(by_decide) eq_refl eq_refl) as Hr.
  destruct (ring_holds_push 1 Hk [] _ _ _ 1536 ltac:(eexists _, _; exact Hr) eq_refl) as (m1 & p1 & [= <- <-] & Hr1 & _).
  destruct (ring_holds_push 1 Hk _ _ _ _ 1024 Hr1 eq_refl) as (m2 & p2 & [= <- <-] & Hr2 & _).
  eapply (ring_holds_tau 1 Hk); [exact Hr2|]. exact (sp_commit_prod 2 (mkRingMem 0 0 0 [1536; 1024]) (mkRingProducer 2 0 2) (mkRingConsumer 0 0)).
Qed.

Lemma full_setup :
  relay_setup true 1 1 1 1 full_umem full_fill [1536; 1024] relay_example_descs relay_example_descs
    relay_example_fill relay_example_config.
Proof.
  split; [|by_decide]. split; [exact full_fill_open|]. do 4 (split; [by_decide|]).
  change ([0; 512; 1536; 1024] ≡ₚ [0; 512; 1024; 1536]). do 2 apply Permutation_skip. apply Permutation_swap.
Qed.

Lemma relay_forwards_in_order_witness :
  exists s seen qf qr qt qc, @relay_loop dev_profile _ _ 4 relay_example_config 2 (relay_example relay_example_packets) = Done s /\
    rx_rings_hold 1 1 (fr_producer (r_fill s)) (rx_consumer (r_rx s)) (r_re s) qf qr /\
    rings_hold 1 1 (tx_producer (r_tx s)) (cr_consumer (r_completion s)) (r_te s) qt qc /\
    let packets := fmap (desc_bytes (buffer (r_umem s))) in
    let sent := e_wire (r_te s) ++ packets qt in
    e_arrived (r_re s) = seen ++ packets qr /\ r_total s = len seen /\
    (4%nat <> O -> RxRing_available (r_rx s) = 0) /\
    sent `sublist_of` omap (relay_image relay_example_config) seen /\
    (len sent < 2 -> sent = omap (relay_image relay_example_config) seen).
Proof.
  apply (@relay_forwards_in_order dev_profile _ _ _ false 1 1 1 1 relay_example_umem (fresh_fill 1 relay_example_fill) []
    relay_example_descs relay_example_descs relay_example_fill relay_example_packets relay_example_config 4);
    [exact relay_example_setup|done].
Defined.

(** The run reads all three packets and transmits the image of the second. *)
Example relay_example_run :
  match @relay_loop dev_profile _ _ 4 relay_example_config 2 (relay_example relay_example_packets) with
  | Done s => r_total s = 3 /\
      e_wire (r_te s) = omap (relay_image relay_example_config) relay_example_packets /\ len (e_wire (r_te s)) = 1
  | _ => False
  end.
Proof. by vm_compute. Qed.

(** Both modes: nothing is lost from the fresh fill ring, at most one frame from
    the full one. *)
Lemma relay_conserves_frames_witness :
  (exists lost, len lost <= 0 /\ forall n, Z.of_nat n * 2 ^ 1 < 2 ^ 64 ->
   exists s qf qr qt qc, @relay_loop dev_profile _ _ n relay_example_config 2 (relay_example relay_example_packets) = Done s /\
    rx_rings_hold 1 1 (fr_producer (r_fill s)) (rx_consumer (r_rx s)) (r_re s) qf qr /\
    rings_hold 1 1 (tx_producer (r_tx s)) (cr_consumer (r_completion s)) (r_te s) qt qc /\
    lost ++ free_bases (r_umem s) ++ rx_frames (frame_size (r_umem s)) (r_re s) qf qr
      ++ tx_frames (frame_size (r_umem s)) (r_te s) qt qc ≡ₚ all_frames (r_umem s) /\
    NoDup (all_frames (r_umem s))) /\
  (exists lost, len lost <= 1 /\ forall n, Z.of_nat n * 2 ^ 1 < 2 ^ 64 ->
   exists s qf qr qt qc, @relay_loop dev_profile _ _ n relay_example_config 2 (full_state relay_example_packets) = Done s /\
    rx_rings_hold 1 1 (fr_producer (r_fill s)) (rx_consumer (r_rx s)) (r_re s) qf qr /\
    rings_hold 1 1 (tx_producer (r_tx s)) (cr_consumer (r_completion s)) (r_te s) qt qc /\
    lost ++ free_bases (r_umem s) ++ rx_frames (frame_size (r_umem s)) (r_re s) qf qr
      ++ tx_frames (frame_size (r_umem s)) (r_te s) qt qc ≡ₚ all_frames (r_umem s) /\
    NoDup (all_frames (r_umem s))).
Proof.
  split.
  - apply (@relay_conserves_frames dev_profile _ _ _ false 1 1 1 1 relay_example_umem (fresh_fill 1 relay_example_fill) []
      relay_example_descs relay_example_descs relay_example_fill relay_example_packets relay_example_config). exact relay_example_setup.
  - apply (@relay_conserves_frames dev_profile _ _ _ true 1 1 1 1 full_umem full_fill [1536; 1024]
      relay_example_descs relay_example_descs relay_example_fill relay_example_packets relay_example_config). exact full_setup.
Defined.

(** With a full fill ring and a kernel that has no packet to deliver, one of the
    four frames is gone before the first turn. *)
Example full_fill_loses_frame :
  match @prefill dev_profile _ _ 2 (full_state []) with
  | Done s => available_frames (r_umem s) = [0] /\ rm_desc (e_fill (r_re s)) = [1536; 1024] /\ rm_producer (e_fill (r_re s)) = 2
  | _ => False
  end.
Proof. by vm_compute. Qed.

Lemma relay_transmits_valid_frames_witness :
  let f := frame_bytes (mkEndpoints (Mac [2;0;0;0;0;1]) (Mac [2;0;0;0;0;2]) example_src example_dst 12345 8002) (replicate 408 7) in
  exists s, @relay_loop dev_profile _ _ 4 relay_example_config 2 (relay_example relay_example_packets) = Done s /\
    (f ∈ e_wire (r_te s) -> exists pkt e, pkt ∈ e_arrived (r_re s) /\ 442 <= len pkt /\ nth 23 pkt 0 = 17 /\
      relay_endpoints relay_example_config = Some e /\
      (len pkt < 2 ^ 16 + 14 -> receive_frame f = Some (e, drop 42 pkt))).
Proof.
  intros f. apply (@relay_transmits_valid_frames dev_profile _ _ _ false 1 1 1 1 relay_example_umem (fresh_fill 1 relay_example_fill) []
    relay_example_descs relay_example_descs relay_example_fill relay_example_packets relay_example_config 4);
    [exact relay_example_setup|done].
Defined.

(** The packet relayed in the example is no IPv4 packet: its EtherType is not
    0x0800, and no checksum of it was looked at. *)
Example relayed_packet_is_not_ipv4 :
  take 2 (drop 12 (relay_example_packet 17)) <> [8; 0] /\ receive_frame (relay_example_packet 17) = None.
Proof. by vm_compute. Qed.

Lemma filtered_packets_stop_reception_witness :
  exists s0 s, @prefill dev_profile _ _ 2 (relay_example (replicate 5 [1; 2; 3])) = Done s0 /\
    @relay_loop dev_profile _ _ 8 relay_example_config 2 (relay_example (replicate 5 [1; 2; 3])) = Done s /\
    (Forall (fun p => filtered p) (e_arrived (r_re s)) ->
     rm_consumer (e_rx (r_re s)) = 5 /\
     rm_producer (e_fill (r_re s)) = rm_producer (e_fill (r_re s0)) /\ len (e_arrived (r_re s)) <= 2).
Proof.
  apply (@filtered_packets_stop_reception dev_profile _ _ _ false 1 1 1 1 relay_example_umem (fresh_fill 1 relay_example_fill) []
    relay_example_descs relay_example_descs relay_example_fill _ relay_example_config 8); [exact relay_example_setup|done].
Defined.

(** Five small packets are waiting; after eight turns two were delivered. *)
Example filtered_example_run :
  match @relay_loop dev_profile _ _ 8 relay_example_config 2 (relay_example (replicate 5 [1; 2; 3])) with
  | Done s => r_total s = 2 /\ e_arrived (r_re s) = replicate 2 [1; 2; 3] /\ r_kernel s = replicate 3 [1; 2; 3]
  | _ => False
  end.
Proof. by vm_compute. Qed.

Lemma unpublished_completions_bound_transmission_witness :
  exists s, @relay_loop dev_profile _ _ 12 relay_example_config 2 (relay_example (replicate 5 (relay_example_packet 17))) = Done s /\
    rm_consumer (e_cq (r_te s)) = 2 ^ 32 - 1 /\
    len (e_wire (r_te s)) <= 2 + len (e_held (r_te s)) /\
    len (e_held (r_te s)) <= capacity (r_umem s).
Proof.
  apply (@unpublished_completions_bound_transmission dev_profile _ _ _ false 1 1 1 1 relay_example_umem (fresh_fill 1 relay_example_fill) []
    relay_example_descs relay_example_descs relay_example_fill _ relay_example_config 12); [exact relay_example_setup|done].
Defined.

(** Five packets are delivered and read; two are transmitted. *)
Example completions_example_run :
  match @relay_loop dev_profile _ _ 12 relay_example_config 2 (relay_example (replicate 5 (relay_example_packet 17))) with
  | Done s => r_total s = 5 /\ len (e_wire (r_te s)) = 2
  | _ => False
  end.
Proof. by vm_compute. Qed.

(** A driver that transmits only inside [sendto] and otherwise asks to be woken
    up, as in copy mode. *)
Record sleepy := mkSleepy { sl_script : list (list Z) }.
Definition sleepy_turn (n : xsk_sizes) (k : sleepy) (d : duplex) : sleepy * duplex :=
  let '(buf, te, re) := d in
  let '(k', (buf', re')) := script_turn (n_frame n) (n_fill n) (n_rx n) (sl_script k) (buf, re) in
  (mkSleepy k', (buf', ask_wakeup te, re')).
#[local] Instance sleepy_duplex : XskDuplex sleepy := {|
  duplex_turn := sleepy_turn;
  duplex_wake n k d := let '(k', d') := script_both n (sl_script k) d in (mkSleepy k', d');
  duplex_sendto _ := 0;
|}.

(** It is told of frames only when a turn forwards 32 packets: here the image of
    the second packet is queued and committed, and not sent in forty turns. *)
Example small_batches_are_not_sent :
  match @relay_loop dev_profile _ sleepy_duplex 40 relay_example_config 2
          (relay_start 1 1 1 relay_example_umem (fresh_fill 1 relay_example_fill) relay_example_descs relay_example_descs
             relay_example_fill (mkSleepy relay_example_packets)) with
  | Done s => r_total s = 3 /\ rm_producer (e_tx (r_te s)) = 6 /\ e_wire (r_te s) = []
  | _ => False
  end.
Proof. by vm_compute. Qed.
