(* ===== verification/Setup.v ===== *)
(** * What the loops do before they loop

    The prologues of [tx_loop], [rx_loop] and [relay_loop]: pin the thread, find
    addresses and ring sizes, allocate the UMEM, raise capabilities, open the
    socket, read the routing table. Each ends in the state its loop starts
    from. *)

From S2P Require Import Prelude Words Net Packet Umem Ring Netlink Route Assemble Device Socket.
From S2P Require Import Kernel TxLoop KernelRx RxLoop RelayLoop.

(** ** The host *)

Inductive capability := CAP_NET_ADMIN | CAP_NET_RAW | CAP_SYS_NICE | CAP_BPF.

(** What the host answers: [sched_setaffinity] for the words of a [cpu_set_t], the priority
    bounds and [sched_setscheduler], the capability library, [sysconf] of the
    page size, anonymous [mmap], and the two netlink conversations of
    [Router::new]. *)
Class HostOs := {
  host_setaffinity : list Z -> Z;
  host_priority_min : Z;
  host_priority_max : Z;
  host_setscheduler : Z -> Z;
  host_cap_raise : capability -> bool;
  host_cap_drop : capability -> bool;
  host_page_size : Z;
  host_mmap : Z -> bool -> option Z;
  host_neighbors : netlink_kernel;
  host_routes : netlink_kernel;
}.

Section prologue.
Context `{BuildProfile} `{HostOs} `{NetOs} `{XdpOs}.

(** [cpu_set_t]: 1024 bits in sixteen words; [CPU_SET] indexes past them for a
    larger CPU number. *)
Definition zeroed_cpu_set : list Z := replicate 16 0.
Definition CPU_SET (cpu : Z) (cpu_set : list Z) : outcome (list Z) :=
  word ← slice_get cpu_set (cpu / 64);
  slice_set cpu_set (cpu / 64) (Z.lor word (Z.shiftl 1 (cpu mod 64))).

Definition set_cpu_affinity (cpus : list Z) : outcome (result unit io_error) :=
  cpu_set ← for_each cpus CPU_SET zeroed_cpu_set;
  Done (if host_setaffinity cpu_set =? 0 then Ok tt else Err LastOsError).

Definition fifo_priority_bounds : result (Z * Z) io_error :=
  if (host_priority_min =? -1) || (host_priority_max =? -1) then Err LastOsError
  else Ok (host_priority_min, host_priority_max).

Definition set_current_thread_sched_fifo (priority : Z) : result unit io_error :=
  if host_setscheduler priority =? 0 then Ok tt else Err LastOsError.

(** [for cap in [..] { caps::raise(None, CapSet::Effective, cap).unwrap(); }] *)
Definition raise_caps : outcome unit :=
  for_each [CAP_NET_ADMIN; CAP_NET_RAW; CAP_SYS_NICE]
    (fun c _ => if host_cap_raise c then Done tt else Panic UnwrapErr) tt.
Definition drop_caps : outcome unit :=
  for_each [CAP_NET_ADMIN; CAP_NET_RAW] (fun c _ => if host_cap_drop c then Done tt else Panic UnwrapErr) tt.

(** Raise the thread's priority. *)
Definition raise_priority : outcome unit :=
  '(_, max) ← unwrap_ok fifo_priority_bounds;
  unwrap_ok (set_current_thread_sched_fifo max).

Definition HUGE_2MB : Z := 2 * 1024 * 1024.

(** Huge pages first, then regular pages; then the UMEM over them. *)
Definition alloc_umem (frame_size frame_count : Z) : outcome (Z * SliceUmem) :=
  memory ← alloc_with_page_size host_mmap frame_size frame_count HUGE_2MB true;
  memory ← (match memory with
            | Ok m => Done (Ok m)
            | Err _ => alloc host_mmap host_page_size frame_size frame_count
            end);
  memory ← unwrap_ok memory;
  umem ← SliceUmem_new (deref memory) (wrap 32 frame_size);
  umem ← unwrap_ok umem;
  Done (pm_ptr memory, umem).

Definition queue_sizes (queue : DeviceQueue) : RingSizes := default RingSizes_default (dq_ring_sizes queue).

(** The result of a set-up started with no call made, or a panic. *)
Definition expect_setup {A} (m : setup A) : outcome A :=
  r ← (m []).2;
  match r with Ok a => Done a | Err _ => Panic ExplicitPanic end.

(** ** [tx_loop] *)

(** The source addresses given, or the device's. *)
Definition source_mac (dev : NetworkDevice) (src_mac : option MacAddress) : outcome MacAddress :=
  match src_mac with Some m => Done m | None => m ← mac_addr dev; unwrap_ok m end.
Definition source_ip (dev : NetworkDevice) (src_ip : option Ipv4Addr) : outcome Ipv4Addr :=
  match src_ip with Some a => Done a | None => a ← ipv4_addr dev; unwrap_ok a end.

Definition tx_prologue {K : Type} (k : K) (cpu_id : Z) (dev : NetworkDevice) (queue_id : Z) (zero_copy : bool)
  (src_mac : option MacAddress) (src_ip : option Ipv4Addr) (src_port : Z) (dest_mac : option MacAddress)
  : outcome (tx_config * tx_state K) :=
  pinned ← set_cpu_affinity [cpu_id];
  _ ← unwrap_ok pinned;
  src_mac ← source_mac dev src_mac;
  src_ip ← source_ip dev src_ip;
  let frame_size := host_page_size in
  queue ← open_queue dev queue_id;
  queue ← unwrap_ok queue;
  let '(mkRingSizes rx_size tx_size) := queue_sizes queue in
  frame_count ← add_u 64 rx_size tx_size;
  '(ptr, umem) ← alloc_umem frame_size frame_count;
  _ ← raise_caps;
  _ ← raise_priority;
  completion_size ← mul_u 64 tx_size 2;
  '(socket, tx, mem) ← expect_setup (Socket_tx queue ptr umem zero_copy completion_size tx_size);
  ring ← unwrap (t_tx_ring tx);
  router ← Router_new host_neighbors host_routes;
  router ← unwrap_ok router;
  _ ← drop_caps;
  let cq := sm_completion mem in
  let txm := sm_tx mem in
  Done (mkTxConfig src_mac src_ip src_port dest_mac router (nd_if_index dev),
        mkTxState (so_umem socket) ring (t_tx_completion tx)
          (mkTxEnv txm (RingConsumer_new txm) cq (RingProducer_new cq (cr_size (t_tx_completion tx))) [] []) k).

(** ** [rx_loop] *)

Definition rx_prologue {K : Type} (k : K) (cpu_id : Z) (dev : NetworkDevice) (queue_id : Z) (zero_copy : bool)
  : outcome (rx_state K) :=
  pinned ← set_cpu_affinity [cpu_id];
  _ ← unwrap_ok pinned;
  let frame_size := host_page_size in
  queue ← open_queue dev queue_id;
  queue ← unwrap_ok queue;
  let rx_size := rs_rx (queue_sizes queue) in
  frame_count ← mul_u 64 rx_size 2;
  '(ptr, umem) ← alloc_umem frame_size frame_count;
  _ ← raise_caps;
  _ ← raise_priority;
  '(socket, rx, mem) ← expect_setup (Socket_rx queue ptr umem zero_copy rx_size rx_size);
  ring ← unwrap (r_rx_ring rx);
  rm ← unwrap (sm_rx mem);
  _ ← drop_caps;
  Done (mkRxState (so_umem socket) (r_rx_fill rx) ring
          (mkRxEnv (sm_fill mem) (RingConsumer_new (sm_mapped_fill mem)) rm (RingProducer_new rm rx_size) [] []) k 0 0).

(** ** [relay_loop] *)

(** Loading the XDP program and inserting the socket into its map are calls of
    a library; [program_loaded] and [inserted] are their answers. *)
Definition relay_prologue {K : Type} (k : K) (program_loaded : bool) (inserted : Z -> Z -> bool)
  (cpu_id : Z) (dev : NetworkDevice) (queue_id : Z) (zero_copy : bool)
  (dest_ip : option Ipv4Addr) (dest_port : option Z) (dest_mac_override : option MacAddress)
  : outcome (relay_config * Z * relay_state K) :=
  pinned ← set_cpu_affinity [cpu_id];
  _ ← unwrap_ok pinned;
  src_mac ← source_mac dev None;
  src_ip ← source_ip dev None;
  let frame_size := host_page_size in
  queue ← open_queue dev queue_id;
  queue ← unwrap_ok queue;
  let '(mkRingSizes rx_size tx_size) := queue_sizes queue in
  sum ← add_u 64 rx_size tx_size;
  frame_count ← mul_u 64 sum 2;
  '(ptr, umem) ← alloc_umem frame_size frame_count;
  _ ← raise_caps;
  _ ← raise_priority;
  _ ← (if program_loaded then Done tt else Panic ExplicitPanic);
  completion_size ← mul_u 64 tx_size 2;
  '(socket, rx, tx, mem) ← expect_setup (Socket_new queue ptr umem zero_copy rx_size rx_size completion_size tx_size);
  _ ← (if inserted (wrap 32 queue_id) (so_fd socket) then Done tt else Panic ExplicitPanic);
  rx_ring ← unwrap (r_rx_ring rx);
  rm ← unwrap (sm_rx mem);
  tx_ring ← unwrap (t_tx_ring tx);
  router ← Router_new host_neighbors host_routes;
  router ← unwrap_ok router;
  _ ← drop_caps;
  dest_mac ← relay_dest_mac router dest_ip dest_mac_override;
  let cq := sm_completion mem in
  let txm := sm_tx mem in
  Done (mkRelayConfig src_mac src_ip dest_ip dest_port dest_mac, rx_size,
        mkRelayState (so_umem socket) (r_rx_fill rx) rx_ring tx_ring (t_tx_completion tx)
          (mkTxEnv txm (RingConsumer_new txm) cq (RingProducer_new cq (cr_size (t_tx_completion tx))) [] [])
          (mkRxEnv (sm_fill mem) (RingConsumer_new (sm_mapped_fill mem)) rm (RingProducer_new rm rx_size) [] []) k 0 0).
End prologue.

(** ** What every prologue needs *)

Section setup_facts.
Context `{BuildProfile} `{HostOs} `{NetOs} `{XdpOs}.

(** A host that grants what the loops ask for. *)
Record host_grants : Prop := mkHostGrants {
  hg_affinity : forall cpu_set, host_setaffinity cpu_set = 0;
  hg_priority : host_priority_min <> -1 /\ host_priority_max <> -1;
  hg_scheduler : forall p, host_setscheduler p = 0;
  hg_raise : forall c, host_cap_raise c = true;
  hg_drop : forall c, host_cap_drop c = true;
  hg_page : exists kp, 0 <= kp < 32 /\ host_page_size = 2 ^ kp;
  hg_mmap : forall size, is_Some (host_mmap size false);
}.

(** Pinning to one CPU sets its bit alone; a CPU number the set has no bit for
    panics. *)
Lemma set_cpu_affinity_one cpu :
  0 <= cpu ->
  set_cpu_affinity [cpu] =
    if decide (cpu < 1024) then
      Done (if host_setaffinity (<[Z.to_nat (cpu / 64) := 2 ^ (cpu mod 64)]> zeroed_cpu_set) =? 0 then Ok tt else Err LastOsError)
    else Panic IndexOutOfBounds.
Proof.
  intros Hc. unfold set_cpu_affinity, CPU_SET. cbn [for_each]. pose proof (Z.div_mod cpu 64 ltac:(lia)).
  pose proof (Z.mod_pos_bound cpu 64 ltac:(lia)). pose proof (Z.div_pos cpu 64 Hc ltac:(lia)).
  assert (len zeroed_cpu_set = 16) as El by done. case_decide as Hlt.
  - rewrite (slice_get_lookup _ (cpu / 64) 0); [|lia|apply lookup_replicate; lia].
    rewrite bind_Done, slice_set_Done, !bind_Done, Z.shiftl_1_l by lia. done.
  - unfold slice_get. rewrite decide_False by lia. done.
Qed.

Lemma host_grants_calls cpu :
  host_grants -> 0 <= cpu < 1024 ->
  set_cpu_affinity [cpu] = Done (Ok tt) /\ raise_caps = Done tt /\ raise_priority = Done tt /\ drop_caps = Done tt.
Proof.
  intros [Ha [Hp1 Hp2] Hs Hr Hd _ _] Hcpu. rewrite set_cpu_affinity_one, decide_True, Ha by lia. split; [done|].
  unfold raise_caps, raise_priority, drop_caps, fifo_priority_bounds.
  rewrite (proj2 (Z.eqb_neq _ _) Hp1), (proj2 (Z.eqb_neq _ _) Hp2). cbn.
  unfold set_current_thread_sched_fifo. by rewrite Hs, !Hr, !Hd.
Qed.

Lemma alloc_umem_ok fc :
  host_grants -> 0 < fc -> (debug_assertions = true -> is_power_of_two fc = true) ->
  fc * host_page_size + HUGE_2MB + host_page_size <= 2 ^ 63 ->
  exists ptr u, alloc_umem host_page_size fc = Done (ptr, u) /\ slice_umem_wf u /\ frame_size u = host_page_size /\
    available_frames u = seqZ 0 (capacity u) /\ fc <= capacity u.
Proof.
  intros Hg Hfc Hdbg Hmax. destruct (hg_page Hg) as (kp & Hkp & Ep). pose proof (hg_mmap Hg) as Hmm.
  assert (0 < host_page_size < 2 ^ 32) as Hps.
  { rewrite Ep. split; [apply Z.pow_pos_nonneg; lia|apply Z.pow_lt_mono_r; lia]. }
  assert (is_power_of_two host_page_size = true) as Hpow by (apply is_power_of_two_spec; exists kp; lia).
  assert (forall size, fc * host_page_size <= size -> size < 2 ^ 63 -> fc <= size / host_page_size ->
    forall b, len b = size -> slice_umem_wf (mkSliceUmem b host_page_size (seqZ 0 (size / host_page_size)) (size / host_page_size))) as Hwf.
  { intros size Hz1 Hz2 Hz3 b Hb. unfold slice_umem_wf. cbn. rewrite Hb. split_and!; try done; try lia.
    apply Forall_forall. intros i Hi%elem_of_seqZ. lia. }
  unfold HUGE_2MB in Hmax.
  destruct (alloc_region host_mmap host_page_size fc HUGE_2MB true Hpow Hdbg eq_refl Hfc ltac:(lia) ltac:(unfold HUGE_2MB; lia))
    as (s1 & [Hs1 Hs1'] & _ & Ha1 & Hu1 & Hc1). unfold HUGE_2MB in Hs1'.
  destruct (alloc_region host_mmap host_page_size fc host_page_size false Hpow Hdbg Hpow Hfc ltac:(lia) ltac:(lia))
    as (s2 & [Hs2 Hs2'] & _ & Ha2 & Hu2 & Hc2).
  unfold alloc_umem, alloc. rewrite Ha1, bind_Done, wrap_small by (unfold is_uint; lia).
  destruct (host_mmap s1 true) as [ptr|].
  - rewrite !bind_Done. cbn [unwrap_ok]. rewrite bind_Done. destruct (Hu1 ptr) as [-> El]. rewrite bind_Done. cbn [unwrap_ok].
    rewrite bind_Done. eexists _, _. split; [done|]. split; [apply Hwf; (done || lia)|done].
  - rewrite Ha2, bind_Done. destruct (Hmm s2) as [ptr ->]. cbn [unwrap_ok]. rewrite bind_Done.
    destruct (Hu2 ptr) as [-> El]. rewrite bind_Done. cbn [unwrap_ok]. rewrite bind_Done.
    eexists _, _. split; [done|]. split; [apply Hwf; (done || lia)|done].
Qed.

(** [expect] on a set-up whose calls all succeed. *)
Lemma expect_setup_opens {A} (m : setup A) cs (Q : A -> Prop) :
  opens m [] cs Q -> answered [] cs -> exists a, expect_setup m = Done a /\ Q a.
Proof. intros Hm Ha. destruct (Hm Ha) as (a & E & Hq). exists a. split; [|done]. unfold expect_setup. by rewrite E. Qed.
End setup_facts.
