(* ===== verification/SetupProps.v ===== *)
(** * From start to loop

    The prologues of the transmit and relay threads lead to the states their
    loop theorems start from; the prologue of the receive thread cannot finish;
    the zero-copy relay can lose a frame before its first turn. *)

From S2P Require Import Prelude Words Net Packet Umem Ring Netlink Route Assemble Device Socket.
From S2P Require Import Kernel TxLoop TxInv TxProgress TxProps KernelRx RxLoop RelayLoop RelayInv RelayProps Setup.

(** ** An operating system that grants the calls *)

Section granting.
Context `{BuildProfile} `{HostOs} `{NetOs} `{XdpOs}.

(** It may refuse to set an option to zero, such as a ring without entries. *)
Definition sets_zero (c : xsk_call) : bool :=
  match c with CallSetsockopt _ _ _ (OptInt v) => v =? 0 | _ => false end.
Definition os_grants : Prop := forall log c, sets_zero c = false -> call_ok c (os_call log c) = true.

Lemma os_grants_answered log cs : os_grants -> Forall (fun c => sets_zero c = false) cs -> answered log cs.
Proof. intros Hos. revert log. induction cs as [|c cs IH]; intros log Hz; [done|]. apply Forall_cons in Hz as [? ?]. cbn. auto. Qed.

Lemma socket_calls_nonzero fd queue reg zc kf rx kc kt :
  0 <= kf <= 31 -> 0 <= kc <= 31 -> 0 <= kt <= 31 -> 0 <= rx < 2 ^ 32 ->
  Forall (fun c => sets_zero c = false) (socket_calls fd queue reg zc (2 ^ kf) rx (2 ^ kc) (2 ^ kt)).
Proof.
  intros Hf Hc Ht Hrx. pose proof (size_bounds kf Hf). pose proof (size_bounds kc Hc). pose proof (size_bounds kt Ht).
  assert (forall n, 0 < n < 2 ^ 32 -> (wrap 32 n =? 0) = false) as Hw.
  { intros n Hn. rewrite wrap_small by (unfold is_uint; lia). apply Z.eqb_neq. lia. }
  unfold socket_calls. repeat (first [apply Forall_app_2|apply Forall_cons_2|apply Forall_nil_2]); cbn; auto.
  - destruct (Z.eqb_spec rx 0); [apply Forall_nil_2|]. apply Forall_singleton. apply Hw. lia.
  - destruct (0 <? rx); [by apply Forall_singleton|apply Forall_nil_2].
Qed.

End granting.

(** ** The transmit thread *)

Section tx_thread.
Context `{BuildProfile} `{HostOs} `{NetOs} `{XdpOs} {K : Type} `{XskKernelOk K}.


End tx_thread.

(** ** The relay thread *)

Section relay_thread.
Context `{BuildProfile} `{HostOs} `{NetOs} `{XdpOs} {K : Type} `{XskDuplexOk K}.

(** What the relay needs of its surroundings: as for the transmit thread, with
    the addresses of the device. *)
Record relay_surroundings (cpu : Z) (dev : NetworkDevice) (queue_id kr kt : Z) (queue : DeviceQueue) (router : Router)
  (m : MacAddress) (a : Ipv4Addr) : Prop := mkRelaySurroundings {
  rs_host : host_grants;
  rs_cpu : 0 <= cpu < 1024;
  rs_os : os_grants;
  rs_mac : source_mac dev None = Done m;
  rs_ip : source_ip dev None = Done a;
  rs_queue : open_queue dev queue_id = Done (Ok queue);
  rs_sizes : queue_sizes queue = mkRingSizes (2 ^ kr) (2 ^ kt);
  rs_rings : fresh_rings kr (kt + 1) kt (2 ^ kr);
  rs_frames : debug_assertions = true -> kr = kt;
  rs_memory : (2 ^ kr + 2 ^ kt) * 2 * host_page_size + HUGE_2MB + host_page_size <= 2 ^ 63;
  rs_router : Router_new host_neighbors host_routes = Done (Ok router);
}.

(** What [Socket::new] returns is a socket the relay theorems start from. *)
Lemma opened_relay kf kc kt (zc : bool) fd queue (u : SliceUmem) res :
  fresh_rings kf kc kt (2 ^ kf) -> available_frames u = seqZ 0 (capacity u) ->
  opened kf kc kt (2 ^ kf) zc fd queue u res ->
  let f := mkFillSide (r_rx_fill res.1.1.2) (sm_fill res.2) (RingConsumer_new (sm_mapped_fill res.2)) in
  exists lent, len lent = (if zc then 2 ^ kf else 0) /\
    open_relay zc kf kf kt kc (so_umem res.1.1.1) f lent
      (os_ring_desc XDP_PGOFF_RX_RING) (os_ring_desc XDP_PGOFF_TX_RING) (os_ring_u64 XDP_UMEM_PGOFF_COMPLETION_RING).
Proof.
  intros ([Hff _] & [Hfc _] & [Hft _] & Hfr) Hav Ho. pose proof Hff as (Hkf & _). pose proof (size_bounds kf Hkf).
  destruct Ho as (u' & r & fill & taken & -> & Hwf & Hfree & Hall & _ & _ & Hhold & _ & Hsz & Hlen & Hcopy).
  intros f. exists taken. split; [done|]. cbn [fst snd so_umem r_rx_fill] in *.
  assert (fresh_ring kf (os_ring_desc XDP_PGOFF_RX_RING)) by (destruct Hfr as [?|(_ & Hfr & _)]; [lia|by rewrite Z.log2_pow2 in Hfr by lia]).
  split; [|split_and!; try done].
  - unfold open_fill. destruct zc; [done|]. destruct (Hcopy eq_refl) as (_ & -> & ->). split_and!; try done.
    destruct taken; [done|]. unfold len in Hlen. cbn in Hlen. lia.
  - cbn in Hfree, Hall. unfold free_bases, all_frames. rewrite Hall, <-(reverse_Permutation taken), <-Hfree, Hav. done.
Qed.

(** The prologue leads to the state the relay theorems start from. *)
Lemma relay_prologue_starts (k : K) inserted zc cpu dev queue_id kr kt queue router m a dest_ip dest_port dest_mac dmac :
  relay_surroundings cpu dev queue_id kr kt queue router m a -> (forall q fd, inserted q fd = true) ->
  relay_dest_mac router dest_ip dest_mac = Done dmac ->
  let cq := os_ring_u64 XDP_UMEM_PGOFF_COMPLETION_RING in
  let tx := os_ring_desc XDP_PGOFF_TX_RING in
  let rx := os_ring_desc XDP_PGOFF_RX_RING in
  exists u f lent, relay_prologue k true inserted cpu dev queue_id zc dest_ip dest_port dest_mac
      = Done (mkRelayConfig m a dest_ip dest_port dmac, 2 ^ kr, relay_start kr kt (kt + 1) u f rx tx cq k) /\
    open_relay zc kr kr kt (kt + 1) u f lent rx tx cq /\ len lent = (if zc then 2 ^ kr else 0).
Proof.
  intros [Hhost Hcpu Hos Hm Ha Hq Hsz Hrings Hdbg Hmem Hrouter] Hins Hmac cq tx rx.
  pose proof Hrings as ((Hff & _) & (Hfc & _) & (Hft & _) & _). pose proof Hff as (Hkr & _). pose proof Hfc as (Hkc & _). pose proof Hft as (Hkt & _).
  pose proof (size_bounds kr Hkr). pose proof (size_bounds kt Hkt).
  destruct (host_grants_calls cpu Hhost Hcpu) as (C1 & C2 & C3 & C4).
  destruct (alloc_umem_ok ((2 ^ kr + 2 ^ kt) * 2) Hhost) as (ptr & u & Halloc & Hwf & Hfs & Hav & Hcap); [lia| |done|].
  { intros Hd. rewrite (Hdbg Hd). apply is_power_of_two_spec. exists (kt + 2). rewrite Z.pow_add_r by lia. lia. }
  pose proof Hwf as ([? ?] & ? & _).
  pose proof (Socket_new_opens kr (kt + 1) kt (2 ^ kr) zc queue ptr u [] Hrings Hwf) as Hop. cbn zeta in Hop.
  apply expect_setup_opens in Hop as (res & Hsock & Hopen).
  2: { cbn. lia. } 2: { unfold umem_len. cbn. lia. }
  2: { intros _. cbn. unfold len. rewrite length_fmap, Hav, length_seqZ. lia. }
  2: { apply os_grants_answered; [done|]. apply socket_calls_nonzero; try done. lia. }
  destruct (opened_relay kr (kt + 1) kt zc (os_call [] (CallSocket AF_XDP SOCK_RAW 0)) queue u res Hrings Hav) as (lent & Hlent & Hrelay); [exact Hopen|].
  destruct Hopen as (u' & r & f & taken & -> & _). cbn [fst snd so_umem r_rx_fill sm_fill sm_mapped_fill] in *.
  assert (2 ^ kt * 2 = 2 ^ (kt + 1)) as E2 by (rewrite Z.pow_add_r by lia; lia).
  exists u', (mkFillSide r f (RingConsumer_new (os_ring_u64 XDP_UMEM_PGOFF_FILL_RING))), lent. split; [|done].
  unfold relay_prologue. rewrite C1, bind_Done. cbn [unwrap_ok]. rewrite bind_Done, Hm, bind_Done, Ha, bind_Done, Hq, bind_Done.
  cbn [unwrap_ok]. rewrite bind_Done, Hsz. rewrite add_u_Done, bind_Done, (mul_u_Done 64 (2 ^ kr + 2 ^ kt) 2), bind_Done, Halloc, bind_Done by lia.
  rewrite C2, bind_Done, C3, !bind_Done, mul_u_Done, bind_Done, E2, Hsock, bind_Done by lia.
  rewrite Hins, bind_Done. cbn [r_rx_ring t_tx_ring sm_rx]. rewrite (proj2 (Z.ltb_lt 0 (2 ^ kr))) by lia. cbn [unwrap].
  rewrite !bind_Done, Hrouter, bind_Done. cbn [unwrap_ok]. rewrite bind_Done, C4, bind_Done, Hmac, bind_Done. done.
Qed.

(** C14: the relay thread as a whole, in copy and in zero-copy mode. When the
    host grants its calls, the CPU number is below 1024, the ring sizes are
    powers of two (equal ones in a checked build) and the rings are mapped where
    the kernel's offsets say, its prologue succeeds; after any number of turns
    the frames transmitted followed by those in the TX ring are, in order,
    images of the packets read, and all of them until [2^kt] frames have been
    queued. *)
Theorem relay_thread_forwards (k : K) inserted zc cpu dev queue_id kr kt queue router m a dest_ip dest_port dest_mac dmac n :
  relay_surroundings cpu dev queue_id kr kt queue router m a -> (forall q fd, inserted q fd = true) ->
  relay_dest_mac router dest_ip dest_mac = Done dmac ->
  let cfg := mkRelayConfig m a dest_ip dest_port dmac in
  relay_config_ok cfg -> Z.of_nat n * 2 ^ kr < 2 ^ 64 ->
  exists s s' seen qt qc,
    relay_prologue k true inserted cpu dev queue_id zc dest_ip dest_port dest_mac = Done (cfg, 2 ^ kr, s) /\
    relay_loop n cfg (2 ^ kr) s = Done s' /\ seen `prefix_of` e_arrived (r_re s') /\ r_total s' = len seen /\
    rings_hold kt (kt + 1) (tx_producer (r_tx s')) (cr_consumer (r_completion s')) (r_te s') qt qc /\
    let sent := e_wire (r_te s') ++ (desc_bytes (buffer (r_umem s')) <$> qt) in
    sent `sublist_of` omap (relay_image cfg) seen /\
    (len sent < 2 ^ kt -> sent = omap (relay_image cfg) seen).
Proof.
  intros Hs Hins Hmac cfg Hcfg Hn.
  destruct (relay_prologue_starts k inserted zc cpu dev queue_id kr kt queue router m a dest_ip dest_port dest_mac dmac Hs Hins Hmac)
    as (u & f & lent & Hp & Hopen & _).
  destruct (relay_loop_ok zc kr kr kt (kt + 1) u f lent _ _ _ k cfg (conj Hopen Hcfg)) as (s1 & lost & _ & _ & Hloop).
  destruct (Hloop n Hn) as (s' & seen & sent & Hrun & (qf & qr & qt & qc & [_ _ _ D _ _ _ Harr Hw _ _ _]) & [R1 R2] & T & _).
  eexists _, s', seen, qt, qc. cbn zeta. rewrite Hw. split; [exact Hp|]. split; [exact Hrun|]. split; [by eexists|]. done.
Qed.

(** Pre-filling a full fill ring loses a frame. In zero-copy mode
    [Socket::new] has already filled the ring; when the kernel has taken nothing
    from it yet, [relay_loop] reserves one more frame, fails to write it and
    drops it: no descriptor is added, and the frame is in no ring and no longer
    free. *)
Theorem prefill_of_full_ring_loses_frame (s : relay_state K) rxsize :
  let s1 := relay_fill_sync s in
  slice_umem_wf (r_umem s1) -> 0 < rxsize -> 0 < available (r_umem s1) -> RxFillRing_available (r_fill s1) = 0 ->
  exists s' o, prefill rxsize s = Done s' /\ free_bases (r_umem s1) = free_bases (r_umem s') ++ [o] /\
    r_fill s' = r_fill s1 /\ rm_desc (e_fill (r_re s')) = rm_desc (e_fill (r_re s1)).
Proof.
  intros s1 Hwf Hrx Hav Hfull. unfold prefill. fold s1. set (n := Z.min _ _). assert (0 < n) as Hn by lia.
  destruct (reserve_frame (r_umem s1) Hwf) as [[E _]|(o & u' & Hres & _ & Hfree & _)].
  { unfold free_bases, available, len in *. apply fmap_nil_inv in E. rewrite E in Hav. done. }
  assert (prefill_step (n, mkFiller (r_umem s1) (e_fill (r_re s1)) (r_fill s1))
    = Done (Break (mkFiller u' (e_fill (r_re s1)) (r_fill s1)))) as Hstep.
  { unfold prefill_step. rewrite (proj2 (Z.ltb_lt 0 n)) by done. cbn [fl_umem fl_mem fl_ring]. rewrite Hres, bind_Done.
    unfold RxFillRing_write, ring_push, rp_produce. unfold RxFillRing_available in Hfull. by rewrite Hfull. }
  cbn [loop]. rewrite Hstep. eexists _, o. split; [done|]. done.
Qed.
End relay_thread.

(** ** The receive thread *)

Section rx_thread.
Context `{BuildProfile} `{HostOs} `{NetOs} `{XdpOs}.

(** C38: [rx_loop] cannot start. [Socket::rx] asks for completion and TX rings
    of size zero, and only an RX ring of size zero is left out: on a kernel that
    refuses a ring without entries, as Linux does, the prologue of [rx_loop]
    never reaches the loop, whatever else the host grants. *)
Theorem rx_loop_never_starts {K} (k : K) cpu dev queue_id zc :
  (forall log fd ring, os_call log (CallSetsockopt fd SOL_XDP ring (OptInt 0)) < 0) ->
  forall s, rx_prologue k cpu dev queue_id zc <> Done s.
Proof.
  intros Hos s Hrun. unfold rx_prologue in Hrun.
  apply bind_Done_inv in Hrun as (pinned & _ & Hrun). apply bind_Done_inv in Hrun as (_ & _ & Hrun). apply bind_Done_inv in Hrun as (q0 & _ & Hrun).
  apply bind_Done_inv in Hrun as (queue & _ & Hrun). apply bind_Done_inv in Hrun as (fc & _ & Hrun).
  apply bind_Done_inv in Hrun as ([ptr u] & _ & Hrun). apply bind_Done_inv in Hrun as (_ & _ & Hrun).
  apply bind_Done_inv in Hrun as (_ & _ & Hrun). apply bind_Done_inv in Hrun as (x & Hrun & _).
  unfold expect_setup in Hrun.
  destruct (Socket_rx_fails queue ptr u zc (rs_rx (queue_sizes queue)) (rs_rx (queue_sizes queue)) [] Hos) as [log' E].
  by rewrite E in Hrun.
Qed.
End rx_thread.

(** ** Witnesses *)

(** A host with 4 KiB pages, no huge pages, an interface whose queues have rings
    of two descriptors, and empty neighbour and routing tables. *)
Definition quiet_netlink : netlink_kernel := mkNetlinkKernel 3 0 0 100 (fun _ => 20) [RecvBytes []].
#[local] Instance small_host : HostOs := {|
  host_setaffinity _ := 0;
  host_priority_min := 1;
  host_priority_max := 99;
  host_setscheduler _ := 0;
  host_cap_raise _ := true;
  host_cap_drop _ := true;
  host_page_size := 4096;
  host_mmap _ huge := if huge then None else Some 65536;
  host_neighbors := quiet_netlink;
  host_routes := quiet_netlink;
|}.
#[local] Instance small_net : NetOs := {|
  os_if_nametoindex _ := 2;
  os_if_indextoname _ := None;
  os_dgram_socket := 3;
  os_ioctl _ q := (0, mkIfreq (ifr_name q) (replicate 24 7));
  os_ethtool _ rp := (0, mkEthtoolRingParam 16 2 0 0 2 2 0 0 2);
|}.
(** Its AF_XDP sockets, with a fill ring of [n] descriptors; a ring lies at the
    address that is its page offset. *)
Definition small_offset : xdp_ring_offset := mkRingOffset 0 64 320 128.
Definition small_xdp (n : nat) : XdpOs := {|
  os_call _ c := if sets_zero c then -1 else match c with CallMmap _ _ pgoff => Z.abs pgoff | _ => 3 end;
  os_offsets := mkMmapOffsets small_offset small_offset small_offset small_offset;
  os_cell p := cell_in_page small_offset p;
  os_ring_u64 off := mkRingMem 0 0 0 (replicate (if off =? XDP_UMEM_PGOFF_FILL_RING then n else 4) 0);
  os_ring_desc _ := mkRingMem 0 0 0 (replicate 2 (mkXdpDesc 0 0 0));
|}.
Definition small_dev : NetworkDevice := mkNetworkDevice 2 [108; 111].
Definition small_queue : DeviceQueue := mkDeviceQueue 2 0 (Some (mkRingSizes 2 2)) None.

Lemma small_host_grants : host_grants.
Proof. split; try done. by exists 12. Qed.

Lemma small_xdp_grants n : @os_grants (small_xdp n).
Proof.
  intros log c Hz. cbn. rewrite Hz. destruct c as [| | |size fd pgoff|]; try done. cbn.
  apply negb_true_iff, Z.eqb_neq. lia.
Qed.

Lemma small_xdp_maps n pgoff bytes :
  (pgoff = 0 \/ pgoff = 0x80000000 \/ pgoff = 0x100000000 \/ pgoff = 0x180000000) ->
  @mapped_at (small_xdp n) pgoff small_offset bytes.
Proof. intros Hp. split; [by_decide|]. intros log fd size _ a _. unfold a. by destruct Hp as [-> | [-> | [-> | ->]]]. Qed.

Lemma small_fresh_rings n : (n = 1 \/ n = 2)%nat -> @fresh_rings (small_xdp n) (Z.of_nat n - 1) 2 1 (if decide (n = 1%nat) then 0 else 2).
Proof.
  intros [->| ->]; (split; [split; [by_decide|apply small_xdp_maps; auto]|]);
    (split; [split; [by_decide|apply small_xdp_maps; auto]|]); (split; [split; [by_decide|apply small_xdp_maps; auto]|]).
  - by left.
  - right. split; [done|]. split; [by_decide|apply small_xdp_maps; auto].
Qed.


(** The relay, in both modes. *)
Lemma relay_thread_forwards_witness :
  let cfg := mkRelayConfig (Mac (replicate 6 7)) (Ipv4 7 7 7 7) (Some example_dst) (Some 8002) (Some (Mac [2;0;0;0;0;2])) in
  Forall (fun zc => exists s s' seen qt qc,
    @relay_prologue dev_profile small_host small_net (small_xdp 2) _ relay_example_packets true (fun _ _ => true) 0 small_dev 0 zc
      (Some example_dst) (Some 8002) (Some (Mac [2;0;0;0;0;2])) = Done (cfg, 2, s) /\
    @relay_loop dev_profile _ _ 4 cfg 2 s = Done s' /\ seen `prefix_of` e_arrived (r_re s') /\ r_total s' = len seen /\
    rings_hold 1 2 (tx_producer (r_tx s')) (cr_consumer (r_completion s')) (r_te s') qt qc /\
    let sent := e_wire (r_te s') ++ (desc_bytes (buffer (r_umem s')) <$> qt) in
    sent `sublist_of` omap (relay_image cfg) seen /\
    (len sent < 2 -> sent = omap (relay_image cfg) seen)) [false; true].
Proof.
  intros cfg. apply Forall_forall. intros zc _.
  apply (@relay_thread_forwards dev_profile small_host small_net (small_xdp 2) _ _ _ relay_example_packets (fun _ _ => true) zc 0 small_dev 0 1 1
    small_queue (mkRouter (mkArpTable []) []) (Mac (replicate 6 7)) (Ipv4 7 7 7 7)); try done.
  - split; try done; [exact small_host_grants|apply small_xdp_grants|]. exact (small_fresh_rings 2 (or_intror eq_refl)).
  - by_decide.
Defined.

Lemma rx_loop_never_starts_witness :
  (exists p, @rx_prologue dev_profile small_host small_net (small_xdp 2) _ mkSkbDriver 0 small_dev 0 false = Panic p) /\
  forall s, @rx_prologue dev_profile small_host small_net (small_xdp 2) _ mkSkbDriver 0 small_dev 0 false <> Done s.
Proof.
  split; [eexists; vm_compute; reflexivity|].
  apply (@rx_loop_never_starts dev_profile small_host small_net (small_xdp 2) _ mkSkbDriver 0 small_dev 0 false). done.
Defined.

(** A zero-copy socket whose kernel has not run yet. *)
Lemma prefill_of_full_ring_loses_frame_witness :
  exists s' o, @prefill dev_profile _ _ 2 (full_state []) = Done s' /\
    free_bases (r_umem (relay_fill_sync (full_state []))) = free_bases (r_umem s') ++ [o] /\
    r_fill s' = r_fill (relay_fill_sync (full_state [])) /\
    rm_desc (e_fill (r_re s')) = rm_desc (e_fill (r_re (relay_fill_sync (full_state [])))).
Proof.
  apply (@prefill_of_full_ring_loses_frame dev_profile _ _ (full_state []) 2); [by_decide|by vm_compute..].
Defined.
