(* ===== verification/Bitset.v ===== *)
(** * Bit sets

    Sets of small integers kept as the bits of 64-bit words, as the packet pool
    and the sharded shred assembler keep them. *)

From S2P Require Import Prelude Words.

(** [x.trailing_zeros()] on a 64-bit word. *)
Definition trailing_zeros (x : Z) : Z :=
  match list_find (fun i => Z.testbit x i = true) (seqZ 0 64) with Some (_, i) => i | None => 64 end.

(** ** Bits *)

Lemma not_u_bits w x i : is_uint w x -> 0 <= i < w -> Z.testbit (not_u w x) i = negb (Z.testbit x i).
Proof.
  intros Hx Hi. rewrite <-(Z.mod_pow2_bits_low (not_u w x) w i) by lia.
  replace (not_u w x) with (Z.lnot x + 1 * 2 ^ w) by (unfold not_u, Z.lnot; lia).
  rewrite Z.mod_add by (apply Z.pow_nonzero; lia). rewrite Z.mod_pow2_bits_low by lia. apply Z.lnot_spec. lia.
Qed.

Lemma bit_uint w b : 0 <= b < w -> is_uint w (Z.shiftl 1 b).
Proof.
  intros Hb. unfold is_uint. rewrite Z.shiftl_1_l. split; [apply Z.pow_nonneg; lia|apply Z.pow_lt_mono_r; lia].
Qed.

Lemma shiftl_1_bits b i : 0 <= b -> Z.testbit (Z.shiftl 1 b) i = bool_decide (i = b).
Proof.
  intros Hb. rewrite Z.shiftl_1_l, Z.pow2_bits_eqb by done. case_bool_decide as E; [subst; apply Z.eqb_refl|].
  apply Z.eqb_neq. congruence.
Qed.

(** Clearing and setting one bit. *)
Lemma clear_bit w x b i :
  0 <= b < w -> 0 <= i < w -> Z.testbit (Z.land x (not_u w (Z.shiftl 1 b))) i = Z.testbit x i && negb (bool_decide (i = b)).
Proof.
  intros Hb Hi. rewrite Z.land_spec, not_u_bits by (done || by apply bit_uint). by rewrite shiftl_1_bits by lia.
Qed.

Lemma set_bit x b i : 0 <= b -> Z.testbit (Z.lor x (Z.shiftl 1 b)) i = Z.testbit x i || bool_decide (i = b).
Proof. intros Hb. by rewrite Z.lor_spec, shiftl_1_bits by done. Qed.

(** Testing one bit. *)
Lemma land_bit_zero x b : 0 <= b -> (Z.land x (Z.shiftl 1 b) =? 0) = negb (Z.testbit x b).
Proof.
  intros Hb. destruct (Z.testbit x b) eqn:E; cbn.
  - apply Z.eqb_neq. intros Hz. assert (Z.testbit (Z.land x (Z.shiftl 1 b)) b = true) as Ht.
    { rewrite Z.land_spec, E, shiftl_1_bits by done. by rewrite bool_decide_eq_true_2. }
    by rewrite Hz, Z.testbit_0_l in Ht.
  - apply Z.eqb_eq. apply Z.bits_inj_0. intros i. rewrite Z.land_spec, shiftl_1_bits by done.
    case_bool_decide; [subst; by rewrite E|apply andb_false_r].
Qed.

Lemma trailing_zeros_spec x :
  is_uint 64 x -> x <> 0 -> 0 <= trailing_zeros x < 64 /\ Z.testbit x (trailing_zeros x) = true /\
    forall i, 0 <= i < trailing_zeros x -> Z.testbit x i = false.
Proof.
  intros Hx Hz. unfold trailing_zeros. destruct (list_find _ _) as [[n i]|] eqn:E.
  - apply list_find_Some in E as (Hn & Hb & Hmin). apply lookup_seqZ in Hn as [-> Hn].
    split; [lia|]. split; [done|]. intros i Hi. destruct (Z.testbit x i) eqn:Ei; [|done]. exfalso.
    apply (Hmin (Z.to_nat i) i); [apply lookup_seqZ; lia|lia|done].
  - apply list_find_None in E. exfalso. apply Hz. apply Z.bits_inj_0. intros i.
    destruct (decide (i < 0)); [by apply Z.testbit_neg_r|]. destruct (decide (i < 64)).
    + destruct (Z.testbit x i) eqn:Ei; [|done]. exfalso.
      apply (proj1 (Forall_forall _ _) E i); [apply elem_of_seqZ; lia|done].
    + unfold is_uint in Hx. apply Z.bits_above_log2; [lia|]. assert (Z.log2 x < 64) by (apply Z.log2_lt_pow2; lia). lia.
Qed.

(** A value has [w] bits exactly when every bit from [w] on is clear. *)
Lemma uint_bits w x : 0 <= w -> is_uint w x <-> forall i, w <= i -> Z.testbit x i = false.
Proof.
  intros Hw. split.
  - intros [H1 H2] i Hi. destruct (decide (x = 0)) as [->|]; [apply Z.testbit_0_l|].
    apply Z.bits_above_log2; [done|]. assert (Z.log2 x < w) by (apply Z.log2_lt_pow2; lia). lia.
  - intros Hb. replace x with (x mod 2 ^ w); [by apply (wrap_range w x)|].
    apply Z.bits_inj'. intros i Hi. destruct (decide (i < w)).
    + by rewrite Z.mod_pow2_bits_low by lia.
    + rewrite Z.mod_pow2_bits_high by lia. symmetry. apply Hb. lia.
Qed.

Lemma land_uint w x y : 0 <= w -> is_uint w x -> is_uint w (Z.land x y).
Proof.
  intros Hw Hx. apply uint_bits; [done|]. intros i Hi. rewrite Z.land_spec.
  by rewrite (proj1 (uint_bits w x Hw) Hx) by done.
Qed.

Lemma lor_uint w x y : 0 <= w -> is_uint w x -> is_uint w y -> is_uint w (Z.lor x y).
Proof.
  intros Hw Hx Hy. apply uint_bits; [done|]. intros i Hi. rewrite Z.lor_spec.
  rewrite (proj1 (uint_bits w x Hw) Hx), (proj1 (uint_bits w y Hw) Hy) by done. done.
Qed.

(** ** Words *)

(** Bit [k] of the set: bit [k mod 64] of word [k / 64]. *)
Definition bit_at (m : list Z) (k : Z) : bool :=
  match m !! Z.to_nat (k / 64) with Some w => Z.testbit w (k mod 64) | None => false end.

(** [n] words. *)
Definition mask_ok (n : Z) (m : list Z) : Prop := length m = Z.to_nat n /\ Forall (is_uint 64) m.

Lemma mask_lookup n m idx : mask_ok n m -> 0 <= idx < n -> exists w, m !! Z.to_nat idx = Some w /\ is_uint 64 w /\ slice_get m idx = Done w.
Proof.
  intros [Hl Hw] Hi. destruct (lookup_lt_is_Some_2 m (Z.to_nat idx)) as [w Ew]; [lia|].
  exists w. split; [done|]. split; [by apply (Forall_lookup_1 _ _ _ _ Hw Ew)|]. apply slice_get_lookup; [lia|done].
Qed.

Lemma mask_update n m idx w :
  mask_ok n m -> 0 <= idx < n -> is_uint 64 w ->
  slice_set m idx w = Done (<[Z.to_nat idx := w]> m) /\ mask_ok n (<[Z.to_nat idx := w]> m) /\
  forall k, 0 <= k -> bit_at (<[Z.to_nat idx := w]> m) k = if decide (k / 64 = idx) then Z.testbit w (k mod 64) else bit_at m k.
Proof.
  intros [Hl Hw] Hi Hu. split; [apply slice_set_Done; unfold len; lia|]. split.
  - split; [by rewrite length_insert|]. by apply Forall_insert.
  - intros k Hk. unfold bit_at. assert (0 <= k / 64) by (apply Z.div_pos; lia). case_decide as E.
    + rewrite E, list_lookup_insert_eq; [done|lia].
    + rewrite list_lookup_insert_ne; [done|]. lia.
Qed.

Lemma bit_index idx b k : 0 <= b < 64 -> 0 <= k -> k = idx * 64 + b <-> k / 64 = idx /\ k mod 64 = b.
Proof. intros. split; [intros ->|intros [<- <-]]; div_lia. Qed.


(** [m[k / 64] |= 1 << (k % 64)]. *)
Lemma mask_set n m k :
  mask_ok n m -> 0 <= k < n * 64 ->
  exists w, slice_get m (k / 64) = Done w /\ (Z.land w (Z.shiftl 1 (k mod 64)) =? 0) = negb (bit_at m k) /\
    exists m', slice_set m (k / 64) (Z.lor w (Z.shiftl 1 (k mod 64))) = Done m' /\ mask_ok n m' /\
      forall i, 0 <= i -> bit_at m' i = bit_at m i || bool_decide (i = k).
Proof.
  intros Hm Hk. assert (0 <= k / 64 < n) as Hi by div_lia. assert (0 <= k mod 64 < 64) as Hr by div_lia.
  destruct (mask_lookup _ _ _ Hm Hi) as (w & Ew & Hw & E). exists w. split; [done|]. split.
  { unfold bit_at. rewrite Ew. apply land_bit_zero. lia. }
  destruct (mask_update n m (k / 64) (Z.lor w (Z.shiftl 1 (k mod 64)))) as (E' & Hm' & Hf); [done|done| |].
  { apply lor_uint; [done|done|]. by apply bit_uint. }
  eexists. split; [exact E'|]. split; [done|]. intros i Hi'. rewrite Hf by lia. case_decide as Ei.
  - rewrite set_bit by lia. unfold bit_at. rewrite Ei, Ew. f_equal. apply bool_decide_ext. div_lia.
  - rewrite bool_decide_eq_false_2; [by rewrite orb_false_r|]. intros ->. done.
Qed.
