(* ===== verification/PacketPool.v ===== *)
(** * The packet pool ([examples/packet_pool.rs])

    A pool of pre-allocated packets shared by threads: a bit per packet says
    whether it is free, and a thread owns the packet whose bit it has cleared
    with a compare-and-exchange. [acquire] and [PacketPool_release] are modelled by their
    atomic accesses, so that threads interleave between any two of them;
    [acquire_alone] is the same code run without interference. *)

From S2P Require Import Prelude Words Bitset.

(** ** Data *)

Definition MAX_PACKET_SIZE : Z := 9000.
Definition POOL_SIZE : Z := 65536.
Definition WORDS : Z := POOL_SIZE / 64.

Record PacketBuffer := mkPacketBuffer { pb_data : list Z; pb_len : Z }.

Definition as_slice (b : PacketBuffer) : outcome (list Z) := slice_range (pb_data b) 0 (pb_len b).

Definition set_data (b : PacketBuffer) (data : list Z) : outcome PacketBuffer :=
  let n := Z.min (len data) MAX_PACKET_SIZE in
  src ← slice_range data 0 n;
  d ← copy_from_slice (pb_data b) 0 n src;
  Done (mkPacketBuffer d n).

(** Times are kept as the number of nanoseconds since the epoch. *)
Record PacketMeta := mkPacketMeta {
  pm_src_ip : list Z; pm_src_port : Z; pm_dst_ip : list Z; pm_dst_port : Z; pm_timestamp : Z;
}.

Record PacketPool := mkPacketPool {
  packets : list PacketBuffer;
  meta : list PacketMeta;
  free_mask : list Z;
  next_search : Z;
}.

Definition PacketPool_new : PacketPool :=
  mkPacketPool (replicate (Z.to_nat POOL_SIZE) (mkPacketBuffer (replicate (Z.to_nat MAX_PACKET_SIZE) 0) 0))
    (replicate (Z.to_nat POOL_SIZE) (mkPacketMeta [0; 0; 0; 0] 0 [0; 0; 0; 0] 0 0))
    (replicate (Z.to_nat WORDS) (not_u 64 0)) 0.

Definition with_mask (p : PacketPool) (m : list Z) (n : Z) : PacketPool := mkPacketPool (packets p) (meta p) m n.

(** ** Atomic accesses *)

(** Where a thread is in [acquire]. *)
Inductive acquire_pc :=
  | Scan (start_idx offset : Z)                 (* at the load of word [offset] *)
  | Claim (start_idx offset current : Z)        (* before the compare-and-exchange *)
  | Publish (idx bit_pos : Z)                   (* before [next_search.store] *)
  | Return (packet_idx : option Z).

Definition word_index (start_idx offset : Z) : Z := (start_idx + offset) mod WORDS.

Definition acquire_start (p : PacketPool) : acquire_pc := Scan (next_search p mod WORDS) 0.

(** The next access of a thread at [pc]; [weak] makes a compare-and-exchange
    fail spuriously. *)
Definition acquire_step (p : PacketPool) (weak : bool) (pc : acquire_pc) : outcome (PacketPool * acquire_pc) :=
  match pc with
  | Scan start_idx offset =>
      if offset <? WORDS then
        current ← slice_get (free_mask p) (word_index start_idx offset);
        if current =? 0 then Done (p, Scan start_idx (offset + 1))
        else if 64 <=? trailing_zeros current then Done (p, Scan start_idx (offset + 1))
        else Done (p, Claim start_idx offset current)
      else Done (p, Return None)
  | Claim start_idx offset current =>
      let idx := word_index start_idx offset in
      let bit_pos := trailing_zeros current in
      let new_mask := Z.land current (not_u 64 (Z.shiftl 1 bit_pos)) in
      word ← slice_get (free_mask p) idx;
      if (word =? current) && negb weak then
        m ← slice_set (free_mask p) idx new_mask;
        Done (with_mask p m (next_search p), Publish idx bit_pos)
      else Done (p, Scan start_idx offset)
  | Publish idx bit_pos =>
      let packet_idx := idx * 64 + bit_pos in
      _ ← slice_get (packets p) packet_idx;
      _ ← slice_get (meta p) packet_idx;
      Done (with_mask p (free_mask p) ((idx + 1) mod WORDS), Return (Some packet_idx))
  | Return r => Done (p, Return r)
  end.

(** [PacketPool_release]: one [fetch_or]. *)
Definition PacketPool_release (p : PacketPool) (index : Z) : outcome PacketPool :=
  let word_idx := index / 64 in
  let bit_idx := index mod 64 in
  word ← slice_get (free_mask p) word_idx;
  m ← slice_set (free_mask p) word_idx (Z.lor word (Z.shiftl 1 bit_idx));
  Done (with_mask p m (next_search p)).

(** [acquire] without interference. *)
Definition acquire_alone (p : PacketPool) : outcome (PacketPool * option Z) :=
  loop (S (Z.to_nat (2 * WORDS + 4))) (fun '(p, pc) =>
    match pc with
    | Return r => Done (Break (p, r))
    | _ => s ← acquire_step p false pc; Done (Continue s)
    end) (p, acquire_start p).

(** [acquire_ref]: fill the packet; the reference returns it when dropped. *)
Record PacketRef := mkPacketRef { pr_meta : PacketMeta; pr_index : Z }.

Definition acquire_ref (p : PacketPool) (data : list Z) (m : PacketMeta) : outcome (PacketPool * option PacketRef) :=
  '(p, r) ← acquire_alone p;
  match r with
  | None => Done (p, None)
  | Some index =>
      buffer ← slice_get (packets p) index;
      buffer ← set_data buffer data;
      ps ← slice_set (packets p) index buffer;
      ms ← slice_set (meta p) index m;
      Done (mkPacketPool ps ms (free_mask p) (next_search p), Some (mkPacketRef m index))
  end.

Definition PacketRef_payload (p : PacketPool) (r : PacketRef) : outcome (list Z) :=
  b ← slice_get (packets p) (pr_index r);
  as_slice b.

(** ** Threads *)

(** The pool, the threads inside [acquire], and the packets their callers hold. *)
Record pool_state := mkPoolState { ps_pool : PacketPool; ps_threads : list acquire_pc; ps_owned : list Z }.

(** The packet a thread inside [acquire] has claimed. *)
Definition claimed (pc : acquire_pc) : option Z :=
  match pc with Publish idx bit_pos => Some (idx * 64 + bit_pos) | Return r => r | _ => None end.
(** Every packet that is claimed or held. *)
Definition handed_out (s : pool_state) : list Z := omap claimed (ps_threads s) ++ ps_owned s.

Inductive pool_step : pool_state -> pool_state -> Prop :=
  | ps_call p ts owned :
      pool_step (mkPoolState p ts owned) (mkPoolState p (ts ++ [acquire_start p]) owned)
  | ps_access p ts1 pc ts2 owned weak p' pc' :
      acquire_step p weak pc = Done (p', pc') ->
      pool_step (mkPoolState p (ts1 ++ pc :: ts2) owned) (mkPoolState p' (ts1 ++ pc' :: ts2) owned)
  | ps_return p ts1 r ts2 owned :
      pool_step (mkPoolState p (ts1 ++ Return r :: ts2) owned) (mkPoolState p (ts1 ++ ts2) (option_list r ++ owned))
  | ps_release p ts owned1 i owned2 p' :
      PacketPool_release p i = Done p' ->
      pool_step (mkPoolState p ts (owned1 ++ i :: owned2)) (mkPoolState p' ts (owned1 ++ owned2)).

(** ** Invariant *)

Definition pc_ok (pc : acquire_pc) : Prop :=
  match pc with
  | Scan start offset => 0 <= start < WORDS /\ 0 <= offset <= WORDS
  | Claim start offset current => 0 <= start < WORDS /\ 0 <= offset < WORDS /\ is_uint 64 current /\ current <> 0
  | Publish idx bit_pos => 0 <= idx < WORDS /\ 0 <= bit_pos < 64
  | Return _ => True
  end.

Definition buffer_ok (b : PacketBuffer) : Prop := len (pb_data b) = MAX_PACKET_SIZE /\ 0 <= pb_len b <= MAX_PACKET_SIZE.

Record pool_wf (p : PacketPool) : Prop := mkPoolWf {
  pw_packets : len (packets p) = POOL_SIZE;
  pw_buffers : Forall buffer_ok (packets p);
  pw_meta : len (meta p) = POOL_SIZE;
  pw_mask : mask_ok WORDS (free_mask p);
  pw_next : 0 <= next_search p;
}.

(** A bit is clear exactly when its packet is handed out, and no packet is
    handed out twice. *)
Record ownership (m : list Z) (out : list Z) : Prop := mkOwnership {
  ow_free : forall k, 0 <= k < POOL_SIZE -> bit_at m k = true <-> k ∉ out;
  ow_range : Forall (fun k => 0 <= k < POOL_SIZE) out;
  ow_nodup : NoDup out;
}.

Record pool_inv (s : pool_state) : Prop := mkPoolInv {
  pi_wf : pool_wf (ps_pool s);
  pi_pcs : Forall pc_ok (ps_threads s);
  pi_own : ownership (free_mask (ps_pool s)) (handed_out s);
}.

Lemma words_eq : WORDS = 1024 /\ POOL_SIZE = WORDS * 64.
Proof. done. Qed.
#[local] Opaque WORDS POOL_SIZE.

(** ** Ownership *)

Lemma ownership_perm m out out' : out ≡ₚ out' -> ownership m out -> ownership m out'.
Proof. intros E [H1 H2 H3]. split; [intros k Hk; rewrite <-E; by apply H1|by rewrite <-E|by rewrite <-E]. Qed.

(** Clearing the bit of a free packet hands it out. *)
Lemma ownership_claim m m' out k :
  ownership m out -> 0 <= k < POOL_SIZE -> bit_at m k = true ->
  (forall i, 0 <= i < POOL_SIZE -> bit_at m' i = bit_at m i && negb (bool_decide (i = k))) -> ownership m' (k :: out).
Proof.
  intros [H1 H2 H3] Hk Hf Hm. pose proof (proj1 (H1 k Hk) Hf). split; [|by constructor|by constructor].
  intros i Hi. rewrite (Hm i Hi), andb_true_iff, negb_true_iff, bool_decide_eq_false, H1, not_elem_of_cons by done. naive_solver.
Qed.

(** Setting the bit of a packet that is handed out takes it back. *)
Lemma ownership_release m m' out k :
  ownership m (k :: out) ->
  (forall i, 0 <= i < POOL_SIZE -> bit_at m' i = bit_at m i || bool_decide (i = k)) -> ownership m' out.
Proof.
  intros [H1 H2 H3] Hm. apply NoDup_cons in H3 as [Hk H3]. inv H2. split; [|done|done].
  intros i Hi. rewrite (Hm i Hi), orb_true_iff, bool_decide_eq_true, H1, not_elem_of_cons by done.
  destruct (decide (i = k)) as [->|]; naive_solver.
Qed.

Lemma claim_mask m idx w :
  mask_ok WORDS m -> 0 <= idx < WORDS -> m !! Z.to_nat idx = Some w -> w <> 0 ->
  let b := trailing_zeros w in let k := idx * 64 + b in
  exists m', slice_set m idx (Z.land w (not_u 64 (Z.shiftl 1 b))) = Done m' /\ mask_ok WORDS m' /\ 0 <= k < POOL_SIZE /\
    bit_at m k = true /\ forall i, 0 <= i < POOL_SIZE -> bit_at m' i = bit_at m i && negb (bool_decide (i = k)).
Proof.
  intros Hm Hi Hw Hz b k. destruct words_eq as [_ Hp].
  destruct (trailing_zeros_spec w) as (Hb & Ht & _); [by apply (Forall_lookup_1 _ _ _ _ (proj2 Hm) Hw)|done|]. fold b in Hb, Ht.
  destruct (mask_update WORDS m idx (Z.land w (not_u 64 (Z.shiftl 1 b)))) as (E & Hm' & Hf); [done|done| |].
  { apply land_uint; [done|]. by apply (Forall_lookup_1 _ _ _ _ (proj2 Hm) Hw). }
  destruct (proj1 (bit_index idx b k ltac:(lia) ltac:(lia)) eq_refl) as [Eq Er].
  exists (<[Z.to_nat idx:=Z.land w (not_u 64 (Z.shiftl 1 b))]> m). split_and!; [done|done|lia|lia| |].
  - unfold bit_at. by rewrite Eq, Hw, Er.
  - intros i Hi'. rewrite Hf by lia. case_decide as E'.
    + rewrite clear_bit by div_lia. unfold bit_at. rewrite E', Hw. f_equal. f_equal. apply bool_decide_ext.
      unfold k. rewrite (bit_index idx b i) by lia. naive_solver.
    + rewrite bool_decide_eq_false_2; [by rewrite andb_true_r|]. intros ->. done.
Qed.

Lemma release_mask p k :
  pool_wf p -> 0 <= k < POOL_SIZE ->
  exists m', PacketPool_release p k = Done (with_mask p m' (next_search p)) /\ mask_ok WORDS m' /\
    forall i, 0 <= i < POOL_SIZE -> bit_at m' i = bit_at (free_mask p) i || bool_decide (i = k).
Proof.
  intros Hp Hk. destruct words_eq as [_ Hs]. unfold PacketPool_release.
  destruct (mask_set WORDS (free_mask p) k) as (w & -> & _ & m' & E & Hm & Hb); [apply Hp|lia|].
  rewrite bind_Done, E, bind_Done. exists m'. split; [done|]. split; [done|]. intros i Hi. apply Hb. lia.
Qed.

(** ** Steps preserve the invariant *)

#[local] Arguments handed_out : simpl never.

Lemma with_mask_wf p m n : pool_wf p -> mask_ok WORDS m -> 0 <= n -> pool_wf (with_mask p m n).
Proof. intros [H1 H2 H3 _ _] Hm Hn. by split. Qed.

Lemma word_index_range start offset : 0 <= word_index start offset < WORDS.
Proof. unfold word_index. destruct words_eq as [-> _]. apply Z.mod_pos_bound. lia. Qed.

Lemma pool_index_ok p k : pool_wf p -> 0 <= k < POOL_SIZE -> exists b, slice_get (packets p) k = Done b /\ buffer_ok b /\ packets p !! Z.to_nat k = Some b.
Proof.
  intros Hp Hk. pose proof (pw_packets p Hp) as Hl. destruct (lookup_lt_is_Some_2 (packets p) (Z.to_nat k)) as [b Eb]; [len_lia|].
  exists b. split; [apply slice_get_lookup; [lia|done]|]. split; [|done]. by apply (Forall_lookup_1 _ _ _ _ (pw_buffers p Hp) Eb).
Qed.

Lemma pool_meta_ok p k : pool_wf p -> 0 <= k < POOL_SIZE -> exists b, slice_get (meta p) k = Done b.
Proof.
  intros Hp Hk. pose proof (pw_meta p Hp) as Hl. destruct (lookup_lt_is_Some_2 (meta p) (Z.to_nat k)) as [b Eb]; [len_lia|].
  exists b. apply slice_get_lookup; [lia|done].
Qed.

(** One access of [acquire]: it never panics, and it keeps track of the packet it claims. *)
Lemma access_ok p weak pc out :
  pool_wf p -> pc_ok pc -> ownership (free_mask p) (option_list (claimed pc) ++ out) ->
  exists p' pc', acquire_step p weak pc = Done (p', pc') /\ pool_wf p' /\ pc_ok pc' /\
    ownership (free_mask p') (option_list (claimed pc') ++ out).
Proof.
  intros Hp Hpc Ho. pose proof (pw_mask p Hp) as Hm. destruct words_eq as [_ Hs]. destruct pc as [start offset|start offset current|idx b|r].
  - cbn [acquire_step]. destruct Hpc as [Hst Hof]. destruct (Z.ltb_spec offset WORDS) as [Hlt|Hge].
    + destruct (mask_lookup _ _ _ Hm (word_index_range start offset)) as (w & Ew & Hw & ->). rewrite bind_Done.
      destruct (Z.eqb_spec w 0) as [->|Hz].
      { eexists _, _. split; [done|]. unfold pc_ok; split_and!; done || lia. }
      destruct (trailing_zeros_spec w Hw Hz) as (Ht & _). rewrite (proj2 (Z.leb_gt 64 (trailing_zeros w))) by lia.
      eexists _, _. split; [done|]. unfold pc_ok; split_and!; done || lia.
    + eexists _, _. by split.
  - destruct Hpc as (Hst & Hof & Hcu & Hz). cbn [acquire_step]. pose proof (word_index_range start offset) as Hi.
    destruct (mask_lookup _ _ _ Hm Hi) as (w & Ew & Hw & ->). rewrite bind_Done.
    destruct (Z.eqb_spec w current) as [->|Hne]; [destruct weak|]; cbn [andb negb].
    1, 3: eexists _, _; split; [done|]; unfold pc_ok; split_and!; done || lia.
    destruct (claim_mask _ _ _ Hm Hi Ew Hz) as (m' & -> & Hm' & Hk & Hf & Hb). rewrite bind_Done.
    eexists _, _. split; [done|]. split; [apply with_mask_wf; [done|done|apply Hp]|].
    split; [split; [done|by apply trailing_zeros_spec]|]. by apply (ownership_claim (free_mask p)).
  - cbn [acquire_step]. destruct Hpc as [Hi Hb]. assert (0 <= idx * 64 + b < POOL_SIZE) as Hk by lia.
    destruct (pool_index_ok p _ Hp Hk) as (buf & -> & _). destruct (pool_meta_ok p _ Hp Hk) as (me & ->). rewrite !bind_Done.
    eexists _, _. split; [done|]. split; [|by split]. apply with_mask_wf; [done|done|]. apply Z.mod_pos_bound. lia.
  - eexists _, _. by split.
Qed.

Lemma handed_out_thread ts1 pc ts2 : omap claimed (ts1 ++ pc :: ts2) ≡ₚ option_list (claimed pc) ++ omap claimed (ts1 ++ ts2).
Proof. rewrite !omap_app. cbn. destruct (claimed pc); cbn; [by rewrite <-Permutation_middle|done]. Qed.

Lemma handed_out_split p ts1 pc ts2 owned :
  handed_out (mkPoolState p (ts1 ++ pc :: ts2) owned) ≡ₚ option_list (claimed pc) ++ omap claimed (ts1 ++ ts2) ++ owned.
Proof. unfold handed_out. cbn. by rewrite handed_out_thread, app_assoc. Qed.

Lemma handed_out_owned p ts owned1 i owned2 :
  handed_out (mkPoolState p ts (owned1 ++ i :: owned2)) ≡ₚ i :: handed_out (mkPoolState p ts (owned1 ++ owned2)).
Proof. unfold handed_out. cbn. by rewrite <-Permutation_middle, <-Permutation_middle. Qed.

Lemma pool_step_inv s s' : pool_inv s -> pool_step s s' -> pool_inv s'.
Proof.
  intros [Hp Hpc Ho] Hs. destruct Hs as [p ts owned|p ts1 pc ts2 owned weak p' pc' Ea|p ts1 r ts2 owned|p ts owned1 i owned2 p' Er]; cbn in *.
  - split; cbn; [done| |].
    + apply Forall_app_2; [done|]. apply Forall_singleton. unfold acquire_start. destruct words_eq as [-> _].
      cbn. destruct words_eq as [-> _]. pose proof (Z.mod_pos_bound (next_search p) 1024). lia.
    + unfold handed_out in *. cbn in *. by rewrite omap_app, app_nil_r.
  - apply Forall_app in Hpc as [Hp1 Hp2]. inv Hp2.
    destruct (access_ok p weak pc (omap claimed (ts1 ++ ts2) ++ owned)) as (p1 & pc1 & E & Hw & Hc & Hown);
      [done|done|by eapply ownership_perm; [apply (handed_out_split p)|exact Ho]|].
    rewrite Ea in E. injection E as <- <-. split; cbn; [done|by apply Forall_app_2; [|constructor]|].
    eapply ownership_perm; [|exact Hown]. symmetry. apply (handed_out_split p').
  - apply Forall_app in Hpc as [Hp1 Hp2]. inv Hp2. split; cbn; [done|by apply Forall_app_2|].
    eapply ownership_perm; [|exact Ho]. etrans; [apply (handed_out_split p)|]. unfold handed_out. cbn.
    rewrite !app_assoc. by rewrite (Permutation_app_comm (option_list r)).
  - assert (0 <= i < POOL_SIZE) as Hi.
    { apply (proj1 (Forall_forall _ _) (ow_range _ _ Ho)). rewrite handed_out_owned. left. }
    destruct (release_mask p i Hp Hi) as (m' & E & Hm & Hb). rewrite Er in E. injection E as ->.
    split; cbn; [apply with_mask_wf; [done|done|apply Hp]|done|].
    eapply ownership_release; [|exact Hb]. eapply ownership_perm; [|exact Ho]. apply (handed_out_owned p).
Qed.

Lemma not_u_0_bits i : 0 <= i < 64 -> Z.testbit (not_u 64 0) i = true.
Proof. intros Hi. rewrite not_u_bits by done. by rewrite Z.testbit_0_l. Qed.

Lemma PacketPool_new_wf : pool_wf PacketPool_new.
Proof.
  destruct words_eq as [Hw Hp]. unfold PacketPool_new, MAX_PACKET_SIZE. split; cbn [packets meta free_mask next_search].
  - unfold len. rewrite length_replicate. lia.
  - apply Forall_replicate. split; [|cbn; unfold MAX_PACKET_SIZE; lia]. cbn [pb_data]. unfold len. by rewrite length_replicate.
  - unfold len. rewrite length_replicate. lia.
  - split; [by rewrite length_replicate|]. by apply Forall_replicate.
  - done.
Qed.

Lemma PacketPool_new_own : ownership (free_mask PacketPool_new) [].
Proof.
  destruct words_eq as [Hw Hp]. split; [|constructor|constructor]. intros k Hk. cbn [free_mask PacketPool_new].
  unfold bit_at. rewrite lookup_replicate_2 by div_lia. rewrite not_u_0_bits by div_lia.
  split; [intros _; apply not_elem_of_nil|done].
Qed.

Lemma pool_reachable_inv s : rtc pool_step (mkPoolState PacketPool_new [] []) s -> pool_inv s.
Proof.
  intros Hs. remember (mkPoolState PacketPool_new [] []) as s0 eqn:E. assert (pool_inv s0) as H0.
  { subst. split; [apply PacketPool_new_wf|constructor|apply PacketPool_new_own]. }
  clear E. induction Hs as [|s1 s2 s3 H1 _ IH]; [done|]. apply IH. by apply (pool_step_inv s1).
Qed.

(** C6: whatever the interleaving of threads acquiring and releasing packets,
    from a new pool on: no packet is handed out twice; the free bit of a packet
    is set exactly when nobody holds it, so that none is lost either; and
    the next access of every thread inside [acquire], whether its
    compare-and-exchange fails spuriously or not, and the release of every
    packet held, index in bounds. *)
Theorem pool_exclusive s :
  rtc pool_step (mkPoolState PacketPool_new [] []) s ->
  NoDup (handed_out s) /\
  (forall k, 0 <= k < POOL_SIZE -> bit_at (free_mask (ps_pool s)) k = true <-> k ∉ handed_out s) /\
  (forall pc weak, pc ∈ ps_threads s -> exists p' pc', acquire_step (ps_pool s) weak pc = Done (p', pc')) /\
  (forall k, k ∈ ps_owned s -> exists p', PacketPool_release (ps_pool s) k = Done p').
Proof.
  intros Hs. destruct (pool_reachable_inv s Hs) as [Hp Hpc Ho]. split; [apply Ho|]. split; [apply Ho|]. split.
  - intros pc weak Hin. apply list_elem_of_split in Hin as (ts1 & ts2 & E).
    destruct s as [p ts owned]. cbn in *. subst ts. apply Forall_app in Hpc as [_ Hpc]. inv Hpc.
    destruct (access_ok p weak pc (omap claimed (ts1 ++ ts2) ++ owned)) as (p1 & pc1 & E & _); [done|done| |eauto].
    eapply ownership_perm; [|exact Ho]. apply (handed_out_split p).
  - intros k Hk. destruct (release_mask (ps_pool s) k) as (m & E & _); [done| |eauto].
    apply (proj1 (Forall_forall _ _) (ow_range _ _ Ho)). unfold handed_out. apply elem_of_app. by right.
Qed.

(** Two threads load the same word; the second loses the race for its first bit. *)
Lemma pool_exclusive_witness :
  exists m, let s := mkPoolState (with_mask PacketPool_new m 0) [Publish 0 0; Scan 0 0] [] in
    rtc pool_step (mkPoolState PacketPool_new [] []) s /\ NoDup (handed_out s) /\ handed_out s = [0] /\
    (bit_at m 0 = true <-> 0 ∉ [0]) /\ exists p' pc', acquire_step (ps_pool s) true (Scan 0 0) = Done (p', pc').
Proof.
  set (full := not_u 64 0). set (m := <[0%nat := Z.land full (not_u 64 (Z.shiftl 1 (trailing_zeros full)))]> (replicate (Z.to_nat WORDS) full)).
  assert (free_mask PacketPool_new = replicate (Z.to_nat WORDS) full) as E by done.
  assert (forall w, acquire_step PacketPool_new w (Scan 0 0) = Done (PacketPool_new, Claim 0 0 full)) as E1.
  { intros w. unfold acquire_step. rewrite E. reflexivity. }
  assert (acquire_step PacketPool_new false (Claim 0 0 full) = Done (with_mask PacketPool_new m 0, Publish 0 0)) as E2.
  { unfold acquire_step. rewrite E. reflexivity. }
  assert (acquire_step (with_mask PacketPool_new m 0) false (Claim 0 0 full) = Done (with_mask PacketPool_new m 0, Scan 0 0)) as E3.
  { unfold acquire_step. cbn [free_mask with_mask]. reflexivity. }
  assert (acquire_start PacketPool_new = Scan 0 0) as E4 by reflexivity.
  exists m. intros s. assert (rtc pool_step (mkPoolState PacketPool_new [] []) s) as Hs.
  { eapply rtc_l; [apply ps_call|]. eapply rtc_l; [apply ps_call|]. rewrite E4.
    eapply rtc_l; [apply (ps_access _ [] _ [Scan 0 0] [] true), E1|]. cbn [app].
    eapply rtc_l; [apply (ps_access _ [Claim 0 0 full] _ [] [] true), E1|]. cbn [app].
    eapply rtc_l; [apply (ps_access _ [] _ [Claim 0 0 full] [] false), E2|]. cbn [app].
    eapply rtc_l; [apply (ps_access _ [Publish 0 0] _ [] [] false), E3|]. apply rtc_refl. }
  destruct (pool_exclusive s Hs) as (Hn & Hf & Ha & _). split_and!; [done|done|done| |].
  - apply (Hf 0). destruct words_eq as [-> ->]. lia.
  - apply Ha. right. left.
Defined.

(** ** [acquire] without interference *)

(** [p'] is [p] with packet [k], which was free, handed out. *)
Definition took (p p' : PacketPool) (k : Z) : Prop :=
  pool_wf p' /\ packets p' = packets p /\ meta p' = meta p /\ 0 <= k < POOL_SIZE /\ bit_at (free_mask p) k = true /\
  forall i, 0 <= i < POOL_SIZE -> bit_at (free_mask p') i = bit_at (free_mask p) i && negb (bool_decide (i = k)).

Definition scanned (p : PacketPool) (start offset : Z) : Prop :=
  forall j, 0 <= j < offset -> free_mask p !! Z.to_nat (word_index start j) = Some 0.

Definition alone_inv (p : PacketPool) (s : PacketPool * acquire_pc) : Prop :=
  pc_ok s.2 /\
  match s.2 with
  | Scan start offset => s.1 = p /\ scanned p start offset
  | Claim start offset current => s.1 = p /\ free_mask p !! Z.to_nat (word_index start offset) = Some current
  | Publish idx bit_pos => took p s.1 (idx * 64 + bit_pos)
  | Return None => s.1 = p /\ forall k, 0 <= k < POOL_SIZE -> bit_at (free_mask p) k = false
  | Return (Some k) => took p s.1 k
  end.

Definition alone_measure (s : PacketPool * acquire_pc) : nat :=
  match s.2 with
  | Scan _ offset => Z.to_nat (2 * (WORDS - offset) + 3)
  | Claim _ offset _ => Z.to_nat (2 * (WORDS - offset) + 2)
  | Publish _ _ => 1
  | Return _ => 0
  end.

Lemma scanned_all p start : 0 <= start < WORDS -> scanned p start WORDS -> forall k, 0 <= k < POOL_SIZE -> bit_at (free_mask p) k = false.
Proof.
  intros Hs Hz k Hk. destruct words_eq as [Hw Hp]. unfold bit_at.
  replace (k / 64) with (word_index start ((k / 64 - start) mod WORDS)).
  - rewrite Hz by (apply Z.mod_pos_bound; lia). apply Z.testbit_0_l.
  - unfold word_index. rewrite Hw in *. div_lia.
Qed.

Lemma alone_step p s : pool_wf p -> alone_inv p s -> (forall r, s.2 <> Return r) ->
  exists s', acquire_step s.1 false s.2 = Done s' /\ alone_inv p s' /\ (alone_measure s' < alone_measure s)%nat.
Proof.
  intros Hp [Hpc Hi] Hr. pose proof (pw_mask p Hp) as Hm. destruct words_eq as [_ Hs].
  destruct s as [p1 [start offset|start offset current|idx b|r]]; cbn [fst snd] in *; [| | |by destruct (Hr r)].
  - destruct Hi as [-> Hz], Hpc as [Hst Hof]. cbn [acquire_step]. destruct (Z.ltb_spec offset WORDS) as [Hlt|Hge].
    + destruct (mask_lookup _ _ _ Hm (word_index_range start offset)) as (w & Ew & Hw & ->). rewrite bind_Done.
      destruct (Z.eqb_spec w 0) as [->|Hne].
      * eexists. split; [done|]. unfold alone_inv, alone_measure, pc_ok. cbn [fst snd]. split_and!; try done; try lia.
        intros j Hj. destruct (decide (j = offset)) as [->|]; [done|]. apply Hz. lia.
      * destruct (trailing_zeros_spec w Hw Hne) as (Ht & _). rewrite (proj2 (Z.leb_gt 64 (trailing_zeros w))) by lia.
        eexists. split; [done|]. unfold alone_inv, alone_measure, pc_ok. cbn [fst snd]. split_and!; done || lia.
    + eexists. split; [done|]. unfold alone_inv, alone_measure. cbn [fst snd]. split_and!; try done; [|lia].
      apply (scanned_all p start Hst). by replace WORDS with offset by lia.
  - destruct Hi as [-> Ew], Hpc as (Hst & Hof & Hcu & Hz). cbn [acquire_step]. pose proof (word_index_range start offset) as Hi.
    rewrite (slice_get_lookup _ _ current) by (done || lia). rewrite bind_Done, Z.eqb_refl. cbn [andb negb].
    destruct (claim_mask _ _ _ Hm Hi Ew Hz) as (m' & -> & Hm' & Hk & Hf & Hb). rewrite bind_Done.
    eexists. split; [done|]. unfold alone_inv, alone_measure. cbn [fst snd]. split; [|lia].
    split; [split; [done|by apply trailing_zeros_spec]|]. split; [apply with_mask_wf; [done|done|apply Hp]|]. done.
  - cbn [acquire_step]. destruct Hi as (Hw1 & Ep & Em & Hk & Hf & Hb).
    destruct (pool_index_ok p1 _ Hw1 Hk) as (buf & -> & _). destruct (pool_meta_ok p1 _ Hw1 Hk) as (me & ->). rewrite !bind_Done.
    eexists. split; [done|]. unfold alone_inv, alone_measure. cbn [fst snd]. split; [|lia]. split; [done|].
    split; [|done]. apply with_mask_wf; [done|apply Hw1|]. apply Z.mod_pos_bound. lia.
Qed.

Lemma acquire_alone_spec p :
  pool_wf p -> exists p' r, acquire_alone p = Done (p', r) /\
    match r with
    | None => p' = p /\ forall k, 0 <= k < POOL_SIZE -> bit_at (free_mask p) k = false
    | Some k => took p p' k
    end.
Proof.
  intros Hp. destruct words_eq as [Hw _]. unfold acquire_alone.
  edestruct (loop_spec (S := PacketPool * acquire_pc) (alone_inv p)
    (fun '(p', r) => match r with None => p' = p /\ forall k, 0 <= k < POOL_SIZE -> bit_at (free_mask p) k = false | Some k => took p p' k end)
    alone_measure) as ([p' r] & E & Hpost); [| | |by exists p', r].
  - intros [p1 pc] Hi. destruct pc as [start offset|start offset current|idx b|r].
    1-3: destruct (alone_step p _ Hp Hi) as (s' & E & Hi' & Hlt); [done|]; cbn [fst snd] in E; rewrite E, bind_Done; by exists (Continue s').
    exists (Break (p1, r)). split; [done|]. by destruct Hi as [_ Hi].
  - unfold alone_inv, acquire_start. cbn [fst snd pc_ok]. pose proof (Z.mod_pos_bound (next_search p) WORDS).
    split; [lia|]. split; [done|]. intros j Hj. lia.
  - unfold alone_measure, acquire_start. cbn [snd]. lia.
Qed.

(** ** [acquire_ref] and dropping the reference *)

Lemma set_data_spec b data :
  buffer_ok b -> exists b', set_data b data = Done b' /\ buffer_ok b' /\ as_slice b' = Done (take (Z.to_nat MAX_PACKET_SIZE) data).
Proof.
  intros [Hd _]. unfold set_data, as_slice. set (n := Z.min (len data) MAX_PACKET_SIZE). assert (0 <= n <= MAX_PACKET_SIZE /\ n <= len data) as Hn.
  { pose proof (len_nonneg data). unfold n, MAX_PACKET_SIZE. lia. }
  rewrite slice_range_Done, bind_Done by lia. rewrite Z.sub_0_r, drop_0.
  rewrite copy_from_slice_Done by (rewrite ?len_take; lia). rewrite bind_Done.
  eexists. split; [done|]. cbn [pb_data pb_len]. split.
  - split; cbn [pb_data pb_len]; [|lia]. autorewrite with slices. unfold len in *. rewrite ?length_take, ?length_drop. lia.
  - rewrite slice_range_Done by (autorewrite with slices; unfold len in *; rewrite ?length_take, ?length_drop; lia).
    f_equal. rewrite Z.sub_0_r, drop_0. change (Z.to_nat 0) with 0%nat. rewrite take_0, app_nil_l.
    rewrite take_app_le by (rewrite length_take; unfold len in *; lia). rewrite take_take, Nat.min_id.
    unfold n. destruct (Z.le_ge_cases (len data) MAX_PACKET_SIZE) as [Hle|Hge].
    + rewrite Z.min_l by done. unfold len in *. rewrite !take_ge by lia. done.
    + by rewrite Z.min_r by lia.
Qed.

(** C21: run without interference, [acquire_ref] returns. When no packet is free
    it gives [None] and leaves the pool alone; otherwise it hands out a packet that
    was free and only that one, its payload reads back as the first 9000 bytes of
    the data (all of a packet that fits), no other packet's contents change, and
    dropping the reference makes exactly the packets free that were free before. *)
Theorem acquire_ref_drop_roundtrip p data me :
  pool_wf p ->
  (acquire_ref p data me = Done (p, None) /\ forall k, 0 <= k < POOL_SIZE -> bit_at (free_mask p) k = false) \/
  exists p' r p'', acquire_ref p data me = Done (p', Some r) /\ pr_meta r = me /\ bit_at (free_mask p) (pr_index r) = true /\
    PacketRef_payload p' r = Done (take (Z.to_nat MAX_PACKET_SIZE) data) /\
    (forall i, i <> Z.to_nat (pr_index r) -> packets p' !! i = packets p !! i) /\
    (forall i, 0 <= i < POOL_SIZE -> bit_at (free_mask p') i = bit_at (free_mask p) i && negb (bool_decide (i = pr_index r))) /\
    PacketPool_release p' (pr_index r) = Done p'' /\ pool_wf p'' /\
    forall i, 0 <= i < POOL_SIZE -> bit_at (free_mask p'') i = bit_at (free_mask p) i.
Proof.
  intros Hp. destruct (acquire_alone_spec p Hp) as (p1 & [k|] & E & Hr); unfold acquire_ref; rewrite E, bind_Done; [|left; by destruct Hr as [-> ?]].
  right. destruct Hr as (Hw & Epk & Eme & Hk & Hf & Hb).
  destruct (pool_index_ok p1 k Hw Hk) as (b & -> & Hbo & Eb). rewrite bind_Done.
  destruct (set_data_spec b data Hbo) as (b' & -> & Hb' & Hs). rewrite bind_Done.
  pose proof (pw_packets p1 Hw) as Hl. pose proof (pw_meta p1 Hw) as Hl'.
  rewrite (slice_set_Done (packets p1)), bind_Done by lia. rewrite (slice_set_Done (meta p1)), bind_Done by lia.
  set (p' := mkPacketPool _ _ _ _). assert (pool_wf p') as Hw'.
  { destruct Hw. split; cbn; rewrite ?len_insert; try done. by apply Forall_insert. }
  destruct (release_mask p' k Hw' Hk) as (m & Er & Hm & Hbm).
  exists p', (mkPacketRef me k), (with_mask p' m (next_search p')). split_and!; try done.
  - unfold PacketRef_payload. cbn [pr_index]. rewrite (slice_get_lookup _ _ b'); [done|lia|]. cbn [packets p'].
    apply list_lookup_insert_eq. by apply lookup_lt_Some in Eb.
  - intros i Hi. cbn in Hi |- *. rewrite list_lookup_insert_ne by done. by rewrite Epk.
  - apply with_mask_wf; [done|done|apply Hw'].
  - intros i Hi. cbn. rewrite Hbm by done. cbn [free_mask p']. rewrite Hb by done.
    case_bool_decide as Ei; [subst; by rewrite Hf|]. by rewrite andb_true_r, orb_false_r.
Qed.

(** On a new pool, a three-byte packet. *)
Lemma acquire_ref_drop_roundtrip_witness :
  exists p' r, acquire_ref PacketPool_new [1; 2; 3] (mkPacketMeta [1; 2; 3; 4] 5 [6; 7; 8; 9] 10 11) = Done (p', Some r) /\
    PacketRef_payload p' r = Done [1; 2; 3].
Proof.
  destruct (acquire_ref_drop_roundtrip PacketPool_new [1; 2; 3] (mkPacketMeta [1; 2; 3; 4] 5 [6; 7; 8; 9] 10 11)) as [(_ & Hn)|(p' & r & p'' & E & _ & _ & Hp & _)].
  - apply PacketPool_new_wf.
  - exfalso. pose proof (ow_free _ _ PacketPool_new_own 0) as Hf. destruct words_eq as [Hw Hs].
    rewrite Hn in Hf by lia. destruct Hf as [_ Hf]; [lia|]. discriminate Hf. apply not_elem_of_nil.
  - exists p', r. done.
Defined.
