(* ===== verification/Shred.v ===== *)
(** * Shreds ([examples/shred_processor.rs], header parsing and interfaces)

    A shred is a fragment of a Solana block, sent as one UDP payload. What the
    examples use of the [solana_ledger], [solana_entry] and [bincode] crates is
    the class [ShredLib]: the accessors of a parsed shred, the parser, the
    reassembly of a run of shreds and the decoding of the entries in it.
    [DeshredTrait] is the examples' own interface to a shred assembler. The fast
    paths on raw bytes ([extract_slot_fast], [parse_shred_type]) are defined and
    specified here. *)

From S2P Require Import Prelude Words.

Inductive ShredType := Data | Code.

#[global] Instance ShredType_eq_dec : EqDecision ShredType.
Proof. solve_decision. Defined.

(** ** The libraries *)

Class ShredLib := mkShredLib {
  Shred : Type; Entry : Type; Transaction : Type; Signature : Type; ShredError : Type;
  shred_slot : Shred -> Z;
  shred_index : Shred -> Z;
  shred_type : Shred -> ShredType;
  data_complete : Shred -> bool;
  last_in_slot : Shred -> bool;
  shred_payload : Shred -> list Z;
  new_from_serialized_shred : list Z -> result Shred ShredError;
  Shredder_deshred : list (list Z) -> result (list Z) ShredError;
  deserialize_entries : list Z -> option (list Entry);
  transactions : Entry -> list Transaction;
  signatures : Transaction -> list Signature;
  serialized_size : Transaction -> option Z;
}.

(** [slot] is a [u64], [index] a [u32]. *)
Class ShredLaws (L : ShredLib) : Prop := {
  slot_range s : is_uint 64 (shred_slot s);
  index_range s : is_u32 (shred_index s);
}.

(** The outcome of a completed segment: the slot, its entries and their bytes. *)
Definition segment_out `{ShredLib} : Type := Z * list Entry * list Z.

(** ** The assembler interface *)

Class DeshredTrait `{ShredLib} (T : Type) := add_shred : T -> Shred -> outcome (T * option segment_out).

(** The answers of an assembler to a sequence of shreds. *)
Fixpoint run_shreds `{ShredLib} {T} `{!DeshredTrait T} (m : T) (l : list Shred) : outcome (T * list (option segment_out)) :=
  match l with
  | [] => Done (m, [])
  | s :: l =>
      '(m, o) ← add_shred m s;
      '(m, os) ← run_shreds m l;
      Done (m, o :: os)
  end.

Lemma run_shreds_app `{ShredLib} {T} `{!DeshredTrait T} (m : T) l1 l2 m1 o1 m2 o2 :
  run_shreds m l1 = Done (m1, o1) -> run_shreds m1 l2 = Done (m2, o2) -> run_shreds m (l1 ++ l2) = Done (m2, o1 ++ o2).
Proof.
  revert m o1. induction l1 as [|s l1 IH]; cbn; intros m o1 H1 H2; [by done_inv H1|].
  bind_inv H1. destruct a as [m' o]. bind_inv H1. destruct a as [m'' os]. done_inv H1. cbn. by rewrite (IH _ _ E0 H2).
Qed.

(** Decoding a run of payloads, as both assemblers do it. *)
Definition decode_run `{ShredLib} (ps : list (list Z)) : option (list Entry * list Z) :=
  match Shredder_deshred ps with
  | Err _ => None
  | Ok payload => match deserialize_entries payload with Some entries => Some (entries, payload) | None => None end
  end.

(** Whether a data shred ends a segment. *)
Definition ends_segment `{ShredLib} (s : Shred) : bool := data_complete s || last_in_slot s.

(** A segment: its last shred, and no other, ends it. *)
Definition is_segment `{ShredLib} (seg : list Shred) : Prop :=
  exists l x, seg = l ++ [x] /\ Forall (fun y => ends_segment y = false) l /\ ends_segment x = true.

(** ** Fast paths on raw bytes *)

Definition extract_slot_fast (payload : list Z) : outcome (option Z) :=
  if len payload <? 73 then Done None else
  bytes ← slice_range payload 65 73;
  if len bytes =? 8 then Done (Some (from_le_bytes bytes)) else Done None.

Definition parse_shred_type (data : list Z) : outcome (option ShredType) :=
  if len data <? 83 then Done None else
  variant ← slice_get data 64;
  let upper_nibble := Z.land variant 240 in
  if (upper_nibble =? 128) || (upper_nibble =? 144) || (upper_nibble =? 176) then Done (Some Data)
  else if (upper_nibble =? 64) || (upper_nibble =? 96) || (upper_nibble =? 112) then Done (Some Code)
  else Done None.

(** A serialized common header: signature, variant, slot, index, version and FEC set. *)
Definition common_header (signature : list Z) (variant slot index version fec_set : Z) : list Z :=
  signature ++ [variant] ++ to_le_bytes 8 slot ++ to_le_bytes 4 index ++ to_le_bytes 2 version ++ to_le_bytes 4 fec_set.

(** The variant nibbles: data shreds are 8, 9 and 11, coding shreds 4, 6 and 7. *)
Definition nibble_type (n : Z) : option ShredType :=
  if decide (n ∈ [8; 9; 11]) then Some Data else if decide (n ∈ [4; 6; 7]) then Some Code else None.

Lemma upper_nibble_eq v : is_u8 v -> Z.land v 240 = 16 * (v / 16).
Proof.
  intros Hv. change 240 with (not_u 8 (2 ^ 4 - 1)). rewrite land_not_u by (done || lia). change (2 ^ 4) with 16. div_lia.
Qed.

Lemma parse_shred_type_nibble data v :
  83 <= len data -> data !! 64%nat = Some v -> is_u8 v -> parse_shred_type data = Done (nibble_type (v / 16)).
Proof.
  intros Hl Hv Hu. unfold parse_shred_type. rewrite (proj2 (Z.ltb_ge _ _)) by done.
  rewrite (slice_get_lookup _ _ v), bind_Done by (done || lia). rewrite (upper_nibble_eq v Hu).
  assert (0 <= v / 16 < 16) as Hn by (unfold is_uint in Hu; div_lia). generalize dependent (v / 16). clear. intros n Hn.
  assert (n ∈ seqZ 0 16) as Hin by (apply elem_of_seqZ; lia). clear Hn. revert n Hin. apply Forall_forall.
  repeat (apply Forall_cons; split; [reflexivity|]). apply Forall_nil. done.
Qed.

(** A shred that starts with the common header is at least 83 bytes long. *)
Lemma common_header_len signature variant slot index version fec_set :
  length signature = 64%nat -> len (common_header signature variant slot index version fec_set) = 83.
Proof.
  intros Hs. unfold common_header. rewrite !len_app, !to_le_bytes_len, len_cons, len_nil.
  assert (len signature = 64) by (unfold len; lia). lia.
Qed.

(** C26: on a payload that starts with a shred's common header, whatever follows
    it and wherever it is cut off, the fast paths agree with the header:
    [extract_slot_fast] reads back the slot when at least the first 73 bytes
    are there and gives [None] otherwise; [parse_shred_type] gives, when the
    83 bytes of the header are there, [Data] for the variant nibbles 8, 9 and
    0xB, [Code] for 4, 6 and 7 and [None] for every other nibble (0x5 and 0xA
    included), and [None] for a shorter payload. *)
Theorem fast_paths_read_header signature variant slot index version fec_set rest n :
  length signature = 64%nat -> is_u8 variant -> is_uint 64 slot ->
  let payload := common_header signature variant slot index version fec_set ++ rest in
  extract_slot_fast (take n payload) = Done (if decide (n < 73)%nat then None else Some slot) /\
  parse_shred_type (take n payload)
  = Done (if decide (n < 83)%nat then None
          else if decide (variant / 16 ∈ [8; 9; 11]) then Some Data
          else if decide (variant / 16 ∈ [4; 6; 7]) then Some Code
          else None).
Proof.
  intros Hs Hv Hu payload. assert (83 <= len payload) as Hl.
  { unfold payload. rewrite len_app, common_header_len by done. pose proof (len_nonneg rest). lia. }
  split.
  - unfold extract_slot_fast. rewrite len_take. case_decide.
    { by rewrite (proj2 (Z.ltb_lt _ _)) by lia. }
    rewrite (proj2 (Z.ltb_ge _ _)) by lia. rewrite slice_range_Done, bind_Done by (rewrite ?len_take; lia).
    rewrite skipn_firstn_comm, take_take, Nat.min_l by lia.
    replace (take _ (drop (Z.to_nat 65) payload)) with (to_le_bytes 8 slot).
    + rewrite to_le_bytes_len. cbn. f_equal. f_equal. by apply (from_to_le_bytes 8).
    + unfold payload, common_header. rewrite !(assoc_L app), <-!(assoc_L app), (assoc_L app signature).
      rewrite drop_app_length' by (rewrite length_app, Hs; done). by rewrite take_app_length'.
  - case_decide.
    { unfold parse_shred_type. rewrite (proj2 (Z.ltb_lt _ _)); [done|]. rewrite len_take. lia. }
    apply (parse_shred_type_nibble (take n payload)); [rewrite len_take; lia| |done].
    rewrite lookup_take_lt by lia. unfold payload, common_header.
    rewrite <-!(assoc_L app), lookup_app_r by lia. by rewrite Hs.
Qed.

Lemma fast_paths_read_header_witness :
  let payload := common_header (replicate 64 7) 0x96 123456789 5 1 2 ++ [9] in
  extract_slot_fast (take 75 payload) = Done (Some 123456789) /\ parse_shred_type (take 75 payload) = Done None /\
  parse_shred_type (take 84 payload) = Done (Some Data).
Proof.
  destruct (fast_paths_read_header (replicate 64 7) 0x96 123456789 5 1 2 [9] 75) as (H1 & H2); [done|by_decide|by_decide|].
  destruct (fast_paths_read_header (replicate 64 7) 0x96 123456789 5 1 2 [9] 84) as (_ & H3); [done|by_decide|by_decide|].
  by split_and!.
Defined.

(** ** A library for examples

    A shred carries bytes of entries; a run decodes when its last shred, and no
    other, is marked as the end of a segment. *)
Record toy_shred := mkToyShred { ts_slot : Z; ts_index : Z; ts_type : ShredType; ts_last : bool; ts_bytes : list Z }.

Fixpoint toy_deshred (ps : list (list Z)) : result (list Z) unit :=
  match ps with
  | [] => Err tt
  | [1 :: b] => Ok b
  | (0 :: b) :: ps => match toy_deshred ps with Ok r => Ok (b ++ r) | Err e => Err e end
  | _ => Err tt
  end.

Definition toy_parse (l : list Z) : result toy_shred unit :=
  match l with
  | slot :: index :: ty :: last :: b =>
      Ok (mkToyShred (wrap 64 slot) (wrap 32 index) (if ty =? 0 then Data else Code) (last =? 1) b)
  | _ => Err tt
  end.

Definition ToyLib : ShredLib :=
  mkShredLib toy_shred Z Z Z unit (fun s => wrap 64 (ts_slot s)) (fun s => wrap 32 (ts_index s)) ts_type ts_last (fun _ => false)
    (fun s => (if ts_last s then 1 else 0) :: ts_bytes s) toy_parse toy_deshred Some (fun e => [e]) (fun t => [t]) (fun t => Some (t * 100)).

#[global] Instance ToyLaws : ShredLaws ToyLib.
Proof. split; intros s; by apply wrap_range. Qed.

(** Data shreds of slot 7. *)
Definition toy_data (index : Z) (last : bool) (b : list Z) : toy_shred := mkToyShred 7 index Data last b.
