(* ===== verification/Deshred.v ===== *)
(** * Shred reassembly ([examples/deshred.rs])

    [SlotShreds] collects the shreds of one slot; [DeshredManager] keeps one per
    slot. Diagnostic output is not modelled. *)

From stdpp Require Import gmap.
From S2P Require Import Prelude Words Shred.

(** ** Data *)

Definition MAX_DATA_SHREDS_PER_SLOT : Z := 32768.

Inductive ShredStatus := Unknown | NotDataComplete | DataComplete.

#[global] Instance ShredStatus_eq_dec : EqDecision ShredStatus.
Proof. solve_decision. Defined.

Record SlotShreds `{ShredLib} := mkSlotShreds {
  ss_slot : Z;
  data_status : list ShredStatus;
  data_shreds : list (option Shred);
  code_shreds : list Shred;
}.

Record DeshredManager `{ShredLib} := mkDeshredManager { slots : gmap Z SlotShreds }.

Section deshred.
Context {L : ShredLib}.

(** ** Operations *)

Definition SlotShreds_new (slot : Z) : SlotShreds :=
  mkSlotShreds _ slot (replicate (Z.to_nat MAX_DATA_SHREDS_PER_SLOT) Unknown)
    (replicate (Z.to_nat MAX_DATA_SHREDS_PER_SLOT) None) [].

Definition SlotShreds_add_shred (s : SlotShreds) (shred : Shred) : outcome (SlotShreds * bool) :=
  let index := shred_index shred in
  match shred_type shred with
  | Data =>
      if MAX_DATA_SHREDS_PER_SLOT <=? index then Done (s, false) else
      old ← slice_get (data_shreds s) index;
      match old with
      | Some _ => Done (s, false)
      | None =>
          st ← slice_set (data_status s) index (if data_complete shred || last_in_slot shred then DataComplete else NotDataComplete);
          sh ← slice_set (data_shreds s) index (Some shred);
          Done (mkSlotShreds _ (ss_slot s) st sh (code_shreds s), true)
      end
  | Code =>
      if existsb (fun c => shred_index c =? shred_index shred) (code_shreds s) then Done (s, false)
      else Done (mkSlotShreds _ (ss_slot s) (data_status s) (data_shreds s) (vec_push (code_shreds s) shred), true)
  end.

(** The backward scan of [find_complete_segment], at [s]. *)
Fixpoint scan_back (status : list ShredStatus) (end_ : Z) (s : nat) : outcome (option (Z * Z)) :=
  match s with
  | O => Done (Some (0, end_))
  | S s =>
      st ← slice_get status (Z.of_nat s);
      match st with
      | DataComplete => Done (Some (Z.of_nat s + 1, end_))
      | Unknown => Done None
      | NotDataComplete => scan_back status end_ s
      end
  end.

Definition find_complete_segment (s : SlotShreds) : outcome (option (Z * Z)) :=
  match list_find (fun st => st = DataComplete) (data_status s) with
  | None => Done None
  | Some (end_, _) => if (end_ =? 0)%nat then Done (Some (0, Z.of_nat end_)) else scan_back (data_status s) (Z.of_nat end_) end_
  end.

(** [for i in start..=end] of [try_deshred]: clear the processed segment. *)
Definition clear_segment (s : SlotShreds) (start end_ : Z) : outcome SlotShreds :=
  for_each (seqZ start (end_ + 1 - start)) (fun i s =>
    sh ← slice_set (data_shreds s) i None;
    st ← slice_set (data_status s) i Unknown;
    Done (mkSlotShreds _ (ss_slot s) st sh (code_shreds s))) s.

(** [s.as_ref().unwrap().payload()] for each shred. *)
Fixpoint unwrap_payloads (l : list (option Shred)) : outcome (list (list Z)) :=
  match l with
  | [] => Done []
  | o :: l => s ← unwrap o; ps ← unwrap_payloads l; Done (shred_payload s :: ps)
  end.

Definition try_deshred (s : SlotShreds) : outcome (SlotShreds * option (list Entry * list Z)) :=
  seg ← find_complete_segment s;
  match seg with
  | None => Done (s, None)
  | Some (start, end_) =>
      shreds ← slice_range (data_shreds s) start (end_ + 1);
      if existsb (fun o => match o with None => true | Some _ => false end) shreds then Done (s, None) else
      ps ← unwrap_payloads shreds;
      match Shredder_deshred ps with
      | Err _ => Done (s, None)
      | Ok deshredded_payload =>
          match deserialize_entries deshredded_payload with
          | None => Done (s, None)
          | Some entries =>
              s ← clear_segment s start end_;
              Done (s, Some (entries, deshredded_payload))
          end
      end
  end.

(** ** The manager *)

Definition DeshredManager_new : DeshredManager := mkDeshredManager _ ∅.

Definition DeshredManager_add_shred (m : DeshredManager) (shred : Shred) : outcome (DeshredManager * option segment_out) :=
  let slot := shred_slot shred in
  let slot_shreds := default (SlotShreds_new slot) (slots m !! slot) in
  '(s, new) ← SlotShreds_add_shred slot_shreds shred;
  if negb new then Done (mkDeshredManager _ (<[slot := s]> (slots m)), None) else
  '(s, r) ← try_deshred s;
  Done (mkDeshredManager _ (<[slot := s]> (slots m)), option_map (fun '(entries, payload) => (slot, entries, payload)) r).

Definition cleanup_old_slots (m : DeshredManager) (current_slot lookback : Z) : DeshredManager :=
  let threshold := saturating_sub current_slot lookback in
  mkDeshredManager _ (filter (fun '(slot, _) => threshold <= slot) (slots m)).

#[global] Instance DeshredManager_trait : DeshredTrait DeshredManager := DeshredManager_add_shred.

(** ** Reference definitions *)

Definition status_of (o : option Shred) : ShredStatus :=
  match o with None => Unknown | Some s => if ends_segment s then DataComplete else NotDataComplete end.

(** The state that holds data shreds [D]: the statuses are a function of them. *)
Definition slot_of (slot : Z) (D : list (option Shred)) (codes : list Shred) : SlotShreds :=
  mkSlotShreds _ slot (status_of <$> D) D codes.

(** The first segment, if all of it is there: from index 0 to the first shred that
    ends a segment, without a gap. *)
Fixpoint first_segment (D : list (option Shred)) : option (list Shred) :=
  match D with
  | Some x :: D => if ends_segment x then Some [x] else (cons x) <$> first_segment D
  | _ => None
  end.

(** [try_deshred], by the reference definition. *)
Definition try_deshred_ref (slot : Z) (D : list (option Shred)) (codes : list Shred) : SlotShreds * option (list Entry * list Z) :=
  match first_segment D ≫= (fun seg => (pair seg) <$> decode_run (shred_payload <$> seg)) with
  | None => (slot_of slot D codes, None)
  | Some (seg, r) => (slot_of slot (replicate (length seg) None ++ drop (length seg) D) codes, Some r)
  end.

(** ** The segment search meets its reference *)

Lemma status_of_complete o : status_of o = DataComplete <-> exists x, o = Some x /\ ends_segment x = true.
Proof.
  destruct o as [x|]; cbn; [destruct (ends_segment x) eqn:E|].
  - split; [eauto|done].
  - split; [done|]. intros (y & [= ->] & ?). congruence.
  - split; [done|]. by intros (y & ? & _).
Qed.

Lemma first_segment_run l o : Forall (fun y => ends_segment y = false) l -> first_segment ((Some <$> l) ++ o) = (app l) <$> first_segment o.
Proof.
  induction 1 as [|y l Hy Hl IH]; cbn; [by destruct (first_segment o)|]. rewrite Hy, IH. by destruct (first_segment o).
Qed.

Lemma first_segment_Some D seg :
  first_segment D = Some seg <-> is_segment seg /\ D = (Some <$> seg) ++ drop (length seg) D.
Proof.
  split.
  - revert seg. induction D as [|[x|] D IH]; cbn; intros seg Hs; [done| |done].
    destruct (ends_segment x) eqn:Ex.
    + injection Hs as <-. split; [by exists [], x|done].
    + destruct (first_segment D) as [seg'|]; [|done]. injection Hs as <-. destruct (IH seg' eq_refl) as [(l & y & -> & Hl & Hy) HD].
      split; [exists (x :: l), y; split; [done|]; split; [by constructor|done]|]. cbn. by rewrite <-HD.
  - intros [(l & x & -> & Hl & Hx) ->]. rewrite fmap_app, <-(assoc_L app). rewrite first_segment_run by done.
    cbn. by rewrite Hx.
Qed.

Lemma first_segment_le D seg : first_segment D = Some seg -> (0 < length seg <= length D)%nat.
Proof.
  intros E. apply first_segment_Some in E as [(l & x & -> & _) ->]. rewrite !length_app, length_fmap, length_app. cbn. lia.
Qed.

Lemma scan_back_spec l r e :
  Forall (fun o => status_of o <> DataComplete) l ->
  scan_back (status_of <$> (l ++ r)) e (length l) = Done (if decide (Forall is_Some l) then Some (0, e) else None).
Proof.
  revert r. induction l as [|o l IH] using rev_ind; intros r Hl; [done|].
  apply Forall_app in Hl as [Hl Ho]. inv Ho. rewrite length_app, Nat.add_comm. cbn [length Nat.add scan_back].
  rewrite (slice_get_lookup _ _ (status_of o)), bind_Done.
  2: lia.
  2: { rewrite Nat2Z.id, list_lookup_fmap, <-(assoc_L app). cbn [app]. by rewrite list_lookup_middle. } destruct o as [x|]; cbn [status_of] in *.
  - destruct (ends_segment x); [done|]. rewrite <-(assoc_L app), IH by done. f_equal.
    destruct (decide (Forall is_Some l)) as [Hs|Hs]; destruct (decide (Forall is_Some (l ++ [Some x]))) as [Hs'|Hs']; try done.
    + destruct Hs'. apply Forall_app_2; [done|]. by apply Forall_singleton.
    + by apply Forall_app in Hs' as [? _].
  - rewrite decide_False; [done|]. intros Hs. apply Forall_app in Hs as [_ Hs]. by apply Forall_singleton, is_Some_None in Hs.
Qed.

Lemma all_Some (l : list (option Shred)) : Forall is_Some l -> exists l', l = Some <$> l'.
Proof.
  induction 1 as [|o l [x ->] Hl [l' ->]]; [by exists []|by exists (x :: l')].
Qed.

Lemma find_complete_segment_ref slot D codes :
  find_complete_segment (slot_of slot D codes) = Done ((fun seg => (0, len seg - 1)) <$> first_segment D).
Proof.
  unfold find_complete_segment. cbn [data_status slot_of]. destruct (list_find _ _) as [[e st]|] eqn:E.
  - apply list_find_Some in E as (He & -> & Hmin). apply list_lookup_fmap_Some in He as (o & Ho & Hlk).
    symmetry in Ho. apply status_of_complete in Ho as (x & -> & Hx).
    apply list_elem_of_split_length in Hlk as (l & r & -> & ->).
    assert (Forall (fun o => status_of o <> DataComplete) l) as Hl.
    { apply Forall_lookup_2. intros i o Hi Hc. apply (Hmin i (status_of o)); [|by apply lookup_lt_Some in Hi|done].
      rewrite list_lookup_fmap, lookup_app_l, Hi by (by apply lookup_lt_Some in Hi). done. }
    transitivity (Done (if decide (Forall is_Some l) then Some (0, Z.of_nat (length l)) else None)).
    { destruct (Nat.eqb_spec (length l) 0) as [Hn|]; [by destruct l|]. by apply scan_back_spec. }
    f_equal. destruct (decide _) as [Hs|Hs].
    + apply all_Some in Hs as [l' ->]. rewrite first_segment_run.
      * cbn. rewrite Hx. cbn. f_equal. f_equal. unfold len. rewrite length_app, length_fmap. cbn. lia.
      * rewrite Forall_fmap in Hl. eapply Forall_impl; [exact Hl|]. intros y Hy. cbn in Hy. by destruct (ends_segment y).
    + destruct (first_segment (l ++ Some x :: r)) as [seg|] eqn:Es; [|done]. exfalso. apply Hs.
      apply first_segment_Some in Es as [(l' & y & -> & Hl' & Hy) Es]. rewrite fmap_app, <-(assoc_L app) in Es. cbn in Es.
      destruct (decide (length l <= length l')%nat) as [Hle|Hgt].
      * apply (f_equal (take (length l))) in Es. rewrite take_app_length, take_app_le in Es by (by rewrite length_fmap).
        rewrite Es, <-fmap_take. apply Forall_fmap, Forall_true. intros. by eexists.
      * exfalso. apply (f_equal (lookup (length l'))) in Es. rewrite lookup_app_l in Es by lia.
        rewrite list_lookup_middle in Es by (by rewrite length_fmap).
        apply (Forall_lookup_1 _ _ _ _ Hl Es). cbn. by rewrite Hy.
  - apply list_find_None in E. destruct (first_segment D) as [seg|] eqn:Es; [|done]. exfalso.
    apply first_segment_Some in Es as [(l & x & -> & _ & Hx) HD]. rewrite HD, !fmap_app in E.
    apply Forall_app in E as [E _]. apply Forall_app in E as [_ E].
    apply Forall_cons in E as [E _]. apply E. cbn. by rewrite Hx.
Qed.

(** ** [try_deshred] meets its reference *)

Lemma unwrap_payloads_Some l : unwrap_payloads (Some <$> l) = Done (shred_payload <$> l).
Proof. induction l as [|x l IH]; cbn; [done|]. cbn in IH. by rewrite IH. Qed.

Lemma existsb_None_Some (l : list Shred) : existsb (fun o => match o with None => true | Some _ => false end) (Some <$> l) = false.
Proof. by induction l. Qed.

Lemma fmap_clear (f : option Shred -> ShredStatus) (D : list (option Shred)) (i : nat) o : <[i := f o]> (f <$> D) = f <$> <[i := o]> D.
Proof. symmetry. apply list_fmap_insert. Qed.

Lemma clear_run slot codes l r a :
  for_each (seqZ (Z.of_nat a) (len l)) (fun i s =>
    sh ← slice_set (data_shreds s) i None;
    st ← slice_set (data_status s) i Unknown;
    Done (mkSlotShreds _ (ss_slot s) st sh (code_shreds s))) (slot_of slot (replicate a None ++ l ++ r) codes)
  = Done (slot_of slot (replicate (a + length l) None ++ r) codes).
Proof.
  revert a. induction l as [|o l IH]; intros a; [by rewrite Nat.add_0_r|].
  rewrite len_cons, seqZ_cons by (pose proof (len_nonneg l); lia). cbn [for_each slot_of data_shreds data_status ss_slot code_shreds].
  rewrite !slice_set_Done, !bind_Done by (unfold len; rewrite ?length_fmap, !length_app, length_replicate; cbn; lia).
  rewrite Nat2Z.id. change Unknown with (status_of None). rewrite fmap_clear.
  replace (<[a:=None]> (replicate a None ++ (o :: l) ++ r)) with (replicate (S a) None ++ l ++ r).
  - fold (slot_of slot (replicate (S a) None ++ l ++ r) codes).
    replace (Z.pred (1 + len l)) with (len l) by lia. replace (Z.succ (Z.of_nat a)) with (Z.of_nat (S a)) by lia.
    rewrite IH. cbn [length]. by rewrite Nat.add_succ_r.
  - rewrite insert_app_r_alt by (by rewrite length_replicate). rewrite length_replicate, Nat.sub_diag.
    by rewrite replicate_S_end, <-(assoc_L app).
Qed.

Lemma try_deshred_meets_ref slot D codes : try_deshred (slot_of slot D codes) = Done (try_deshred_ref slot D codes).
Proof.
  unfold try_deshred, try_deshred_ref. rewrite find_complete_segment_ref, bind_Done.
  destruct (first_segment D) as [seg|] eqn:Es; [|done]. cbn [fmap option_fmap option_map mbind option_bind].
  pose proof (first_segment_le _ _ Es) as Hl. apply first_segment_Some in Es as [Hseg HD]. cbn [data_shreds slot_of].
  rewrite slice_range_Done, bind_Done by (unfold len; lia). replace (Z.to_nat (len seg - 1 + 1 - 0)) with (length seg) by (unfold len; lia).
  change (drop (Z.to_nat 0) D) with D. replace (take (length seg) D) with (Some <$> seg)
    by (rewrite HD, take_app_length' by (by rewrite length_fmap); done).
  rewrite existsb_None_Some, unwrap_payloads_Some, bind_Done. unfold decode_run.
  destruct (Shredder_deshred _) as [pl|e]; [|done]. destruct (deserialize_entries pl) as [es|]; [|done]. cbn [fmap option_fmap option_map].
  unfold clear_segment. rewrite Z.sub_0_r. replace (len seg - 1 + 1) with (len (Some <$> seg)) by (unfold len; rewrite length_fmap; lia).
  pose proof (clear_run slot codes (Some <$> seg) (drop (length seg) D) 0) as Hc. cbn [replicate app] in Hc.
  rewrite <-HD in Hc. change (Z.of_nat 0) with 0 in Hc. rewrite Hc, bind_Done. by rewrite length_fmap.
Qed.

(** ** Adding a shred *)

(** [add_shred] on a state [slot_of slot D codes], by cases on the shred. *)
Definition add_ref (D : list (option Shred)) (codes : list Shred) (x : Shred) : option (list (option Shred) * list Shred) :=
  match shred_type x with
  | Data =>
      match D !! Z.to_nat (shred_index x) with
      | Some None => Some (<[Z.to_nat (shred_index x) := Some x]> D, codes)
      | _ => None
      end
  | Code => if existsb (fun c => shred_index c =? shred_index x) codes then None else Some (D, codes ++ [x])
  end.

Context `{!ShredLaws L}.

Lemma add_shred_meets_ref slot D codes x :
  len D = MAX_DATA_SHREDS_PER_SLOT ->
  SlotShreds_add_shred (slot_of slot D codes) x =
    Done match add_ref D codes x with Some (D', codes') => (slot_of slot D' codes', true) | None => (slot_of slot D codes, false) end.
Proof.
  intros Hl. unfold SlotShreds_add_shred, add_ref. pose proof (index_range x) as Hx. unfold is_uint in Hx.
  destruct (shred_type x); [|cbn [code_shreds slot_of]; by destruct (existsb _ codes)].
  destruct (Z.leb_spec MAX_DATA_SHREDS_PER_SLOT (shred_index x)) as [Hge|Hlt].
  { rewrite lookup_ge_None_2; [done|]. unfold len in *. lia. }
  cbn [data_shreds data_status slot_of ss_slot code_shreds].
  destruct (lookup_lt_is_Some_2 D (Z.to_nat (shred_index x))) as [o Eo]; [unfold len in *; lia|].
  rewrite (slice_get_lookup _ _ o), bind_Done by (done || lia). rewrite Eo. destruct o as [y|].
  { done. }
  rewrite (slice_set_Done (status_of <$> D)), bind_Done by (unfold len in *; rewrite length_fmap; lia).
  rewrite (slice_set_Done D), bind_Done by lia. f_equal. f_equal. unfold slot_of. f_equal.
  by rewrite <-(fmap_clear status_of).
Qed.

Lemma add_ref_length D codes x D' codes' : add_ref D codes x = Some (D', codes') -> length D' = length D.
Proof.
  unfold add_ref. destruct (shred_type x).
  - destruct (D !! _) as [[y|]|]; [done| |done]. intros [= <- <-]. by rewrite length_insert.
  - destruct (existsb _ _); [done|]. by intros [= <- <-].
Qed.

(** ** The manager *)

(** What the manager holds for a slot: data shreds and coding shreds. *)
Definition holds (m : DeshredManager) (slot : Z) (D : list (option Shred)) (codes : list Shred) : Prop :=
  default (SlotShreds_new slot) (slots m !! slot) = slot_of slot D codes /\ len D = MAX_DATA_SHREDS_PER_SLOT.

Definition fresh_shreds : list (option Shred) := replicate (Z.to_nat MAX_DATA_SHREDS_PER_SLOT) None.
#[local] Opaque MAX_DATA_SHREDS_PER_SLOT.

Lemma max_data_pos : 0 < MAX_DATA_SHREDS_PER_SLOT.
Proof. done. Qed.

Lemma fresh_shreds_len : len fresh_shreds = MAX_DATA_SHREDS_PER_SLOT.
Proof. unfold fresh_shreds. rewrite len_replicate. pose proof max_data_pos. lia. Qed.

Lemma holds_new m slot : slots m !! slot = None -> holds m slot fresh_shreds [].
Proof.
  intros E. split; [|apply fresh_shreds_len]. rewrite E. cbn. unfold SlotShreds_new, slot_of, fresh_shreds. by rewrite fmap_replicate.
Qed.

Lemma holds_insert m slot D codes : len D = MAX_DATA_SHREDS_PER_SLOT -> holds (mkDeshredManager _ (<[slot := slot_of slot D codes]> (slots m))) slot D codes.
Proof. intros Hl. split; [|done]. cbn [slots]. by rewrite lookup_insert_eq. Qed.

(** A shred that is not new changes nothing and gives nothing. *)
Lemma manager_old m x D codes :
  holds m (shred_slot x) D codes -> add_ref D codes x = None ->
  exists m', add_shred m x = Done (m', None) /\ holds m' (shred_slot x) D codes /\ forall k, k <> shred_slot x -> slots m' !! k = slots m !! k.
Proof.
  intros [Hs Hl] Ha. unfold add_shred, DeshredManager_trait, DeshredManager_add_shred. rewrite Hs, add_shred_meets_ref, Ha, bind_Done by done.
  eexists. split; [done|]. split; [by apply holds_insert|]. intros k Hk. cbn [slots]. by rewrite lookup_insert_ne.
Qed.

(** A new shred is stored, and then the first segment is tried. *)
Lemma manager_new m x D codes D' codes' :
  holds m (shred_slot x) D codes -> add_ref D codes x = Some (D', codes') ->
  exists m', add_shred m x = Done (m', (fun '(es, pl) => (shred_slot x, es, pl)) <$> (try_deshred_ref (shred_slot x) D' codes').2) /\
    m' = mkDeshredManager _ (<[shred_slot x := (try_deshred_ref (shred_slot x) D' codes').1]> (slots m)).
Proof.
  intros [Hs Hl] Ha. unfold add_shred, DeshredManager_trait, DeshredManager_add_shred. rewrite Hs, add_shred_meets_ref, Ha, bind_Done by done.
  cbn [negb]. rewrite try_deshred_meets_ref, bind_Done. destruct (try_deshred_ref _ _ _) as [s r]. eexists. split; [done|done].
Qed.

(** Nothing is given while the first segment is not there. *)
Lemma try_deshred_ref_None slot D codes : first_segment D = None -> try_deshred_ref slot D codes = (slot_of slot D codes, None).
Proof. intros E. unfold try_deshred_ref. by rewrite E. Qed.

(** ** Invariant of the manager *)

(** [x] is a data shred of [slot] with index [i] among the shreds [seen]. *)
Definition data_shred_of (seen : list Shred) (slot : Z) (i : nat) (x : Shred) : Prop :=
  x ∈ seen /\ shred_slot x = slot /\ shred_index x = Z.of_nat i /\ shred_type x = Data.

Definition stored_ok (seen : list Shred) (slot : Z) (D : list (option Shred)) : Prop :=
  forall i x, D !! i = Some (Some x) -> data_shred_of seen slot i x.

Definition manager_ok (seen : list Shred) (m : DeshredManager) : Prop :=
  forall slot, exists D codes, holds m slot D codes /\ stored_ok seen slot D.

(** What an answer may be: the decoding of a segment of shreds seen. *)
Definition answer_ok (seen : list Shred) (o : option segment_out) : Prop :=
  match o with
  | None => True
  | Some (slot, entries, payload) =>
      exists seg, is_segment seg /\ (forall i x, seg !! i = Some x -> data_shred_of seen slot i x) /\
        decode_run (shred_payload <$> seg) = Some (entries, payload)
  end.

Lemma data_shred_of_mono seen seen' slot i x : seen ⊆ seen' -> data_shred_of seen slot i x -> data_shred_of seen' slot i x.
Proof. intros Hs (H1 & H2). split; [by apply Hs|done]. Qed.

Lemma holds_ne m m' k D codes : slots m' !! k = slots m !! k -> holds m k D codes -> holds m' k D codes.
Proof. intros E [H1 H2]. split; [by rewrite E|done]. Qed.

Lemma stored_ok_insert seen slot D x :
  shred_type x = Data -> shred_slot x = slot -> stored_ok seen slot D -> stored_ok (seen ++ [x]) slot (<[Z.to_nat (shred_index x) := Some x]> D).
Proof.
  intros Ht Hx Hs i y Hi. apply list_lookup_insert_Some in Hi as [(<- & [= <-] & _)|(_ & Hi)].
  - pose proof (index_range x) as Hr. unfold is_uint in Hr. split; [apply elem_of_app; right; by left|]. split; [done|]. split; [lia|done].
  - apply (data_shred_of_mono seen); [set_solver|]. by apply Hs.
Qed.

Lemma stored_ok_clear seen slot D n : stored_ok seen slot D -> stored_ok seen slot (replicate n None ++ drop n D).
Proof.
  intros Hs i x Hi. apply lookup_app_Some in Hi as [Hi|[Hge Hi]]; [by apply lookup_replicate in Hi as [? _]|].
  rewrite length_replicate in *. rewrite lookup_drop in Hi. apply Hs. rewrite <-Hi. f_equal. lia.
Qed.

Lemma add_ref_stored seen slot D codes x D' codes' :
  shred_slot x = slot -> stored_ok seen slot D -> add_ref D codes x = Some (D', codes') -> stored_ok (seen ++ [x]) slot D'.
Proof.
  intros Hx Hs. unfold add_ref. destruct (shred_type x) eqn:Et.
  - destruct (D !! _) as [[y|]|]; [done| |done]. intros [= <- <-]. by apply stored_ok_insert.
  - destruct (existsb _ _); [done|]. intros [= <- <-] i y Hi. apply (data_shred_of_mono seen); [set_solver|]. by apply Hs.
Qed.

Lemma try_deshred_ref_ok seen slot D codes :
  stored_ok seen slot D -> len D = MAX_DATA_SHREDS_PER_SLOT ->
  exists D', (try_deshred_ref slot D codes).1 = slot_of slot D' codes /\ len D' = MAX_DATA_SHREDS_PER_SLOT /\ stored_ok seen slot D' /\
    answer_ok seen ((fun '(es, pl) => (slot, es, pl)) <$> (try_deshred_ref slot D codes).2).
Proof.
  intros Hs Hl. unfold try_deshred_ref. destruct (first_segment D) as [seg|] eqn:E; [|by exists D].
  cbn [mbind option_bind]. destruct (decode_run _) as [[es pl]|] eqn:Ed; [|by exists D]. cbn [fmap option_fmap option_map fst snd].
  pose proof (first_segment_le _ _ E) as Hle. apply first_segment_Some in E as [Hseg HD].
  eexists. split; [done|]. split; [|split; [by apply stored_ok_clear|]].
  - unfold len in *. rewrite length_app, length_replicate, length_drop. lia.
  - exists seg. split; [done|]. split; [|done]. intros i x Hi. apply Hs. rewrite HD, lookup_app_l, list_lookup_fmap, Hi; [done|].
    rewrite length_fmap. by apply lookup_lt_Some in Hi.
Qed.

Lemma manager_step seen m x :
  manager_ok seen m -> exists m' o, add_shred m x = Done (m', o) /\ manager_ok (seen ++ [x]) m' /\ answer_ok (seen ++ [x]) o.
Proof.
  intros Hm. destruct (Hm (shred_slot x)) as (D & codes & Hh & Hs).
  destruct (add_ref D codes x) as [[D' codes']|] eqn:Ea.
  - destruct (manager_new m x D codes D' codes' Hh Ea) as (m' & E & Em). eexists _, _. split; [exact E|].
    pose proof (add_ref_stored seen _ D codes x D' codes' eq_refl Hs Ea) as Hs'.
    destruct (try_deshred_ref_ok (seen ++ [x]) (shred_slot x) D' codes' Hs') as (D'' & E1 & Hl & Hs'' & Ha);
      [unfold len in *; rewrite (add_ref_length _ _ _ _ _ Ea); apply Hh|].
    split; [|done]. subst m'. rewrite E1. intros k. destruct (decide (k = shred_slot x)) as [->|Hk].
    + exists D'', codes'. split; [by apply holds_insert|done].
    + destruct (Hm k) as (Dk & ck & Hhk & Hsk). exists Dk, ck. split; [eapply holds_ne, Hhk; cbn [slots]; by rewrite lookup_insert_ne|].
      intros i y Hi. apply (data_shred_of_mono seen); [set_solver|]. by apply Hsk.
  - destruct (manager_old m x D codes Hh Ea) as (m' & E & Hh' & Hk). eexists _, _. split; [exact E|]. split; [|done].
    intros k. destruct (decide (k = shred_slot x)) as [->|Hne].
    + exists D, codes. split; [done|]. intros i y Hi. apply (data_shred_of_mono seen); [set_solver|]. by apply Hs.
    + destruct (Hm k) as (Dk & ck & Hhk & Hsk). exists Dk, ck. split; [eapply holds_ne, Hhk; by apply Hk|].
      intros i y Hi. apply (data_shred_of_mono seen); [set_solver|]. by apply Hsk.
Qed.
End deshred.
