(* ===== verification/DeshredProps.v ===== *)
(** * Shred reassembly: properties ([examples/deshred.rs])

    What [DeshredManager] delivers: only decoded segments of shreds it was
    given; a slot's first segment, whatever the order of its shreds and with
    duplicates; and nothing else of that slot. *)

From stdpp Require Import gmap.
From S2P Require Import Prelude Words Shred Deshred.

Section manager.
Context {L : ShredLib} `{!ShredLaws L}.

(** ** Gathering one segment *)

(** [seg] is the first segment of [slot], and its shreds sit at indices [0..]. *)
Record segment_of (slot : Z) (seg : list Shred) : Prop := mkSegmentOf {
  so_segment : is_segment seg;
  so_shreds : forall i x, seg !! i = Some x -> shred_slot x = slot /\ shred_index x = Z.of_nat i /\ shred_type x = Data;
  so_fits : len seg <= MAX_DATA_SHREDS_PER_SLOT;
}.

(** [D] holds the shreds [got] of the segment and no others. *)
Definition gathers (seg got : list Shred) (D : list (option Shred)) : Prop :=
  len D = MAX_DATA_SHREDS_PER_SLOT /\ forall i x, D !! i = Some (Some x) <-> seg !! i = Some x /\ x ∈ got.

Lemma gathers_fresh seg : gathers seg [] fresh_shreds.
Proof.
  split; [apply fresh_shreds_len|]. intros i x. split.
  - intros Hi. unfold fresh_shreds in Hi. by apply lookup_replicate in Hi as [? _].
  - intros [_ Hx]. by apply not_elem_of_nil in Hx.
Qed.

Lemma gathers_incomplete seg got D w : is_segment seg -> gathers seg got D -> w ∈ seg -> w ∉ got -> first_segment D = None.
Proof.
  intros (l & x & -> & Hl & Hx) [_ Hg] Hw Hn. destruct (first_segment D) as [seg'|] eqn:E; [|done]. exfalso.
  apply first_segment_Some in E as [(l' & y & -> & Hl' & Hy) HD].
  assert (forall i u, (l' ++ [y]) !! i = Some u -> (l ++ [x]) !! i = Some u /\ u ∈ got) as Hsub.
  { intros i u Hi. apply Hg. rewrite HD, lookup_app_l, list_lookup_fmap, Hi; [done|]. rewrite length_fmap. by apply lookup_lt_Some in Hi. }
  destruct (Hsub (length l') y) as [Hyl _]; [by apply list_lookup_middle|].
  assert (length l' = length l) as Hlen.
  { apply lookup_snoc_Some in Hyl as [[Hlt Hyl]|[? _]]; [|done]. pose proof (Forall_lookup_1 _ _ _ _ Hl Hyl). cbn in *. congruence. }
  apply list_elem_of_lookup in Hw as [i Hi]. destruct (lookup_lt_is_Some_2 (l' ++ [y]) i) as [u Hu].
  { apply lookup_lt_Some in Hi. rewrite length_app in *. cbn in *. lia. }
  destruct (Hsub i u Hu) as [Hu' Hgot]. congruence.
Qed.

Lemma gathers_complete seg got D : is_segment seg -> gathers seg got D -> seg ⊆ got -> first_segment D = Some seg.
Proof.
  intros Hs [_ Hg] Hsub. apply first_segment_Some. split; [done|].
  assert (forall i x, seg !! i = Some x -> D !! i = Some (Some x)) as Hin.
  { intros i x Hi. apply Hg. split; [done|]. apply Hsub. by apply list_elem_of_lookup_2 in Hi. }
  rewrite <-(take_drop (length seg) D) at 1. f_equal. apply list_eq. intros i. rewrite list_lookup_fmap.
  destruct (seg !! i) as [x|] eqn:Ei; cbn.
  - rewrite lookup_take_lt by (by apply lookup_lt_Some in Ei). by apply Hin.
  - apply lookup_ge_None_2. rewrite length_take. apply lookup_ge_None in Ei. lia.
Qed.

(** Where a shred of the segment goes. *)
Lemma gathers_add slot seg got D x :
  segment_of slot seg -> gathers seg got D -> x ∈ seg ->
  (x ∈ got /\ add_ref D [] x = None) \/ exists D', add_ref D [] x = Some (D', []) /\ gathers seg (got ++ [x]) D'.
Proof.
  intros [_ Hs Hfit] [Hl Hg] Hx. apply list_elem_of_lookup in Hx as [i Hi]. destruct (Hs i x Hi) as (Hslot & Hidx & Ht).
  unfold add_ref. rewrite Ht, Hidx, Nat2Z.id. destruct (lookup_lt_is_Some_2 D i) as [[y|] Ho].
  { apply lookup_lt_Some in Hi. unfold len in *. lia. }
  - left. rewrite Ho. split; [|done]. apply Hg in Ho as [Ho Hgot]. congruence.
  - right. rewrite Ho. eexists. split; [done|]. split; [by rewrite len_insert|]. intros j u.
    rewrite elem_of_app, list_elem_of_singleton. split.
    + intros Hj. apply list_lookup_insert_Some in Hj as [(<- & Hu & _)|(Hne & Hj)]; [injection Hu as <-; auto|]. apply Hg in Hj as [? ?]. auto.
    + intros [Hj Hu]. destruct (decide (j = i)) as [->|Hne].
      { rewrite Hi in Hj. injection Hj as <-. apply list_lookup_insert_eq. by apply lookup_lt_Some in Ho. }
      rewrite list_lookup_insert_ne by done. apply Hg. split; [done|]. destruct Hu as [Hu| ->]; [done|].
      destruct (Hs j x Hj) as (_ & Hjx & _). lia.
Qed.

Lemma gathers_again seg got D x : x ∈ got -> gathers seg got D -> gathers seg (got ++ [x]) D.
Proof. intros Hx [Hl Hg]. split; [done|]. intros i u. rewrite Hg. set_solver. Qed.

(** While a shred of the segment is missing, nothing is delivered. *)
Lemma gather_run slot seg w l got D m :
  segment_of slot seg -> w ∈ seg -> w ∉ got ++ l -> l ⊆ seg -> holds m slot D [] -> gathers seg got D ->
  exists m' D', run_shreds m l = Done (m', replicate (length l) None) /\ holds m' slot D' [] /\ gathers seg (got ++ l) D'.
Proof.
  intros Hseg Hw. revert got D m. induction l as [|x l IH]; intros got D m Hn Hsub Hh Hg.
  { exists m, D. by rewrite app_nil_r. }
  assert (x ∈ seg) as Hx by (apply Hsub; left). assert (shred_slot x = slot) as Hslot.
  { apply list_elem_of_lookup in Hx as [i Hi]. by apply (so_shreds _ _ Hseg i). }
  assert (exists m1 D1, add_shred m x = Done (m1, None) /\ holds m1 slot D1 [] /\ gathers seg (got ++ [x]) D1) as (m1 & D1 & E1 & Hh1 & Hg1).
  { destruct (gathers_add slot seg got D x Hseg Hg Hx) as [[Hin Ea]|(D' & Ea & Hg')].
    - destruct (manager_old m x D []) as (m1 & E1 & Hh1 & _); [by rewrite Hslot|done|]. exists m1, D. rewrite Hslot in Hh1.
      split; [done|]. split; [done|]. by apply gathers_again.
    - destruct (manager_new m x D [] D' []) as (m1 & E1 & ->); [by rewrite Hslot|done|].
      rewrite try_deshred_ref_None in E1. 2: { apply (gathers_incomplete seg (got ++ [x]) D' w); [apply Hseg|done|done|set_solver]. }
      eexists _, D'. split; [exact E1|]. split; [|done]. rewrite <-Hslot.
      apply holds_insert. apply Hg'. }
  destruct (IH (got ++ [x]) D1 m1) as (m2 & D2 & E2 & Hh2 & Hg2); [set_solver|set_solver|done|done|].
  exists m2, D2. cbn [run_shreds]. rewrite E1, bind_Done, E2, bind_Done. by rewrite <-(assoc_L app) in Hg2.
Qed.

(** Clearing the gathered segment leaves nothing of it, and nothing else was there. *)
Lemma gathers_clear seg got D :
  gathers seg got D -> (length seg <= length D)%nat ->
  gathers seg [] (replicate (length seg) None ++ drop (length seg) D).
Proof.
  intros [Hl Hg] Hle. split.
  { unfold len in *. rewrite length_app, length_replicate, length_drop. lia. }
  intros i x. split; [|by intros [_ ?%not_elem_of_nil]]. intros Hi. exfalso.
  apply lookup_app_Some in Hi as [Hi|[Hge Hi]]; [by apply lookup_replicate in Hi as [? _]|].
  rewrite length_replicate in *. rewrite lookup_drop in Hi. apply Hg in Hi as [Hi%lookup_lt_Some _]. lia.
Qed.

(** The shred that completes the segment delivers it, and leaves the slot empty. *)
Lemma gather_done slot seg got D m z es pl :
  segment_of slot seg -> z ∈ seg -> z ∉ got -> seg ⊆ z :: got -> holds m slot D [] -> gathers seg got D ->
  decode_run (shred_payload <$> seg) = Some (es, pl) ->
  exists m' D', add_shred m z = Done (m', Some (slot, es, pl)) /\ holds m' slot D' [] /\ gathers seg [] D'.
Proof.
  intros Hseg Hz Hn Hall Hh Hg Hd. assert (shred_slot z = slot) as Hslot.
  { apply list_elem_of_lookup in Hz as [i Hi]. by apply (so_shreds _ _ Hseg i). }
  destruct (gathers_add slot seg got D z Hseg Hg Hz) as [[Hin _]|(D' & Ea & Hg')]; [done|].
  destruct (manager_new m z D [] D' []) as (m1 & E1 & ->); [by rewrite Hslot|done|].
  assert (first_segment D' = Some seg) as Hf by (apply (gathers_complete seg (got ++ [z])); [apply Hseg|done|set_solver]).
  unfold try_deshred_ref in *. rewrite Hf, Hslot in *. cbn [mbind option_bind] in *. rewrite Hd in *.
  pose proof (first_segment_le _ _ Hf) as Hle.
  pose proof (gathers_clear seg _ D' Hg' ltac:(lia)) as Hc.
  eexists _, _. split; [exact E1|]. split; [|exact Hc]. apply holds_insert. apply Hc.
Qed.

(** One reception of all shreds of the segment: [l] in any order and with
    duplicates, without [z], then [z]. *)
Definition complete_round (seg : list Shred) (r : list Shred * Shred) : Prop :=
  r.1 ⊆ seg /\ r.2 ∈ seg /\ r.2 ∉ r.1 /\ seg ⊆ r.2 :: r.1.

Lemma gather_rounds slot seg es pl rounds m D :
  segment_of slot seg -> decode_run (shred_payload <$> seg) = Some (es, pl) ->
  Forall (complete_round seg) rounds -> holds m slot D [] -> gathers seg [] D ->
  exists m', run_shreds m (concat ((fun '(l, z) => l ++ [z]) <$> rounds)) =
    Done (m', concat ((fun '(l, z) => replicate (length l) None ++ [Some (slot, es, pl)]) <$> rounds)).
Proof.
  intros Hseg Hd Hr. revert m D. induction Hr as [|[l z] rounds (Hl & Hz & Hn & Hall) Hr IH]; intros m D Hh Hg; [by exists m|].
  cbn [fst snd] in *.
  destruct (gather_run slot seg z l [] D m Hseg Hz Hn Hl Hh Hg) as (m1 & D1 & E1 & Hh1 & Hg1).
  destruct (gather_done slot seg l D1 m1 z es pl) as (m2 & D2 & E2 & Hh2 & Hg2); try done.
  destruct (IH m2 D2 Hh2 Hg2) as (m3 & E3). exists m3. cbn [fmap list_fmap concat].
  eapply run_shreds_app; [|exact E3]. eapply run_shreds_app; [exact E1|]. cbn [run_shreds]. by rewrite E2.
Qed.

(** ** Properties *)

Lemma manager_run seen m l :
  manager_ok seen m ->
  exists m' os, run_shreds m l = Done (m', os) /\ manager_ok (seen ++ l) m' /\
    length os = length l /\ forall j o, os !! j = Some o -> answer_ok (seen ++ take (S j) l) o.
Proof.
  revert seen m. induction l as [|x l IH]; intros seen m Hm.
  { exists m, []. rewrite app_nil_r. split_and!; done. }
  destruct (manager_step seen m x Hm) as (m1 & o & E1 & Hm1 & Ho). destruct (IH _ _ Hm1) as (m2 & os & E2 & Hm2 & Hl & Hos).
  exists m2, (o :: os). cbn [run_shreds]. rewrite E1, bind_Done, E2, bind_Done. rewrite <-(assoc_L app) in Hm2.
  split_and!; [done|done|cbn; by rewrite Hl|]. intros [|j] o' Hj; cbn in Hj; [by injection Hj as <-|].
  specialize (Hos j o' Hj). by rewrite <-(assoc_L app) in Hos.
Qed.

Lemma manager_ok_new : manager_ok [] DeshredManager_new.
Proof.
  intros slot. exists fresh_shreds, []. split; [by apply holds_new|]. intros i x Hi. unfold fresh_shreds in Hi.
  by apply lookup_replicate in Hi as [? _].
Qed.

(** ** Without the shred of index 0 *)

(** A shred of another slot leaves this slot alone. *)
Lemma manager_other seen m x slot :
  manager_ok seen m -> shred_slot x <> slot ->
  exists m' o, add_shred m x = Done (m', o) /\ slots m' !! slot = slots m !! slot /\ forall es pl, o <> Some (slot, es, pl).
Proof.
  intros Hm Hne. destruct (Hm (shred_slot x)) as (D & codes & Hh & _). destruct (add_ref D codes x) as [[D' codes']|] eqn:Ea.
  - destruct (manager_new m x D codes D' codes' Hh Ea) as (m' & E & ->). eexists _, _. split; [exact E|]. split.
    + cbn [slots]. by rewrite lookup_insert_ne.
    + intros es pl. destruct (try_deshred_ref _ _ _).2 as [[? ?]|]; cbn; congruence.
  - destruct (manager_old m x D codes Hh Ea) as (m' & E & _ & Hk). exists m', None. split_and!; [done| |done]. apply Hk. congruence.
Qed.

(** A slot's own shred that is not the data shred of index 0 gives nothing, as
    long as the head is missing. *)
Lemma headless_step slot m x D codes :
  holds m slot D codes -> D !! 0%nat = Some None -> shred_slot x = slot -> (shred_type x = Data -> shred_index x <> 0) ->
  exists m1 D1 c1, add_shred m x = Done (m1, None) /\ holds m1 slot D1 c1 /\ D1 !! 0%nat = Some None.
Proof.
  intros Hh H0 Hslot Hx. destruct (add_ref D codes x) as [[D' codes']|] eqn:Ea.
  - assert (D' !! 0%nat = Some None) as H0'.
    { unfold add_ref in Ea. destruct (shred_type x); [|by destruct (existsb _ _); simplify_eq].
      destruct (D !! Z.to_nat _) as [[y|]|]; simplify_eq. rewrite list_lookup_insert_ne; [done|].
      pose proof (index_range x) as Hr. unfold is_uint in Hr. specialize (Hx eq_refl). lia. }
    assert (first_segment D' = None) as Hf by (destruct D' as [|[y|] D']; done).
    destruct (manager_new m x D codes D' codes') as (m1 & E1 & ->); [by rewrite Hslot|done|].
    rewrite try_deshred_ref_None in * by done. eexists _, D', codes'. split; [exact E1|]. split; [|done]. rewrite <-Hslot.
    apply holds_insert. unfold len. rewrite (add_ref_length _ _ _ _ _ Ea). apply Hh.
  - destruct (manager_old m x D codes) as (m1 & E1 & Hh1 & _); [by rewrite Hslot|done|]. exists m1, D, codes. by rewrite Hslot in Hh1.
Qed.

Lemma headless_run slot l seen m D codes :
  manager_ok seen m -> holds m slot D codes -> D !! 0%nat = Some None ->
  Forall (fun x => shred_slot x = slot -> shred_type x = Data -> shred_index x <> 0) l ->
  exists m' os, run_shreds m l = Done (m', os) /\ length os = length l /\ forall es pl, Some (slot, es, pl) ∉ os.
Proof.
  intros Hm Hh H0 Hl. revert seen m D codes Hm Hh H0.
  induction Hl as [|x l Hx Hl IH]; intros seen m D codes Hm Hh H0.
  { exists m, []. split_and!; [done|done|]. intros es pl. apply not_elem_of_nil. }
  destruct (manager_step seen m x Hm) as (m1 & o & E1 & Hm1 & _).
  assert (exists D1 c1, holds m1 slot D1 c1 /\ D1 !! 0%nat = Some None /\ forall es pl, o <> Some (slot, es, pl)) as (D1 & c1 & Hh1 & H1 & Ho).
  { destruct (decide (shred_slot x = slot)) as [Hs|Hs].
    - destruct (headless_step slot m x D codes Hh H0 Hs (Hx Hs)) as (m2 & D2 & c2 & E2 & Hh2 & H2). rewrite E1 in E2.
      injection E2 as <- ->. by exists D2, c2.
    - destruct (manager_other seen m x slot Hm Hs) as (m2 & o2 & E2 & Hk & Ho). rewrite E1 in E2. injection E2 as <- <-.
      exists D, codes. split; [by apply (holds_ne m)|done]. }
  destruct (IH _ m1 D1 c1 Hm1 Hh1 H1) as (m2 & os & E2 & Hlen & Hos). exists m2, (o :: os). cbn [run_shreds].
  rewrite E1, bind_Done, E2, bind_Done. split_and!; [done|cbn; by rewrite Hlen|].
  intros es pl [Hin|Hin]%elem_of_cons; [by destruct (Ho es pl)|by destruct (Hos es pl)].
Qed.

(** A delivery clears the segment, index 0 included. *)
Lemma delivery_clears_head seen m x m' slot es pl :
  manager_ok seen m -> add_shred m x = Done (m', Some (slot, es, pl)) ->
  exists D codes, holds m' slot D codes /\ D !! 0%nat = Some None.
Proof.
  intros Hm E. destruct (decide (shred_slot x = slot)) as [Hs|Hs].
  2: { destruct (manager_other seen m x slot Hm Hs) as (m1 & o & E1 & _ & Ho). rewrite E in E1. injection E1 as <- <-. by destruct (Ho es pl). }
  destruct (Hm slot) as (D & codes & Hh & _). rewrite <-Hs in *. destruct (add_ref D codes x) as [[D' codes']|] eqn:Ea.
  2: { destruct (manager_old m x D codes Hh Ea) as (m1 & E1 & _). rewrite E in E1. done. }
  destruct (manager_new m x D codes D' codes' Hh Ea) as (m1 & E1 & Em). rewrite E in E1. injection E1 as <- E1.
  unfold try_deshred_ref in *. destruct (first_segment D') as [seg|] eqn:Ef; [|done].
  cbn [mbind option_bind] in *. destruct (decode_run _) as [[es' pl']|]; [|done].
  pose proof (first_segment_le _ _ Ef) as Hle. cbn [fmap option_fmap option_map fst] in Em. subst m'.
  eexists _, codes'. split.
  - apply holds_insert. pose proof (add_ref_length _ _ _ _ _ Ea). destruct Hh as [_ Hl]. unfold len in *.
    rewrite length_app, length_replicate, length_drop. lia.
  - rewrite lookup_app_l by (rewrite length_replicate; lia). apply lookup_replicate_2. lia.
Qed.

(** ** The theorems *)

(** C17: whatever shreds arrive, of any slots and in any order, [add_shred] never
    panics, and each thing it delivers is the decoding of a full segment: data
    shreds of one slot that have arrived by then, at indices 0, 1, ... without a
    gap, of which the last and no other ends a segment. *)
Theorem delivered_segments_are_real l :
  exists m os, run_shreds DeshredManager_new l = Done (m, os) /\ length os = length l /\
    forall j slot entries payload, os !! j = Some (Some (slot, entries, payload)) ->
    exists seg, is_segment seg /\ (forall i x, seg !! i = Some x -> data_shred_of (take (S j) l) slot i x) /\
      decode_run (shred_payload <$> seg) = Some (entries, payload).
Proof.
  destruct (manager_run [] DeshredManager_new l manager_ok_new) as (m & os & E & _ & Hl & Hos).
  exists m, os. split; [done|]. split; [done|]. intros j slot entries payload Hj. apply (Hos j _ Hj).
Qed.

(** C16: up to its first delivery, a slot's first segment is delivered as soon
    as its last missing shred arrives and not before, with the entries its
    payloads decode to in index order, whatever the order of arrival and with
    any duplicates on the way. Delivering clears the slot's state without
    remembering it: each further complete reception of the same shreds, again
    in any order and with duplicates, delivers the segment once more. So [n]
    receptions of all its shreds deliver the segment exactly [n] times, each
    time at the shred that completes it. *)
Theorem first_segment_delivered_in_any_order slot seg rounds es pl :
  segment_of slot seg -> decode_run (shred_payload <$> seg) = Some (es, pl) ->
  Forall (fun '(l, z) => l ⊆ seg /\ z ∈ seg /\ z ∉ l /\ seg ⊆ z :: l) rounds ->
  exists m, run_shreds DeshredManager_new (concat ((fun '(l, z) => l ++ [z]) <$> rounds)) =
    Done (m, concat ((fun '(l, z) => replicate (length l) None ++ [Some (slot, es, pl)]) <$> rounds)).
Proof.
  intros Hseg Hd Hr. apply (gather_rounds slot seg es pl rounds _ fresh_shreds); [exact Hseg|exact Hd| | |].
  - eapply Forall_impl; [exact Hr|]. by intros [l z].
  - by apply holds_new.
  - apply gathers_fresh.
Qed.

(** C39: whatever shreds of any slots arrived, once a segment of a slot has been
    delivered no later shred delivers anything of that slot until its data
    shred of index 0 is received again: in particular the entries of a slot's
    second and later segments are never produced from shreds received once. *)
Theorem later_segments_never_delivered l x later slot es pl m os :
  run_shreds DeshredManager_new (l ++ [x]) = Done (m, os ++ [Some (slot, es, pl)]) ->
  Forall (fun y => shred_slot y = slot -> shred_type y = Data -> shred_index y <> 0) later ->
  exists m' os', run_shreds DeshredManager_new (l ++ x :: later) = Done (m', os ++ Some (slot, es, pl) :: os') /\
    length os' = length later /\ forall es' pl', Some (slot, es', pl') ∉ os'.
Proof.
  intros Hrun Hlater.
  destruct (manager_run [] DeshredManager_new l manager_ok_new) as (m0 & os0 & E0 & Hm0 & _ & _).
  destruct (manager_step _ m0 x Hm0) as (m1 & o & E1 & Hm1 & _).
  erewrite run_shreds_app in Hrun; [|exact E0|cbn [run_shreds]; by rewrite E1].
  injection Hrun as -> [-> [= ->]]%app_inj_tail.
  destruct (delivery_clears_head _ m0 x m slot es pl Hm0 E1) as (D & codes & Hh & H0).
  destruct (headless_run slot later _ m D codes Hm1 Hh H0 Hlater) as (m' & os' & E & Hl & Hos).
  exists m', os'. split; [|done]. eapply run_shreds_app; [exact E0|]. cbn [run_shreds]. by rewrite E1, bind_Done, E.
Qed.
End manager.

(** ** On the example library *)

Lemma toy_segment : @segment_of ToyLib 7 [toy_data 0 false [1]; toy_data 1 false [2]; toy_data 2 true [3]].
Proof.
  split; [by exists [toy_data 0 false [1]; toy_data 1 false [2]], (toy_data 2 true [3]); repeat constructor| |by vm_compute].
  intros [|[|[|i]]] x Hx; cbn in Hx; simplify_eq; done.
Qed.

Lemma delivered_segments_are_real_witness :
  exists m os, run_shreds (H := ToyLib) DeshredManager_new [toy_data 0 true [5]] = Done (m, os) /\ length os = 1%nat.
Proof.
  destruct (delivered_segments_are_real (L := ToyLib) [toy_data 0 true [5]]) as (m & os & E & Hl & _).
  exists m, os. split; [exact E|exact Hl].
Defined.

(** Out of order, with a duplicate; then all shreds once more. *)
Lemma first_segment_delivered_in_any_order_witness :
  exists m, run_shreds (H := ToyLib) DeshredManager_new
    [toy_data 2 true [3]; toy_data 0 false [1]; toy_data 2 true [3]; toy_data 1 false [2];
     toy_data 0 false [1]; toy_data 1 false [2]; toy_data 2 true [3]] =
    Done (m, [None; None; None; Some (7, [1; 2; 3], [1; 2; 3]); None; None; Some (7, [1; 2; 3], [1; 2; 3])]).
Proof.
  apply (first_segment_delivered_in_any_order (L := ToyLib) 7 [toy_data 0 false [1]; toy_data 1 false [2]; toy_data 2 true [3]]
    [([toy_data 2 true [3]; toy_data 0 false [1]; toy_data 2 true [3]], toy_data 1 false [2]);
     ([toy_data 0 false [1]; toy_data 1 false [2]], toy_data 2 true [3])] [1; 2; 3] [1; 2; 3]);
    [apply toy_segment|done|].
  apply Forall_cons; split; [|apply Forall_cons; split; [|by apply Forall_nil]]; (split; [set_solver|split; [set_solver|split; [|set_solver]]]);
    rewrite !not_elem_of_cons; split_and!; try discriminate; apply not_elem_of_nil.
Defined.

(** The second segment, index 3, is complete but not delivered. *)
Lemma later_segments_never_delivered_witness :
  exists m' os', run_shreds (H := ToyLib) DeshredManager_new
    ([toy_data 0 false [1]; toy_data 1 false [2]] ++ toy_data 2 true [3] :: [mkToyShred 8 0 Data true [9]; toy_data 3 true [4]]) =
    Done (m', [None; None] ++ Some (7, [1; 2; 3], [1; 2; 3]) :: os') /\
    length os' = 2%nat /\ forall es' pl', Some (7, es', pl') ∉ os'.
Proof.
  assert (toy_data 2 true [3] ∈ [toy_data 0 false [1]; toy_data 1 false [2]; toy_data 2 true [3]]) as H1 by set_solver.
  assert (toy_data 2 true [3] ∉ [toy_data 0 false [1]; toy_data 1 false [2]]) as H2
    by (rewrite !not_elem_of_cons; split_and!; try discriminate; apply not_elem_of_nil).
  assert ([toy_data 0 false [1]; toy_data 1 false [2]; toy_data 2 true [3]] ⊆
    toy_data 2 true [3] :: [toy_data 0 false [1]; toy_data 1 false [2]]) as H3 by set_solver.
  destruct (gather_run (L := ToyLib) 7 _ (toy_data 2 true [3]) [toy_data 0 false [1]; toy_data 1 false [2]] [] fresh_shreds
    DeshredManager_new toy_segment) as (m1 & D1 & E1 & Hh1 & Hg1);
    [exact H1|exact H2|set_solver|by apply holds_new|apply gathers_fresh|].
  destruct (gather_done (L := ToyLib) 7 _ [toy_data 0 false [1]; toy_data 1 false [2]] D1 m1 (toy_data 2 true [3]) [1; 2; 3] [1; 2; 3]
    toy_segment H1 H2 H3 Hh1 Hg1 eq_refl) as (m2 & D2 & E2 & _).
  apply (later_segments_never_delivered (L := ToyLib) [toy_data 0 false [1]; toy_data 1 false [2]] (toy_data 2 true [3])
    [mkToyShred 8 0 Data true [9]; toy_data 3 true [4]] 7 [1; 2; 3] [1; 2; 3] m2 [None; None]).
  - eapply run_shreds_app; [exact E1|]. cbn [run_shreds]. by rewrite E2.
  - by repeat constructor.
Defined.
