(* ===== verification/DeshredSharded.v ===== *)
(** * Sharded shred reassembly ([examples/deshred_sharded.rs])

    One assembler per thread, with a window of slots and, per slot, a bit set
    of the shreds received and the list of segment ends seen. *)

From S2P Require Import Prelude Words Bitset Shred.

(** ** Data *)

Definition SLOT_WINDOW_SIZE : Z := 128.
Definition MAX_SHREDS_PER_SLOT : Z := 512.

Record SlotShrdsCompact `{ShredLib} := mkCompact {
  sc_slot : Z;
  received_mask : list Z;
  shreds : list (option Shred);
  segment_ends : list Z;
  last_processed : Z;
}.

Record DeshredManagerLocal `{ShredLib} := mkLocal {
  local_slots : list (option SlotShrdsCompact);
  current_slot : Z;
}.

Record DeshredManagerSharded `{ShredLib} := mkSharded { managers : list DeshredManagerLocal }.

(** [Vec::resize]. *)
Definition vec_resize {A} (l : list A) (n : Z) (x : A) : list A := take (Z.to_nat n) l ++ replicate (Z.to_nat n - length l) x.

Section sharded.
Context {L : ShredLib}.

(** ** One slot *)

Definition SlotShrdsCompact_new (slot : Z) : SlotShrdsCompact :=
  mkCompact _ slot (replicate (Z.to_nat (MAX_SHREDS_PER_SLOT / 64)) 0) [] [] 0.

Definition compact_add_shred (s : SlotShrdsCompact) (shred : Shred) : outcome (SlotShrdsCompact * bool) :=
  let index := shred_index shred in
  if MAX_SHREDS_PER_SLOT <=? index then Done (s, false) else
  let word_idx := index / 64 in
  let bit_idx := index mod 64 in
  let mask := Z.shiftl 1 bit_idx in
  word ← slice_get (received_mask s) word_idx;
  if negb (Z.land word mask =? 0) then Done (s, false) else
  received ← slice_set (received_mask s) word_idx (Z.lor word mask);
  let ends :=
    if bool_decide (shred_type shred = Data) && (data_complete shred || last_in_slot shred)
    then vec_push (segment_ends s) (wrap 32 index) else segment_ends s in
  let v := if len (shreds s) <=? index then vec_resize (shreds s) (index + 1) None else shreds s in
  v ← slice_set v index (Some shred);
  Done (mkCompact _ (sc_slot s) received v ends (last_processed s), true).

(** [for idx in start_idx..=end_idx]: whether all shreds of the segment are there. *)
Fixpoint all_received (mask : list Z) (idxs : list Z) : outcome bool :=
  match idxs with
  | [] => Done true
  | idx :: idxs =>
      word ← slice_get mask (idx / 64);
      if Z.land word (Z.shiftl 1 (idx mod 64)) =? 0 then Done false else all_received mask idxs
  end.

Definition segment_indices (start_idx end_idx : Z) : list Z := seqZ start_idx (end_idx + 1 - start_idx).

Definition try_deshred_fast (s : SlotShrdsCompact) : outcome (SlotShrdsCompact * option (list Entry * list Z)) :=
  match segment_ends s with
  | [] => Done (s, None)
  | end_idx :: ends =>
      let start_idx := last_processed s in
      complete ← all_received (received_mask s) (segment_indices start_idx end_idx);
      if negb complete then Done (s, None) else
      run ← slice_range (shreds s) start_idx (end_idx + 1);
      let payloads := omap (fun o => shred_payload <$> o) run in
      match Shredder_deshred payloads with
      | Err _ => Done (s, None)
      | Ok deshredded =>
          match deserialize_entries deshredded with
          | None => Done (s, None)
          | Some entries =>
              v ← for_each (segment_indices start_idx end_idx) (fun idx v => slice_set v idx None) (shreds s);
              Done (mkCompact _ (sc_slot s) (received_mask s) v ends (wrap 32 (end_idx + 1)), Some (entries, deshredded))
          end
      end
  end.

(** ** The managers *)

Definition DeshredManagerLocal_new : DeshredManagerLocal := mkLocal _ (replicate (Z.to_nat SLOT_WINDOW_SIZE) None) 0.

Definition local_add_shred (m : DeshredManagerLocal) (shred : Shred) : outcome (DeshredManagerLocal * option segment_out) :=
  let slot := shred_slot shred in
  let slot_idx := slot mod SLOT_WINDOW_SIZE in
  entry ← slice_get (local_slots m) slot_idx;
  let slot_shreds :=
    match entry with
    | Some s => if sc_slot s =? slot then s else SlotShrdsCompact_new slot
    | None => SlotShrdsCompact_new slot
    end in
  '(s, new) ← compact_add_shred slot_shreds shred;
  '(s, r) ← (if negb new then Done (s, None) else try_deshred_fast s);
  w ← slice_set (local_slots m) slot_idx (Some s);
  Done (mkLocal _ w slot, option_map (fun '(entries, payload) => (slot, entries, payload)) r).

Definition local_cleanup_old_slots (m : DeshredManagerLocal) (current : Z) : DeshredManagerLocal :=
  let threshold := saturating_sub current SLOT_WINDOW_SIZE in
  mkLocal _ ((fun o => match o with Some s => if sc_slot s <? threshold then None else Some s | None => None end) <$> local_slots m) (current_slot m).

#[global] Instance DeshredManagerLocal_trait : DeshredTrait DeshredManagerLocal := local_add_shred.

Definition DeshredManagerSharded_new (num_threads : nat) : DeshredManagerSharded :=
  mkSharded _ (replicate num_threads DeshredManagerLocal_new).

(** [get_local(thread_id)], and what the thread then does with its manager. *)
Definition get_local {A} (m : DeshredManagerSharded) (thread_id : Z) (f : DeshredManagerLocal -> outcome (DeshredManagerLocal * A))
  : outcome (DeshredManagerSharded * A) :=
  l ← slice_get (managers m) thread_id;
  '(l, a) ← f l;
  ls ← slice_set (managers m) thread_id l;
  Done (mkSharded _ ls, a).

(** ** Invariant of a slot *)

Definition is_end (x : Shred) : Prop := shred_type x = Data /\ ends_segment x = true.

(** The shred stored at index [i]. *)
Definition stored (s : SlotShrdsCompact) (i : Z) (x : Shred) : Prop := 0 <= i /\ shreds s !! Z.to_nat i = Some (Some x).

Record compact_ok (seen : list Shred) (slot : Z) (s : SlotShrdsCompact) : Prop := mkCompactOk {
  co_slot : sc_slot s = slot;
  co_mask : mask_ok 8 (received_mask s);
  co_last : 0 <= last_processed s <= MAX_SHREDS_PER_SLOT;
  co_below : forall k, 0 <= k < last_processed s -> bit_at (received_mask s) k = true;
  co_bits : forall k, last_processed s <= k < MAX_SHREDS_PER_SLOT -> bit_at (received_mask s) k = true <-> exists x, stored s k x;
  co_stored : forall i x, stored s i x -> x ∈ seen /\ shred_slot x = slot /\ shred_index x = i;
  co_ends : forall e, e ∈ segment_ends s -> last_processed s <= e < MAX_SHREDS_PER_SLOT /\ exists x, stored s e x /\ is_end x;
  co_nodup : NoDup (segment_ends s);
}.

Lemma compact_ok_new seen slot : compact_ok seen slot (SlotShrdsCompact_new slot).
Proof.
  split; cbn; try done.
  - split; [done|]. by apply (Forall_replicate _ 8).
  - intros k Hk. lia.
  - intros k Hk. unfold stored. cbn. split; [|by intros (x & _ & ?)]. unfold bit_at.
    destruct (_ !! _) as [w|] eqn:E; [|done]. apply (lookup_replicate 8) in E as [-> _]. by rewrite Z.testbit_0_l.
  - by intros i x [_ ?].
  - intros e He. by apply not_elem_of_nil in He.
  - constructor.
Qed.

(** ** Storing a shred *)

Lemma resize_lookup {A} (v : list (option A)) n i y :
  len v <= n -> (vec_resize v n None) !! i = Some (Some y) <-> v !! i = Some (Some y).
Proof.
  intros Hn. unfold vec_resize. unfold len in Hn. rewrite take_ge by lia. destruct (decide (i < length v)%nat) as [Hi|Hi].
  - by rewrite lookup_app_l.
  - rewrite lookup_app_r by lia. rewrite (lookup_ge_None_2 v) by lia. split; [|done]. intros Hr. by apply lookup_replicate in Hr as [? _].
Qed.

(** The vector after [resize] and the store. *)
Lemma store_shred (v : list (option Shred)) k x :
  0 <= k -> exists v', slice_set (if len v <=? k then vec_resize v (k + 1) None else v) k (Some x) = Done v' /\
    forall i y, 0 <= i -> v' !! Z.to_nat i = Some (Some y) <-> (i = k /\ y = x) \/ (i <> k /\ v !! Z.to_nat i = Some (Some y)).
Proof.
  intros Hk. set (v1 := if len v <=? k then vec_resize v (k + 1) None else v).
  assert (k < len v1) as Hl.
  { unfold v1. destruct (Z.leb_spec (len v) k); [|lia]. unfold vec_resize, len in *. rewrite length_app, length_take, length_replicate. lia. }
  exists (<[Z.to_nat k := Some x]> v1). split; [by apply slice_set_Done|]. intros i y Hi.
  destruct (decide (i = k)) as [->|Hne].
  - rewrite list_lookup_insert_eq by (unfold len in Hl; lia). naive_solver.
  - rewrite list_lookup_insert_ne by lia. unfold v1. destruct (Z.leb_spec (len v) k).
    + rewrite resize_lookup by lia. naive_solver.
    + naive_solver.
Qed.

Context `{!ShredLaws L}.

(** [add_shred] refuses a shred that is out of range or received; any other it marks and stores. *)
Lemma compact_add_spec seen slot s x :
  compact_ok seen slot s -> shred_slot x = slot ->
  let k := shred_index x in
  ((MAX_SHREDS_PER_SLOT <= k \/ bit_at (received_mask s) k = true) /\ compact_add_shred s x = Done (s, false)) \/
  (k < MAX_SHREDS_PER_SLOT /\ bit_at (received_mask s) k = false /\
   exists s', compact_add_shred s x = Done (s', true) /\ compact_ok (seen ++ [x]) slot s' /\ last_processed s' = last_processed s /\
     segment_ends s' = segment_ends s ++ (if bool_decide (shred_type x = Data) && ends_segment x then [k] else []) /\
     (forall i, 0 <= i -> bit_at (received_mask s') i = bit_at (received_mask s) i || bool_decide (i = k)) /\
     (forall i y, stored s' i y <-> (i = k /\ y = x) \/ (i <> k /\ stored s i y))).
Proof.
  intros Hs Hx k. pose proof (index_range x) as Hr. unfold compact_add_shred. fold k in Hr |- *.
  destruct (Z.leb_spec MAX_SHREDS_PER_SLOT k) as [Hge|Hlt]; [by left; auto|].
  unfold is_uint in Hr. assert (0 <= k < 8 * 64) as Hk by (unfold MAX_SHREDS_PER_SLOT in Hlt; lia).
  destruct (mask_set 8 _ k (co_mask _ _ _ Hs) Hk) as (w & -> & Ht & m' & Em & Hm & Hb). rewrite bind_Done, Ht, negb_involutive.
  destruct (bit_at (received_mask s) k) eqn:Ebit; [by left; auto|]. right. split; [done|]. split; [done|]. rewrite Em, bind_Done.
  destruct (store_shred (shreds s) k x) as (v' & Ev & Hv); [lia|]. rewrite Ev, bind_Done. eexists. split; [done|].
  cbn [last_processed segment_ends received_mask]. rewrite wrap_small by (unfold is_uint; lia).
  assert (forall i y, 0 <= i /\ v' !! Z.to_nat i = Some (Some y) <-> (i = k /\ y = x) \/ (i <> k /\ stored s i y)) as Hst.
  { intros i y. unfold stored. destruct (decide (0 <= i)) as [Hi|]; [rewrite (Hv i y Hi)|]; split; try lia; naive_solver. }
  assert (last_processed s <= k) as Hlast.
  { destruct (Z.le_gt_cases (last_processed s) k); [done|]. rewrite (co_below _ _ _ Hs k) in Ebit by lia. done. }
  split; [|split; [done|split; [by unfold ends_segment; destruct (bool_decide _ && _); cbn [vec_push]; rewrite ?app_nil_r|by split]]].
  destruct Hs as [H1 H2 H3 H4 H5 H6 H7 H8]. split; cbn [sc_slot received_mask last_processed segment_ends]; try done.
  - intros i Hi. rewrite Hb, H4 by lia. done.
  - intros i Hi. rewrite Hb by lia. rewrite orb_true_iff, bool_decide_eq_true, H5 by done. unfold stored at 2. cbn [shreds].
    setoid_rewrite Hst. destruct (decide (i = k)); naive_solver.
  - intros i y Hi. apply Hst in Hi as [[-> ->]|[_ Hi]]; [by split; [apply elem_of_app; right; left|]|].
    destruct (H6 i y Hi) as [? ?]. split; [apply elem_of_app; by left|done].
  - intros e He. assert (e ∈ segment_ends s \/ (e = k /\ is_end x)) as [He'|[-> He']].
    { case_bool_decide as Hd; cbn [andb] in He; [destruct (data_complete x || last_in_slot x) eqn:Ee|]; [|by left..].
      apply elem_of_app in He as [?|He]; [by left|]. apply list_elem_of_singleton in He. right. done. }
    + destruct (H7 e He') as (Hr' & y & Hy & He''). split; [done|]. exists y. split; [|done]. apply Hst. right. split; [|done].
      intros ->. rewrite (proj2 (H5 k ltac:(lia))) in Ebit by eauto. done.
    + split; [lia|]. exists x. split; [|done]. apply Hst. by left.
  - destruct (bool_decide _ && _); [|done]. apply NoDup_app. split; [done|]. split; [|apply NoDup_singleton].
    intros e He He'. apply list_elem_of_singleton in He' as ->. destruct (H7 k He) as (_ & y & Hy & _).
    rewrite (proj2 (H5 k ltac:(lia))) in Ebit by eauto. done.
Qed.

(** ** Delivering a segment *)

Definition clear_range (v : list (option Shred)) (a n : Z) : list (option Shred) :=
  imap (fun i o => if (a <=? Z.of_nat i) && (Z.of_nat i <? a + n) then None else o) v.

Lemma clear_range_lookup v a n i x :
  clear_range v a n !! i = Some (Some x) <-> v !! i = Some (Some x) /\ ~ (a <= Z.of_nat i < a + n).
Proof.
  unfold clear_range. rewrite list_lookup_imap. destruct (v !! i) as [o|]; cbn; [|naive_solver].
  destruct (Z.leb_spec a (Z.of_nat i)), (Z.ltb_spec (Z.of_nat i) (a + n)); cbn; naive_solver lia.
Qed.

Lemma clear_range_run v a n :
  0 <= a -> a + Z.of_nat n <= len v ->
  for_each (seqZ a (Z.of_nat n)) (fun idx v => slice_set v idx None) v = Done (clear_range v a (Z.of_nat n)).
Proof.
  revert v a. induction n as [|n IH]; intros v a Ha Hl.
  - cbn. f_equal. unfold clear_range. apply list_eq. intros i. rewrite list_lookup_imap.
    destruct (v !! i) as [o|]; cbn; [|done]. rewrite Z.add_0_r.
    destruct (Z.leb_spec a (Z.of_nat i)), (Z.ltb_spec (Z.of_nat i) a); cbn; done || lia.
  - rewrite seqZ_cons by lia. cbn [for_each]. rewrite slice_set_Done, bind_Done by lia.
    replace (Z.pred (Z.of_nat (S n))) with (Z.of_nat n) by lia. rewrite IH by (rewrite ?len_insert; lia). f_equal.
    apply list_eq. intros i. unfold clear_range. rewrite !list_lookup_imap. destruct (decide (i = Z.to_nat a)) as [->|Hne].
    + rewrite list_lookup_insert_eq by (unfold len in Hl; lia). destruct (lookup_lt_is_Some_2 v (Z.to_nat a)) as [o ->]; [unfold len in Hl; lia|]. cbn.
      rewrite Z2Nat.id by done. destruct (Z.leb_spec a a), (Z.ltb_spec a (a + Z.of_nat (S n))); try lia. by destruct (_ && _).
    + rewrite list_lookup_insert_ne by done. destruct (v !! i) as [o|]; cbn; [|done].
      destruct (Z.leb_spec a (Z.of_nat i)), (Z.leb_spec (Z.succ a) (Z.of_nat i)), (Z.ltb_spec (Z.of_nat i) (a + Z.of_nat (S n))),
        (Z.ltb_spec (Z.of_nat i) (Z.succ a + Z.of_nat n)); cbn; try done; lia.
Qed.

Lemma all_received_spec mask l :
  mask_ok 8 mask -> Forall (fun k => 0 <= k < MAX_SHREDS_PER_SLOT) l -> all_received mask l = Done (forallb (bit_at mask) l).
Proof.
  intros Hm. induction 1 as [|k l Hk Hl IH]; [done|]. cbn [all_received forallb].
  destruct (mask_set 8 mask k Hm) as (w & -> & Ht & _); [unfold MAX_SHREDS_PER_SLOT in Hk; lia|]. rewrite bind_Done, Ht.
  destruct (bit_at mask k); cbn; [apply IH|done].
Qed.

(** The shreds of the next segment, once all have been received. *)
Definition next_run (s : SlotShrdsCompact) (end_idx : Z) (run : list Shred) : Prop :=
  len run = end_idx + 1 - last_processed s /\ forall j x, run !! j = Some x -> stored s (last_processed s + Z.of_nat j) x.

Lemma received_run seen slot s e :
  compact_ok seen slot s -> last_processed s <= e < MAX_SHREDS_PER_SLOT ->
  (forall k, last_processed s <= k <= e -> bit_at (received_mask s) k = true) ->
  exists run, next_run s e run /\ e + 1 <= len (shreds s) /\ slice_range (shreds s) (last_processed s) (e + 1) = Done (Some <$> run).
Proof.
  intros Hs He Hall. pose proof (co_last _ _ _ Hs) as Hla.
  assert (forall j, (j < Z.to_nat (e + 1 - last_processed s))%nat -> exists x, stored s (last_processed s + Z.of_nat j) x) as Hst.
  { intros j Hj. apply (co_bits _ _ _ Hs); [lia|]. apply Hall. lia. }
  assert (e + 1 <= len (shreds s)) as Hlen.
  { destruct (Hst (Z.to_nat (e - last_processed s))) as (x & _ & Hx); [lia|]. apply lookup_lt_Some in Hx. unfold len. lia. }
  set (v := take (Z.to_nat (e + 1 - last_processed s)) (drop (Z.to_nat (last_processed s)) (shreds s))).
  assert (forall j o, v !! j = Some o -> exists x, o = Some x /\ stored s (last_processed s + Z.of_nat j) x) as Hv.
  { intros j o Hj. apply lookup_take_Some in Hj as [Hj Hlt]. rewrite lookup_drop in Hj. destruct (Hst j Hlt) as (x & Hx).
    exists x. split; [|done]. destruct Hx as [_ Hx]. rewrite Z2Nat.inj_add, Nat2Z.id in Hx by lia. congruence. }
  assert (Forall is_Some v) as Hsome.
  { apply Forall_lookup_2. intros j o Hj. destruct (Hv j o Hj) as (x & -> & _). by eexists. }
  assert (exists run, v = Some <$> run) as [run Erun].
  { clear -Hsome. induction Hsome as [|o v [x ->] Hv [r ->]]; [by exists []|by exists (x :: r)]. }
  exists run. split; [split|split; [done|]].
  - assert (length v = length run) as El by (rewrite Erun; apply length_fmap). unfold v in El.
    rewrite length_take, length_drop in El. unfold len in *. lia.
  - intros j x Hj. destruct (Hv j (Some x)) as (y & [= ->] & Hy); [|done]. by rewrite Erun, list_lookup_fmap, Hj.
  - rewrite slice_range_Done by lia. unfold v in Erun. by rewrite Erun.
Qed.

Lemma omap_payloads (run : list Shred) : omap (fun o => shred_payload <$> o) (Some <$> run) = shred_payload <$> run.
Proof. induction run as [|x run IH]; cbn; [done|]. by f_equal. Qed.

(** The state after the next segment, up to [end_idx], is delivered. *)
Definition after_delivery (s : SlotShrdsCompact) (end_idx : Z) (ends : list Z) : SlotShrdsCompact :=
  mkCompact _ (sc_slot s) (received_mask s) (clear_range (shreds s) (last_processed s) (end_idx + 1 - last_processed s)) ends (end_idx + 1).

Lemma try_deshred_fast_spec seen slot s :
  compact_ok seen slot s ->
  match segment_ends s with
  | [] => try_deshred_fast s = Done (s, None)
  | e :: ends =>
      ((exists k, last_processed s <= k <= e /\ bit_at (received_mask s) k = false) /\ try_deshred_fast s = Done (s, None)) \/
      exists run, next_run s e run /\
        try_deshred_fast s = Done match decode_run (shred_payload <$> run) with
                                  | None => (s, None)
                                  | Some r => (after_delivery s e ends, Some r)
                                  end
  end.
Proof.
  intros Hs. unfold try_deshred_fast. destruct (segment_ends s) as [|e ends] eqn:Ee; [done|].
  destruct (co_ends _ _ _ Hs e) as [He _]; [rewrite Ee; left|]. pose proof (co_last _ _ _ Hs) as Hla.
  rewrite all_received_spec, bind_Done.
  2: by apply Hs.
  2: { apply Forall_forall. intros k Hk. apply elem_of_seqZ in Hk. lia. }
  destruct (forallb _ _) eqn:Eb; cbn [negb].
  - right. assert (forall k, last_processed s <= k <= e -> bit_at (received_mask s) k = true) as Hall.
    { intros k Hk. eapply (proj1 (forallb_forall _ _)) in Eb; [exact Eb|]. apply list_elem_of_In, elem_of_seqZ. lia. }
    destruct (received_run seen slot s e Hs He Hall) as (run & Hrun & Hlen & ->). exists run. split; [done|].
    rewrite bind_Done, omap_payloads. unfold decode_run. destruct (Shredder_deshred _) as [pl|]; [|done].
    destruct (deserialize_entries pl) as [es|]; [|done].
    unfold segment_indices. rewrite <-(Z2Nat.id (e + 1 - last_processed s)) by lia. rewrite clear_range_run by lia.
    rewrite bind_Done. unfold after_delivery. rewrite Z2Nat.id by lia. rewrite wrap_small; [done|]. unfold is_uint. unfold MAX_SHREDS_PER_SLOT in He. lia.
  - left. split; [|done]. assert (~ Forall (fun k => bit_at (received_mask s) k = true) (segment_indices (last_processed s) e)) as Hn.
    { intros Hf. rewrite (proj2 (forallb_forall _ _)) in Eb; [done|]. intros k Hk. apply list_elem_of_In in Hk. by eapply Forall_forall in Hf. }
    apply not_Forall_Exists in Hn; [|apply _]. apply Exists_exists in Hn as (k & Hk & Hb). exists k. apply elem_of_seqZ in Hk.
    split; [lia|]. cbn in Hb. by destruct (bit_at _ _).
Qed.

(** Delivery keeps the invariant when no other segment end lies below. *)
Lemma after_delivery_ok seen slot s e ends run :
  compact_ok seen slot s -> segment_ends s = e :: ends -> next_run s e run -> (forall e', e' ∈ ends -> e < e') -> compact_ok seen slot (after_delivery s e ends).
Proof.
  intros [H1 H2 H3 H4 H5 H6 H7 H8] Ee [Hl Hrun] Hgt. destruct (H7 e) as [He _]; [rewrite Ee; left|].
  assert (forall i x, stored (after_delivery s e ends) i x <-> stored s i x /\ ~ (last_processed s <= i < e + 1)) as Hst.
  { intros i x. unfold stored, after_delivery. cbn [shreds]. destruct (decide (0 <= i)); [|naive_solver]. rewrite clear_range_lookup, Z2Nat.id by done.
    replace (last_processed s + (e + 1 - last_processed s)) with (e + 1) by lia. naive_solver. }
  split; cbn [after_delivery sc_slot received_mask last_processed segment_ends]; try done.
  - lia.
  - intros k Hk. destruct (decide (k < last_processed s)); [apply H4; lia|]. apply H5; [lia|].
    destruct (lookup_lt_is_Some_2 run (Z.to_nat (k - last_processed s))) as [x Hx]; [unfold len in Hl; lia|].
    exists x. pose proof (Hrun _ _ Hx) as Hs. by replace (last_processed s + Z.of_nat (Z.to_nat (k - last_processed s))) with k in Hs by lia.
  - intros k Hk. rewrite H5 by lia. setoid_rewrite Hst. split; [intros (x & Hx); exists x; split; [done|lia]|naive_solver].
  - intros i x Hi. apply Hst in Hi as [Hi _]. by apply H6.
  - intros e' He'. destruct (H7 e') as (Hr & x & Hx & Hend); [rewrite Ee; by right|]. pose proof (Hgt e' He').
    split; [lia|]. exists x. split; [|done]. apply Hst. split; [done|lia].
  - rewrite Ee in H8. by apply NoDup_cons in H8 as [_ ?].
Qed.
End sharded.
