(* ===== verification/ShardedProps.v ===== *)
(** * Sharded shred reassembly: properties ([examples/deshred_sharded.rs])

    The per-thread assembler never panics and delivers only decoded runs of
    received shreds; a slot of at most 512 data shreds that arrives in order is
    delivered whole; a slot whose segment ends arrive out of order delivers
    nothing from then on; and a coding
    shred hides the data shred of the same index. *)

From S2P Require Import Prelude Words Bitset Shred DeshredSharded.

(** [Shredder::deshred] takes the shreds of one segment: it rejects a run in which
    a shred follows one that is marked as data complete. *)
Class SegmentLaw (L : ShredLib) : Prop :=
  deshred_one_segment (l l' : list Shred) x :
    l' <> [] -> is_end x -> exists e, Shredder_deshred (shred_payload <$> (l ++ x :: l')) = Err e.

Section sharded.
Context {L : ShredLib} `{!ShredLaws L}.

(** ** One shred on one slot *)

(** What [add_shred] of the manager does to the slot's entry. *)
Definition compact_step (s : SlotShrdsCompact) (x : Shred) : outcome (SlotShrdsCompact * option (list Entry * list Z)) :=
  '(s, new) ← compact_add_shred s x;
  if negb new then Done (s, None) else try_deshred_fast s.

(** What an answer may be: the decoding of a run of consecutive shreds seen, up
    to a data shred that ends a segment. *)
Definition run_answer (seen : list Shred) (slot : Z) (r : list Entry * list Z) : Prop :=
  exists start run, decode_run (shred_payload <$> run) = Some r /\
    (exists l x, run = l ++ [x] /\ is_end x) /\
    forall j x, run !! j = Some x -> x ∈ seen /\ shred_slot x = slot /\ shred_index x = start + Z.of_nat j.

Lemma compact_ok_mono seen seen' slot s : seen ⊆ seen' -> compact_ok seen slot s -> compact_ok seen' slot s.
Proof. intros Hsub [H1 H2 H3 H4 H5 H6 H7 H8]. split; try done. intros i x Hi. destruct (H6 i x Hi) as [Hx ?]. split; [by apply Hsub|done]. Qed.

(** Where the shreds of a run sit. *)
Lemma next_run_at s e run i x : next_run s e run -> last_processed s <= i <= e -> stored s i x -> run !! Z.to_nat (i - last_processed s) = Some x.
Proof.
  intros [Hl Hr] Hi [_ Hx]. destruct (lookup_lt_is_Some_2 run (Z.to_nat (i - last_processed s))) as [y Hy]; [unfold len in Hl; lia|].
  rewrite Hy. destruct (Hr _ _ Hy) as [_ Hs]. replace (last_processed s + Z.of_nat (Z.to_nat (i - last_processed s))) with i in Hs by lia. congruence.
Qed.

Lemma next_run_answer seen slot s e run r :
  compact_ok seen slot s -> e ∈ segment_ends s -> next_run s e run -> decode_run (shred_payload <$> run) = Some r -> run_answer seen slot r.
Proof.
  intros Hs He Hr Hd. exists (last_processed s), run. split; [done|]. destruct (co_ends _ _ _ Hs e He) as (Hrange & x & Hx & Hend). split.
  - pose proof (next_run_at s e run e x Hr ltac:(lia) Hx) as Hlast. destruct Hr as [Hl _].
    exists (take (Z.to_nat (e - last_processed s)) run), x. split; [|done].
    rewrite <-take_S_r by done. rewrite take_ge; [done|]. unfold len in Hl. lia.
  - intros j y Hj. destruct Hr as [_ Hr]. by apply (co_stored _ _ _ Hs), Hr.
Qed.

Section law.
Context `{!SegmentLaw L}.

(** A run with a segment end inside does not decode. *)
Lemma inner_end_not_decoded s e run i x :
  next_run s e run -> last_processed s <= i < e -> stored s i x -> is_end x -> decode_run (shred_payload <$> run) = None.
Proof.
  intros Hr Hi Hx Hend. pose proof (next_run_at s e run i x Hr ltac:(lia) Hx) as Hl. destruct Hr as [Hlen _].
  destruct (list_elem_of_split_length _ _ _ Hl) as (l & l' & -> & El).
  destruct (deshred_one_segment l l' x) as [err Herr]; [|done|unfold decode_run; by rewrite Herr].
  intros ->. unfold len in Hlen. rewrite length_app in Hlen. cbn in Hlen. lia.
Qed.

Lemma compact_step_ok seen slot s x :
  compact_ok seen slot s -> shred_slot x = slot ->
  exists s' r, compact_step s x = Done (s', r) /\ compact_ok (seen ++ [x]) slot s' /\ match r with Some r => run_answer (seen ++ [x]) slot r | None => True end.
Proof.
  intros Hs Hx. unfold compact_step. destruct (compact_add_spec seen slot s x Hs Hx) as [[_ ->]|(_ & _ & s1 & -> & Hs1 & _)]; rewrite bind_Done; cbn [negb].
  - eexists _, _. split; [done|]. split; [|done]. apply (compact_ok_mono seen); [set_solver|done].
  - pose proof (try_deshred_fast_spec _ _ _ Hs1) as Ht. destruct (segment_ends s1) as [|e ends] eqn:Ee; [by eauto|].
    destruct Ht as [[_ ->]|(run & Hrun & ->)]; [by eauto|]. destruct (decode_run _) as [r|] eqn:Ed; [|by eauto].
    eexists _, _. split; [done|]. split; [|apply (next_run_answer _ _ s1 e run); [done|rewrite Ee; left|done|done]].
    apply (after_delivery_ok _ _ _ _ _ run); [done|done|done|]. intros e' He'.
    destruct (co_ends _ _ _ Hs1 e') as (Hr' & y & Hy & Hend); [rewrite Ee; by right|].
    destruct (Z.lt_trichotomy e' e) as [Hlt|[->|]]; [| |done].
    + rewrite (inner_end_not_decoded s1 e run e' y) in Ed by (done || lia). done.
    + pose proof (co_nodup _ _ _ Hs1) as Hnd. rewrite Ee in Hnd. by apply NoDup_cons in Hnd as [? _].
Qed.
End law.

(** ** The manager *)

(** The slot's entry: a fresh one when the window holds another slot. *)
Definition slot_entry (m : DeshredManagerLocal) (slot : Z) : SlotShrdsCompact :=
  match local_slots m !! Z.to_nat (slot mod SLOT_WINDOW_SIZE) with
  | Some (Some s) => if sc_slot s =? slot then s else SlotShrdsCompact_new slot
  | _ => SlotShrdsCompact_new slot
  end.

Lemma window_index slot : 0 <= slot mod SLOT_WINDOW_SIZE < SLOT_WINDOW_SIZE.
Proof. by apply Z.mod_pos_bound. Qed.

Lemma local_step m x s r :
  len (local_slots m) = SLOT_WINDOW_SIZE -> compact_step (slot_entry m (shred_slot x)) x = Done (s, r) ->
  exists m', add_shred m x = Done (m', (fun '(es, pl) => (shred_slot x, es, pl)) <$> r) /\
    local_slots m' = <[Z.to_nat (shred_slot x mod SLOT_WINDOW_SIZE) := Some s]> (local_slots m).
Proof.
  intros Hl Hs. unfold add_shred, DeshredManagerLocal_trait, local_add_shred. pose proof (window_index (shred_slot x)) as Hw.
  destruct (lookup_lt_is_Some_2 (local_slots m) (Z.to_nat (shred_slot x mod SLOT_WINDOW_SIZE))) as [o Eo]; [unfold len in Hl; lia|].
  rewrite (slice_get_lookup _ _ o), bind_Done by (done || lia). unfold slot_entry, compact_step in Hs. rewrite Eo in Hs.
  destruct o as [s0|]; bind_inv Hs; destruct a as [s1 new]; rewrite bind_Done, Hs, bind_Done, slice_set_Done, bind_Done by lia; by eexists.
Qed.

Lemma slot_entry_same m m' slot s :
  len (local_slots m) = SLOT_WINDOW_SIZE -> local_slots m' = <[Z.to_nat (slot mod SLOT_WINDOW_SIZE) := Some s]> (local_slots m) ->
  sc_slot s = slot -> len (local_slots m') = SLOT_WINDOW_SIZE /\ slot_entry m' slot = s.
Proof.
  intros Hl Em Hs. pose proof (window_index slot) as Hw. unfold slot_entry. rewrite Em. split; [by rewrite len_insert|].
  rewrite list_lookup_insert_eq by (unfold len in Hl; lia). by rewrite Hs, Z.eqb_refl.
Qed.

Lemma slot_entry_new slot : slot_entry DeshredManagerLocal_new slot = SlotShrdsCompact_new slot.
Proof.
  unfold slot_entry, DeshredManagerLocal_new. cbn [local_slots]. destruct (_ !! _) as [o|] eqn:E; [|done].
  by apply lookup_replicate in E as [-> _].
Qed.

Lemma local_new_len : len (local_slots DeshredManagerLocal_new) = SLOT_WINDOW_SIZE.
Proof. done. Qed.

(** ** Safety *)

Definition assembler_ok (seen : list Shred) (m : DeshredManagerLocal) : Prop :=
  len (local_slots m) = SLOT_WINDOW_SIZE /\ forall i s, local_slots m !! i = Some (Some s) -> compact_ok seen (sc_slot s) s.

Lemma local_ok_new : assembler_ok [] DeshredManagerLocal_new.
Proof. split; [done|]. intros i s Hi. by apply lookup_replicate in Hi as [? _]. Qed.

Lemma local_ok_entry seen m slot : assembler_ok seen m -> compact_ok seen slot (slot_entry m slot).
Proof.
  intros [_ Hm]. unfold slot_entry. destruct (_ !! _) as [[s|]|] eqn:E; [|apply compact_ok_new..].
  destruct (Z.eqb_spec (sc_slot s) slot) as [<-|]; [|apply compact_ok_new]. by eapply Hm.
Qed.

Section law.
Context `{!SegmentLaw L}.

Lemma local_step_ok seen m x :
  assembler_ok seen m -> exists m' o, add_shred m x = Done (m', o) /\ assembler_ok (seen ++ [x]) m' /\
    forall slot es pl, o = Some (slot, es, pl) -> run_answer (seen ++ [x]) slot (es, pl).
Proof.
  intros Hm. destruct (compact_step_ok seen (shred_slot x) _ x (local_ok_entry seen m _ Hm) eq_refl) as (s & r & Es & Hs & Hr).
  destruct (local_step m x s r (proj1 Hm) Es) as (m' & E & Em). eexists _, _. split; [exact E|]. split.
  - destruct Hm as [Hl Hm]. split; [by rewrite Em, len_insert|]. rewrite Em. intros i s' Hi.
    apply list_lookup_insert_Some in Hi as [(_ & [= <-] & _)|[_ Hi]].
    + by rewrite (co_slot _ _ _ Hs).
    + apply (compact_ok_mono seen); [set_solver|]. by eapply Hm.
  - destruct r as [[es pl]|]; [|done]. by intros slot es' pl' [= <- <- <-].
Qed.

Lemma local_run_ok seen m l :
  assembler_ok seen m -> exists m' os, run_shreds m l = Done (m', os) /\ assembler_ok (seen ++ l) m' /\ length os = length l /\
    forall j slot es pl, os !! j = Some (Some (slot, es, pl)) -> run_answer (seen ++ take (S j) l) slot (es, pl).
Proof.
  revert seen m. induction l as [|x l IH]; intros seen m Hm; [exists m, []; by rewrite app_nil_r|].
  destruct (local_step_ok seen m x Hm) as (m1 & o & E1 & Hm1 & Ho). destruct (IH _ _ Hm1) as (m2 & os & E2 & Hm2 & Hl & Hos).
  exists m2, (o :: os). cbn [run_shreds]. rewrite E1, bind_Done, E2, bind_Done. split; [done|].
  split; [by rewrite <-(assoc_L app) in Hm2|]. split; [cbn; by rewrite Hl|].
  intros [|j] slot es pl Hj; cbn in Hj; [injection Hj as ->; by apply Ho|]. specialize (Hos j slot es pl Hj). by rewrite <-(assoc_L app) in Hos.
Qed.

(** C18: whatever shreds a thread's assembler is given, of any slots and in any
    order, it never panics, and each thing it delivers is the decoding of a run of
    consecutive shreds of one slot, all of which it was given, that ends with a
    data shred marked as the end of a segment. *)
Theorem sharded_delivers_received_runs l :
  exists m os, run_shreds DeshredManagerLocal_new l = Done (m, os) /\ length os = length l /\
    forall j slot es pl, os !! j = Some (Some (slot, es, pl)) -> run_answer (take (S j) l) slot (es, pl).
Proof.
  destruct (local_run_ok [] DeshredManagerLocal_new l local_ok_new) as (m & os & E & _ & Hl & Hos). by exists m, os.
Qed.

(** ** Segment ends out of order *)

(** The end of a later segment is first in the list, and an earlier end is there too. *)
Definition stuck (slot a : Z) (seen : list Shred) (s : SlotShrdsCompact) : Prop :=
  compact_ok seen slot s /\ exists b ends x, segment_ends s = b :: ends /\ last_processed s <= a < b /\ stored s a x /\ is_end x.

(** Trying a slot whose first end lies above another one gives nothing. *)
Lemma try_stuck slot a seen s : stuck slot a seen s -> try_deshred_fast s = Done (s, None).
Proof.
  intros (Hs & b & ends & y & Ee & Ha & Hy & Hend). pose proof (try_deshred_fast_spec _ _ _ Hs) as Ht. rewrite Ee in Ht.
  destruct Ht as [[_ ->]|(run & Hrun & ->)]; [done|]. by rewrite (inner_end_not_decoded s b run a y).
Qed.

Lemma stuck_step slot a seen s x : stuck slot a seen s -> shred_slot x = slot -> exists s', compact_step s x = Done (s', None) /\ stuck slot a (seen ++ [x]) s'.
Proof.
  intros (Hs & b & ends & y & Ee & Ha & Hy & Hend) Hx. unfold compact_step.
  destruct (co_ends _ _ _ Hs b) as [Hb _]; [rewrite Ee; left|].
  destruct (compact_add_spec seen slot s x Hs Hx) as [[_ ->]|(Hk & Hbit & s1 & -> & Hs1 & Hl1 & Ee1 & Hb1 & Hst1)]; rewrite bind_Done; cbn [negb].
  - eexists. split; [done|]. split; [apply (compact_ok_mono seen); [set_solver|done]|]. by exists b, ends, y.
  - rewrite Ee in Ee1. assert (stored s1 a y) as Hy1.
    { apply Hst1. right. split; [|done]. intros ->. rewrite (proj2 (co_bits _ _ _ Hs (shred_index x) ltac:(lia))) in Hbit by eauto. done. }
    assert (stuck slot a (seen ++ [x]) s1) as Hst.
    { split; [done|]. rewrite Ee1, Hl1. eexists _, _, y. split; [reflexivity|]. done. }
    exists s1. split; [by eapply try_stuck|done].
Qed.

(** A missing shred below the first recorded end, when it ends a segment itself,
    leaves the slot stuck. *)
Lemma gap_stuck slot b ends seen s x :
  compact_ok seen slot s -> segment_ends s = b :: ends -> last_processed s <= shred_index x < b ->
  bit_at (received_mask s) (shred_index x) = false -> shred_slot x = slot -> is_end x ->
  exists s', compact_step s x = Done (s', None) /\ stuck slot (shred_index x) (seen ++ [x]) s'.
Proof.
  intros Hs He Ha Hbit Hx Hend. unfold compact_step. destruct (co_ends _ _ _ Hs b) as [Hb _]; [rewrite He; left|].
  destruct (compact_add_spec seen slot s x Hs Hx) as [[[|] _]|(Hk & Hkb & s1 & -> & Hs1 & Hl1 & Ee1 & Hb1 & Hst1)]; [lia|congruence|].
  rewrite bind_Done. cbn [negb]. assert (stuck slot (shred_index x) (seen ++ [x]) s1) as Hst.
  { split; [done|]. rewrite Ee1, He, Hl1. eexists _, _, x. split; [reflexivity|]. split; [done|]. split; [|done]. apply Hst1. by left. }
  exists s1. split; [by eapply try_stuck|done].
Qed.

Lemma slot_entry_other m m' x s slot :
  local_slots m' = <[Z.to_nat (shred_slot x mod SLOT_WINDOW_SIZE) := Some s]> (local_slots m) ->
  shred_slot x mod SLOT_WINDOW_SIZE <> slot mod SLOT_WINDOW_SIZE -> slot_entry m' slot = slot_entry m slot.
Proof.
  intros Em Hne. pose proof (window_index slot). pose proof (window_index (shred_slot x)). unfold slot_entry.
  rewrite Em, list_lookup_insert_ne by lia. done.
Qed.

(** A shred does not push [slot] out of the window: it belongs to [slot], or to a
    slot with another place in the window. *)
Definition keeps_slot (slot : Z) (y : Shred) : Prop :=
  shred_slot y mod SLOT_WINDOW_SIZE = slot mod SLOT_WINDOW_SIZE -> shred_slot y = slot.

Lemma stuck_run slot a l seen m :
  assembler_ok seen m -> stuck slot a seen (slot_entry m slot) -> Forall (keeps_slot slot) l ->
  exists m' os, run_shreds m l = Done (m', os) /\ length os = length l /\ forall es pl, Some (slot, es, pl) ∉ os.
Proof.
  intros Hm Hst Hl. revert seen m Hm Hst. induction Hl as [|x l Hx Hl IH]; intros seen m Hm Hst.
  { exists m, []. split_and!; [done|done|]. intros es pl. apply not_elem_of_nil. }
  destruct (local_step_ok seen m x Hm) as (m1 & o & E1 & Hm1 & _).
  assert (stuck slot a (seen ++ [x]) (slot_entry m1 slot) /\ forall es pl, o <> Some (slot, es, pl)) as [Hst1 Ho].
  { destruct (decide (shred_slot x = slot)) as [Hs|Hs].
    - destruct (stuck_step slot a seen _ x Hst Hs) as (s & Es & Hst'). rewrite <-Hs in Es.
      destruct (local_step m x s None (proj1 Hm) Es) as (m2 & E2 & Em). rewrite E1 in E2. injection E2 as <- ->. rewrite Hs in Em.
      destruct (slot_entry_same m m1 slot s (proj1 Hm) Em) as [_ ->]; [apply Hst'|]. done.
    - destruct (compact_step_ok seen (shred_slot x) _ x (local_ok_entry seen m _ Hm) eq_refl) as (s & r & Es & _).
      destruct (local_step m x s r (proj1 Hm) Es) as (m2 & E2 & Em). rewrite E1 in E2. injection E2 as <- ->.
      rewrite (slot_entry_other m m1 x s slot Em) by (intros ?; by apply Hs, Hx). split; [|destruct r as [[? ?]|]; cbn; congruence].
      destruct Hst as [Hok Hst]. split; [|done]. apply (compact_ok_mono seen); [set_solver|done]. }
  destruct (IH _ m1 Hm1 Hst1) as (m2 & os & E2 & Hlen & Hos). exists m2, (o :: os). cbn [run_shreds].
  rewrite E1, bind_Done, E2, bind_Done. split_and!; [done|cbn; by rewrite Hlen|].
  intros es pl [Hin|Hin]%elem_of_cons; [by destruct (Ho es pl)|by destruct (Hos es pl)].
Qed.

(** C40: take any reachable state of a thread's assembler in which the first
    recorded segment end of a slot is at index [b], and a shred below [b] that
    has not been received nor processed. When that shred arrives and is the
    end of an earlier segment, the slot delivers nothing any more: neither that
    segment, nor any later one, whatever shreds follow, of this slot or of
    others, as long as none of them pushes the slot out of the window. *)
Theorem out_of_order_ends_stall slot b ends pre x later m os :
  run_shreds DeshredManagerLocal_new pre = Done (m, os) ->
  segment_ends (slot_entry m slot) = b :: ends ->
  shred_slot x = slot -> is_end x -> last_processed (slot_entry m slot) <= shred_index x < b ->
  Forall (fun y => shred_slot y = slot -> shred_index y <> shred_index x) pre ->
  Forall (fun y => shred_slot y mod SLOT_WINDOW_SIZE = slot mod SLOT_WINDOW_SIZE -> shred_slot y = slot) later ->
  exists m' os', run_shreds DeshredManagerLocal_new (pre ++ x :: later) = Done (m', os ++ None :: os') /\
    length os' = length later /\ forall es pl, Some (slot, es, pl) ∉ os'.
Proof.
  intros Hrun He Hs Hend Ha Hfresh Hlater.
  destruct (local_run_ok [] _ pre local_ok_new) as (m0 & os0 & E0 & Hm & _). rewrite Hrun in E0. injection E0 as <- <-.
  pose proof (local_ok_entry _ m slot Hm) as Hok. destruct (co_ends _ _ _ Hok b) as [Hb _]; [rewrite He; left|].
  assert (bit_at (received_mask (slot_entry m slot)) (shred_index x) = false) as Hbit.
  { destruct (bit_at _ _) eqn:Eb; [|done]. exfalso. apply (co_bits _ _ _ Hok) in Eb as (y & Hy); [|lia].
    destruct (co_stored _ _ _ Hok _ _ Hy) as (Hin & Hys & Hyi). by apply (proj1 (Forall_forall _ _) Hfresh y Hin). }
  destruct (gap_stuck slot b ends pre _ x Hok He Ha Hbit Hs Hend) as (s & Es & Hst). rewrite <-Hs in Es.
  destruct (local_step m x s None (proj1 Hm) Es) as (m1 & E1 & Em).
  destruct (local_step_ok _ m x Hm) as (m1' & o & E1' & Hm1 & _). rewrite E1 in E1'. injection E1' as <- <-. rewrite Hs in Em.
  destruct (slot_entry_same m m1 slot s (proj1 Hm) Em) as [_ Ee]; [apply Hst|].
  destruct (stuck_run slot (shred_index x) later (pre ++ [x]) m1) as (m2 & os2 & E2 & Hl2 & Hos2); [done|by rewrite Ee|done|].
  exists m2, os2. split; [|done]. eapply run_shreds_app; [exact Hrun|]. cbn [run_shreds]. by rewrite E1, bind_Done, E2.
Qed.
End law.

(** ** A slot in order *)

(** Everything up to [start] is delivered, [pend] has arrived after it, nothing else. *)
Record in_order (slot start : Z) (pend : list Shred) (seen : list Shred) (s : SlotShrdsCompact) : Prop := mkInOrder {
  io_ok : compact_ok seen slot s;
  io_last : last_processed s = start;
  io_ends : segment_ends s = [];
  io_bits : forall k, 0 <= k < MAX_SHREDS_PER_SLOT -> bit_at (received_mask s) k = bool_decide (k < start + len pend);
  io_pend : forall j x, pend !! j = Some x -> stored s (start + Z.of_nat j) x;
}.

(** The next shred in order is accepted. *)
Lemma in_order_add slot start pend seen s x :
  in_order slot start pend seen s -> shred_slot x = slot -> shred_type x = Data ->
  shred_index x = start + len pend -> shred_index x < MAX_SHREDS_PER_SLOT ->
  exists s', compact_add_shred s x = Done (s', true) /\ compact_ok (seen ++ [x]) slot s' /\ last_processed s' = start /\
    segment_ends s' = (if ends_segment x then [shred_index x] else []) /\
    (forall k, 0 <= k < MAX_SHREDS_PER_SLOT -> bit_at (received_mask s') k = bool_decide (k < start + len (pend ++ [x]))) /\
    (forall j y, (pend ++ [x]) !! j = Some y -> stored s' (start + Z.of_nat j) y).
Proof.
  intros [Hs Hla He Hb Hp] Hx Ht Hi Hm. pose proof (index_range x) as Hr. unfold is_uint in Hr.
  destruct (compact_add_spec seen slot s x Hs Hx) as [[[|Hbit] _]|(_ & _ & s1 & E & Hs1 & Hl1 & Ee1 & Hb1 & Hst1)]; [lia| |].
  { rewrite Hb, bool_decide_eq_false_2 in Hbit by lia. done. }
  exists s1. split; [done|]. split; [done|]. split; [congruence|]. split; [by rewrite Ee1, He, bool_decide_eq_true_2|]. split.
  - intros k Hk. rewrite Hb1, Hb, len_app, len_cons, len_nil by lia.
    repeat case_bool_decide; cbn; done || lia.
  - intros j y Hj. apply Hst1. apply lookup_snoc_Some in Hj as [[Hj Hy]|[-> <-]]; [right|left; unfold len in Hi; split; [lia|done]].
    split; [unfold len in Hi; lia|by apply Hp].
Qed.

Lemma in_order_pending slot start pend seen s x :
  in_order slot start pend seen s -> shred_slot x = slot -> shred_type x = Data -> ends_segment x = false ->
  shred_index x = start + len pend -> shred_index x < MAX_SHREDS_PER_SLOT ->
  exists s', compact_step s x = Done (s', None) /\ in_order slot start (pend ++ [x]) (seen ++ [x]) s'.
Proof.
  intros Hio Hx Ht Hend Hi Hm. destruct (in_order_add _ _ _ _ _ _ Hio Hx Ht Hi Hm) as (s1 & E & Hs1 & Hl1 & Ee1 & Hb1 & Hp1).
  rewrite Hend in Ee1. exists s1. split; [|by split]. unfold compact_step. rewrite E, bind_Done. cbn [negb]. unfold try_deshred_fast. by rewrite Ee1.
Qed.

Lemma in_order_end slot start pend seen s x r :
  in_order slot start pend seen s -> shred_slot x = slot -> shred_type x = Data -> ends_segment x = true ->
  shred_index x = start + len pend -> shred_index x < MAX_SHREDS_PER_SLOT -> decode_run (shred_payload <$> (pend ++ [x])) = Some r ->
  exists s', compact_step s x = Done (s', Some r) /\ in_order slot (start + len pend + 1) [] (seen ++ [x]) s'.
Proof.
  intros Hio Hx Ht Hend Hi Hm Hd. destruct (in_order_add _ _ _ _ _ _ Hio Hx Ht Hi Hm) as (s1 & E & Hs1 & Hl1 & Ee1 & Hb1 & Hp1).
  rewrite Hend in Ee1. unfold compact_step. rewrite E, bind_Done. cbn [negb]. pose proof (try_deshred_fast_spec _ _ _ Hs1) as Htry. rewrite Ee1 in Htry.
  pose proof (co_last _ _ _ Hs1) as Hla. pose proof (len_nonneg pend) as Hnn.
  destruct Htry as [[(k & Hk & Hbit) _]|(run & Hrun & ->)].
  { rewrite Hb1, bool_decide_eq_true_2 in Hbit by (rewrite ?len_app, ?len_cons, ?len_nil; lia). done. }
  assert (run = pend ++ [x]) as Erun.
  { apply list_eq. intros j. destruct (decide (j < length (pend ++ [x]))%nat) as [Hj|Hj].
    - destruct (lookup_lt_is_Some_2 _ _ Hj) as [y Hy]. rewrite Hy. rewrite length_app in Hj. cbn in Hj.
      pose proof (next_run_at s1 _ run (start + Z.of_nat j) y Hrun ltac:(unfold len in *; lia) (Hp1 j y Hy)) as Hl.
      by replace (Z.to_nat (start + Z.of_nat j - last_processed s1)) with j in Hl by lia.
    - rewrite !lookup_ge_None_2; [done|lia|]. destruct Hrun as [Hlen _]. rewrite length_app in Hj. cbn in Hj. unfold len in *. lia. }
  rewrite Erun, Hd. eexists. split; [done|]. rewrite <-Hi. split; cbn [after_delivery last_processed segment_ends received_mask]; try done.
  - apply (after_delivery_ok _ _ _ _ _ run); [done|done|done|]. intros e' He'. by apply not_elem_of_nil in He'.
  - intros k Hk. rewrite Hb1, len_app, len_cons, !len_nil by lia. apply bool_decide_ext. lia.
Qed.

(** [l] is a run of data shreds of [slot] at indices [start], [start + 1], ... *)
Definition in_sequence (slot start : Z) (l : list Shred) : Prop :=
  forall i x, l !! i = Some x -> shred_slot x = slot /\ shred_index x = start + Z.of_nat i /\ shred_type x = Data.

Lemma in_sequence_app slot start l1 l2 : in_sequence slot start (l1 ++ l2) -> in_sequence slot start l1 /\ in_sequence slot (start + len l1) l2.
Proof.
  intros Hs. split; intros i x Hi.
  - apply Hs. by apply lookup_app_l_Some.
  - destruct (Hs (length l1 + i)%nat x) as (H1 & H2 & H3); [by rewrite lookup_app_r, Nat.add_comm, Nat.add_sub by lia|].
    split; [done|]. split; [|done]. unfold len. lia.
Qed.

Lemma pending_run slot start l pend seen m :
  len (local_slots m) = SLOT_WINDOW_SIZE -> in_order slot start pend seen (slot_entry m slot) ->
  Forall (fun y => ends_segment y = false) l -> in_sequence slot (start + len pend) l -> start + len pend + len l <= MAX_SHREDS_PER_SLOT ->
  exists m' seen', run_shreds m l = Done (m', replicate (length l) None) /\ len (local_slots m') = SLOT_WINDOW_SIZE /\
    in_order slot start (pend ++ l) seen' (slot_entry m' slot).
Proof.
  intros Hlen Hio Hl. revert pend seen m Hlen Hio. induction Hl as [|x l Hx Hl IH]; intros pend seen m Hlen Hio Hseq Hfit.
  { exists m, seen. by rewrite app_nil_r. }
  destruct (Hseq 0%nat x eq_refl) as (Hslot & Hidx & Ht). rewrite len_cons in Hfit. pose proof (len_nonneg l).
  destruct (in_order_pending slot start pend seen _ x Hio Hslot Ht Hx) as (s & Es & Hio'); [lia|lia|].
  rewrite <-Hslot in Es. destruct (local_step m x s None Hlen Es) as (m1 & E1 & Em). rewrite Hslot in Em.
  destruct (slot_entry_same m m1 slot s Hlen Em) as [Hlen1 He]; [apply (io_ok _ _ _ _ _ Hio')|].
  destruct (IH (pend ++ [x]) (seen ++ [x]) m1) as (m2 & seen' & E2 & Hlen2 & Hio2); [done|by rewrite He| |rewrite len_app, len_cons, len_nil; lia|].
  { change (x :: l) with ([x] ++ l) in Hseq. apply in_sequence_app in Hseq as [_ Hseq].
    by rewrite len_app, Z.add_assoc. }
  exists m2, seen'. cbn [run_shreds]. rewrite E1, bind_Done, E2, bind_Done. by rewrite <-(assoc_L app) in Hio2.
Qed.

(** What a delivered segment looks like to the caller. *)
Definition answers (slot : Z) (seg : list Shred) (r : list Entry * list Z) : list (option segment_out) :=
  replicate (length seg - 1) None ++ [Some (slot, r.1, r.2)].

Lemma segment_run slot start seg seen m r :
  len (local_slots m) = SLOT_WINDOW_SIZE -> in_order slot start [] seen (slot_entry m slot) ->
  is_segment seg -> decode_run (shred_payload <$> seg) = Some r -> in_sequence slot start seg -> start + len seg <= MAX_SHREDS_PER_SLOT ->
  exists m' seen', run_shreds m seg = Done (m', answers slot seg r) /\ len (local_slots m') = SLOT_WINDOW_SIZE /\
    in_order slot (start + len seg) [] seen' (slot_entry m' slot).
Proof.
  intros Hlen Hio (l & x & -> & Hl & Hx) Hd Hseq Hfit. rewrite len_app, len_cons, len_nil in *.
  apply in_sequence_app in Hseq as [Hseq1 Hseq2]. destruct (Hseq2 0%nat x eq_refl) as (Hslot & Hidx & Ht).
  destruct (pending_run slot start l [] seen m) as (m1 & seen1 & E1 & Hlen1 & Hio1); [done|done|done|by rewrite len_nil, Z.add_0_r|rewrite len_nil; lia|].
  destruct (in_order_end slot start l seen1 _ x r Hio1 Hslot Ht Hx) as (s & Es & Hio2); [lia|lia|done|].
  rewrite <-Hslot in Es. destruct (local_step m1 x s (Some r) Hlen1 Es) as (m2 & E2 & Em). rewrite Hslot in Em.
  destruct (slot_entry_same m1 m2 slot s Hlen1 Em) as [Hlen2 He]; [apply (io_ok _ _ _ _ _ Hio2)|].
  exists m2, (seen1 ++ [x]). split; [|split; [done|by rewrite He, Z.add_assoc]]. unfold answers. rewrite length_app, Nat.add_sub.
  eapply run_shreds_app; [exact E1|]. cbn [run_shreds]. rewrite E2, bind_Done. destruct r as [es pl]. cbn. by rewrite Hslot.
Qed.

Lemma segments_run slot segs rs start seen m :
  len (local_slots m) = SLOT_WINDOW_SIZE -> in_order slot start [] seen (slot_entry m slot) ->
  Forall2 (fun seg r => is_segment seg /\ decode_run (shred_payload <$> seg) = Some r) segs rs ->
  in_sequence slot start (concat segs) -> start + len (concat segs) <= MAX_SHREDS_PER_SLOT ->
  exists m', run_shreds m (concat segs) = Done (m', concat (zip_with (answers slot) segs rs)).
Proof.
  intros Hlen Hio Hf. revert start seen m Hlen Hio. induction Hf as [|seg r segs rs [Hseg Hd] Hf IH]; intros start seen m Hlen Hio Hseq Hfit; [by exists m|].
  cbn [concat] in *. apply in_sequence_app in Hseq as [Hs1 Hs2]. rewrite len_app in Hfit. pose proof (len_nonneg (concat segs)).
  destruct (segment_run slot start seg seen m r) as (m1 & seen1 & E1 & Hlen1 & Hio1); try done; [lia|].
  destruct (IH (start + len seg) seen1 m1) as (m2 & E2); try done; [lia|]. exists m2. by eapply run_shreds_app.
Qed.

(** C15: a slot of at most 512 data shreds (the assembler's [MAX_SHREDS_PER_SLOT])
    whose data shreds arrive in index order, with no coding shreds among them, is
    delivered whole: every segment, at its last shred and decoded from its own
    payloads, and nothing between. *)
Theorem in_order_slot_delivered slot segs rs :
  Forall2 (fun seg r => is_segment seg /\ decode_run (shred_payload <$> seg) = Some r) segs rs ->
  in_sequence slot 0 (concat segs) -> len (concat segs) <= MAX_SHREDS_PER_SLOT ->
  exists m, run_shreds DeshredManagerLocal_new (concat segs) = Done (m, concat (zip_with (answers slot) segs rs)).
Proof.
  intros Hf Hseq Hfit. apply (segments_run slot segs rs 0 []); [done| |done|done|done].
  rewrite slot_entry_new. split; cbn; [apply compact_ok_new|done|done| |done].
  intros k Hk. rewrite bool_decide_eq_false_2 by (unfold len; cbn; lia). unfold bit_at.
  destruct (_ !! _) as [w|] eqn:E; [apply (lookup_replicate 8) in E as [-> _]; by rewrite Z.testbit_0_l|done].
Qed.

(** A coding shred hides the data shred of the same index, which is then refused
    as a duplicate: the two number their shreds separately. *)
Lemma coding_shred_hides_data seen slot s c d :
  compact_ok seen slot s -> shred_slot c = slot -> shred_slot d = slot -> shred_type c = Code -> shred_type d = Data ->
  shred_index c = shred_index d -> exists s1 b, compact_add_shred s c = Done (s1, b) /\ compact_add_shred s1 d = Done (s1, false).
Proof.
  intros Hs Hc Hd _ _ Hi. destruct (compact_add_spec seen slot s c Hs Hc) as [[Hold E]|(Hk & Hkb & s1 & E & Hs1 & _ & _ & Hb1 & _)].
  - exists s, false. split; [done|]. rewrite Hi in Hold.
    destruct (compact_add_spec seen slot s d Hs Hd) as [[_ E']|(Hk & Hkb & _)]; [done|]. destruct Hold; [lia|congruence].
  - exists s1, true. split; [done|]. destruct (compact_add_spec _ slot s1 d Hs1 Hd) as [[_ E']|(_ & Hkb' & _)]; [done|].
    pose proof (index_range c) as Hr. unfold is_uint in Hr.
    rewrite <-Hi, Hb1, bool_decide_eq_true_2, orb_true_r in Hkb' by (done || lia). done.
Qed.
End sharded.

(** ** On the example library *)

Lemma toy_deshred_inner l x l' : l' <> [] -> exists e, toy_deshred (l ++ (1 :: x) :: l') = Err e.
Proof.
  intros Hl. induction l as [|p l IH]; cbn [app].
  - destruct l' as [|q l']; [done|]. by exists tt.
  - destruct IH as [e He]. cbn [toy_deshred]. destruct p as [|[|[|?|]|?] b]; try by exists tt.
    + rewrite He. by eexists.
    + by destruct l; exists tt.
Qed.

#[global] Instance ToySegment : SegmentLaw ToyLib.
Proof.
  intros l l' x Hl [_ Hx]. rewrite fmap_app, fmap_cons. cbn in Hx |- *. unfold ends_segment in Hx. cbn in Hx.
  rewrite orb_false_r in Hx. rewrite Hx. apply toy_deshred_inner. by destruct l'.
Qed.

Lemma sharded_delivers_received_runs_witness :
  exists m os, run_shreds (H := ToyLib) DeshredManagerLocal_new [toy_data 1 true [2]; toy_data 0 false [1]] = Done (m, os) /\ length os = 2%nat.
Proof.
  destruct (sharded_delivers_received_runs (L := ToyLib) [toy_data 1 true [2]; toy_data 0 false [1]]) as (m & os & E & Hl & _).
  exists m, os. split; [exact E|exact Hl].
Defined.

(** Segment 0 is delivered; of the segments 1..=2 and 3..=4 the end of the second
    overtakes the end of the first. *)
Lemma out_of_order_ends_stall_witness :
  let pre := [toy_data 0 true [9]; toy_data 1 false [1]; toy_data 3 false [3]; toy_data 4 true [4]] in
  exists m' os', run_shreds (H := ToyLib) DeshredManagerLocal_new (pre ++ toy_data 2 true [2] :: [toy_data 5 true [5]; mkToyShred 8 0 Data true [9]])
    = Done (m', [Some (7, [9], [9]); None; None; None] ++ None :: os') /\
    length os' = 2%nat /\ forall es pl, Some (7, es, pl) ∉ os'.
Proof.
  intros pre.
  set (m := match run_shreds (H := ToyLib) DeshredManagerLocal_new pre with Done (m, _) => m | _ => DeshredManagerLocal_new end).
  apply (out_of_order_ends_stall (L := ToyLib) 7 4 [] pre (toy_data 2 true [2]) [toy_data 5 true [5]; mkToyShred 8 0 Data true [9]] m).
  - reflexivity.
  - reflexivity.
  - reflexivity.
  - done.
  - change (1 <= 2 < 4). lia.
  - by repeat constructor.
  - by repeat constructor.
Defined.

Lemma in_order_slot_delivered_witness :
  exists m, run_shreds (H := ToyLib) DeshredManagerLocal_new [toy_data 0 false [1]; toy_data 1 true [2]; toy_data 2 true [3]] =
    Done (m, [None; Some (7, [1; 2], [1; 2]); Some (7, [3], [3])]).
Proof.
  apply (in_order_slot_delivered (L := ToyLib) 7 [[toy_data 0 false [1]; toy_data 1 true [2]]; [toy_data 2 true [3]]] [([1; 2], [1; 2]); ([3], [3])]).
  - constructor; [|constructor; [|constructor]]; (split; [|done]).
    + by exists [toy_data 0 false [1]], (toy_data 1 true [2]); repeat constructor.
    + by exists [], (toy_data 2 true [3]); repeat constructor.
  - intros [|[|[|i]]] x Hx; cbn in Hx; simplify_eq; done.
  - done.
Defined.
