(* ===== verification/ShredProcessor.v ===== *)
(** * Shred processing ([examples/shred_processor.rs])

    Parsing of UDP payloads into shreds, the statistics, and the decoding of
    completed segments, over any assembler with the [DeshredTrait] interface.
    Printed lines are events of a log. *)

From stdpp Require Import pretty gmap.
From S2P Require Import Prelude Words Shred Deshred DeshredProps DeshredSharded ShardedProps.

(** ** Data *)

(** Addresses, ports and the time of arrival of a packet; times are nanoseconds
    since the epoch. *)
Record packet_meta := mkMeta { src_ip : list Z; src_port : Z; dst_ip : list Z; dst_port : Z; timestamp : Z }.

Record PacketDataRef := mkPacketDataRef {
  ref_payload : list Z; packet_len : Z; ref_meta : packet_meta; ref_shred_type : option ShredType;
}.

Record PacketData := mkPacketData { data_payload : list Z; data_meta : packet_meta }.

Record ShredStats := mkStats {
  st_received : Z; st_decoded : Z; st_errors : Z; st_data_shreds : Z; st_code_shreds : Z; st_code_drops : Z;
}.

Definition ShredStats_new : ShredStats := mkStats 0 0 0 0 0 0.

(** [fetch_add(1)] on a [usize] counter. *)
Definition fetch_add1 (x : Z) : Z := wrap 64 (x + 1).

Definition count_received (s : ShredStats) : ShredStats :=
  mkStats (fetch_add1 (st_received s)) (st_decoded s) (st_errors s) (st_data_shreds s) (st_code_shreds s) (st_code_drops s).
Definition count_error (s : ShredStats) : ShredStats :=
  mkStats (st_received s) (st_decoded s) (fetch_add1 (st_errors s)) (st_data_shreds s) (st_code_shreds s) (st_code_drops s).
Definition count_decoded (t : ShredType) (s : ShredStats) : ShredStats :=
  mkStats (st_received s) (fetch_add1 (st_decoded s)) (st_errors s)
    (match t with Data => fetch_add1 (st_data_shreds s) | Code => st_data_shreds s end)
    (match t with Code => fetch_add1 (st_code_shreds s) | Data => st_code_shreds s end) (st_code_drops s).

(** [format_timestamp]. *)
Definition pad (width : nat) (n : Z) : string :=
  let d := pretty (Z.to_N n) in
  String.append (String.concat EmptyString (replicate (width - String.length d) "0"%string)) d.

Definition format_timestamp (t : Z) : string :=
  if t <? 0 then "INVALID_TIME"%string else
  let secs := t / 1000000000 in
  let nanos := t mod 1000000000 in
  let hours := (secs / 3600) mod 24 in
  let minutes := (secs / 60) mod 60 in
  let seconds := secs mod 60 in
  String.concat EmptyString [pad 2 hours; ":"%string; pad 2 minutes; ":"%string; pad 2 seconds; "."%string; pad 9 nanos].

(** A printed line. *)
Inductive log_event `{ShredLib} :=
  | LogDeshred (ts : string) (m : option packet_meta) (slot entries txns : Z)
  | LogTx (ts : string) (m : option packet_meta) (slot entry_idx : Z) (sizes : option (Z * Z)) (sig : Signature)
  | LogShred (ts : string) (first_octet port slot index : Z) (t : ShredType) (size : Z)
  | LogError (count : Z).

Section processor.
Context {L : ShredLib}.

Definition parse_shred (data : list Z) : result Shred (option ShredError) :=
  if len data <? 83 then Err None else
  match new_from_serialized_shred data with Ok s => Ok s | Err e => Err (Some e) end.

Definition txn_count (entries : list Entry) : Z := foldr Z.add 0 ((fun e => len (transactions e)) <$> entries).

(** [sig = transaction.signatures[0]] when there is one. *)
Definition first_signature (t : Transaction) : outcome (option Signature) :=
  match signatures t with [] => Done None | _ => s ← slice_get (signatures t) 0; Done (Some s) end.

Definition VOTE_TXN_SIZE_THRESHOLD : Z := 400.

(** The lines for the transactions of a segment, small ones left out when
    [filter_votes]. *)
Definition tx_line (filter_votes : bool) (line : Z -> Z -> Signature -> log_event) (entry_idx : Z) (t : Transaction) : outcome (list log_event) :=
  let txn_size := default 0 (serialized_size t) in
  if filter_votes && (txn_size <? VOTE_TXN_SIZE_THRESHOLD) then Done [] else
  o ← first_signature t;
  Done match o with Some sig => [line entry_idx txn_size sig] | None => [] end.

Definition tx_lines (filter_votes : bool) (line : Z -> Z -> Signature -> log_event) (entries : list Entry) : outcome (list log_event) :=
  '(_, log) ← for_each entries (fun e '(entry_idx, log) =>
      log ← for_each (transactions e) (fun t log => l ← tx_line filter_votes line entry_idx t; Done (log ++ l)) log;
      Done (entry_idx + 1, log)) (0, []);
  Done log.

(** ** Without allocation, over any assembler *)

Record ref_state (T : Type) := mkRefState { rs_stats : ShredStats; rs_mgr : T; rs_log : list log_event; rs_err_count : Z }.
Arguments mkRefState {T}.
Arguments rs_stats {T}.
Arguments rs_mgr {T}.
Arguments rs_log {T}.
Arguments rs_err_count {T}.

Definition process_shred_ref {T} `{!DeshredTrait T} (packet : PacketDataRef) (st : ref_state T) : outcome (ref_state T) :=
  let stats := count_received (rs_stats st) in
  match ref_shred_type packet with
  | None => Done (mkRefState (count_error stats) (rs_mgr st) (rs_log st) (rs_err_count st))
  | Some ty =>
      match new_from_serialized_shred (ref_payload packet) with
      | Ok shred =>
          let stats := count_decoded ty stats in
          '(mgr, r) ← add_shred (rs_mgr st) shred;
          match r with
          | None => Done (mkRefState stats mgr (rs_log st) (rs_err_count st))
          | Some (slot, entries, _) =>
              let ts := format_timestamp (timestamp (ref_meta packet)) in
              lines ← tx_lines true (fun i size sig => LogTx ts (Some (ref_meta packet)) slot i (Some (packet_len packet, size)) sig) entries;
              Done (mkRefState stats mgr (rs_log st ++ LogDeshred ts (Some (ref_meta packet)) slot (len entries) (txn_count entries) :: lines) (rs_err_count st))
          end
      | Err _ =>
          let log := if rs_err_count st mod 100 =? 0 then rs_log st ++ [LogError (rs_err_count st)] else rs_log st in
          Done (mkRefState (count_error stats) (rs_mgr st) log (fetch_add1 (rs_err_count st)))
      end
  end.

(** ** The decoder thread *)

(** The statistics, the assembler, the log, and the function's two static counters. *)
Record decoder := mkDecoder { d_stats : ShredStats; d_mgr : DeshredManager; d_log : list log_event; d_err_count : Z; d_shred_count : Z }.

(** What is printed for a shred: the segment it completes, or every hundredth shred. *)
Definition shred_lines (packet : PacketData) (shred : Shred) (d : decoder) (r : option segment_out) : outcome (list log_event * Z) :=
  let ts := format_timestamp (timestamp (data_meta packet)) in
  match r with
  | Some (slot, entries, _) =>
      lines ← tx_lines false (fun i _ sig => LogTx ts None slot i None sig) entries;
      Done (d_log d ++ LogDeshred ts None slot (len entries) (txn_count entries) :: lines, d_shred_count d)
  | None =>
      log ← (if d_shred_count d mod 100 =? 0 then
               octet ← slice_get (src_ip (data_meta packet)) 0;
               Done (d_log d ++ [LogShred ts octet (src_port (data_meta packet)) (shred_slot shred) (shred_index shred) (shred_type shred) (len (data_payload packet))])
             else Done (d_log d));
      Done (log, fetch_add1 (d_shred_count d))
  end.

Definition process_shred (packet : PacketData) (d : decoder) : outcome decoder :=
  let stats := count_received (d_stats d) in
  match parse_shred (data_payload packet) with
  | Ok shred =>
      let stats := count_decoded (shred_type shred) stats in
      let slot := shred_slot shred in
      '(mgr, r) ← add_shred (d_mgr d) shred;
      '(log, shred_count) ← shred_lines packet shred d r;
      let mgr := if st_decoded stats mod 1000 =? 0 then cleanup_old_slots mgr slot 50 else mgr in
      Done (mkDecoder stats mgr log (d_err_count d) shred_count)
  | Err _ =>
      let log := if d_err_count d mod 100 =? 0 then d_log d ++ [LogError (d_err_count d)] else d_log d in
      Done (mkDecoder (count_error stats) (d_mgr d) log (fetch_add1 (d_err_count d)) (d_shred_count d))
  end.

(** [decoder_worker]: the packets of the channel, until it is closed. *)
Definition decoder_worker (stats : ShredStats) (packets : list PacketData) (err_count shred_count : Z) : outcome decoder :=
  for_each packets process_shred (mkDecoder stats DeshredManager_new [] err_count shred_count).

(** ** Counting *)

(** Statistics after [r] packets, of which [d] decoded (data and coding shreds) and [e] failed. *)
Definition stats_counted (s : ShredStats) (r da co e : Z) : Prop :=
  s = mkStats (wrap 64 r) (wrap 64 (da + co)) (wrap 64 e) (wrap 64 da) (wrap 64 co) 0.

Lemma fetch_add1_wrap x : fetch_add1 (wrap 64 x) = wrap 64 (x + 1).
Proof. by apply wrap_add_l. Qed.

Lemma counted_error s r da co e : stats_counted s r da co e -> stats_counted (count_error (count_received s)) (r + 1) da co (e + 1).
Proof. unfold stats_counted, count_error, count_received. intros ->. cbn. by rewrite !fetch_add1_wrap. Qed.

(** How many of the shred types are [t]. *)
Definition count_type (t : ShredType) (l : list ShredType) : Z := len (filter (fun u => u = t) l).

Lemma count_type_snoc t l u : count_type t (l ++ [u]) = count_type t l + (if decide (u = t) then 1 else 0).
Proof. unfold count_type. rewrite filter_app, len_app, filter_cons, filter_nil. case_decide; done. Qed.

Lemma count_type_total l : count_type Data l + count_type Code l = len l.
Proof.
  unfold count_type. induction l as [|[] l IH]; [done| |]; rewrite !filter_cons, len_cons;
    repeat case_decide; rewrite ?len_cons; done || lia.
Qed.

Lemma counted_decoded s r (l : list ShredType) e t :
  stats_counted s r (count_type Data l) (count_type Code l) e ->
  stats_counted (count_decoded t (count_received s)) (r + 1) (count_type Data (l ++ [t])) (count_type Code (l ++ [t])) e.
Proof.
  unfold stats_counted. intros ->. rewrite !count_type_snoc. unfold count_decoded, count_received. cbn. rewrite !fetch_add1_wrap.
  destruct t; repeat case_decide; try done; f_equal; rewrite ?fetch_add1_wrap, ?Z.add_0_r; f_equal; lia.
Qed.

(** ** Lines for transactions *)

Lemma first_signature_eq t : first_signature t = Done (head (signatures t)).
Proof. unfold first_signature. destruct (signatures t) as [|s l] eqn:E; [done|]. by rewrite (slice_get_lookup _ _ s). Qed.

Lemma for_each_total {A S} (f : A -> S -> S) l (body : A -> S -> outcome S) s :
  (forall a s, a ∈ l -> body a s = Done (f a s)) -> for_each l body s = Done (foldl (fun s a => f a s) s l).
Proof.
  revert s. induction l as [|a l IH]; intros s Hb; cbn; [done|]. rewrite Hb, bind_Done by left. apply IH. intros b s' Hin. apply Hb. by right.
Qed.

(** The line of a transaction, if it has one. *)
Definition tx_event (filter_votes : bool) (line : Z -> Z -> Signature -> log_event) (entry_idx : Z) (t : Transaction) : option log_event :=
  let size := default 0 (serialized_size t) in
  if filter_votes && (size <? VOTE_TXN_SIZE_THRESHOLD) then None else line entry_idx size <$> head (signatures t).

Lemma tx_line_eq fv line i t : tx_line fv line i t = Done (option_list (tx_event fv line i t)).
Proof.
  unfold tx_line, tx_event. destruct (fv && _); [done|]. rewrite first_signature_eq, bind_Done. by destruct (head (signatures t)).
Qed.

Lemma foldl_omap {A B} (f : A -> option B) l acc : foldl (fun s a => s ++ option_list (f a)) acc l = acc ++ omap f l.
Proof.
  revert acc. induction l as [|a l IH]; intros acc; cbn; [by rewrite app_nil_r|]. rewrite IH.
  destruct (f a); cbn; [by rewrite <-(assoc_L app)|by rewrite app_nil_r].
Qed.

Lemma len_fmap {A B} (f : A -> B) l : len (f <$> l) = len l.
Proof. unfold len. by rewrite length_fmap. Qed.

Lemma len_snoc {A} (l : list A) a : len (l ++ [a]) = len l + 1.
Proof. unfold len. rewrite length_app. cbn. lia. Qed.

Lemma omap_snoc {A B} (f : A -> option B) l a : omap f (l ++ [a]) = omap f l ++ option_list (f a).
Proof. rewrite omap_app. cbn. by destruct (f a). Qed.

(** The lines of a segment are those of its transactions, in order. *)
Lemma tx_lines_eq fv line entries :
  tx_lines fv line entries = Done (concat (imap (fun i e => omap (tx_event fv line (Z.of_nat i)) (transactions e)) entries)).
Proof.
  unfold tx_lines.
  rewrite (for_each_total (fun (e : Entry) '(i, log) => (i + 1, log ++ omap (tx_event fv line i) (transactions e)))), bind_Done.
  - enough (forall (n : nat) log, foldl (fun s e => (fun '(i, log) => (i + 1, log ++ omap (tx_event fv line i) (transactions e))) s) (Z.of_nat n, log) entries
      = (Z.of_nat n + len entries, log ++ concat (imap (fun i e => omap (tx_event fv line (Z.of_nat (n + i))) (transactions e)) entries))) as Hf.
    { pose proof (Hf 0%nat []) as H0. change (Z.of_nat 0) with 0 in H0. rewrite H0. done. }
    induction entries as [|e l IH]; intros n log; cbn [foldl imap concat]; [by rewrite app_nil_r, Z.add_0_r|].
    replace (Z.of_nat n + 1) with (Z.of_nat (S n)) by lia. rewrite IH, len_cons. f_equal; [lia|].
    rewrite <-(assoc_L app), Nat.add_0_r. f_equal. f_equal. f_equal. apply imap_ext. intros i x _. cbn. by rewrite Nat.add_succ_r.
  - intros e [i log] _. rewrite (for_each_total (fun t log => log ++ option_list (tx_event fv line i t))), bind_Done.
    + by rewrite foldl_omap.
    + intros t log' _. by rewrite tx_line_eq.
Qed.

Lemma tx_lines_elem fv line entries ev :
  ev ∈ concat (imap (fun i e => omap (tx_event fv line (Z.of_nat i)) (transactions e)) entries) ->
  exists i e t sig, entries !! i = Some e /\ t ∈ transactions e /\ head (signatures t) = Some sig /\
    ev = line (Z.of_nat i) (default 0 (serialized_size t)) sig /\ (fv = true -> VOTE_TXN_SIZE_THRESHOLD <= default 0 (serialized_size t)).
Proof.
  rewrite list_elem_of_In, in_concat. intros (l & Hl & Hev). apply list_elem_of_In in Hl, Hev.
  apply elem_of_lookup_imap in Hl as (i & e & -> & Hi). apply list_elem_of_omap in Hev as (t & Ht & Hev).
  unfold tx_event in Hev. destruct (fv && _) eqn:Ef; [done|]. destruct (head (signatures t)) as [sig|] eqn:Es; [|done].
  injection Hev as <-. exists i, e, t, sig. split_and!; try done. intros ->. cbn in Ef. by apply Z.ltb_ge in Ef.
Qed.

(** ** What the processor needs of an assembler *)

(** [add_shred] returns in every state that satisfies [Inv]; [Inv] relates the
    state to the shreds given so far. *)
Class DeshredSafe (T : Type) `{!DeshredTrait T} (Inv : list Shred -> T -> Prop) : Prop :=
  add_safe seen (m : T) x : Inv seen m -> exists m' o, add_shred m x = Done (m', o) /\ Inv (seen ++ [x]) m'.

#[global] Instance DeshredManager_safe `{!ShredLaws L} : DeshredSafe DeshredManager manager_ok.
Proof. intros seen m x Hm. destruct (manager_step seen m x Hm) as (m' & o & E & Hm' & _). by exists m', o. Qed.

#[global] Instance DeshredManagerLocal_safe `{!ShredLaws L} `{!SegmentLaw L} : DeshredSafe DeshredManagerLocal assembler_ok.
Proof. intros seen m x Hm. destruct (local_step_ok seen m x Hm) as (m' & o & E & Hm' & _). by exists m', o. Qed.

Section ref.
Context {T : Type} `{!DeshredTrait T} {Inv : list Shred -> T -> Prop} `{!DeshredSafe T Inv}.

(** The shred of a packet and the type it is counted under. *)
Definition parsed_ref (p : PacketDataRef) : option (Shred * ShredType) :=
  match ref_shred_type p, new_from_serialized_shred (ref_payload p) with Some t, Ok s => Some (s, t) | _, _ => None end.

(** No line is about a transaction below the threshold. *)
Definition no_votes (ev : log_event) : Prop :=
  match ev with LogTx _ _ _ _ (Some (_, size)) _ => VOTE_TXN_SIZE_THRESHOLD <= size | _ => True end.

Lemma ref_lines_no_votes ts m pl slot entries :
  exists lines, tx_lines true (fun i size sig => LogTx ts m slot i (Some (pl, size)) sig) entries = Done lines /\ Forall no_votes lines.
Proof.
  eexists. split; [apply tx_lines_eq|]. apply Forall_forall. intros ev Hev.
  apply tx_lines_elem in Hev as (i & e & t & sig & _ & _ & _ & -> & Hsize). by apply Hsize.
Qed.

(** The state after packets [ps]. *)
Definition ref_inv (ps : list PacketDataRef) (st : ref_state T) : Prop :=
  let parsed := omap parsed_ref ps in
  stats_counted (rs_stats st) (len ps) (count_type Data parsed.*2) (count_type Code parsed.*2) (len ps - len parsed) /\
  Inv parsed.*1 (rs_mgr st) /\ Forall no_votes (rs_log st).

Lemma process_shred_ref_step ps p st : ref_inv ps st -> exists st', process_shred_ref p st = Done st' /\ ref_inv (ps ++ [p]) st'.
Proof.
  intros (Hc & Hi & Hv). unfold process_shred_ref, ref_inv. cbv zeta. rewrite omap_snoc. remember (parsed_ref p) as o eqn:Eo. unfold parsed_ref in Eo.
  rewrite (len_snoc ps). destruct (ref_shred_type p) as [t|]; [|subst o; cbn [option_list]].
  - destruct (new_from_serialized_shred (ref_payload p)) as [x|e]; subst o; cbn [option_list].
    + destruct (add_safe _ (rs_mgr st) x Hi) as (m & o & E & Hm). rewrite E, bind_Done.
      assert (stats_counted (count_decoded t (count_received (rs_stats st))) (len ps + 1) (count_type Data (omap parsed_ref ps ++ [(x, t)]).*2)
        (count_type Code (omap parsed_ref ps ++ [(x, t)]).*2) (len ps + 1 - len (omap parsed_ref ps ++ [(x, t)]))) as Hc'.
      { rewrite fmap_app, len_snoc. replace (len ps + 1 - _) with (len ps - len (omap parsed_ref ps)) by lia. by apply counted_decoded. }
      destruct o as [[[slot es] pl]|].
      * destruct (ref_lines_no_votes (format_timestamp (timestamp (ref_meta p))) (Some (ref_meta p)) (packet_len p) slot es) as (lines & -> & Hl).
        rewrite bind_Done. eexists. split; [done|]. cbn [rs_stats rs_mgr rs_log]. split; [done|]. split; [by rewrite fmap_app|].
        apply Forall_app. split; [done|]. by apply Forall_cons.
      * eexists. split; [done|]. cbn [rs_stats rs_mgr rs_log]. split; [done|]. split; [by rewrite fmap_app|done].
    + eexists. split; [done|]. cbn [rs_stats rs_mgr rs_log]. rewrite app_nil_r. split; [|split; [done|]].
      * replace (len ps + 1 - _) with (len ps - len (omap parsed_ref ps) + 1) by lia. by apply counted_error.
      * destruct (_ =? 0); [|done]. apply Forall_app. split; [done|]. by apply Forall_singleton.
  - eexists. split; [done|]. cbn [rs_stats rs_mgr rs_log]. rewrite app_nil_r. split; [|done].
    replace (len ps + 1 - _) with (len ps - len (omap parsed_ref ps) + 1) by lia. by apply counted_error.
Qed.

Lemma process_refs ps0 ps st : ref_inv ps0 st -> exists st', for_each ps process_shred_ref st = Done st' /\ ref_inv (ps0 ++ ps) st'.
Proof.
  revert ps0 st. induction ps as [|p ps IH]; intros ps0 st Hi; [exists st; by rewrite app_nil_r|].
  destruct (process_shred_ref_step ps0 p st Hi) as (st1 & E1 & Hi1). destruct (IH _ _ Hi1) as (st2 & E2 & Hi2).
  exists st2. cbn [for_each]. rewrite E1, bind_Done. by rewrite <-(assoc_L app) in Hi2.
Qed.

(** C20: processing any packets over any assembler that meets the interface
    returns, and accounts for every packet: the counters are, modulo the width of
    [usize], the packets received, those parsed (data and coding ones by their
    pre-parsed type) and those that failed; the assembler has been given
    exactly the shreds parsed, in order; and no line is printed for a
    transaction below the vote threshold. *)
Theorem ref_packets_accounted ps (m : T) err_count :
  Inv [] m ->
  let parsed := omap parsed_ref ps in
  exists st, for_each ps process_shred_ref (mkRefState ShredStats_new m [] err_count) = Done st /\
    st_received (rs_stats st) = wrap 64 (len ps) /\ st_decoded (rs_stats st) = wrap 64 (len parsed) /\
    st_errors (rs_stats st) = wrap 64 (len ps - len parsed) /\
    st_data_shreds (rs_stats st) = wrap 64 (count_type Data parsed.*2) /\ st_code_shreds (rs_stats st) = wrap 64 (count_type Code parsed.*2) /\
    Inv parsed.*1 (rs_mgr st) /\ Forall no_votes (rs_log st).
Proof.
  intros Hm parsed. destruct (process_refs [] ps (mkRefState ShredStats_new m [] err_count)) as (st & E & Hc & Hi & Hv); [by split|].
  exists st. split; [done|]. unfold stats_counted in Hc. rewrite count_type_total, len_fmap in Hc. by rewrite Hc.
Qed.
End ref.

(** ** The decoder thread *)

Section decoder.
Context `{!ShredLaws L}.

Definition parsed_data (p : PacketData) : option Shred :=
  match parse_shred (data_payload p) with Ok s => Some s | Err _ => None end.

(** A line that reports a segment reports one that decodes from shreds seen. *)
Definition deshred_line_ok (seen : list Shred) (ev : log_event) : Prop :=
  match ev with
  | LogDeshred _ _ slot n txns =>
      exists seg entries payload, is_segment seg /\ (forall i x, seg !! i = Some x -> data_shred_of seen slot i x) /\
        decode_run (shred_payload <$> seg) = Some (entries, payload) /\ n = len entries /\ txns = txn_count entries
  | _ => True
  end.

Lemma deshred_line_mono seen x ev : deshred_line_ok seen ev -> deshred_line_ok (seen ++ [x]) ev.
Proof.
  destruct ev as [ts m slot n t| | |]; try done. intros (seg & es & pl & H1 & H2 & H3). exists seg, es, pl. split; [done|]. split; [|done].
  intros i y Hy. apply (data_shred_of_mono seen); [set_solver|by apply H2].
Qed.

Lemma cleanup_ok seen m cur back : manager_ok seen m -> manager_ok seen (cleanup_old_slots m cur back).
Proof.
  intros Hm slot. destruct (Hm slot) as (D & codes & Hh & Hs). unfold cleanup_old_slots.
  destruct (decide (saturating_sub cur back <= slot)) as [Hle|Hlt].
  - exists D, codes. split; [|done]. eapply holds_ne, Hh. cbn [slots]. apply option_eq. intros s. rewrite map_lookup_filter_Some. naive_solver.
  - exists fresh_shreds, []. split.
    + apply holds_new. cbn [slots]. apply map_lookup_filter_None. right. intros s _. done.
    + intros i x Hi. unfold fresh_shreds in Hi. by apply lookup_replicate in Hi as [? _].
Qed.

Definition decoder_inv (ps : list PacketData) (d : decoder) : Prop :=
  let parsed := omap parsed_data ps in
  stats_counted (d_stats d) (len ps) (count_type Data (shred_type <$> parsed)) (count_type Code (shred_type <$> parsed)) (len ps - len parsed) /\
  manager_ok parsed (d_mgr d) /\ Forall (deshred_line_ok parsed) (d_log d).

(** The lines of one shred. *)
Lemma decoder_lines seen d p x r :
  len (src_ip (data_meta p)) = 4 -> Forall (deshred_line_ok seen) (d_log d) -> answer_ok (seen ++ [x]) r ->
  exists log n, shred_lines p x d r = Done (log, n) /\ Forall (deshred_line_ok (seen ++ [x])) log.
Proof.
  intros Hip Hl Hr. unfold shred_lines. assert (Forall (deshred_line_ok (seen ++ [x])) (d_log d)) as Hl'.
  { eapply Forall_impl; [exact Hl|]. intros ev. apply deshred_line_mono. }
  destruct r as [[[slot es] pl]|].
  - rewrite tx_lines_eq, bind_Done. eexists _, _. split; [done|]. apply Forall_app. split; [done|]. apply Forall_cons. split.
    + destruct Hr as (seg & H1 & H2 & H3). by exists seg, es, pl.
    + apply Forall_forall. intros ev Hev. apply tx_lines_elem in Hev as (i & e & t & sig & _ & _ & _ & -> & _). done.
  - destruct (_ =? 0); [|by eexists _, _].
    destruct (slice_get_Done (src_ip (data_meta p)) 0) as (o & -> & _); [lia|]. rewrite !bind_Done. eexists _, _. split; [done|].
    apply Forall_app. split; [done|]. by apply Forall_singleton.
Qed.

Lemma process_shred_step ps p d :
  len (src_ip (data_meta p)) = 4 -> decoder_inv ps d -> exists d', process_shred p d = Done d' /\ decoder_inv (ps ++ [p]) d'.
Proof.
  intros Hip (Hc & Hm & Hl). unfold process_shred, decoder_inv. cbv zeta. rewrite omap_snoc. remember (parsed_data p) as o eqn:Eo. unfold parsed_data in Eo.
  rewrite (len_snoc ps). destruct (parse_shred (data_payload p)) as [x|e]; subst o;
    [change (option_list (Some x)) with [x]|change (option_list None) with (@nil Shred)].
  - destruct (manager_step _ (d_mgr d) x Hm) as (m & r & E & Hm' & Hr). rewrite E, bind_Done.
    destruct (decoder_lines _ d p x r Hip Hl Hr) as (log & n & -> & Hlog). rewrite bind_Done.
    eexists. split; [done|]. cbn [d_stats d_mgr d_log]. split; [|split; [|done]].
    + rewrite fmap_app, len_snoc. replace (len ps + 1 - _) with (len ps - len (omap parsed_data ps)) by lia.
      by apply counted_decoded.
    + destruct (_ =? 0); [by apply cleanup_ok|done].
  - eexists. split; [done|]. cbn [d_stats d_mgr d_log]. rewrite app_nil_r. split; [|split; [done|]].
    + replace (len ps + 1 - _) with (len ps - len (omap parsed_data ps) + 1) by lia. by apply counted_error.
    + destruct (_ =? 0); [|done]. apply Forall_app. split; [done|]. by apply Forall_singleton.
Qed.

Lemma process_all ps0 ps d :
  Forall (fun p => len (src_ip (data_meta p)) = 4) ps -> decoder_inv ps0 d -> exists d', for_each ps process_shred d = Done d' /\ decoder_inv (ps0 ++ ps) d'.
Proof.
  intros Hips. revert ps0 d. induction Hips as [|p ps Hp Hps IH]; intros ps0 d Hi; [exists d; by rewrite app_nil_r|].
  destruct (process_shred_step ps0 p d Hp Hi) as (d1 & E1 & Hi1). destruct (IH _ _ Hi1) as (d2 & E2 & Hi2).
  exists d2. cbn [for_each]. rewrite E1, bind_Done. by rewrite <-(assoc_L app) in Hi2.
Qed.

(** C19: the decoder thread handles every packet of its channel and returns when
    the channel is closed, whatever the packets hold: packets received are
    those decoded plus those in error, decoded ones are data plus coding
    shreds (counters modulo [usize]), and every segment it reports, also across
    the periodic removal of old slots, is a full segment of one slot
    decoded from shreds it received, with the entry and transaction counts it
    prints. *)
Theorem decoder_worker_accounts ps err_count shred_count :
  Forall (fun p => len (src_ip (data_meta p)) = 4) ps ->
  let parsed := omap parsed_data ps in
  exists d, decoder_worker ShredStats_new ps err_count shred_count = Done d /\
    st_received (d_stats d) = wrap 64 (len ps) /\ st_decoded (d_stats d) = wrap 64 (len parsed) /\
    st_errors (d_stats d) = wrap 64 (len ps - len parsed) /\
    st_data_shreds (d_stats d) = wrap 64 (count_type Data (shred_type <$> parsed)) /\
    st_code_shreds (d_stats d) = wrap 64 (count_type Code (shred_type <$> parsed)) /\
    Forall (deshred_line_ok parsed) (d_log d).
Proof.
  intros Hips parsed. destruct (process_all [] ps (mkDecoder ShredStats_new DeshredManager_new [] err_count shred_count)) as (d & E & Hc & Hm & Hl);
    [done|split; [done|split; [apply manager_ok_new|done]]|].
  exists d. split; [done|]. unfold stats_counted in Hc. rewrite count_type_total, len_fmap in Hc. by rewrite Hc.
Qed.
End decoder.
End processor.

(** ** On the example library *)

Definition toy_meta : packet_meta := mkMeta [10; 0; 0; 1] 8000 [10; 0; 0; 2] 8001 1700000000123456789.

(** A data shred, a packet that is not a shred, and a truncated one, over the sharded assembler. *)
Lemma ref_packets_accounted_witness :
  exists st, for_each [mkPacketDataRef [7; 0; 0; 1; 3; 5] 48 toy_meta (Some Data); mkPacketDataRef [1] 43 toy_meta None; mkPacketDataRef [7] 43 toy_meta (Some Code)]
      (process_shred_ref (L := ToyLib)) (mkRefState (L := ToyLib) _ ShredStats_new DeshredManagerLocal_new [] 0) = Done st /\
    st_received (rs_stats _ st) = 3 /\ st_decoded (rs_stats _ st) = 1 /\ st_errors (rs_stats _ st) = 2.
Proof.
  destruct (ref_packets_accounted (L := ToyLib) (Inv := assembler_ok)
    [mkPacketDataRef [7; 0; 0; 1; 3; 5] 48 toy_meta (Some Data); mkPacketDataRef [1] 43 toy_meta None; mkPacketDataRef [7] 43 toy_meta (Some Code)]
    DeshredManagerLocal_new 0 local_ok_new) as (st & E & H1 & H2 & H3 & _).
  exists st. split; [exact E|]. split; [exact H1|]. split; [exact H2|exact H3].
Defined.

Lemma decoder_worker_accounts_witness :
  exists d, decoder_worker (L := ToyLib) ShredStats_new [mkPacketData ([7; 0; 0; 1] ++ replicate 79 5) toy_meta; mkPacketData [1; 2] toy_meta] 0 0 = Done d /\
    st_received (d_stats d) = 2 /\ st_decoded (d_stats d) = 1 /\ st_errors (d_stats d) = 1.
Proof.
  destruct (decoder_worker_accounts (L := ToyLib) [mkPacketData ([7; 0; 0; 1] ++ replicate 79 5) toy_meta; mkPacketData [1; 2] toy_meta] 0 0)
    as (d & E & H1 & H2 & H3 & _); [by repeat constructor|].
  exists d. split; [exact E|]. split; [exact H1|]. split; [exact H2|exact H3].
Defined.

Example format_timestamp_ex : format_timestamp (timestamp toy_meta) = "22:13:20.123456789"%string.
Proof. vm_compute. reflexivity. Qed.
