(* ===== verification/Event.v ===== *)
(** * The zero-copy packet event ([examples/disruptor_event.rs])

    An event of the ring buffer: offsets into the UMEM instead of packet data. *)

From S2P Require Import Prelude Words Shred.

Record PacketEventZeroCopy := mkEvent {
  umem_offset : Z; payload_offset : Z; payload_len : Z; ev_packet_len : Z;
  ev_src_ip : list Z; ev_src_port : Z; ev_dst_ip : list Z; ev_dst_port : Z;
  ev_timestamp : Z; ev_shred_type : option ShredType; valid : bool;
}.

Definition factory : PacketEventZeroCopy := mkEvent 0 0 0 0 [0; 0; 0; 0] 0 [0; 0; 0; 0] 0 0 None false.

Definition event_reset (e : PacketEventZeroCopy) : PacketEventZeroCopy :=
  mkEvent (umem_offset e) (payload_offset e) (payload_len e) (ev_packet_len e) (ev_src_ip e) (ev_src_port e) (ev_dst_ip e) (ev_dst_port e)
    (ev_timestamp e) None false.

Definition set_from_umem (e : PacketEventZeroCopy) (uoff poff plen pktlen : Z) (sip : list Z) (sport : Z) (dip : list Z) (dport : Z)
    (ts : Z) (t : option ShredType) : PacketEventZeroCopy :=
  mkEvent uoff poff plen pktlen sip sport dip dport ts t true.

(** [slice::from_raw_parts(umem_base.add(a), n)] on a UMEM of bytes [mem]: outside
    of it the behaviour is undefined. *)
Definition raw_slice (mem : list Z) (a n : Z) : outcome (list Z) :=
  if decide (0 <= a /\ 0 <= n /\ a + n <= len mem) then Done (take (Z.to_nat n) (drop (Z.to_nat a) mem)) else UB.

Definition payload_slice (mem : list Z) (e : PacketEventZeroCopy) : outcome (list Z) :=
  raw_slice mem (umem_offset e + payload_offset e) (payload_len e).

Definition packet_slice (mem : list Z) (e : PacketEventZeroCopy) : outcome (list Z) :=
  raw_slice mem (umem_offset e) (ev_packet_len e).

(** When the packet lies in the UMEM and the payload in the packet, both slices
    are in bounds and the payload is the part of the packet at its offset. *)
Lemma payload_slice_in_packet mem e uoff poff plen pktlen sip sport dip dport ts t :
  0 <= uoff -> 0 <= poff -> 0 <= plen -> poff + plen <= pktlen -> uoff + pktlen <= len mem ->
  let e' := set_from_umem e uoff poff plen pktlen sip sport dip dport ts t in
  exists pkt, packet_slice mem e' = Done pkt /\ len pkt = pktlen /\
    payload_slice mem e' = Done (take (Z.to_nat plen) (drop (Z.to_nat poff) pkt)).
Proof.
  intros H1 H2 H3 H4 H5. unfold packet_slice, payload_slice, raw_slice. cbn [umem_offset payload_offset payload_len ev_packet_len set_from_umem].
  rewrite !decide_True by lia. eexists. split; [done|]. split; [rewrite len_take, len_drop; lia|]. f_equal.
  rewrite skipn_firstn_comm, take_take, drop_drop. f_equal; [lia|]. f_equal. lia.
Qed.
