(* ===== verification/Program.v ===== *)
(** * The XDP program ([src/src/program.rs], [src/xdp-ebpf/src/main.rs])

    Loading and attaching the program, inserting sockets into its map, and the
    program itself, which redirects a packet to the socket of its queue. The
    [aya] library and the kernel's map are the class [Aya]. *)

From stdpp Require Import gmap strings.
From S2P Require Import Prelude Words.

Inductive XdpFlags := DRV_MODE | SKB_MODE.
Inductive xdp_action := XDP_PASS | XDP_REDIRECT.

(** ** The library and the kernel *)

(** [attached e i] is the program of the object, by its name, that interface [i]
    runs, and the mode it runs in; [xskmap_lookup] is the map it redirects by. *)
Class Aya := mkAya {
  Ebpf : Type; AyaError : Type;
  ebpf_load : result Ebpf AyaError;
  ebpf_program : Ebpf -> string -> bool;
  program_is_xdp : Ebpf -> string -> result unit AyaError;
  program_load : Ebpf -> string -> result Ebpf AyaError;
  attach_to_if_index : Ebpf -> string -> Z -> XdpFlags -> result Ebpf AyaError;
  ebpf_map : Ebpf -> string -> bool;
  map_is_xskmap : Ebpf -> string -> result unit AyaError;
  xskmap_set : Ebpf -> string -> Z -> Z -> Z -> result Ebpf AyaError;
  (* what the kernel sees *)
  attached : Ebpf -> Z -> option (string * XdpFlags);
  xskmap_lookup : Ebpf -> Z -> option Z;
}.

(** What the two calls do when they succeed: attaching puts the named program on
    the interface in the given mode and leaves the map alone, and
    [set] stores one entry and leaves the attachment alone; a loaded program has
    an empty map. *)
Class AyaLaws (A : Aya) : Prop := {
  ebpf_load_empty e q : ebpf_load = Ok e -> xskmap_lookup e q = None;
  program_load_map e n e' q : program_load e n = Ok e' -> xskmap_lookup e' q = xskmap_lookup e q;
  attach_spec e n i f e' : attach_to_if_index e n i f = Ok e' -> attached e' i = Some (n, f) /\ forall q, xskmap_lookup e' q = xskmap_lookup e q;
  xskmap_set_spec e n q fd flags e' :
    xskmap_set e n q fd flags = Ok e' ->
    (forall p, xskmap_lookup e' p = if decide (p = q) then Some fd else xskmap_lookup e p) /\ forall i, attached e' i = attached e i;
}.

Section program.
Context {A : Aya}.

(** A [Box<dyn Error>]. *)
Inductive program_error := NoProgram | NoMap | LibraryError (e : AyaError).

Definition lib {X} (r : result X AyaError) : result X program_error := match r with Ok x => Ok x | Err e => Err (LibraryError e) end.

Definition and_then {X Y E} (r : result X E) (k : X -> result Y E) : result Y E := match r with Ok x => k x | Err e => Err e end.

(** ** [program.rs] *)

Definition program_name (ebpf : Ebpf) : result string program_error :=
  if ebpf_program ebpf "xdp_redirect" then Ok "xdp_redirect"%string
  else if ebpf_program ebpf "xdp" then Ok "xdp"%string
  else Err NoProgram.

Definition load_xdp_program (if_index : Z) : result Ebpf program_error :=
  and_then (lib ebpf_load) (fun ebpf =>
  and_then (program_name ebpf) (fun name =>
  and_then (lib (program_is_xdp ebpf name)) (fun _ =>
  and_then (lib (program_load ebpf name)) (fun ebpf =>
  match attach_to_if_index ebpf name if_index DRV_MODE with
  | Ok ebpf => Ok ebpf
  | Err _ => lib (attach_to_if_index ebpf name if_index SKB_MODE)
  end)))).

Definition insert_socket_into_xskmap (ebpf : Ebpf) (queue_id socket_fd : Z) : result Ebpf program_error :=
  if ebpf_map ebpf "XSKS_MAP" then
    and_then (lib (map_is_xskmap ebpf "XSKS_MAP")) (fun _ => lib (xskmap_set ebpf "XSKS_MAP" queue_id socket_fd 0))
  else Err NoMap.

(** ** [main.rs] of the eBPF program *)

(** [XSKS_MAP.redirect(queue_id, 0)]: the packet goes to the socket of the
    entry; without one the call fails. *)
Definition try_xdp_redirect (ebpf : Ebpf) (rx_queue_index : Z) : result (xdp_action * Z) unit :=
  match xskmap_lookup ebpf rx_queue_index with
  | Some fd => Ok (XDP_REDIRECT, fd)
  | None => Err tt
  end.

(** The action for a packet, and the socket it goes to. *)
Definition xdp_redirect (ebpf : Ebpf) (rx_queue_index : Z) : xdp_action * option Z :=
  match try_xdp_redirect ebpf rx_queue_index with
  | Ok (ret, fd) => (ret, Some fd)
  | Err _ => (XDP_PASS, None)
  end.

(** ** Together *)

(** Sockets inserted one after the other, until one insertion fails. *)
Fixpoint insert_sockets (ebpf : Ebpf) (l : list (Z * Z)) : result Ebpf program_error :=
  match l with
  | [] => Ok ebpf
  | (q, fd) :: l => and_then (insert_socket_into_xskmap ebpf q fd) (fun ebpf => insert_sockets ebpf l)
  end.

Lemma and_then_Ok {X Y E} (r : result X E) (k : X -> result Y E) y : and_then r k = Ok y -> exists x, r = Ok x /\ k x = Ok y.
Proof. destruct r as [x|e]; [|done]. by exists x. Qed.

Lemma lib_Ok {X} (r : result X AyaError) x : lib r = Ok x -> r = Ok x.
Proof. by destruct r; intros [= ->]. Qed.

(** The last socket inserted for a queue. *)
Definition last_socket (l : list (Z * Z)) (q : Z) : option Z := snd <$> last (filter (fun e => e.1 = q) l).

Context `{!AyaLaws A}.

(** How the program came to be attached: [xdp_redirect], or [xdp] when the object
    has no [xdp_redirect], was loaded, and either its attachment in driver mode
    succeeded, or that attachment failed and the one in generic mode succeeded. *)
Definition attached_program (if_index : Z) (ebpf : Ebpf) : Prop :=
  exists e0 e1 e2 n, ebpf_load = Ok e0 /\
    (n = "xdp_redirect"%string /\ ebpf_program e0 "xdp_redirect" = true \/
     n = "xdp"%string /\ ebpf_program e0 "xdp_redirect" = false /\ ebpf_program e0 "xdp" = true) /\
    program_is_xdp e0 n = Ok tt /\ program_load e0 n = Ok e1 /\
    (attach_to_if_index e1 n if_index DRV_MODE = Ok e2 /\ attached ebpf if_index = Some (n, DRV_MODE) \/
     (exists err, attach_to_if_index e1 n if_index DRV_MODE = Err err) /\
     attach_to_if_index e1 n if_index SKB_MODE = Ok e2 /\ attached ebpf if_index = Some (n, SKB_MODE)).

Lemma program_name_Ok e n :
  program_name e = Ok n ->
  n = "xdp_redirect"%string /\ ebpf_program e "xdp_redirect" = true \/
  n = "xdp"%string /\ ebpf_program e "xdp_redirect" = false /\ ebpf_program e "xdp" = true.
Proof.
  unfold program_name. destruct (ebpf_program e "xdp_redirect"); [intros [= <-]; by left|].
  destruct (ebpf_program e "xdp"); [|done]. intros [= <-]. by right.
Qed.

Lemma load_xdp_program_Ok if_index ebpf :
  load_xdp_program if_index = Ok ebpf -> (forall q, xskmap_lookup ebpf q = None) /\ attached_program if_index ebpf.
Proof.
  intros H. apply and_then_Ok in H as (e0 & H0 & H). apply lib_Ok in H0. apply and_then_Ok in H as (n & Hn & H).
  apply program_name_Ok in Hn. apply and_then_Ok in H as ([] & Hx & H). apply lib_Ok in Hx.
  apply and_then_Ok in H as (e1 & H1 & H). apply lib_Ok in H1.
  assert (forall q, xskmap_lookup e1 q = None) as Hempty.
  { intros q. rewrite (program_load_map _ _ _ q H1). by apply ebpf_load_empty. }
  destruct (attach_to_if_index e1 n if_index DRV_MODE) as [e2|err] eqn:Ed.
  - injection H as ->. pose proof (attach_spec _ _ _ _ _ Ed) as [Ha Hm]. split; [intros q; by rewrite Hm|].
    exists e0, e1, ebpf, n. split_and!; try done. by left.
  - apply lib_Ok in H. pose proof (attach_spec _ _ _ _ _ H) as [Ha Hm]. split; [intros q; by rewrite Hm|].
    exists e0, e1, ebpf, n. split_and!; try done. right. split_and!; [by eexists|done|done].
Qed.

Lemma insert_socket_Ok ebpf q fd ebpf' :
  insert_socket_into_xskmap ebpf q fd = Ok ebpf' ->
  (forall p, xskmap_lookup ebpf' p = if decide (p = q) then Some fd else xskmap_lookup ebpf p) /\ forall i, attached ebpf' i = attached ebpf i.
Proof.
  unfold insert_socket_into_xskmap. destruct (ebpf_map ebpf "XSKS_MAP"); [|done]. intros H. apply and_then_Ok in H as (_ & _ & H).
  apply lib_Ok in H. by eapply xskmap_set_spec.
Qed.

Lemma last_cons_default {X} (x : X) l : last (x :: l) = Some (default x (last l)).
Proof. rewrite last_cons. by destruct (last l). Qed.

Lemma insert_sockets_Ok l ebpf ebpf' :
  insert_sockets ebpf l = Ok ebpf' ->
  (forall q, xskmap_lookup ebpf' q = match last_socket l q with Some fd => Some fd | None => xskmap_lookup ebpf q end) /\
  forall i, attached ebpf' i = attached ebpf i.
Proof.
  revert ebpf. induction l as [|[q fd] l IH]; cbn [insert_sockets]; intros ebpf H; [by injection H as ->|].
  apply and_then_Ok in H as (e1 & H1 & H2). apply insert_socket_Ok in H1 as [Hm Ha]. destruct (IH _ H2) as [Hm2 Ha2].
  split; [|intros i; by rewrite Ha2]. intros p. rewrite Hm2, Hm. unfold last_socket. rewrite filter_cons. cbn [fst].
  destruct (decide (q = p)) as [->|Hne].
  - rewrite decide_True by done. rewrite last_cons_default. by destruct (last _) as [[? ?]|].
  - by rewrite (decide_False (P := p = q)) by done.
Qed.

(** C24: with the program loaded and sockets inserted for some queues, a packet
    arriving on a queue is redirected to the socket inserted last for it, and on
    a queue without a socket it is left to the kernel's network stack. The
    program on the interface is [xdp_redirect] of the loaded object, or [xdp]
    only when the object has no [xdp_redirect]; it was loaded before it was
    attached, and it is attached in driver mode, or in generic mode only when
    the attachment of this same loaded program in driver mode failed. *)
Theorem packets_reach_inserted_sockets if_index ebpf l ebpf' :
  load_xdp_program if_index = Ok ebpf -> insert_sockets ebpf l = Ok ebpf' ->
  (forall q, xdp_redirect ebpf' q = match last_socket l q with Some fd => (XDP_REDIRECT, Some fd) | None => (XDP_PASS, None) end) /\
  exists e0 e1 e2 n, ebpf_load = Ok e0 /\
    (n = "xdp_redirect"%string /\ ebpf_program e0 "xdp_redirect" = true \/
     n = "xdp"%string /\ ebpf_program e0 "xdp_redirect" = false /\ ebpf_program e0 "xdp" = true) /\
    program_is_xdp e0 n = Ok tt /\ program_load e0 n = Ok e1 /\
    (attach_to_if_index e1 n if_index DRV_MODE = Ok e2 /\ attached ebpf' if_index = Some (n, DRV_MODE) \/
     (exists err, attach_to_if_index e1 n if_index DRV_MODE = Err err) /\
     attach_to_if_index e1 n if_index SKB_MODE = Ok e2 /\ attached ebpf' if_index = Some (n, SKB_MODE)).
Proof.
  intros H1 H2. apply load_xdp_program_Ok in H1 as [Hempty Ha]. apply insert_sockets_Ok in H2 as [Hm Ha2]. split.
  - intros q. unfold xdp_redirect, try_xdp_redirect. rewrite Hm, Hempty. by destruct (last_socket l q).
  - unfold attached_program in Ha. by setoid_rewrite Ha2.
Qed.
End program.

(** ** A driver without native mode, and a map of 64 entries *)

Record toy_ebpf := mkToyEbpf { te_attached : option (Z * (string * XdpFlags)); te_map : gmap Z Z }.

Definition ToyAya : Aya :=
  mkAya toy_ebpf unit (Ok (mkToyEbpf None ∅)) (fun _ n => bool_decide (n = "xdp_redirect"%string)) (fun _ _ => Ok tt) (fun e _ => Ok e)
    (fun e n i f => match f with DRV_MODE => Err tt | SKB_MODE => Ok (mkToyEbpf (Some (i, (n, f))) (te_map e)) end)
    (fun _ n => bool_decide (n = "XSKS_MAP"%string)) (fun _ _ => Ok tt)
    (fun e _ q fd _ => if q <? 64 then Ok (mkToyEbpf (te_attached e) (<[q := fd]> (te_map e))) else Err tt)
    (fun e i => match te_attached e with Some (j, nf) => if decide (i = j) then Some nf else None | None => None end)
    (fun e q => te_map e !! q).

#[global] Instance ToyAyaLaws : AyaLaws ToyAya.
Proof.
  split; cbn.
  - by intros e q [= <-].
  - by intros e n e' q [= <-].
  - intros e n i [|] e'; [done|]. intros [= <-]. cbn. split; [by rewrite decide_True|done].
  - intros e n q fd flags e'. destruct (q <? 64); [|done]. intros [= <-]. cbn. split; [|done]. intros p.
    destruct (decide (p = q)) as [->|]; [apply lookup_insert_eq|by rewrite lookup_insert_ne].
Qed.

Lemma packets_reach_inserted_sockets_witness :
  exists e e', load_xdp_program (A := ToyAya) 3 = Ok e /\ insert_sockets (A := ToyAya) e [(0, 7); (1, 8); (0, 9)] = Ok e' /\
    xdp_redirect (A := ToyAya) e' 0 = (XDP_REDIRECT, Some 9) /\ xdp_redirect (A := ToyAya) e' 5 = (XDP_PASS, None) /\
    exists n, @attached ToyAya e' 3 = Some (n, SKB_MODE).
Proof.
  eexists _, _. split; [reflexivity|]. split; [reflexivity|].
  destruct (packets_reach_inserted_sockets (A := ToyAya) 3 (mkToyEbpf (Some (3, ("xdp_redirect"%string, SKB_MODE))) ∅) [(0, 7); (1, 8); (0, 9)] _ eq_refl eq_refl)
    as [Hr (e0 & e1 & e2 & n & _ & _ & _ & _ & Ha)].
  split; [exact (Hr 0)|]. split; [exact (Hr 5)|]. destruct Ha as [[? _]|(_ & _ & Ha)]; [done|]. exists n. exact Ha.
Defined.
