(* ===== verification/RelayMain.v ===== *)
(** * The relay program ([examples/relay.rs])

    The command line of the relay: capabilities, the device, the destination
    address and port, the destination MAC address, and the start of the relay
    loop. Strings are their UTF-8 bytes. *)

From S2P Require Import Prelude Words Net Umem Ring Netlink Route Device Socket Setup.

(** ** Parsing of [std] *)

(** [str::split] on an ASCII character. *)
Fixpoint split (c : Z) (l : list Z) : list (list Z) :=
  match l with
  | [] => [[]]
  | b :: l =>
      if b =? c then [] :: split c l
      else match split c l with p :: ps => (b :: p) :: ps | [] => [[b]] end
  end.

(** [char::to_digit]. *)
Definition to_digit (radix b : Z) : option Z :=
  let d :=
    if (48 <=? b) && (b <=? 57) then b - 48
    else if (97 <=? b) && (b <=? 122) then b - 87
    else if (65 <=? b) && (b <=? 90) then b - 55
    else radix in
  if d <? radix then Some d else None.

(** Digits into a [u8], with [checked_mul] and [checked_add]. *)
Fixpoint u8_digits (radix acc : Z) (l : list Z) : option Z :=
  match l with
  | [] => Some acc
  | b :: l =>
      match to_digit radix b with
      | None => None
      | Some d =>
          if 255 <? acc * radix then None
          else if 255 <? acc * radix + d then None
          else u8_digits radix (acc * radix + d) l
      end
  end.

(** [u8::from_str_radix(p, 16)]: a leading [+] is accepted, a sign alone is not. *)
Definition u8_from_str_radix_16 (p : list Z) : option Z :=
  match p with
  | [] => None
  | [b] => if (b =? 43) || (b =? 45) then None else u8_digits 16 0 p
  | b :: rest => if b =? 43 then u8_digits 16 0 rest else u8_digits 16 0 p
  end.

(** An octet of [Ipv4Addr::from_str]: one to three digits, no leading zero. *)
Definition parse_octet (p : list Z) : option Z :=
  if (len p =? 0) || (3 <? len p) then None
  else if (1 <? len p) && bool_decide (head p = Some 48) then None
  else u8_digits 10 0 p.

Definition parse_ipv4 (s : list Z) : option Ipv4Addr :=
  match split 46 s with
  | [a; b; c; d] =>
      match parse_octet a, parse_octet b, parse_octet c, parse_octet d with
      | Some a, Some b, Some c, Some d => Some (Ipv4 a b c d)
      | _, _, _, _ => None
      end
  | _ => None
  end.

(** ** [main] *)

Record Opt := mkOpt {
  o_interface : list Z; o_dest_ip : option (list Z); o_dest_port : option Z; o_dest_mac : option (list Z);
  o_zero_copy : bool; o_queue : Z; o_cpu : Z;
}.

(** How [main] ends up: [exit(1)], an error returned, or the loop. *)
Inductive main_result :=
  | ExitFailure
  | MainErr
  | Relay (cpu : Z) (dev : NetworkDevice) (queue : Z) (zero_copy : bool)
      (dest_ip : option Ipv4Addr) (dest_port : option Z) (dest_mac : option MacAddress).

(** Parsing the MAC address argument; [None] is [exit(1)]. *)
Definition parse_mac (mac_str : list Z) : outcome (option MacAddress) :=
  let parts := split 58 mac_str in
  if negb (len parts =? 6) then Done None else
  match mapM u8_from_str_radix_16 parts with
  | None => Done None
  | Some bytes =>
      b0 ← slice_get bytes 0; b1 ← slice_get bytes 1; b2 ← slice_get bytes 2;
      b3 ← slice_get bytes 3; b4 ← slice_get bytes 4; b5 ← slice_get bytes 5;
      Done (Some (Mac [b0; b1; b2; b3; b4; b5]))
  end.

(** The destination; [Ok None] is [exit(1)]. *)
Definition parse_dest (dest_ip : option (list Z)) (dest_port : option Z) : result (option (option Ipv4Addr * option Z)) unit :=
  match dest_ip, dest_port with
  | Some ip, Some port => match parse_ipv4 ip with Some a => Ok (Some (Some a, Some port)) | None => Err tt end
  | None, None => Ok (Some (None, None))
  | _, _ => Ok None
  end.

Section main.
Context `{HostOs} `{NetOs}.

Definition relay_caps : list capability := [CAP_NET_ADMIN; CAP_NET_RAW; CAP_BPF].

Definition main (opt : Opt) : outcome main_result :=
  if negb (forallb host_cap_raise relay_caps) then Done ExitFailure else
  pinned ← set_cpu_affinity [o_cpu opt];
  _ ← unwrap_ok pinned;
  match NetworkDevice_new (o_interface opt) with
  | Err _ => Done MainErr
  | Ok dev =>
      match parse_dest (o_dest_ip opt) (o_dest_port opt) with
      | Err _ => Done MainErr
      | Ok None => Done ExitFailure
      | Ok (Some (dest_ip, dest_port)) =>
          mac ← match o_dest_mac opt with
                | None => Done (Some None)
                | Some s => m ← parse_mac s; Done (option_map Some m)
                end;
          match mac with
          | None => Done ExitFailure
          | Some dest_mac => Done (Relay (o_cpu opt) dev (o_queue opt) (o_zero_copy opt) dest_ip dest_port dest_mac)
          end
      end
  end.
End main.

(** ** Printing *)

Definition digit_char (d : Z) : Z := if d <? 10 then 48 + d else 87 + d.

(** [{:02x}]. *)
Definition hex2 (b : Z) : list Z := [digit_char (b / 16); digit_char (b mod 16)].

(** [{:02x}:{:02x}:...], the line [main] prints for the MAC address. *)
Definition print_mac (m : MacAddress) : list Z :=
  match mac_bytes m with [] => [] | b :: bs => hex2 b ++ concat ((fun b => 58 :: hex2 b) <$> bs) end.

(** [Display] of an octet and of an [Ipv4Addr]. *)
Definition print_u8 (b : Z) : list Z :=
  if b <? 10 then [48 + b] else if b <? 100 then [48 + b / 10; 48 + b mod 10] else [48 + b / 100; 48 + b / 10 mod 10; 48 + b mod 10].

Definition print_ipv4 (a : Ipv4Addr) : list Z :=
  print_u8 (oct0 a) ++ 46 :: print_u8 (oct1 a) ++ 46 :: print_u8 (oct2 a) ++ 46 :: print_u8 (oct3 a).

(** ** What the arguments spell *)

(** Parts separated by a character. *)
Definition joined (c : Z) (parts : list (list Z)) : list Z :=
  match parts with [] => [] | p :: ps => p ++ concat ((fun p => c :: p) <$> ps) end.

(** A hexadecimal digit and its value. *)
Definition hex_char (b d : Z) : Prop :=
  48 <= b <= 57 /\ d = b - 48 \/ 97 <= b <= 102 /\ d = b - 87 \/ 65 <= b <= 70 /\ d = b - 55.
Definition hex_value (ds : list Z) : Z := foldl (fun n d => n * 16 + d) 0 ds.

(** A byte in hexadecimal: digits, perhaps after a plus sign, of a value that
    fits. *)
Definition hex_byte_text (p : list Z) (v : Z) : Prop :=
  exists sign digits ds, p = sign ++ digits /\ (sign = [] \/ sign = [43]) /\ digits <> [] /\
    Forall2 hex_char digits ds /\ v = hex_value ds /\ v <= 255.

(** A MAC address: six such bytes between colons. *)
Definition mac_text (s : list Z) (m : MacAddress) : Prop :=
  exists parts, length parts = 6%nat /\ s = joined 58 parts /\ Forall2 hex_byte_text parts (mac_bytes m).

(** A destination: neither address nor port, or an address in dotted decimal
    and a port. *)
Definition dest_text (text : option (list Z)) (port : option Z) (ip : option Ipv4Addr) : Prop :=
  match text, port with
  | None, None => ip = None
  | Some s, Some _ => exists a, ipv4_ok a /\ s = print_ipv4 a /\ ip = Some a
  | _, _ => False
  end.

(** ** The parsers read what is spelled *)

Lemma split_nonempty c l : split c l <> [].
Proof. destruct l as [|b l]; cbn; [done|]. destruct (b =? c); [done|]. by destruct (split c l). Qed.

Lemma split_app c p l : Forall (fun b => b <> c) p -> split c (p ++ c :: l) = p :: split c l.
Proof.
  induction 1 as [|b p Hb Hp IH]; cbn; [by rewrite Z.eqb_refl|]. rewrite (proj2 (Z.eqb_neq b c)) by done. by rewrite IH.
Qed.

Lemma split_last c p : Forall (fun b => b <> c) p -> split c p = [p].
Proof. induction 1 as [|b p Hb Hp IH]; cbn; [done|]. rewrite (proj2 (Z.eqb_neq b c)) by done. by rewrite IH. Qed.

Lemma split_joined c p ps :
  Forall (Forall (fun b => b <> c)) (p :: ps) -> split c (joined c (p :: ps)) = p :: ps.
Proof.
  revert p. induction ps as [|q ps IH]; intros p Hp; apply Forall_cons in Hp as [Hp Hps]; cbn.
  - rewrite app_nil_r. by apply split_last.
  - rewrite split_app by done. f_equal. by apply IH.
Qed.

Lemma joined_split c l : joined c (split c l) = l.
Proof.
  induction l as [|b l IH]; cbn; [done|]. pose proof (split_nonempty c l).
  destruct (Z.eqb_spec b c) as [->|]; destruct (split c l) as [|p ps]; try done; cbn in *; by rewrite IH.
Qed.

Lemma to_digit_16 b d : to_digit 16 b = Some d <-> hex_char b d.
Proof.
  unfold to_digit, hex_char. destruct (Z.leb_spec 48 b), (Z.leb_spec b 57), (Z.leb_spec 97 b), (Z.leb_spec b 122),
    (Z.leb_spec 65 b), (Z.leb_spec b 90); cbn [andb]; case_match; rewrite ?Z.ltb_lt, ?Z.ltb_ge in *;
    (split; [intros [= <-]|intros ?; f_equal]); lia.
Qed.

Lemma to_digit_10 b d : to_digit 10 b = Some d -> 48 <= b <= 57 /\ d = b - 48.
Proof.
  unfold to_digit. destruct (Z.leb_spec 48 b), (Z.leb_spec b 57), (Z.leb_spec 97 b), (Z.leb_spec b 122),
    (Z.leb_spec 65 b), (Z.leb_spec b 90); cbn [andb]; case_match; rewrite ?Z.ltb_lt, ?Z.ltb_ge in *;
    (intros [= <-] || intros [=]); lia.
Qed.

Lemma hex_fold_mono acc ds : 0 <= acc -> Forall (fun d => 0 <= d) ds -> acc <= foldl (fun n d => n * 16 + d) acc ds.
Proof.
  intros Ha Hds. revert acc Ha. induction Hds as [|d ds Hd Hds IH]; intros acc Ha; cbn; [lia|].
  specialize (IH (acc * 16 + d) ltac:(lia)). lia.
Qed.

Lemma hex_digits_nonneg l ds : Forall2 hex_char l ds -> Forall (fun d => 0 <= d) ds.
Proof. induction 1 as [|b d l ds Hb _ IH]; constructor; [unfold hex_char in Hb; lia|done]. Qed.

(** The checked accumulation stops exactly on a bad digit or an overflow. *)
Lemma u8_digits_16 l acc v :
  0 <= acc <= 255 ->
  u8_digits 16 acc l = Some v <-> exists ds, Forall2 hex_char l ds /\ v = foldl (fun n d => n * 16 + d) acc ds /\ v <= 255.
Proof.
  revert acc. induction l as [|b l IH]; intros acc Ha; cbn [u8_digits].
  { split; [intros [= <-]; exists []; split; [done|]; cbn; lia|]. intros (ds & Hd & -> & _). by inversion Hd. }
  destruct (to_digit 16 b) as [d|] eqn:Ed.
  2: { split; [done|]. intros (ds & Hd & _). inversion Hd as [|? d ? ds' Hb]; subst. apply to_digit_16 in Hb. congruence. }
  apply to_digit_16 in Ed as Hb. assert (0 <= d) by (unfold hex_char in Hb; lia).
  assert (forall ds, Forall2 hex_char (b :: l) ds -> exists ds', ds = d :: ds' /\ Forall2 hex_char l ds') as Hinv.
  { intros ds Hd. inversion Hd as [|? d' ? ds' Hb' Hl]; subst. apply to_digit_16 in Hb'. exists ds'. split; [congruence|done]. }
  destruct (decide (acc * 16 + d <= 255)) as [Hle|Hgt].
  - rewrite (proj2 (Z.ltb_ge 255 (acc * 16))), (proj2 (Z.ltb_ge 255 (acc * 16 + d))), IH by lia. split.
    + intros (ds & Hd & ? & ?). exists (d :: ds). split; [by constructor|done].
    + intros (ds & Hd & ? & ?). destruct (Hinv ds Hd) as (ds' & -> & ?). by exists ds'.
  - split; [destruct (Z.ltb_spec 255 (acc * 16)); [done|]; by rewrite (proj2 (Z.ltb_lt 255 (acc * 16 + d))) by lia|].
    intros (ds & Hd & -> & Hv). destruct (Hinv ds Hd) as (ds' & -> & Hd'). cbn in Hv.
    pose proof (hex_fold_mono (acc * 16 + d) ds' ltac:(lia) (hex_digits_nonneg _ _ Hd')). lia.
Qed.

Lemma u8_from_str_radix_16_spec p v : u8_from_str_radix_16 p = Some v <-> hex_byte_text p v.
Proof.
  assert (forall l, u8_digits 16 0 l = Some v <-> exists ds, Forall2 hex_char l ds /\ v = hex_value ds /\ v <= 255) as Hd
    by (intros l; by apply u8_digits_16).
  assert (forall b l, u8_digits 16 0 (b :: l) = Some v -> hex_byte_text (b :: l) v) as Hplain.
  { intros b l (ds & ?)%Hd. exists [], (b :: l), ds. split_and!; naive_solver. }
  assert (forall l ds, Forall2 hex_char (43 :: l) ds -> False) as H43.
  { intros l ds Hf. inversion Hf as [|? ? ? ? Hb]; subst. unfold hex_char in Hb. lia. }
  assert (forall l ds, Forall2 hex_char (45 :: l) ds -> False) as H45.
  { intros l ds Hf. inversion Hf as [|? ? ? ? Hb]; subst. unfold hex_char in Hb. lia. }
  split.
  - destruct p as [|b [|b' p]]; cbn [u8_from_str_radix_16]; [done| |].
    + destruct (_ || _); [done|]. apply Hplain.
    + destruct (Z.eqb_spec b 43) as [->|]; [|apply Hplain]. intros (ds & ?)%Hd.
      exists [43], (b' :: p), ds. split_and!; naive_solver.
  - intros (sign & digits & ds & -> & [->| ->] & Hne & Hf & Hv); destruct digits as [|b l]; try done; cbn [app].
    + destruct (Z.eqb_spec b 43) as [->|N43]; [by destruct (H43 _ _ Hf)|].
      destruct (Z.eqb_spec b 45) as [->|N45]; [by destruct (H45 _ _ Hf)|]. unfold u8_from_str_radix_16.
      rewrite (proj2 (Z.eqb_neq b 43)), (proj2 (Z.eqb_neq b 45)) by done. cbn [orb].
      destruct l; apply Hd; by exists ds.
    + change (u8_digits 16 0 (b :: l) = Some v). apply Hd. by exists ds.
Qed.

Lemma hex_byte_no_colon p v : hex_byte_text p v -> Forall (fun b => b <> 58) p.
Proof.
  intros (sign & digits & ds & -> & Hs & _ & Hf & _). apply Forall_app. split; [by destruct Hs as [->| ->]; repeat constructor|].
  clear Hs. induction Hf as [|b d l ds Hb _ IH]; constructor; [unfold hex_char in Hb; lia|done].
Qed.

(** [parse_mac] returns the address the text spells, and [None] when there is
    none. *)
Lemma parse_mac_spec s :
  exists o, parse_mac s = Done o /\ match o with Some m => mac_text s m | None => forall m, ~ mac_text s m end.
Proof.
  assert (forall m, mac_text s m -> length (split 58 s) = 6%nat /\ mapM u8_from_str_radix_16 (split 58 s) = Some (mac_bytes m)) as Hback.
  { intros m (parts & Hl & -> & Hf). destruct parts as [|p ps]; [done|]. rewrite split_joined; [|].
    - split; [done|]. apply mapM_Some. eapply Forall2_impl; [exact Hf|]. intros q v. apply u8_from_str_radix_16_spec.
    - apply Forall_forall. intros q Hq. apply list_elem_of_lookup in Hq as [i Hi].
      destruct (Forall2_lookup_l _ _ _ _ _ Hf Hi) as (v & _ & Hv). by eapply hex_byte_no_colon. }
  unfold parse_mac. destruct (Z.eqb_spec (len (split 58 s)) 6) as [Hl|Hl]; cbn [negb].
  2: { eexists. split; [done|]. intros m Hm. destruct (Hback m Hm) as [E _]. unfold len in Hl. lia. }
  destruct (mapM u8_from_str_radix_16 (split 58 s)) as [bytes|] eqn:Eb.
  2: { eexists. split; [done|]. intros m Hm. destruct (Hback m Hm) as [_ E]. done. }
  apply mapM_Some in Eb. pose proof (Forall2_length _ _ _ Eb) as El. unfold len in Hl.
  assert (length bytes = 6%nat) as Lb by lia. do 6 (destruct bytes as [|? bytes]; [done|]). destruct bytes; [|done].
  eexists. split; [reflexivity|]. exists (split 58 s). split; [lia|]. split; [by rewrite joined_split|].
  eapply Forall2_impl; [exact Eb|]. intros q v. apply u8_from_str_radix_16_spec.
Qed.

(** A decidable statement about bytes holds when it holds for each of them. *)
Lemma all_bytes (P : Z -> Prop) `{!forall b, Decision (P b)} : bool_decide (Forall P (seqZ 0 256)) = true -> forall b, is_u8 b -> P b.
Proof.
  intros Hall b Hb. apply bool_decide_eq_true in Hall. rewrite Forall_forall in Hall. apply Hall. apply elem_of_seqZ. unfold is_uint in Hb. lia.
Qed.

Lemma hex2_spec b : is_u8 b -> hex_byte_text (hex2 b) b.
Proof.
  intros Hb. apply u8_from_str_radix_16_spec. revert b Hb.
  apply (all_bytes (fun b => u8_from_str_radix_16 (hex2 b) = Some b)). vm_compute. reflexivity.
Qed.

Lemma print_mac_text m : mac_ok m -> mac_text (print_mac m) m.
Proof.
  destruct m as [bs]. intros [Hl Hb]. cbn in Hl, Hb. exists (hex2 <$> bs). rewrite length_fmap. split; [done|]. cbn [mac_bytes]. split.
  - unfold print_mac. cbn [mac_bytes]. destruct bs as [|b bs]; [done|]. cbn. by rewrite <-list_fmap_compose.
  - clear Hl. induction Hb; constructor; [by apply hex2_spec|done].
Qed.

Lemma print_u8_spec b : is_u8 b -> parse_octet (print_u8 b) = Some b /\ Forall (fun c => c <> 46) (print_u8 b).
Proof. revert b. apply (all_bytes (fun b => parse_octet (print_u8 b) = Some b /\ Forall (fun c => c <> 46) (print_u8 b))). vm_compute. reflexivity. Qed.

(** An octet that parses is in the one notation it is printed in. *)
Lemma parse_octet_inv p v : parse_octet p = Some v -> is_u8 v /\ p = print_u8 v.
Proof.
  unfold parse_octet. destruct p as [|a [|b [|c [|e p]]]]; try done.
  2-3: cbn [head]; destruct (bool_decide_reflect (Some a = Some 48)) as [|Ha]; [done|].
  4: { cbn -[len]. rewrite !len_cons. pose proof (len_nonneg p). by rewrite (proj2 (Z.ltb_lt 3 _)), orb_true_r by lia. }
  all: cbn in *; unfold is_uint, print_u8; repeat case_match; try done;
    repeat match goal with Ht : to_digit 10 _ = Some _ |- _ => apply to_digit_10 in Ht as [? ->] end;
    rewrite ?Z.ltb_lt, ?Z.ltb_ge in *; intros [= <-]; try (assert (a <> 48) by congruence).
  all: first [exfalso; lia|split; [lia|]].
  all: repeat f_equal; Z.to_euclidean_division_equations; lia.
Qed.

Lemma parse_ipv4_spec s a : parse_ipv4 s = Some a <-> ipv4_ok a /\ s = print_ipv4 a.
Proof.
  unfold parse_ipv4. split.
  - pose proof (joined_split 46 s) as Es. repeat case_match; try done. intros [= <-].
    repeat match goal with Ho : parse_octet _ = Some _ |- _ => apply parse_octet_inv in Ho as [? ->] end.
    split; [by repeat (apply Forall_cons_2; [done|])|]. rewrite <-Es. cbn. by rewrite app_nil_r.
  - destruct a as [a b c d]. unfold ipv4_ok, bytes_ok, octets, print_ipv4. cbn [oct0 oct1 oct2 oct3].
    intros [[Ha [Hb [Hc [Hd _]%Forall_cons]%Forall_cons]%Forall_cons]%Forall_cons ->].
    destruct (print_u8_spec a Ha) as [Ea Na], (print_u8_spec b Hb) as [Eb Nb], (print_u8_spec c Hc) as [Ec Nc], (print_u8_spec d Hd) as [Ed Nd].
    rewrite !split_app, split_last by done. by rewrite Ea, Eb, Ec, Ed.
Qed.

(** ** The command line *)

Section command_line.
Context `{HostOs} `{NetOs}.

(** What is left once the capabilities are granted, the thread is pinned and the
    interface is found. *)
Lemma main_granted iface dev cpu queue zc ip port mac :
  forallb host_cap_raise relay_caps = true -> set_cpu_affinity [cpu] = Done (Ok tt) -> NetworkDevice_new iface = Ok dev ->
  main (mkOpt iface ip port mac zc queue cpu) =
    match parse_dest ip port with
    | Err _ => Done MainErr
    | Ok None => Done ExitFailure
    | Ok (Some (dest_ip, dest_port)) =>
        mac ← match mac with None => Done (Some None) | Some s => m ← parse_mac s; Done (option_map Some m) end;
        match mac with None => Done ExitFailure | Some dest_mac => Done (Relay cpu dev queue zc dest_ip dest_port dest_mac) end
    end.
Proof.
  intros Hc Ha Hd. unfold main. cbn [o_interface o_dest_ip o_dest_port o_dest_mac o_zero_copy o_queue o_cpu].
  rewrite Hc, Ha, Hd. done.
Qed.

Lemma parse_dest_text text port ip : dest_text text port ip -> parse_dest text port = Ok (Some (ip, port)).
Proof.
  destruct text as [s|], port as [port|]; try done; cbn; [|by intros ->].
  intros (a & Ha & -> & ->). by rewrite (proj2 (parse_ipv4_spec _ a) (conj Ha eq_refl)).
Qed.

Lemma parse_mac_text s m : mac_text s m -> exists m', parse_mac s = Done (Some m') /\ mac_text s m'.
Proof. intros Hm. destruct (parse_mac_spec s) as ([m'|] & E & Ho); [by exists m'|]. by destruct (Ho m). Qed.

(** A text spells one address only. *)
Lemma mac_text_inj s m m' : mac_text s m -> mac_text s m' -> m = m'.
Proof.
  intros (ps & Hl & Es & Hf) (ps' & Hl' & Es' & Hf').
  assert (forall qs vs, Forall2 hex_byte_text qs vs -> Forall (Forall (fun b => b <> 58)) qs) as Hnc.
  { induction 1; constructor; [by eapply hex_byte_no_colon|done]. }
  assert (ps = ps') as ->.
  { destruct ps as [|p ps], ps' as [|p' ps']; try done.
    by rewrite <-(split_joined 58 p ps), <-(split_joined 58 p' ps'), <-Es, <-Es' by eauto. }
  destruct m as [bs], m' as [bs']. cbn in *. f_equal. clear Hl Hl' Es Es' Hnc. revert bs' Hf'.
  induction Hf as [|p v ps vs Hp _ IH]; intros bs' Hf'; inversion Hf' as [|? v' ? vs' Hp' Hf2]; subst; [done|]. f_equal; [|by apply IH].
  apply u8_from_str_radix_16_spec in Hp, Hp'. congruence.
Qed.

(** C25: with the capabilities granted, the thread pinned and the interface
    found, the arguments decide what is started. An address without a port or a
    port without an address exits; with both, an address that is not the dotted
    decimal notation of an IPv4 address is an error. Otherwise, with a
    destination or without, the relay is started with exactly that destination
    and no MAC address when none is given, with the MAC address that its text
    spells, and not at all when the text spells none; and every MAC address is
    spelled by the notation it is printed in. *)
Theorem relay_arguments_read_back iface dev cpu queue zc :
  forallb host_cap_raise relay_caps = true -> set_cpu_affinity [cpu] = Done (Ok tt) -> NetworkDevice_new iface = Ok dev ->
  let run text port mac := main (mkOpt iface text port mac zc queue cpu) in
  (forall s mac, run (Some s) None mac = Done ExitFailure) /\
  (forall p mac, run None (Some p) mac = Done ExitFailure) /\
  (forall s p mac, (forall a, ipv4_ok a -> s <> print_ipv4 a) -> run (Some s) (Some p) mac = Done MainErr) /\
  (forall text port ip, dest_text text port ip ->
     run text port None = Done (Relay cpu dev queue zc ip port None) /\
     (forall s m, mac_text s m -> run text port (Some s) = Done (Relay cpu dev queue zc ip port (Some m))) /\
     (forall s, (forall m, ~ mac_text s m) -> run text port (Some s) = Done ExitFailure)) /\
  (forall m, mac_ok m -> mac_text (print_mac m) m).
Proof.
  intros Hc Ha Hd run. unfold run. split; [intros; by rewrite (main_granted iface dev)|].
  split; [intros; by rewrite (main_granted iface dev)|]. split; [|split; [|apply print_mac_text]].
  - intros s p mac Hs. rewrite (main_granted iface dev) by done. cbn [parse_dest].
    destruct (parse_ipv4 s) as [a|] eqn:Ea; [|done]. apply parse_ipv4_spec in Ea as [Hok ->]. by destruct (Hs a Hok).
  - intros text port ip Ht. rewrite !(main_granted iface dev), (parse_dest_text _ _ _ Ht) by done. split; [done|]. split.
    + intros s m Hm. rewrite (main_granted iface dev), (parse_dest_text _ _ _ Ht) by done.
      destruct (parse_mac_text s m Hm) as (m' & -> & Hm'). by rewrite (mac_text_inj _ _ _ Hm Hm').
    + intros s Hs. rewrite (main_granted iface dev), (parse_dest_text _ _ _ Ht) by done.
      destruct (parse_mac_spec s) as ([m|] & -> & Ho); [by destruct (Hs m)|done].
Qed.
End command_line.

Definition main_host (caps : bool) : HostOs := {|
  host_setaffinity _ := 0; host_priority_min := 1; host_priority_max := 99; host_setscheduler _ := 0;
  host_cap_raise _ := caps; host_cap_drop _ := true; host_page_size := 4096; host_mmap _ _ := None;
  host_neighbors := mkNetlinkKernel 3 0 0 100 (fun _ => 20) []; host_routes := mkNetlinkKernel 3 0 0 100 (fun _ => 20) [];
|}.
Definition main_net : NetOs := {|
  os_if_nametoindex _ := 2; os_if_indextoname _ := None; os_dgram_socket := 3; os_ioctl _ r := (0, r); os_ethtool _ r := (0, r);
|}.

(** [--interface eth0 --dest-ip 10.0.0.7 --dest-port 8001 --dest-mac 0a:1b:2c:3d:4e:ff]. *)
Lemma relay_arguments_read_back_witness :
  @main (main_host true) main_net
    (mkOpt [101; 116; 104; 48] (Some [49; 48; 46; 48; 46; 48; 46; 55]) (Some 8001)
       (Some [48; 97; 58; 49; 98; 58; 50; 99; 58; 51; 100; 58; 52; 101; 58; 102; 102]) true 1 2)
  = Done (Relay 2 (mkNetworkDevice 2 [101; 116; 104; 48]) 1 true (Some (Ipv4 10 0 0 7)) (Some 8001) (Some (Mac [10; 27; 44; 61; 78; 255]))).
Proof.
  destruct (@relay_arguments_read_back (main_host true) main_net [101; 116; 104; 48] (mkNetworkDevice 2 [101; 116; 104; 48]) 2 1 true
    eq_refl eq_refl eq_refl) as (_ & _ & _ & Hrun & Hprint).
  apply Hrun.
  - exists (Ipv4 10 0 0 7). split; [by_decide|done].
  - apply (Hprint (Mac [10; 27; 44; 61; 78; 255])). by_decide.
Defined.

(** A plus sign before the digits of a byte is accepted, a seventh part is not. *)
Example mac_text_examples :
  parse_mac (joined 58 [[43; 97]; [48]; [48]; [48]; [48]; [49]]) = Done (Some (Mac [10; 0; 0; 0; 0; 1])) /\
  parse_mac (joined 58 (replicate 7 [48])) = Done None /\ parse_mac (joined 58 (replicate 6 [103])) = Done None.
Proof. by vm_compute. Qed.
