(* ===== verification/RawSocket.v ===== *)
(** * The packet socket ([src/src/raw_socket.rs])

    An [AF_PACKET] socket in promiscuous mode: its set-up, busy polling and
    reception, over the answers of the operating system. The file is not a
    module of the crate. *)

From S2P Require Import Prelude Words.

(** ** System calls *)

Definition AF_PACKET : Z := 17.
Definition PACKET_SOCK_RAW : Z := 3.
Definition ETH_P_ALL : Z := 3.
Definition PACKET_SOL_SOCKET : Z := 1.
Definition SO_RCVBUF : Z := 8.
Definition PACKET_ADD_MEMBERSHIP : Z := 1.
Definition PACKET_MR_PROMISC : Z := 1.
Definition RAW_SO_BUSY_POLL : Z := 46.
Definition RAW_SO_PREFER_BUSY_POLL : Z := 69.
Definition MSG_DONTWAIT : Z := 0x40.
Definition ENOPROTOOPT : Z := 92.

(** [u16::to_be] on a little-endian target. *)
Definition u16_to_be (x : Z) : Z := be_word (Z.land x 255) (Z.shiftr x 8).

Record sockaddr_ll := mkSockaddrLl {
  sll_family : Z; sll_protocol : Z; sll_ifindex : Z; sll_hatype : Z; sll_pkttype : Z; sll_halen : Z; sll_addr : list Z;
}.
Record packet_mreq := mkPacketMreq { mr_ifindex : Z; mr_type : Z; mr_alen : Z; mr_address : list Z }.

Inductive raw_call :=
  | RawSocketCall (domain type protocol : Z)
  | RawSetInt (fd level option value : Z)
  | RawBind (fd : Z) (addr : sockaddr_ll)
  | RawJoin (fd level option : Z) (mreq : packet_mreq)
  | RawRecv (fd len flags : Z).

(** What a call returns, the [errno] it leaves and the bytes it stores, given the
    calls made before it. *)
Record raw_answer := mkRawAnswer { ra_ret : Z; ra_errno : Z; ra_data : list Z }.
Class RawOs := raw_os : list raw_call -> raw_call -> raw_answer.

Record RawSocket := mkRawSocket { raw_fd : Z; raw_if_index : Z }.

Section raw_socket.
Context `{RawOs}.

(** A computation that makes calls: the calls made so far are threaded. *)
Definition raw (A : Type) : Type := list raw_call -> list raw_call * result A io_error.
Definition raw_ret {A} (a : A) : raw A := fun log => (log, Ok a).
Definition raw_bind {A B} (m : raw A) (k : A -> raw B) : raw B := fun log =>
  match m log with (log, Ok a) => k a log | (log, Err e) => (log, Err e) end.

(** Make a call; a negative result is [Error::last_os_error()]. *)
Definition raw_try (c : raw_call) : raw raw_answer := fun log =>
  let a := raw_os log c in
  (log ++ [c], if ra_ret a <? 0 then Err (RawOsError (ra_errno a)) else Ok a).

(** ** Operations *)

Definition bind_address (if_index : Z) : sockaddr_ll :=
  mkSockaddrLl AF_PACKET (u16_to_be ETH_P_ALL) (as_i32 if_index) 0 0 0 (replicate 8 0).
Definition promisc_request (if_index : Z) : packet_mreq := mkPacketMreq (as_i32 if_index) PACKET_MR_PROMISC 0 (replicate 8 0).

Definition RawSocket_new (if_index recv_buf_size : Z) : raw RawSocket :=
  raw_bind (raw_try (RawSocketCall AF_PACKET PACKET_SOCK_RAW (u16_to_be ETH_P_ALL))) (fun a =>
  let fd := ra_ret a in
  raw_bind (raw_try (RawSetInt fd PACKET_SOL_SOCKET SO_RCVBUF (as_i32 recv_buf_size))) (fun _ =>
  raw_bind (raw_try (RawBind fd (bind_address if_index))) (fun _ =>
  raw_bind (raw_try (RawJoin fd PACKET_SOL_SOCKET PACKET_ADD_MEMBERSHIP (promisc_request if_index))) (fun _ =>
  raw_ret (mkRawSocket fd if_index))))).

Definition set_busy_poll (s : RawSocket) (micros : Z) : raw unit :=
  raw_bind (raw_try (RawSetInt (raw_fd s) PACKET_SOL_SOCKET RAW_SO_BUSY_POLL (as_i32 micros))) (fun _ => raw_ret tt).

Definition set_prefer_busy_poll (s : RawSocket) (enable : bool) : raw unit := fun log =>
  match raw_try (RawSetInt (raw_fd s) PACKET_SOL_SOCKET RAW_SO_PREFER_BUSY_POLL (if enable then 1 else 0)) log with
  | (log, Ok _) => (log, Ok tt)
  | (log, Err (RawOsError e)) => if e =? ENOPROTOOPT then (log, Ok tt) else (log, Err (RawOsError e))
  | (log, Err e) => (log, Err e)
  end.

(** [recv]: the buffer afterwards and the number of bytes. *)
Definition raw_recv_flags (flags : Z) (s : RawSocket) (buf : list Z) : raw (list Z * Z) :=
  raw_bind (raw_try (RawRecv (raw_fd s) (len buf) flags)) (fun a =>
  raw_ret (ra_data a ++ drop (length (ra_data a)) buf, ra_ret a)).

Definition RawSocket_recv : RawSocket -> list Z -> raw (list Z * Z) := raw_recv_flags 0.
Definition RawSocket_recv_nonblock : RawSocket -> list Z -> raw (list Z * Z) := raw_recv_flags MSG_DONTWAIT.

(** ** What set-up does *)

(** The calls of a complete set-up. *)
Definition raw_setup_calls (fd if_index recv_buf_size : Z) : list raw_call :=
  [RawSocketCall AF_PACKET PACKET_SOCK_RAW (u16_to_be ETH_P_ALL);
   RawSetInt fd PACKET_SOL_SOCKET SO_RCVBUF (as_i32 recv_buf_size);
   RawBind fd (bind_address if_index);
   RawJoin fd PACKET_SOL_SOCKET PACKET_ADD_MEMBERSHIP (promisc_request if_index)].

(** A membership request that the kernel's packet layer sees is at level
    [SOL_PACKET]; at [SOL_SOCKET] the option number 1 is [SO_DEBUG]. *)
Definition SOL_PACKET : Z := 263.
Definition joins (c : raw_call) : bool :=
  match c with RawJoin _ level option _ => (level =? SOL_PACKET) && (option =? PACKET_ADD_MEMBERSHIP) | _ => false end.

(** Running calls in order, up to the first that fails. *)
Fixpoint run_raw (log cs : list raw_call) : list raw_call * option Z :=
  match cs with
  | [] => (log, None)
  | c :: cs => let a := raw_os log c in if ra_ret a <? 0 then (log ++ [c], Some (ra_errno a)) else run_raw (log ++ [c]) cs
  end.

(** [new] makes these calls in order, stops at the first that fails with its
    error, and otherwise returns the socket. *)
Lemma RawSocket_new_calls if_index recv_buf_size :
  let fd := ra_ret (raw_os [] (RawSocketCall AF_PACKET PACKET_SOCK_RAW (u16_to_be ETH_P_ALL))) in
  RawSocket_new if_index recv_buf_size [] =
    match run_raw [] (raw_setup_calls fd if_index recv_buf_size) with
    | (log, Some errno) => (log, Err (RawOsError errno))
    | (log, None) => (log, Ok (mkRawSocket fd if_index))
    end.
Proof.
  intros fd. unfold RawSocket_new, raw_setup_calls, raw_bind, raw_try, raw_ret. cbn [run_raw app].
  do 4 (destruct (_ <? 0); [done|]). done.
Qed.

(** Promiscuous mode is never requested. *)
Lemma raw_setup_never_joins fd if_index recv_buf_size : existsb joins (raw_setup_calls fd if_index recv_buf_size) = false.
Proof. done. Qed.

(** A kernel that stores what it says and no more than the buffer keeps the
    buffer's length, and the bytes received are at its front. *)
Lemma raw_recv_fills flags s buf log log' buf' n :
  let a := raw_os log (RawRecv (raw_fd s) (len buf) flags) in
  len (ra_data a) = ra_ret a -> ra_ret a <= len buf -> raw_recv_flags flags s buf log = (log', Ok (buf', n)) ->
  0 <= n <= len buf /\ len buf' = len buf /\ take (Z.to_nat n) buf' = ra_data a.
Proof.
  intros a Hd Hl. unfold raw_recv_flags, raw_bind, raw_try, raw_ret. fold a. destruct (Z.ltb_spec (ra_ret a) 0) as [|Hp]; [done|].
  intros [= <- <- <-]. split; [lia|]. split; [rewrite len_app, len_drop; unfold len in *; lia|].
  apply take_app_length'. unfold len in Hd. lia.
Qed.

(** A kernel without the option is not an error. *)
Lemma prefer_busy_poll_optional s (enable : bool) log :
  ra_errno (raw_os log (RawSetInt (raw_fd s) PACKET_SOL_SOCKET RAW_SO_PREFER_BUSY_POLL (if enable then 1 else 0))) = ENOPROTOOPT ->
  (set_prefer_busy_poll s enable log).2 = Ok tt.
Proof. intros He. unfold set_prefer_busy_poll, raw_try. rewrite He. by destruct (_ <? 0). Qed.
End raw_socket.

(** The receive buffer size is cast to a C [int]: 2 GiB becomes a negative size. *)
Example recv_buf_size_wraps : as_i32 (2 ^ 31) = - 2 ^ 31.
Proof. reflexivity. Qed.
